(** * Optimistic cache and synchronisation engine of the file picker

    A shallow embedding of the hooks under [src/hooks] (the data manager,
    the optimistic folder registry, knowledge-base creation, the delete
    queue and the status pollers), followed by the properties that the
    specification states about them.

    Conventions of the embedding.
    - The react-query cache, the component state of [useKBState], the
      browser storage and the toast sink are the fields of one record,
      [World]; every hook callback is a function on it.
    - [Date.now()] is the argument [now] of the callback that reads it.
    - A JavaScript string is a [string]; [string | null] and optional
      arguments are [option string]; truthiness is [truthy].
    - Objects used as dictionaries are [gmap]s, except the entries of the
      optimistic folder registry, whose iteration order the code relies
      on: they are an insertion-ordered association list. *)

From stdpp Require Import base strings list gmap pretty.
From Stdlib Require Import ZArith Ascii.

Open Scope string_scope.
Open Scope Z_scope.

(** ** JavaScript string operations used by the hooks *)

(** [s.startsWith(p)] *)
Fixpoint startsWith (s p : string) {struct p} : bool :=
  match p with
  | EmptyString => true
  | String c p' =>
      match s with
      | EmptyString => false
      | String d s' => Ascii.eqb c d && startsWith s' p'
      end
  end.

(** [s.includes(c)] for a one-character needle *)
Fixpoint includes (s : string) (c : ascii) : bool :=
  match s with
  | EmptyString => false
  | String d s' => Ascii.eqb d c || includes s' c
  end.

(** [s.split(sep)] for a one-character separator: never the empty array *)
Fixpoint split (sep : ascii) (s : string) : list string :=
  match s with
  | EmptyString => [EmptyString]
  | String c s' =>
      if Ascii.eqb c sep then EmptyString :: split sep s'
      else match split sep s' with
           | [] => [String c EmptyString]
           | part :: parts => String c part :: parts
           end
  end.

(** [parts.join(sep)] *)
Fixpoint join (sep : string) (parts : list string) : string :=
  match parts with
  | [] => EmptyString
  | [part] => part
  | part :: rest => part +:+ sep +:+ join sep rest
  end.

(** [parts.pop()] seen as the remaining array *)
Definition pop (parts : list string) : list string := removelast parts.

(** JavaScript truthiness of a [string | null | undefined] *)
Definition truthy (o : option string) : bool :=
  match o with
  | Some s => negb (String.eqb s EmptyString)
  | None => false
  end.

(** [a || b] on [string | null] *)
Definition or_else (a b : option string) : option string :=
  if truthy a then a else b.

(** [o ?? EmptyString]: the empty string for null or undefined *)
Definition orEmpty (o : option string) : string := default EmptyString o.

Definition slash : ascii := "/"%char.
Definition dot : ascii := "."%char.

(** ** Data model *)

Inductive FileType := file | directory.

Global Instance FileType_eq_dec : EqDecision FileType.
Proof. solve_decision. Defined.

(** Modelled from the spec: the FileRecord of the data model
    ([@/lib/types/file] is imported by every hook and is not part of the
    sources): id, path-qualified name, type, size and an optional status.
    The status is the string the backend sent; [indexed_at] is the field
    the optimistic records carry. *)
Module FileItem.
Record t := mk {
  id : string;
  name : string;
  type : FileType;
  size : Z;
  status : option string;
  indexed_at : option string;
}.
End FileItem.

Global Instance FileItem_eq_dec : EqDecision FileItem.t.
Proof. solve_decision. Defined.

(** Modelled from the spec: the KB handle [{id, name, created_at}] of the
    indexing service ([@/lib/types/knowledgeBase] is not part of the
    sources); [is_empty] is the field [useKBState] and [onMutate] add. *)
Module KnowledgeBase.
Record t := mk {
  id : string;
  name : string;
  created_at : string;
  is_empty : option bool;
}.
End KnowledgeBase.

(** [useDataManager/types.ts] *)
Inductive SyncState := idle | pending | synced.

Global Instance SyncState_eq_dec : EqDecision SyncState.
Proof. solve_decision. Defined.

Module DeleteRequest.
Record t := mk {
  id : string;
  fileId : string;
  fileName : string;
  resourcePath : string;
  kbId : string;
  timestamp : Z;
}.
End DeleteRequest.

Module SyncStateData.
Record t := mk {
  state : SyncState;
  kbId : option string;
  lastUpdated : Z;
}.
End SyncStateData.

Module DeleteQueueData.
Record t := mk {
  queue : list DeleteRequest.t;
  processing : bool;
  lastUpdated : Z;
}.
End DeleteQueueData.

Module OptimisticDeleteEntry.
Record t := mk {
  fileId : string;
  fileName : string;
  kbId : string;
  timestamp : Z;
  locked : bool;
}.
End OptimisticDeleteEntry.

Module OptimisticDeleteRegistryData.
Record t := mk {
  entries : gmap string OptimisticDeleteEntry.t;
  lastUpdated : Z;
}.
End OptimisticDeleteRegistryData.

(** [useOptimisticFolderRegistry.ts] *)
Module OptimisticFolderEntry.
Record t := mk {
  kbId : string;
  folderId : string;
  folderPath : string;
  createdAt : Z;
  rootFolderIds : list string;
}.
End OptimisticFolderEntry.

(** [entries: Record<string, OptimisticFolderEntry>], in the order
    [Object.values] enumerates it: insertion order, a key that is written
    again keeping its place. *)
Module OptimisticFolderRegistryData.
Record t := mk {
  entries : list (string * OptimisticFolderEntry.t);
  lastUpdated : Z;
}.
End OptimisticFolderRegistryData.

(** [{ folderPath, fileIds }] of [indexedFolders], with the [folderId]
    that [onMutate] also stores *)
Module FolderFiles.
Record t := mk {
  folderId : string;
  folderPath : string;
  fileIds : list string;
}.
End FolderFiles.

(** Modelled from the spec: the snapshot handed to the persistent store
    ([CacheStorageData] of [@/lib/utils/localStorage], not part of the
    sources): kbId, timestamp, rootResources, folderStatuses by path,
    both optimistic registries and a version. *)
Module CacheStorageData.
Record t := mk {
  kbId : string;
  timestamp : Z;
  rootResources : option (list FileItem.t);
  folderStatuses : gmap string (list FileItem.t);
  optimisticRegistry : gmap string OptimisticDeleteEntry.t;
  optimisticFolderRegistry : list (string * OptimisticFolderEntry.t);
  version : string;
}.
End CacheStorageData.

Inductive ToastKind := success | error | info.

Global Instance ToastKind_eq_dec : EqDecision ToastKind.
Proof. solve_decision. Defined.

(** A call of [toast.success|error|info] with its [toastId] *)
Module Toast.
Record t := mk {
  kind : ToastKind;
  toastId : string;
}.
End Toast.

Global Instance Toast_eq_dec : EqDecision Toast.t.
Proof. solve_decision. Defined.

(** ** The world the hooks act on *)

Record World := mkWorld {
  (* react-query cache *)
  syncStateData : SyncStateData.t;                       (* ["sync-state"] *)
  queueData : DeleteQueueData.t;                         (* ["delete-queue"] *)
  registryData : OptimisticDeleteRegistryData.t;         (* ["optimistic-delete-registry"] *)
  folderRegistryData : OptimisticFolderRegistryData.t;   (* ["optimistic-folder-registry"] *)
  kbResources : gmap string (list FileItem.t);           (* ["kb-resources", kbId] *)
  kbFileStatus : gmap (string * string) (list FileItem.t); (* ["kb-file-status", kbId, folderPath] *)
  driveFiles : gmap string (list FileItem.t);            (* ["drive-files", folderId] *)
  (* component state of useKBState *)
  currentKB : option KnowledgeBase.t;
  indexedFolders : list FolderFiles.t;
  (* browser storage *)
  cacheStorage : option CacheStorageData.t;
  kbStorage : option KnowledgeBase.t;
  (* toast sink, oldest first *)
  toasts : list Toast.t;
}.

Definition set_syncStateData (v : SyncStateData.t) (w : World) : World :=
  mkWorld v (queueData w) (registryData w) (folderRegistryData w)
    (kbResources w) (kbFileStatus w) (driveFiles w) (currentKB w)
    (indexedFolders w) (cacheStorage w) (kbStorage w) (toasts w).

Definition set_queueData (v : DeleteQueueData.t) (w : World) : World :=
  mkWorld (syncStateData w) v (registryData w) (folderRegistryData w)
    (kbResources w) (kbFileStatus w) (driveFiles w) (currentKB w)
    (indexedFolders w) (cacheStorage w) (kbStorage w) (toasts w).

Definition set_registryData (v : OptimisticDeleteRegistryData.t) (w : World) : World :=
  mkWorld (syncStateData w) (queueData w) v (folderRegistryData w)
    (kbResources w) (kbFileStatus w) (driveFiles w) (currentKB w)
    (indexedFolders w) (cacheStorage w) (kbStorage w) (toasts w).

Definition set_folderRegistryData (v : OptimisticFolderRegistryData.t) (w : World) : World :=
  mkWorld (syncStateData w) (queueData w) (registryData w) v
    (kbResources w) (kbFileStatus w) (driveFiles w) (currentKB w)
    (indexedFolders w) (cacheStorage w) (kbStorage w) (toasts w).

Definition set_kbResources (v : gmap string (list FileItem.t)) (w : World) : World :=
  mkWorld (syncStateData w) (queueData w) (registryData w) (folderRegistryData w)
    v (kbFileStatus w) (driveFiles w) (currentKB w)
    (indexedFolders w) (cacheStorage w) (kbStorage w) (toasts w).

Definition set_kbFileStatus (v : gmap (string * string) (list FileItem.t)) (w : World) : World :=
  mkWorld (syncStateData w) (queueData w) (registryData w) (folderRegistryData w)
    (kbResources w) v (driveFiles w) (currentKB w)
    (indexedFolders w) (cacheStorage w) (kbStorage w) (toasts w).

Definition set_driveFiles (v : gmap string (list FileItem.t)) (w : World) : World :=
  mkWorld (syncStateData w) (queueData w) (registryData w) (folderRegistryData w)
    (kbResources w) (kbFileStatus w) v (currentKB w)
    (indexedFolders w) (cacheStorage w) (kbStorage w) (toasts w).

Definition setCurrentKB (v : option KnowledgeBase.t) (w : World) : World :=
  mkWorld (syncStateData w) (queueData w) (registryData w) (folderRegistryData w)
    (kbResources w) (kbFileStatus w) (driveFiles w) v
    (indexedFolders w) (cacheStorage w) (kbStorage w) (toasts w).

Definition setIndexedFolders (v : list FolderFiles.t) (w : World) : World :=
  mkWorld (syncStateData w) (queueData w) (registryData w) (folderRegistryData w)
    (kbResources w) (kbFileStatus w) (driveFiles w) (currentKB w)
    v (cacheStorage w) (kbStorage w) (toasts w).

Definition set_cacheStorage (v : option CacheStorageData.t) (w : World) : World :=
  mkWorld (syncStateData w) (queueData w) (registryData w) (folderRegistryData w)
    (kbResources w) (kbFileStatus w) (driveFiles w) (currentKB w)
    (indexedFolders w) v (kbStorage w) (toasts w).

Definition set_kbStorage (v : option KnowledgeBase.t) (w : World) : World :=
  mkWorld (syncStateData w) (queueData w) (registryData w) (folderRegistryData w)
    (kbResources w) (kbFileStatus w) (driveFiles w) (currentKB w)
    (indexedFolders w) (cacheStorage w) v (toasts w).

(** [toast.kind(..., { toastId })] *)
Definition toast (k : ToastKind) (toastId : string) (w : World) : World :=
  mkWorld (syncStateData w) (queueData w) (registryData w) (folderRegistryData w)
    (kbResources w) (kbFileStatus w) (driveFiles w) (currentKB w)
    (indexedFolders w) (cacheStorage w) (kbStorage w)
    (toasts w ++ [Toast.mk k toastId]).

(** The world of a freshly loaded page: every [useQuery] of the data
    manager holds its [initialData], no resource is cached, nothing is in
    the browser storage. *)
Definition initialWorld (now : Z) : World :=
  mkWorld (SyncStateData.mk idle None now)
    (DeleteQueueData.mk [] false now)
    (OptimisticDeleteRegistryData.mk ∅ now)
    (OptimisticFolderRegistryData.mk [] now)
    ∅ ∅ ∅ None [] None None [].

(** ** Sync state ([useDataManager/syncState.ts]) *)

(** [updateSyncState(newState, kbId = null)]: the stored [kbId] is kept
    when the argument is falsy. *)
Definition updateSyncState (newState : SyncState) (kbId : option string)
    (now : Z) (w : World) : World :=
  let currentData := syncStateData w in
  set_syncStateData
    (SyncStateData.mk newState
       (or_else kbId (SyncStateData.kbId currentData)) now) w.

Definition setSyncPending (kbId : string) := updateSyncState pending (Some kbId).
Definition setSyncCompleted (kbId : string) := updateSyncState synced (Some kbId).
Definition resetSyncState := updateSyncState idle None.

Definition isSyncPending (w : World) : bool :=
  bool_decide (SyncStateData.state (syncStateData w) = pending).
Definition isSyncCompleted (w : World) : bool :=
  bool_decide (SyncStateData.state (syncStateData w) = synced).
Definition isSyncIdle (w : World) : bool :=
  bool_decide (SyncStateData.state (syncStateData w) = idle).

(** ** Delete queue ([useDataManager/deleteQueue.ts], [index.ts]) *)

Definition updateQueueData (updater : DeleteQueueData.t → DeleteQueueData.t)
    (w : World) : World :=
  set_queueData (updater (queueData w)) w.

Definition queue (w : World) : list DeleteRequest.t :=
  DeleteQueueData.queue (queueData w).
Definition queueProcessing (w : World) : bool :=
  DeleteQueueData.processing (queueData w).
Definition queueCount (w : World) : nat := length (queue w).
Definition queueHasItems (w : World) : bool :=
  bool_decide (0 < length (queue w))%nat.

(** The request that [queueDeleteRequest] builds *)
Definition newDeleteRequest (fileId fileName kbId : string) (now : Z)
    : DeleteRequest.t :=
  DeleteRequest.mk ("delete-" +:+ fileId +:+ "-" +:+ pretty now)
    fileId fileName ("/" +:+ fileName) kbId now.

Definition queueDeleteRequest (fileId fileName kbId : string) (now : Z)
    : World → World :=
  updateQueueData (λ prev,
    DeleteQueueData.mk
      (DeleteQueueData.queue prev ++ [newDeleteRequest fileId fileName kbId now])
      (DeleteQueueData.processing prev) now).

Definition removeFromQueue (requestId : string) (now : Z) : World → World :=
  updateQueueData (λ prev,
    DeleteQueueData.mk
      (List.filter (λ req, negb (String.eqb (DeleteRequest.id req) requestId))
         (DeleteQueueData.queue prev))
      (DeleteQueueData.processing prev) now).

Definition retarget (oldKbId newKbId : string) (request : DeleteRequest.t)
    : DeleteRequest.t :=
  if String.eqb (DeleteRequest.kbId request) oldKbId
  then DeleteRequest.mk (DeleteRequest.id request) (DeleteRequest.fileId request)
         (DeleteRequest.fileName request) (DeleteRequest.resourcePath request)
         newKbId (DeleteRequest.timestamp request)
  else request.

Definition updateQueueKBId (oldKbId newKbId : string) (now : Z) : World → World :=
  updateQueueData (λ prev,
    DeleteQueueData.mk
      (List.map (retarget oldKbId newKbId) (DeleteQueueData.queue prev))
      (DeleteQueueData.processing prev) now).

Definition setQueueProcessing (processing : bool) (now : Z) : World → World :=
  updateQueueData (λ prev,
    DeleteQueueData.mk (DeleteQueueData.queue prev) processing now).

Definition clearQueue (now : Z) : World → World :=
  updateQueueData (λ _, DeleteQueueData.mk [] false now).

(** ** Optimistic delete registry ([index.ts]) *)

Definition updateRegistryData
    (updater : OptimisticDeleteRegistryData.t → OptimisticDeleteRegistryData.t)
    (w : World) : World :=
  set_registryData (updater (registryData w)) w.

Definition optimisticDeleteEntries (w : World) : gmap string OptimisticDeleteEntry.t :=
  OptimisticDeleteRegistryData.entries (registryData w).

Definition markFileAsDeleted (fileId fileName kbId : string) (now : Z)
    : World → World :=
  updateRegistryData (λ prev,
    OptimisticDeleteRegistryData.mk
      (<[fileId := OptimisticDeleteEntry.mk fileId fileName kbId now true]>
         (OptimisticDeleteRegistryData.entries prev))
      now).

Definition removeFromRegistry (fileId : string) (now : Z) : World → World :=
  updateRegistryData (λ prev,
    OptimisticDeleteRegistryData.mk
      (delete fileId (OptimisticDeleteRegistryData.entries prev)) now).

Definition clearRegistry (now : Z) : World → World :=
  updateRegistryData (λ _, OptimisticDeleteRegistryData.mk ∅ now).

(** ** Cache persistence ([useDataManager/cachePersistence.ts]) *)

(** Modelled from the spec: [save], [load] and [clear] of the persistent
    snapshot store ([saveCacheToStorage], [getCacheFromStorage] and
    [clearCacheFromStorage] of [@/lib/utils/localStorage], not part of the
    sources): the store holds the last snapshot saved, or none. *)
Definition saveCacheToStorage (cacheData : CacheStorageData.t) : World → World :=
  set_cacheStorage (Some cacheData).
Definition getCacheFromStorage (w : World) : option CacheStorageData.t :=
  cacheStorage w.
Definition clearCacheFromStorage : World → World := set_cacheStorage None.

(** The folder-status caches of [kbId], by folder path: the loop over
    [queryCache.getAll()] that keeps the keys
    [["kb-file-status", kbId, folderPath]] holding data. *)
Definition folderStatusesOf (kbId : string)
    (m : gmap (string * string) (list FileItem.t)) : gmap string (list FileItem.t) :=
  default ∅ (map_curry (M1:=gmap string) (M2:=gmap string) m !! kbId).

Definition persistCacheToStorage (kbId : string) (now : Z) (w : World) : World :=
  let rootResources := kbResources w !! kbId in
  let folderStatuses := folderStatusesOf kbId (kbFileStatus w) in
  saveCacheToStorage
    (CacheStorageData.mk kbId now rootResources folderStatuses
       (OptimisticDeleteRegistryData.entries (registryData w))
       (OptimisticFolderRegistryData.entries (folderRegistryData w))
       "1.0") w.

(** [queryClient.setQueryData(["kb-file-status", kbId, folderPath], data)]
    for every entry of [folderStatuses] *)
Definition restoreFolderStatuses (kbId : string)
    (folderStatuses : gmap string (list FileItem.t))
    (m : gmap (string * string) (list FileItem.t))
    : gmap (string * string) (list FileItem.t) :=
  map_fold (λ folderPath folderData acc, <[(kbId, folderPath) := folderData]> acc)
    m folderStatuses.

(** The effect that runs on mount *)
Definition restoreCacheFromStorage (now : Z) (w : World) : World :=
  match getCacheFromStorage w with
  | None => w
  | Some storedCache =>
      let kbId := CacheStorageData.kbId storedCache in
      let w1 :=
        match CacheStorageData.rootResources storedCache with
        | Some rootResources =>
            set_kbResources (<[kbId := rootResources]> (kbResources w)) w
        | None => w
        end in
      let w2 :=
        set_kbFileStatus
          (restoreFolderStatuses kbId (CacheStorageData.folderStatuses storedCache)
             (kbFileStatus w1)) w1 in
      let w3 :=
        set_registryData
          (OptimisticDeleteRegistryData.mk
             (CacheStorageData.optimisticRegistry storedCache) now) w2 in
      set_folderRegistryData
        (OptimisticFolderRegistryData.mk
           (CacheStorageData.optimisticFolderRegistry storedCache) now) w3
  end.

(** ** Cache operations ([useDataManager/cacheOperations.ts])

    [incrementOptimisticUpdateCounter] only schedules a re-render and is
    not part of the world. *)

Definition updateKBResourcesCache (kbId : string)
    (updater : option (list FileItem.t) → list FileItem.t) (now : Z)
    (w : World) : World :=
  let currentData := kbResources w !! kbId in
  let newData := updater currentData in
  persistCacheToStorage kbId now
    (set_kbResources (<[kbId := newData]> (kbResources w)) w).

Definition removeFromKBResourcesCache (kbId : string) (fileIds : list string)
    : Z → World → World :=
  updateKBResourcesCache kbId (λ prev,
    match prev with
    | None => []
    | Some data =>
        List.filter (λ resource,
          negb (bool_decide (FileItem.id resource ∈ fileIds))) data
    end).

Definition updateFolderFileCache (folderId : string)
    (updater : option (list FileItem.t) → list FileItem.t) (w : World) : World :=
  set_driveFiles (<[folderId := updater (driveFiles w !! folderId)]> (driveFiles w)) w.

Definition updateFolderStatusCache (kbId folderPath : string)
    (updater : option (list FileItem.t) → list FileItem.t) (now : Z)
    (w : World) : World :=
  let currentData := kbFileStatus w !! (kbId, folderPath) in
  let newData := updater currentData in
  persistCacheToStorage kbId now
    (set_kbFileStatus (<[(kbId, folderPath) := newData]> (kbFileStatus w)) w).

Definition removeFromFolderStatusCache (kbId folderPath : string)
    (fileIds : list string) : Z → World → World :=
  updateFolderStatusCache kbId folderPath (λ prev,
    match prev with
    | None => []
    | Some data =>
        List.filter (λ resource,
          negb (bool_decide (FileItem.id resource ∈ fileIds))) data
    end).

(** [files.find(f => f.id === fileId)] *)
Definition findFile (files : list FileItem.t) (fileId : string) : option FileItem.t :=
  List.find (λ f, String.eqb (FileItem.id f) fileId) files.

Definition setFolderContentsAsIndexed (kbId folderPath : string)
    (fileIds : list string) (files : list FileItem.t) (nowIso : string)
    (now : Z) : World → World :=
  let optimisticFiles :=
    List.filter (λ f, bool_decide (FileItem.type f = file))
      (List.map (λ fileId,
         let f := findFile files fileId in
         FileItem.mk fileId
           (default EmptyString (FileItem.name <$> f))
           (default file (FileItem.type <$> f))
           (default 0 (FileItem.size <$> f))
           (Some "indexed") (Some nowIso)) fileIds) in
  updateFolderStatusCache kbId folderPath (λ _, optimisticFiles) now.

(** ** Folder helpers ([useDataManager/folderHelpers.ts]) *)

Definition getFolderPathFromFileName (fileName : string) : string :=
  let pathParts := split slash fileName in
  "/" +:+ join "/" (pop pathParts).

Definition getFolderContents (folderId : string) (w : World) : list FileItem.t :=
  default [] (driveFiles w !! folderId).

(** [getAllDescendantFileIds]: [processFiles] calls itself on the
    children of every directory, one path segment deeper each time, so
    the recursion is bounded by the longest name of [allFiles]; [fuel]
    counts the levels still allowed. *)
Fixpoint processFiles (fuel : nat) (allFiles files : list FileItem.t) : list string :=
  match fuel with
  | O => []
  | S fuel' =>
      List.flat_map (λ f,
        match FileItem.type f with
        | file => [FileItem.id f]
        | directory =>
            let childFiles :=
              List.filter (λ g,
                startsWith (FileItem.name g) (FileItem.name f +:+ "/") &&
                bool_decide (length (split slash (FileItem.name g))
                             = S (length (split slash (FileItem.name f)))))
                allFiles in
            processFiles fuel' allFiles childFiles
        end) files
  end.

Definition depthBound (allFiles files : list FileItem.t) : nat :=
  S (S (foldr (λ f acc, Nat.max (length (split slash (FileItem.name f))) acc) O
          (allFiles ++ files))).

Definition getAllDescendantFileIds (parentFiles allFiles : list FileItem.t)
    : list string :=
  processFiles (depthBound allFiles parentFiles) allFiles parentFiles.

(** ** Optimistic folder registry ([useOptimisticFolderRegistry.ts]) *)

(** [newEntries[entryKey] = entry] on an object enumerated in insertion
    order *)
Fixpoint setEntry (entryKey : string) (entry : OptimisticFolderEntry.t)
    (entries : list (string * OptimisticFolderEntry.t))
    : list (string * OptimisticFolderEntry.t) :=
  match entries with
  | [] => [(entryKey, entry)]
  | (k, e) :: rest =>
      if String.eqb k entryKey then (entryKey, entry) :: rest
      else (k, e) :: setEntry entryKey entry rest
  end.

(** [delete newEntries[entryKey]] *)
Definition deleteEntry (entryKey : string)
    (entries : list (string * OptimisticFolderEntry.t))
    : list (string * OptimisticFolderEntry.t) :=
  List.filter (λ ke, negb (String.eqb (fst ke) entryKey)) entries.

Definition updateFolderRegistryData
    (updater : OptimisticFolderRegistryData.t → OptimisticFolderRegistryData.t)
    (w : World) : World :=
  set_folderRegistryData (updater (folderRegistryData w)) w.

Definition optimisticFolderEntries (w : World)
    : list (string * OptimisticFolderEntry.t) :=
  OptimisticFolderRegistryData.entries (folderRegistryData w).

Definition getFolderPathFromName (name : string) : string :=
  let pathParts := split slash name in
  let pathParts :=
    if includes (List.last pathParts EmptyString) dot then pop pathParts
    else pathParts in
  "/" +:+ join "/" pathParts.

Definition entryKeyOf (kbId folderId : string) : string :=
  kbId +:+ "-" +:+ folderId.

(** One turn of the [forEach] of [markFoldersAsOptimisticallyIndexed] *)
Definition markFolder (kbId : string) (selectedFolderIds : list string)
    (folderNameMap : gmap string string) (timestamp : Z)
    (newEntries : list (string * OptimisticFolderEntry.t)) (folderId : string)
    : list (string * OptimisticFolderEntry.t) :=
  match folderNameMap !! folderId with
  | Some folderName =>
      if truthy (Some folderName) then
        setEntry (entryKeyOf kbId folderId)
          (OptimisticFolderEntry.mk kbId folderId
             (getFolderPathFromName folderName) timestamp selectedFolderIds)
          newEntries
      else newEntries
  | None => newEntries
  end.

Definition markFoldersAsOptimisticallyIndexed (kbId : string)
    (selectedFolderIds : list string) (folderNameMap : gmap string string)
    (now : Z) : World → World :=
  updateFolderRegistryData (λ prev,
    OptimisticFolderRegistryData.mk
      (fold_left (markFolder kbId selectedFolderIds folderNameMap now)
         selectedFolderIds (OptimisticFolderRegistryData.entries prev))
      now).

(** [targetFolderPath.startsWith('/') ? targetFolderPath : `/${targetFolderPath}`] *)
Definition normalizedTarget (targetFolderPath : string) : string :=
  if startsWith targetFolderPath "/" then targetFolderPath
  else "/" +:+ targetFolderPath.

(** The test both lookups apply to a registered path *)
Definition coversTarget (normalizedTarget registeredPath : string) : bool :=
  startsWith normalizedTarget (registeredPath +:+ "/")
  || String.eqb normalizedTarget registeredPath.

(** [Object.values(entries).filter(entry => entry.kbId === kbId)] *)
Definition kbEntries (kbId : string)
    (entries : list (string * OptimisticFolderEntry.t))
    : list OptimisticFolderEntry.t :=
  List.filter (λ entry, String.eqb (OptimisticFolderEntry.kbId entry) kbId)
    (List.map snd entries).

(** The [for] loop of [isDescendantOfOptimisticFolder], which returns at
    the first entry that covers the target *)
Fixpoint anyCovers (normalizedTarget : string)
    (entries : list OptimisticFolderEntry.t) : bool :=
  match entries with
  | [] => false
  | entry :: rest =>
      if coversTarget normalizedTarget (OptimisticFolderEntry.folderPath entry)
      then true
      else anyCovers normalizedTarget rest
  end.

Definition isDescendantOfOptimisticFolder (kbId targetFolderPath : string)
    (w : World) : bool :=
  if negb (truthy (Some kbId)) || negb (truthy (Some targetFolderPath)) then false
  else
    anyCovers (normalizedTarget targetFolderPath)
      (kbEntries kbId (optimisticFolderEntries w)).

(** One turn of the [for] loop of [getOptimisticAncestorFolder] on
    [(bestMatch, longestMatch)] *)
Definition closerAncestor (normalizedTarget : string)
    (acc : option OptimisticFolderEntry.t * nat) (entry : OptimisticFolderEntry.t)
    : option OptimisticFolderEntry.t * nat :=
  let registeredPath := OptimisticFolderEntry.folderPath entry in
  if coversTarget normalizedTarget registeredPath then
    if bool_decide (snd acc < String.length registeredPath)%nat
    then (Some entry, String.length registeredPath)
    else acc
  else acc.

Definition getOptimisticAncestorFolder (kbId targetFolderPath : string)
    (w : World) : option OptimisticFolderEntry.t :=
  if negb (truthy (Some kbId)) || negb (truthy (Some targetFolderPath)) then None
  else
    fst (fold_left (closerAncestor (normalizedTarget targetFolderPath))
           (kbEntries kbId (optimisticFolderEntries w)) (None, O)).

Definition isFolderOptimisticallyIndexed (kbId folderId : string) (w : World) : bool :=
  existsb (λ ke, String.eqb (fst ke) (entryKeyOf kbId folderId))
    (optimisticFolderEntries w).

Definition removeOptimisticFolder (kbId folderId : string) (now : Z)
    : World → World :=
  updateFolderRegistryData (λ prev,
    OptimisticFolderRegistryData.mk
      (deleteEntry (entryKeyOf kbId folderId)
         (OptimisticFolderRegistryData.entries prev)) now).

(** [clearOptimisticFoldersForKB]: every key whose entry belongs to
    [kbId] is deleted. *)
Definition clearOptimisticFoldersForKB (kbId : string) (now : Z)
    : World → World :=
  updateFolderRegistryData (λ prev,
    OptimisticFolderRegistryData.mk
      (List.filter
         (λ ke, negb (String.eqb (OptimisticFolderEntry.kbId (snd ke)) kbId))
         (OptimisticFolderRegistryData.entries prev)) now).

Definition clearOptimisticFolderRegistry (now : Z) : World → World :=
  updateFolderRegistryData (λ _, OptimisticFolderRegistryData.mk [] now).

Definition getOptimisticFoldersForKB (kbId : string) (w : World)
    : list OptimisticFolderEntry.t :=
  kbEntries kbId (optimisticFolderEntries w).

(** [clearAllState] of the data manager *)
Definition clearAllState (now : Z) (w : World) : World :=
  clearCacheFromStorage
    (updateRegistryData (λ _, OptimisticDeleteRegistryData.mk ∅ now)
       (updateQueueData (λ _, DeleteQueueData.mk [] false now)
          (updateSyncState idle None now w))).

(** ** Status resolver ([useDataManager/optimisticRegistry.ts]) *)

(** What [resolveFileStatus] returns: a status string (the dash for a
    deleted file), [undefined] (a cached record without status) or
    [null]. *)
Inductive StatusValue :=
  | Status (s : string)
  | Undefined
  | Null.

Global Instance StatusValue_eq_dec : EqDecision StatusValue.
Proof. solve_decision. Defined.

Definition Deleted : StatusValue := Status "-".
Definition Indexed : StatusValue := Status "indexed".
Definition Absent : StatusValue := Null.

(** [statusCacheRef.current]: the memo of the resolver *)
Abbreviation StatusCache := (gmap string StatusValue).

(** [`${fileId}|${kbId ?? ''}|${folderPath ?? ''}`] *)
Definition cacheKey (fileId : string) (kbId folderPath : option string) : string :=
  fileId +:+ "|" +:+ orEmpty kbId +:+ "|" +:+ orEmpty folderPath.

(** [resource.status === "pending" ? "indexed" : resource.status] *)
Definition displayStatus (resource : FileItem.t) : StatusValue :=
  match FileItem.status resource with
  | Some s => if String.eqb s "pending" then Status "indexed" else Status s
  | None => Undefined
  end.

(** Steps 1 to 5 of [resolveFileStatus], after a miss of the memo *)
Definition computeFileStatus (w : World) (fileId : string)
    (kbId folderPath : option string) : StatusValue :=
  if bool_decide (is_Some (optimisticDeleteEntries w !! fileId)) then Status "-"
  else
    let fromRoot :=
      if truthy kbId then
        kbResources w !! orEmpty kbId ≫= λ data, findFile data fileId
      else None in
    match fromRoot with
    | Some resource => displayStatus resource
    | None =>
        let fromFolder :=
          if truthy kbId && truthy folderPath then
            kbFileStatus w !! (orEmpty kbId, orEmpty folderPath)
              ≫= λ data, findFile data fileId
          else None in
        match fromFolder with
        | Some folderFile => displayStatus folderFile
        | None =>
            if truthy kbId && truthy folderPath
               && isDescendantOfOptimisticFolder (orEmpty kbId) (orEmpty folderPath) w
            then Status "indexed"
            else Null
        end
    end.

(** [resolveFileStatus]: the memoised value when the memo has the key,
    otherwise the computed value, which is also stored. *)
Definition resolveFileStatus (w : World) (statusCache : StatusCache)
    (fileId : string) (kbId folderPath : option string)
    : StatusValue * StatusCache :=
  let key := cacheKey fileId kbId folderPath in
  match statusCache !! key with
  | Some cached => (cached, statusCache)
  | None =>
      let status := computeFileStatus w fileId kbId folderPath in
      (status, <[key := status]> statusCache)
  end.

(** ** Knowledge-base creation ([useKnowledgeBaseOperations/kbCreation.ts]) *)

(** The value [onMutate] returns.  [folderFiles] is the array
    [cachedFolderFiles]: the background fetches started by [onMutate]
    push onto that same array, so a fetch that completes before the
    mutation settles is visible to [onSuccess]. *)
Module MutationContext.
Record t := mk {
  optimisticKB : KnowledgeBase.t;
  resourceIds : list string;
  previousKB : option KnowledgeBase.t;
  folderFiles : list FolderFiles.t;
  allFileIds : list string;
}.
End MutationContext.

(** The readings of the clock inside one callback *)
Module Clock.
Record t := mk {
  now : Z;               (* Date.now() *)
  isoString : string;    (* new Date().toISOString() *)
  localeString : string; (* new Date().toLocaleString() *)
}.
End Clock.

(** [resourceIds.filter(id => files.find(f => f.id === id)?.type === type)] *)
Definition selectedOfType (ty : FileType) (resourceIds : list string)
    (files : list FileItem.t) : list string :=
  List.filter (λ id,
    match findFile files id with
    | Some item => bool_decide (FileItem.type item = ty)
    | None => false
    end) resourceIds.

(** The optimistic record of a root file *)
Definition optimisticRootResource (files : list FileItem.t) (isoString : string)
    (fileId : string) : FileItem.t :=
  let f := findFile files fileId in
  FileItem.mk fileId
    (default EmptyString (FileItem.name <$> f))
    (default file (FileItem.type <$> f))
    (default 0 (FileItem.size <$> f))
    (Some "indexed") (Some isoString).

(** The optimistic record of a file inside a folder *)
Definition optimisticFolderResource (files : list FileItem.t) (isoString : string)
    (fileId : string) : FileItem.t :=
  let f := findFile files fileId in
  FileItem.mk fileId
    (default EmptyString (FileItem.name <$> f))
    file
    (default 0 (FileItem.size <$> f))
    (Some "indexed") (Some isoString).

(** The name map built before each call of
    [markFoldersAsOptimisticallyIndexed] *)
Definition folderNameMapOf (selectedFolderIds : list string)
    (files : list FileItem.t) : gmap string string :=
  fold_left (λ m folderId,
    match findFile files folderId with
    | Some folderItem => <[folderId := FileItem.name folderItem]> m
    | None => m
    end) selectedFolderIds ∅.

(** One turn of the loop of [onMutate] over the selected folders, on
    [(cachedFolderFiles, uncachedFolderIds, allCachedFileIds)] *)
Definition segregateFolder (w : World) (files : list FileItem.t)
    (acc : list FolderFiles.t * list string * list string) (folderId : string)
    : list FolderFiles.t * list string * list string :=
  let '(cachedFolderFiles, uncachedFolderIds, allCachedFileIds) := acc in
  match driveFiles w !! folderId with
  | Some (first :: rest) =>
      let folderPath := getFolderPathFromFileName (FileItem.name first) in
      let fileIds := getAllDescendantFileIds (first :: rest) files in
      if bool_decide (0 < length fileIds)%nat then
        ((cachedFolderFiles ++ [FolderFiles.mk folderId folderPath fileIds])%list,
         uncachedFolderIds, (allCachedFileIds ++ fileIds)%list)
      else acc
  | _ => (cachedFolderFiles, (uncachedFolderIds ++ [folderId])%list, allCachedFileIds)
  end.

(** [onMutate]: the optimistic phase.  The third component lists the
    folders whose contents are fetched in the background. *)
Definition onMutate (resourceIds : list string) (files : list FileItem.t)
    (clock : Clock.t) (w : World)
    : World * MutationContext.t * list string :=
  let now := Clock.now clock in
  let optimisticKB :=
    KnowledgeBase.mk ("temp-" +:+ pretty now)
      ("Knowledge Base " +:+ Clock.localeString clock)
      (Clock.isoString clock) (Some false) in
  let tempId := KnowledgeBase.id optimisticKB in
  let w := setCurrentKB (Some optimisticKB) w in
  let w := setSyncPending tempId now w in
  let selectedFolders := selectedOfType directory resourceIds files in
  let selectedFiles := selectedOfType file resourceIds files in
  let '(cachedFolderFiles, uncachedFolderIds, allCachedFileIds) :=
    fold_left (segregateFolder w files) selectedFolders ([], [], selectedFiles) in
  let w := setIndexedFolders cachedFolderFiles w in
  let immediateOptimisticKBResources :=
    List.map (optimisticRootResource files (Clock.isoString clock)) selectedFiles in
  let w := updateKBResourcesCache tempId (λ _, immediateOptimisticKBResources) now w in
  let selectedFolderIds := selectedOfType directory resourceIds files in
  let w :=
    if bool_decide (0 < length selectedFolderIds)%nat then
      markFoldersAsOptimisticallyIndexed tempId selectedFolderIds
        (folderNameMapOf selectedFolderIds files) now w
    else w in
  let w :=
    fold_left (λ w ff,
      updateFolderStatusCache tempId (FolderFiles.folderPath ff)
        (λ _, List.map (optimisticFolderResource files (Clock.isoString clock))
                (FolderFiles.fileIds ff)) now w)
      cachedFolderFiles w in
  (w, MutationContext.mk optimisticKB resourceIds None cachedFolderFiles allCachedFileIds,
   uncachedFolderIds).

(** [context.folderFiles.push(...)]: the push of a background fetch *)
Definition pushFolderFiles (ff : FolderFiles.t) (context : MutationContext.t)
    : MutationContext.t :=
  MutationContext.mk (MutationContext.optimisticKB context)
    (MutationContext.resourceIds context) (MutationContext.previousKB context)
    (MutationContext.folderFiles context ++ [ff])
    (MutationContext.allFileIds context).

(** One background fetch of [onMutate] running to its end.  [response]
    is what [listResources(folderId)] gave ([None]: it rejected);
    [fetchQuery] also stores it under [["drive-files", folderId]]. *)
Definition backgroundFetchSettled (folderId : string) (files : list FileItem.t)
    (response : option (list FileItem.t)) (clock : Clock.t)
    (wc : World * MutationContext.t) : World * MutationContext.t :=
  let '(w, context) := wc in
  match findFile files folderId with
  | None => (w, context)
  | Some _ =>
      match response with
      | None => (w, context)
      | Some folderContents =>
          let w := set_driveFiles (<[folderId := folderContents]> (driveFiles w)) w in
          match folderContents with
          | [] => (w, context)
          | first :: _ =>
              let folderPath := getFolderPathFromFileName (FileItem.name first) in
              let fileIds := getAllDescendantFileIds folderContents files in
              if bool_decide (0 < length fileIds)%nat then
                let tempId := KnowledgeBase.id (MutationContext.optimisticKB context) in
                (updateFolderStatusCache tempId folderPath
                   (λ _, List.map (optimisticFolderResource files (Clock.isoString clock))
                           fileIds) (Clock.now clock) w,
                 pushFolderFiles (FolderFiles.mk folderId folderPath fileIds) context)
              else (w, context)
          end
      end
  end.

(** Modelled from the spec: the browser keeps the real KB handle
    ([saveKBToStorage] of [@/lib/utils/localStorage], not part of the
    sources). *)
Definition saveKBToStorage (id name created_at : string) : World → World :=
  set_kbStorage (Some (KnowledgeBase.mk id name created_at None)).

(** [queryClient.removeQueries] of the root cache of [kbId] and of every
    [["kb-file-status", kbId, _]] *)
Definition removeOptimisticCaches (kbId : string) (w : World) : World :=
  let w := set_kbResources (delete kbId (kbResources w)) w in
  set_kbFileStatus
    (filter (λ kv, fst (fst kv) ≠ kbId) (kbFileStatus w)) w.

(** The transfer of one folder-status cache from the temporary id *)
Definition transferFolderStatus (tempId realId : string)
    (m : gmap (string * string) (list FileItem.t)) (ff : FolderFiles.t)
    : gmap (string * string) (list FileItem.t) :=
  match m !! (tempId, FolderFiles.folderPath ff) with
  | Some optimisticFolderData =>
      <[(realId, FolderFiles.folderPath ff) := optimisticFolderData]> m
  | None => m
  end.

(** [onSuccess({ kb, resourceIds }, variables, context)]; [resourceIds]
    are the deduplicated ids that the mutation returned. *)
Definition onSuccess (kb : KnowledgeBase.t) (resourceIds : list string)
    (files : list FileItem.t) (context : option MutationContext.t)
    (now : Z) (w : World) : World :=
  let realId := KnowledgeBase.id kb in
  let w := setSyncCompleted realId now w in
  let w :=
    match context with
    | Some c => updateQueueKBId (KnowledgeBase.id (MutationContext.optimisticKB c)) realId now w
    | None => w
    end in
  let w := setCurrentKB (Some kb) w in
  let w := saveKBToStorage realId (KnowledgeBase.name kb) (KnowledgeBase.created_at kb) w in
  let w :=
    match context with
    | Some c =>
        let tempId := KnowledgeBase.id (MutationContext.optimisticKB c) in
        let w :=
          match kbResources w !! tempId with
          | Some optimisticRootData =>
              set_kbResources (<[realId := optimisticRootData]> (kbResources w)) w
          | None => w
          end in
        let selectedFolderIds := selectedOfType directory resourceIds files in
        let w :=
          if bool_decide (0 < length selectedFolderIds)%nat then
            markFoldersAsOptimisticallyIndexed realId selectedFolderIds
              (folderNameMapOf selectedFolderIds files) now
              (clearOptimisticFoldersForKB tempId now w)
          else w in
        let w :=
          set_kbFileStatus
            (fold_left (transferFolderStatus tempId realId)
               (MutationContext.folderFiles c) (kbFileStatus w)) w in
        removeOptimisticCaches tempId w
    | None => w
    end in
  let w :=
    match context with
    | Some c => setIndexedFolders (MutationContext.folderFiles c) w
    | None => w
    end in
  toast success "kb-creation-success" w.

(** [onError(error, variables, context)] *)
Definition onError (context : option MutationContext.t) (now : Z) (w : World)
    : World :=
  let w :=
    match context with
    | Some c =>
        let w := setCurrentKB (MutationContext.previousKB c) w in
        let w := setIndexedFolders [] w in
        setSyncCompleted EmptyString now w
    | None => w
    end in
  let w :=
    match context with
    | Some c =>
        removeOptimisticCaches (KnowledgeBase.id (MutationContext.optimisticKB c)) w
    | None => w
    end in
  toast error "kb-creation-error" w.

(** How [mutationFn] ended: [createKnowledgeBase] and [syncKnowledgeBase]
    both resolved, with the KB and the deduplicated ids, or one of them
    rejected. *)
Inductive MutationResult :=
  | Resolved (kb : KnowledgeBase.t) (resourceIds : list string)
  | Rejected.

Definition createKBSettled (result : MutationResult) (files : list FileItem.t)
    (context : option MutationContext.t) (now : Z) (w : World) : World :=
  match result with
  | Resolved kb resourceIds => onSuccess kb resourceIds files context now w
  | Rejected => onError context now w
  end.

(** ** Folder expansion ([useFileTree/folderOperations.ts]) *)

Definition getFolderPath (files : list FileItem.t) : string :=
  match files with
  | [] => EmptyString
  | firstFile :: _ =>
      "/" +:+ join "/" (pop (split slash (FileItem.name firstFile)))
  end.

(** The optimistic update of [toggleFolder] once the contents
    [driveFiles] of the expanded folder have arrived: when the resolver
    shows the folder as indexed, its files are written to the
    folder-status cache of the current KB. *)
Definition expandFolderOptimistically (kbId : option string)
    (folderContents : list FileItem.t) (isoString : string)
    (ws : World * StatusCache) : World * StatusCache :=
  let '(w, statusCache) := ws in
  if truthy kbId && bool_decide (0 < length folderContents)%nat then
    let folderPath := getFolderPath folderContents in
    let '(resolved, statusCache) :=
      resolveFileStatus w statusCache EmptyString kbId (Some folderPath) in
    if bool_decide (resolved = Status "indexed") then
      let optimisticFiles :=
        List.map (λ f,
          FileItem.mk (FileItem.id f) (FileItem.name f) (FileItem.type f)
            (FileItem.size f) (Some "indexed") (Some isoString))
          (List.filter (λ f, bool_decide (FileItem.type f = file)) folderContents) in
      (set_kbFileStatus
         (<[(orEmpty kbId, folderPath) := optimisticFiles]> (kbFileStatus w)) w,
       statusCache)
    else (w, statusCache)
  else (w, statusCache).

(** ** File deletion ([useKnowledgeBaseOperations/fileDeletion.ts]) *)

(** [currentKB?.id], truthy *)
Definition currentKBId (w : World) : option string :=
  match currentKB w with
  | Some kb => if truthy (Some (KnowledgeBase.id kb)) then Some (KnowledgeBase.id kb) else None
  | None => None
  end.

(** [deleteSelectedFiles(selectedIds, files)].  The second component is
    the argument of [deleteFilesMutation.mutate] when the deletion is
    executed at once instead of being queued. *)
Definition deleteSelectedFiles (selectedIds : list string)
    (files : list FileItem.t) (now : Z) (w : World)
    : World * option (list string) :=
  match currentKBId w with
  | None => (w, None)
  | Some kbId =>
      let w0 := w in
      let w :=
        fold_left (λ w fileId,
          match findFile files fileId with
          | Some f => markFileAsDeleted fileId (FileItem.name f) kbId now w
          | None => w
          end) selectedIds w in
      let w :=
        match kbResources w !! kbId with
        | Some data =>
            set_kbResources
              (<[kbId :=
                   List.filter (λ resource,
                     negb (bool_decide (FileItem.id resource ∈ selectedIds))) data]>
                 (kbResources w)) w
        | None => w
        end in
      if isSyncPending w0 then
        let w :=
          fold_left (λ w fileId,
            match findFile files fileId with
            | Some f => queueDeleteRequest fileId (FileItem.name f) kbId now w
            | None => w
            end) selectedIds w in
        (toast info "files-queued-for-deletion" w, None)
      else (w, Some selectedIds)
  end.

(** [deleteFilesMutation] settling: [ok] tells whether every
    [deleteKBResource] of the batch resolved. *)
Definition deleteFilesSettled (ok : bool) (now : Z) (w : World) : World :=
  if ok then
    let w :=
      match currentKBId w with
      | Some kbId => persistCacheToStorage kbId now w
      | None => w
      end in
    toast success "file-deletion-success" w
  else toast error "file-deletion-error" w.

(** What the indexing service sees of a drain *)
Inductive DrainEvent :=
  | Invoked (request : DeleteRequest.t)            (* deleteKBResource called *)
  | Settled (request : DeleteRequest.t) (ok : bool). (* its promise resolved or rejected *)

(** ** The drain of the delete queue ([processQueue])

    [processQueue] is asynchronous: between its call of the service and
    the answer, and during its pause between two deletions, the page
    goes on, and the effect may call [processQueue] again.  The calls
    that are under way are kept next to the world, each with the array
    it captured. *)
Module Drain.

Inductive Stage := AwaitingCall | AwaitingPause.

(** A call of [processQueue] that is suspended: what is left of the
    array [queue] it captured, from the request in flight or the next
    one on; [queue.length]; and what it awaits. *)
Record Call := mkCall {
  remaining : list DeleteRequest.t;
  queueLength : nat;
  stage : Stage;
}.

Record Machine := mkMachine {
  world : World;
  calls : list Call;
  trace : list DrainEvent;
}.

Definition idle (w : World) : Machine := mkMachine w [] [].

(** The [for] loop at the request that comes next: it calls the service
    and awaits the answer; past the last request it raises the toast and
    the [finally] clears the flag. *)
Definition nextRequest (rest : list DeleteRequest.t) (queueLength : nat) (now : Z)
    (w : World) : World * option Call * list DrainEvent :=
  match rest with
  | [] =>
      (setQueueProcessing false now (toast success "queue-processing-success" w),
       None, [])
  | request :: _ => (w, Some (mkCall rest queueLength AwaitingCall), [Invoked request])
  end.

(** The call [i] goes on as [call], or is over. *)
Definition resume (i : nat) (call : option Call) (calls : list Call) : list Call :=
  match call with
  | Some c => <[i := c]> calls
  | None => delete i calls
  end.

(** [processQueue()] up to its first [await].  The props it reads,
    [currentKB], [queueProcessing], [queueHasItems] and [queue], are
    those of the render whose effect makes the call, which shows the
    world as it is. *)
Definition processQueue (now : Z) (m : Machine) : Machine :=
  let w := world m in
  if negb (bool_decide (is_Some (currentKBId w))) || queueProcessing w
     || negb (queueHasItems w)
  then m
  else
    let captured := queue w in
    let w := setQueueProcessing true now w in
    let '(w, call, events) := nextRequest captured (length captured) now w in
    mkMachine w (calls m ++ option_list call) (trace m ++ events).

(** The effect that starts the drain when the sync completes *)
Definition processQueueWhenSynced (now : Z) (m : Machine) : Machine :=
  let w := world m in
  if isSyncCompleted w && queueHasItems w && negb (queueProcessing w)
  then processQueue now m
  else m.

(** [deleteKBResource] of the call [i] resolves ([ok]) or rejects: the
    request leaves the queue either way; after a resolved call the loop
    pauses when the captured array had more than one request. *)
Definition callSettled (i : nat) (ok : bool) (now : Z) (m : Machine) : Machine :=
  match calls m !! i with
  | Some (mkCall (request :: rest) queueLength AwaitingCall) =>
      let w := removeFromQueue (DeleteRequest.id request) now (world m) in
      let events := (trace m ++ [Settled request ok])%list in
      if ok && bool_decide (1 < queueLength)%nat then
        mkMachine w (<[i := mkCall rest queueLength AwaitingPause]> (calls m)) events
      else
        let '(w, call, invoked) := nextRequest rest queueLength now w in
        mkMachine w (resume i call (calls m)) (events ++ invoked)
  | _ => m
  end.

(** The pause of the call [i] is over. *)
Definition pauseOver (i : nat) (now : Z) (m : Machine) : Machine :=
  match calls m !! i with
  | Some (mkCall rest queueLength AwaitingPause) =>
      let '(w, call, invoked) := nextRequest rest queueLength now (world m) in
      mkMachine w (resume i call (calls m)) (trace m ++ invoked)
  | _ => m
  end.

(** What happens on the page while the queue is drained *)
Inductive Event :=
  | Called (now : Z)                              (* processQueue() *)
  | EffectRun (now : Z)                           (* the effect on the sync state *)
  | CallSettled (i : nat) (ok : bool) (now : Z)
  | PauseOver (i : nat) (now : Z)
  | Enqueued (fileId fileName kbId : string) (now : Z)   (* queueDeleteRequest *)
  | KBIdUpdated (oldKbId newKbId : string) (now : Z)     (* updateQueueKBId *)
  | Callback (task : World → World).              (* a callback of another hook *)

Definition run (m : Machine) (ev : Event) : Machine :=
  match ev with
  | Called now => processQueue now m
  | EffectRun now => processQueueWhenSynced now m
  | CallSettled i ok now => callSettled i ok now m
  | PauseOver i now => pauseOver i now m
  | Enqueued fileId fileName kbId now =>
      mkMachine (queueDeleteRequest fileId fileName kbId now (world m)) (calls m)
        (trace m)
  | KBIdUpdated oldKbId newKbId now =>
      mkMachine (updateQueueKBId oldKbId newKbId now (world m)) (calls m) (trace m)
  | Callback task => mkMachine (task (world m)) (calls m) (trace m)
  end.

Definition runAll (events : list Event) (m : Machine) : Machine :=
  fold_left run events m.

End Drain.

(** ** Status polling ([useKnowledgeBaseStatus]) *)

Definition POLL_INTERVAL : Z := 1000.
Definition MAX_POLL_DURATION : Z := 2 * 60 * 1000.

(** The React state of [usePollingState] and [useFolderPolling] *)
Record PollingState := mkPollingState {
  shouldPoll : bool;
  pollingStartTime : Z;
  hasShownErrorToast : bool;
  folderPollingStatus : gmap string bool;
}.

(** The state when the hook mounts at [now] *)
Definition initialPollingState (now : Z) : PollingState :=
  mkPollingState true now false ∅.

Definition setShouldPoll (v : bool) (p : PollingState) : PollingState :=
  mkPollingState v (pollingStartTime p) (hasShownErrorToast p) (folderPollingStatus p).

Definition setHasShownErrorToast (v : bool) (p : PollingState) : PollingState :=
  mkPollingState (shouldPoll p) (pollingStartTime p) v (folderPollingStatus p).

Definition setFolderPollingStatus (v : gmap string bool) (p : PollingState)
    : PollingState :=
  mkPollingState (shouldPoll p) (pollingStartTime p) (hasShownErrorToast p) v.

(** [pollingState.ts] *)

Definition isTemporaryKB (kbId : option string) : bool :=
  match kbId with
  | Some k => startsWith k "temp-"
  | None => false
  end.

Definition shouldEnablePolling (enabled : bool) (kbId : option string)
    (p : PollingState) : bool :=
  enabled && truthy kbId && negb (isTemporaryKB kbId) && shouldPoll p.

(** The effects on [kbId] of [usePollingState] and [useFolderPolling] *)
Definition kbChanged (kbId : option string) (p : PollingState) : PollingState :=
  if truthy kbId then
    setFolderPollingStatus ∅ (setHasShownErrorToast false (setShouldPoll true p))
  else p.

Definition checkPollingTimeout (now : Z) (p : PollingState) : bool * PollingState :=
  let pollingDuration := now - pollingStartTime p in
  if bool_decide (MAX_POLL_DURATION < pollingDuration)
  then (true, setShouldPoll false p)
  else (false, p).

Definition stopPolling (p : PollingState) : PollingState := setShouldPoll false p.

Definition resetErrorToast (p : PollingState) : PollingState :=
  setHasShownErrorToast false p.

(** [statusFiltering.ts] *)

(** Modelled from the spec: the polled listing without the records that
    are present in the optimistic delete registry
    ([filterPollingResponse] of [useOptimisticDeleteRegistry], not part of
    the sources). *)
Definition filterPollingResponse (w : World) (data : list FileItem.t)
    : list FileItem.t :=
  List.filter (λ resource,
    negb (bool_decide (is_Some (optimisticDeleteEntries w !! FileItem.id resource))))
    data.

Definition filteredKbResources (w : World) (kbResourcesData : option (list FileItem.t))
    : option (list FileItem.t) :=
  filterPollingResponse w <$> kbResourcesData.

Definition hasStatus (s : string) (f : FileItem.t) : bool :=
  bool_decide (FileItem.status f = Some s).

Definition onlyFiles (data : list FileItem.t) : list FileItem.t :=
  List.filter (λ item, bool_decide (FileItem.type item = file)) data.

(** [Array.from(folderPollingStatus.values())] *)
Definition folderPollingValues (p : PollingState) : list bool :=
  snd <$> map_to_list (folderPollingStatus p).

Definition isFolderPollingActive (p : PollingState) : bool :=
  existsb (λ isActive, isActive) (folderPollingValues p).

Definition allFilesSettled (filtered : option (list FileItem.t)) (p : PollingState)
    : bool :=
  match filtered with
  | None => false
  | Some data =>
      let files := onlyFiles data in
      if bool_decide (length files = 0%nat) then true
      else
        let rootFilesSettled :=
          forallb (λ f, hasStatus "indexed" f || hasStatus "error" f) files in
        let folderPollingComplete :=
          forallb (λ isActive, negb isActive) (folderPollingValues p) in
        rootFilesSettled && folderPollingComplete
  end.

(** [checkUnsettledFiles]: the memo that also raises the error toast of
    the root listing.  The result is [hasUnsettledFiles]. *)
Definition checkUnsettledFiles (filtered : option (list FileItem.t))
    (pw : PollingState * World) : bool * (PollingState * World) :=
  let '(p, w) := pw in
  match filtered with
  | None => (false, (p, w))
  | Some data =>
      let files := onlyFiles data in
      let pendingFiles := List.filter (hasStatus "pending") files in
      let pendingDeleteFiles := List.filter (hasStatus "pending_delete") files in
      let errorFiles := List.filter (hasStatus "error") files in
      let pw :=
        if bool_decide (0 < length errorFiles)%nat && negb (hasShownErrorToast p)
        then (setHasShownErrorToast true p, toast error "kb-error-toast" w)
        else (p, w) in
      (bool_decide (0 < length pendingFiles)%nat
       || bool_decide (0 < length pendingDeleteFiles)%nat, pw)
  end.

(** [index.ts]: the effect that decides whether polling continues *)
Definition decidePolling (enabled : bool) (kbId : option string)
    (filtered : option (list FileItem.t)) (hasUnsettledFiles : bool) (now : Z)
    (p : PollingState) : PollingState :=
  if negb enabled || negb (truthy kbId) then p
  else
    match filtered with
    | None => p
    | Some resources =>
        let '(timedOut, p) := checkPollingTimeout now p in
        if timedOut then p
        else if bool_decide (length resources = 0%nat) then stopPolling p
        else
          let files := onlyFiles resources in
          if bool_decide (length files = 0%nat) then stopPolling p
          else if negb hasUnsettledFiles && negb (isFolderPollingActive p)
          then stopPolling p
          else p
    end.

(** A render of [useKnowledgeBaseStatus] over the listing that the root
    query holds, followed by its effect *)
Definition renderStatus (enabled : bool) (kbId : option string) (now : Z)
    (pw : PollingState * World) : PollingState * World :=
  let kbResourcesData := kbId ≫= λ k, kbResources (snd pw) !! k in
  let filtered := filteredKbResources (snd pw) kbResourcesData in
  let '(hasUnsettledFiles, (p, w)) := checkUnsettledFiles filtered pw in
  (decidePolling enabled kbId filtered hasUnsettledFiles now p, w).

(** A refetch of the root query.  It is issued only while polling is
    enabled.  [response] is the listing that [listKBResources] resolved
    with ([None]: it rejected, and the query keeps the listing it had).
    The query client hands out the same [data] when the new listing
    equals the one it holds, so then no dependency of the memos and of
    the deciding effect has changed and neither runs again; any other
    listing replaces the root cache of the KB and the hook renders over
    it. *)
Definition rootRefetched (enabled : bool) (kbId : option string)
    (response : option (list FileItem.t)) (now : Z) (pw : PollingState * World)
    : PollingState * World :=
  let '(p, w) := pw in
  if shouldEnablePolling enabled kbId p then
    match response with
    | None => pw
    | Some listing =>
        if bool_decide (kbResources w !! orEmpty kbId = Some listing) then pw
        else
          renderStatus enabled kbId now
            (p, set_kbResources (<[orEmpty kbId := listing]> (kbResources w)) w)
    end
  else pw.

(** [folderPolling.ts] *)

(** [folderFiles.find(f => f.id === fileId)] has the status [s] *)
Definition expectedHasStatus (folderFiles : list FileItem.t) (s : string)
    (fileId : string) : bool :=
  match findFile folderFiles fileId with
  | Some f => hasStatus s f
  | None => false
  end.

(** [pollFolderStatus(folderPath, expectedFileIds)] up to its
    rescheduling.  [enabledInClosure] and [shownInClosure] are the values
    of [shouldEnablePolling] and [hasShownErrorToast] that the callback
    closed over; [response] is the listing of [listKBResourcesSafe]
    ([None]: the call threw).  The boolean tells whether the poll
    scheduled itself again. *)
Definition pollFolderStatus (kbId : option string)
    (enabledInClosure shownInClosure : bool)
    (folderPath : string) (expectedFileIds : list string)
    (response : option (list FileItem.t)) (pw : PollingState * World)
    : bool * (PollingState * World) :=
  let '(p, w) := pw in
  if negb (truthy kbId) || negb enabledInClosure then (false, pw)
  else
    match response with
    | None =>
        (false,
         (setFolderPollingStatus (<[folderPath := false]> (folderPollingStatus p)) p, w))
    | Some folderFiles =>
        let w :=
          set_kbFileStatus
            (<[(orEmpty kbId, folderPath) := folderFiles]> (kbFileStatus w)) w in
        let hasPending :=
          existsb (expectedHasStatus folderFiles "pending") expectedFileIds in
        let hasErrors :=
          existsb (λ fileId,
            expectedHasStatus folderFiles "error" fileId
            || expectedHasStatus folderFiles "failed" fileId) expectedFileIds in
        let '(p, w) :=
          if hasErrors && negb shownInClosure then
            let failedFiles :=
              List.filter (λ fileId,
                expectedHasStatus folderFiles "error" fileId
                || expectedHasStatus folderFiles "failed" fileId) expectedFileIds in
            if bool_decide (0 < length failedFiles)%nat then
              (setHasShownErrorToast true p,
               toast error ("folder-error-" +:+ folderPath) w)
            else (p, w)
          else (p, w) in
        if hasPending then (true, (p, w))
        else
          (false,
           (setFolderPollingStatus (<[folderPath := false]> (folderPollingStatus p)) p, w))
    end.

(** The effect that starts a poll for every indexed folder *)
Definition startFolderPolling (enabled : bool) (kbId : option string)
    (folders : list FolderFiles.t) (p : PollingState) : PollingState :=
  if negb (shouldEnablePolling enabled kbId p) || negb (truthy kbId)
     || bool_decide (length folders = 0%nat)
  then p
  else
    setFolderPollingStatus
      (fold_left (λ m ff,
         if bool_decide (0 < length (FolderFiles.fileIds ff))%nat
         then <[FolderFiles.folderPath ff := true]> m else m) folders ∅) p.

(** ** Runs of the pollers *)

(** A folder poll that is under way: the path and the file ids it was
    started with, and the value of [hasShownErrorToast] in the render
    whose [pollFolderStatus] the start effect handed to its timer.  The
    poll calls that same callback again at every turn, so it reads that
    value at every turn.  The effect starts polls only in a render in
    which [shouldEnablePolling] holds, so that is the value the callback
    closed over. *)
Record FolderPoll := mkFolderPoll {
  polledPath : string;
  polledFileIds : list string;
  shownThen : bool;
}.

Global Instance FolderPoll_eq_dec : EqDecision FolderPoll.
Proof. solve_decision. Defined.

(** The hook with the folder polls it has under way *)
Record Pollers := mkPollers {
  hookState : PollingState;
  hookWorld : World;
  underWay : list FolderPoll;
}.

(** The first occurrence of the poll leaves the list. *)
Fixpoint pollOver (poll : FolderPoll) (polls : list FolderPoll) : list FolderPoll :=
  match polls with
  | [] => []
  | other :: rest =>
      if bool_decide (other = poll) then rest else other :: pollOver poll rest
  end.

(** The polls that the start effect of [useFolderPolling] sets going over
    [indexedFolders], each with the callback of the render it runs in *)
Definition pollsStarted (shown : bool) (folders : list FolderFiles.t)
    : list FolderPoll :=
  List.map (λ ff, mkFolderPoll (FolderFiles.folderPath ff) (FolderFiles.fileIds ff) shown)
    (List.filter (λ ff, bool_decide (0 < length (FolderFiles.fileIds ff))%nat) folders).

(** What happens to the hook: a refetch of the root listing settles; the
    hook renders and its deciding effect runs because another of its
    dependencies changed; the start effect of the folder polls runs over
    the indexed folders of the page; a folder poll that is under way gets
    its response. *)
Inductive PollEvent :=
  | RootPoll (response : option (list FileItem.t)) (now : Z)
  | Rendered (now : Z)
  | FoldersStarted
  | FolderPolled (poll : FolderPoll) (response : option (list FileItem.t)).

Definition pollStep (enabled : bool) (kbId : option string)
    (m : Pollers) (ev : PollEvent) : Pollers :=
  match ev with
  | RootPoll response now =>
      let pw := rootRefetched enabled kbId response now (hookState m, hookWorld m) in
      mkPollers (fst pw) (snd pw) (underWay m)
  | Rendered now =>
      let pw := renderStatus enabled kbId now (hookState m, hookWorld m) in
      mkPollers (fst pw) (snd pw) (underWay m)
  | FoldersStarted =>
      let folders := indexedFolders (hookWorld m) in
      if negb (shouldEnablePolling enabled kbId (hookState m)) || negb (truthy kbId)
         || bool_decide (length folders = 0%nat)
      then m
      else
        mkPollers (startFolderPolling enabled kbId folders (hookState m)) (hookWorld m)
          (underWay m ++ pollsStarted (hasShownErrorToast (hookState m)) folders)
  | FolderPolled poll response =>
      if bool_decide (poll ∈ underWay m) then
        let '(again, (p, w)) :=
          pollFolderStatus kbId true (shownThen poll) (polledPath poll)
            (polledFileIds poll) response (hookState m, hookWorld m) in
        mkPollers p w (if again then underWay m else pollOver poll (underWay m))
      else m
  end.

Definition pollRun (enabled : bool) (kbId : option string)
    (events : list PollEvent) (m : Pollers) : Pollers :=
  fold_left (pollStep enabled kbId) events m.

(** ** Page reload ([useKBState], the [initialData] of the queries) *)

(** A reload empties the react-query cache and the component state; the
    browser storage survives and [useKBState] reads the KB back from it. *)
Definition reloadPage (now : Z) (w : World) : World :=
  mkWorld (SyncStateData.mk idle None now)
    (DeleteQueueData.mk [] false now)
    (OptimisticDeleteRegistryData.mk ∅ now)
    (OptimisticFolderRegistryData.mk [] now)
    ∅ ∅ ∅
    ((λ stored, KnowledgeBase.mk (KnowledgeBase.id stored) (KnowledgeBase.name stored)
                  (KnowledgeBase.created_at stored) (Some false)) <$> kbStorage w)
    [] (cacheStorage w) (kbStorage w) [].

(** * Vocabulary of the properties *)

(** The record of [fileId] in the root cache of [kbId], and in the
    folder-status cache of [(kbId, folderPath)] *)
Definition rootRecord (w : World) (kbId : option string) (fileId : string)
    : option FileItem.t :=
  kbId ≫= λ k, kbResources w !! k ≫= λ data, findFile data fileId.

Definition folderRecord (w : World) (kbId folderPath : option string)
    (fileId : string) : option FileItem.t :=
  kbId ≫= λ k, folderPath ≫= λ p,
    kbFileStatus w !! (k, p) ≫= λ data, findFile data fileId.

(** [folderPath] lies under a folder registered for [kbId] *)
Definition underOptimisticFolder (w : World) (kbId folderPath : option string) : bool :=
  match kbId, folderPath with
  | Some k, Some p => isDescendantOfOptimisticFolder k p w
  | _, _ => false
  end.

(** The memo holds nothing stale under the key of this lookup: either it
    misses, or it holds the value that the world gives now.  The hook
    empties the memo whenever the delete registry or the update counter
    changes. *)
Definition memoFresh (w : World) (statusCache : StatusCache) (fileId : string)
    (kbId folderPath : option string) : Prop :=
  ∀ v, statusCache !! cacheKey fileId kbId folderPath = Some v →
       v = computeFileStatus w fileId kbId folderPath.

(** No resource cache is filed under an empty KB id or an empty folder
    path: every writer is handed the id of the current KB and a path
    built by [getFolderPathFromFileName]. *)
Definition cachesWellKeyed (w : World) : Prop :=
  (∀ k, is_Some (kbResources w !! k) → k ≠ EmptyString) ∧
  (∀ k p, is_Some (kbFileStatus w !! (k, p)) → k ≠ EmptyString ∧ p ≠ EmptyString).

(** The resource caches of the world all belong to [kbId]. *)
Definition cachesOnlyFor (kbId : string) (w : World) : Prop :=
  (∀ k, k ≠ kbId → kbResources w !! k = None) ∧
  (∀ k p, k ≠ kbId → kbFileStatus w !! (k, p) = None).

(** [registeredPath] equals the target or is a prefix of it that ends
    where a slash of the target begins. *)
Definition Covers (target registeredPath : string) : Prop :=
  target = registeredPath ∨ ∃ rest, target = registeredPath +:+ "/" +:+ rest.

(** The entries registered for [kbId] that cover the normalised path *)
Definition matchingEntry (w : World) (kbId path : string)
    (entry : OptimisticFolderEntry.t) : Prop :=
  entry ∈ (snd <$> optimisticFolderEntries w) ∧
  OptimisticFolderEntry.kbId entry = kbId ∧
  Covers (normalizedTarget path) (OptimisticFolderEntry.folderPath entry).

(** Every registered folder path starts with a slash, as
    [getFolderPathFromName] builds it. *)
Definition registeredPathsRooted (w : World) : Prop :=
  Forall (λ ke, startsWith (OptimisticFolderEntry.folderPath (snd ke)) "/" = true)
    (optimisticFolderEntries w).

(** [entries[entryKey]] *)
Definition lookupEntry (entryKey : string)
    (entries : list (string * OptimisticFolderEntry.t))
    : option OptimisticFolderEntry.t :=
  snd <$> List.find (λ ke, String.eqb (fst ke) entryKey) entries.

(** ** Delete queue *)

Definition queuedIds (w : World) : list string :=
  DeleteRequest.id <$> queue w.

(** The calls of [deleteKBResource] in a trace, in order *)
Fixpoint invoked (events : list DrainEvent) : list DeleteRequest.t :=
  match events with
  | [] => []
  | Invoked request :: rest => request :: invoked rest
  | Settled _ _ :: rest => invoked rest
  end.

(** The requests whose call has returned in a trace *)
Fixpoint answered (events : list DrainEvent) : list DeleteRequest.t :=
  match events with
  | [] => []
  | Invoked _ :: rest => answered rest
  | Settled request _ :: rest => request :: answered rest
  end.

(** Calls minus returns: the deletions in flight after a trace *)
Fixpoint inFlight (events : list DrainEvent) : Z :=
  match events with
  | [] => 0
  | Invoked _ :: rest => 1 + inFlight rest
  | Settled _ _ :: rest => inFlight rest - 1
  end.

(** Calls answered one after the other: each call of the service is
    followed by its answer. *)
Definition callsAndAnswers (pairs : list (DeleteRequest.t * bool)) : list DrainEvent :=
  flat_map (λ pair, [Invoked (fst pair); Settled (fst pair) (snd pair)]) pairs.

(** The ids under which the events enqueue requests, in order *)
Definition enqueuedIds (events : list Drain.Event) : list string :=
  flat_map (λ ev,
    match ev with
    | Drain.Enqueued fileId fileName kbId now =>
        [DeleteRequest.id (newDeleteRequest fileId fileName kbId now)]
    | _ => []
    end) events.

(** A callback of another hook leaves the delete queue as it is: the
    queue is written by [queueDeleteRequest], [updateQueueKBId] and
    [processQueue] only. *)
Definition leavesQueue (ev : Drain.Event) : Prop :=
  match ev with
  | Drain.Callback task => ∀ w, queueData (task w) = queueData w
  | _ => True
  end.

(** The trace of a drain that calls the service for each captured
    request in turn and waits for the answer before the next call *)
Fixpoint drainTrace (requests : list DeleteRequest.t) (resolves : nat → bool)
    (i : nat) : list DrainEvent :=
  match requests with
  | [] => []
  | request :: rest =>
      Invoked request :: Settled request (resolves i)
        :: drainTrace rest resolves (S i)
  end.

(** The answers and the ends of the pauses that one drain gets when
    nothing else happens meanwhile: the [i]-th call resolves or rejects
    as [resolves i] says, at [clock i]. *)
Fixpoint answersOf (requests : list DeleteRequest.t) (queueLength : nat)
    (resolves : nat → bool) (clock : nat → Z) (i : nat) : list Drain.Event :=
  match requests with
  | [] => []
  | _ :: rest =>
      (Drain.CallSettled 0 (resolves i) (clock i)
       :: (if resolves i && bool_decide (1 < queueLength)%nat
           then [Drain.PauseOver 0 (clock i)] else [])
       ++ answersOf rest queueLength resolves clock (S i))%list
  end.

(** Whether [processQueue] passes its guard *)
Definition drainStarts (w : World) : bool :=
  bool_decide (is_Some (currentKBId w)) && negb (queueProcessing w)
  && queueHasItems w.

(** What holds of a drain machine between two events, for the ids [ids]
    that the page has enqueued so far: the requests answered and the
    requests queued make up [ids], in order; at most one call of
    [processQueue] is under way, and then the flag is set, what is left
    of its array is queued at the front, and the trace ends with its
    call in flight when it awaits an answer. *)
Definition drainInvariant (ids : list string) (m : Drain.Machine) : Prop :=
  ∃ pairs,
    ids = ((DeleteRequest.id ∘ fst <$> pairs) ++ queuedIds (Drain.world m))%list
    ∧ match Drain.calls m with
      | [] => Drain.trace m = callsAndAnswers pairs
      | [call] =>
          queueProcessing (Drain.world m) = true
          ∧ (DeleteRequest.id <$> Drain.remaining call)
              `prefix_of` queuedIds (Drain.world m)
          ∧ match Drain.stage call with
            | Drain.AwaitingCall =>
                ∃ request rest,
                  Drain.remaining call = request :: rest
                  ∧ Drain.trace m = (callsAndAnswers pairs ++ [Invoked request])%list
            | Drain.AwaitingPause => Drain.trace m = callsAndAnswers pairs
            end
      | _ => False
      end.

(** ** Pollers *)

(** A settled record: indexed or error *)
Definition isSettled (f : FileItem.t) : Prop :=
  FileItem.status f = Some "indexed" ∨ FileItem.status f = Some "error".









(** ** Sync state *)

(** The calls of [updateSyncState] made one after the other *)
Definition updateSyncStates (calls : list (SyncState * option string * Z))
    (w : World) : World :=
  fold_left (λ w call, updateSyncState (fst (fst call)) (snd (fst call)) (snd call) w)
    calls w.

(** The last truthy [kbId] among the arguments, if any *)
Definition lastKbIdPassed (calls : list (SyncState * option string * Z))
    : option (option string) :=
  last (List.filter truthy ((λ call, snd (fst call)) <$> calls)).

(** What the loop of [getOptimisticAncestorFolder] knows after the
    entries [seen]: its best match covers the target and no covering
    entry seen so far is longer. *)
Definition closest (target : string) (seen : list OptimisticFolderEntry.t)
    (acc : option OptimisticFolderEntry.t * nat) : Prop :=
  (∀ e, fst acc = Some e →
     In e seen ∧ coversTarget target (OptimisticFolderEntry.folderPath e) = true
     ∧ snd acc = String.length (OptimisticFolderEntry.folderPath e))
  ∧ (fst acc = None → snd acc = O)
  ∧ (∀ e, In e seen →
       coversTarget target (OptimisticFolderEntry.folderPath e) = true →
       (String.length (OptimisticFolderEntry.folderPath e) ≤ snd acc)%nat).

(** * Example data

    A drive with a folder [A] that holds a file and a subfolder [A/B],
    and a file at the root. *)

Definition folderA : FileItem.t := FileItem.mk "fA" "A" directory 0 None None.
Definition folderB : FileItem.t := FileItem.mk "fB" "A/B" directory 0 None None.
Definition fileX : FileItem.t := FileItem.mk "x1" "A/x.txt" file 10 None None.
Definition fileY : FileItem.t := FileItem.mk "y1" "A/B/y.txt" file 20 None None.
Definition fileR : FileItem.t := FileItem.mk "r1" "r.txt" file 30 None None.

(** The files the picker knows when the KB is created *)
Definition exampleFiles : list FileItem.t := [folderA; fileR; fileX; folderB; fileY].

Definition exampleClock : Clock.t :=
  Clock.mk 1000 "2025-01-01T00:00:00.000Z" "1/1/2025, 12:00:00 AM".

Definition realKB : KnowledgeBase.t :=
  KnowledgeBase.mk "kb-9" "Knowledge Base" "2025-01-01T00:00:01.000Z" None.

(** The page before the creation: the contents of [A] are cached. *)
Definition exampleWorld : World :=
  set_driveFiles {[ "fA" := [fileX; folderB] ]} (initialWorld 0).

(** The user selects [A] and [r.txt] and creates the KB. *)
Definition afterMutate : World * MutationContext.t * list string :=
  onMutate ["fA"; "r1"] exampleFiles exampleClock exampleWorld.

(** While the creation is pending the user deletes [r.txt] and expands
    [A/B]. *)
Definition whilePending : World :=
  let w := fst (fst afterMutate) in
  let w := fst (deleteSelectedFiles ["r1"] exampleFiles 1100 w) in
  fst (expandFolderOptimistically (Some "temp-1000") [fileY]
         "2025-01-01T00:00:00.500Z" (w, ∅)).

Definition exampleContext : MutationContext.t := snd (fst afterMutate).

(** The creation succeeds ... *)
Definition afterSuccess : World :=
  createKBSettled (Resolved realKB ["fA"; "r1"]) exampleFiles
    (Some exampleContext) 2000 whilePending.

(** ... or fails. *)
Definition afterError : World :=
  createKBSettled Rejected exampleFiles (Some exampleContext) 2000 whilePending.

(** A registry with the folders [/A] and [/A/B] *)
Definition nestedRegistry : World :=
  markFoldersAsOptimisticallyIndexed "kb-9" ["fA"; "fB"]
    {[ "fA" := "A"; "fB" := "A/B" ]} 1 (initialWorld 0).

(** A registry with a root folder whose name has a dot: its registered
    path is the slash alone. *)
Definition dottedRegistry : World :=
  markFoldersAsOptimisticallyIndexed "kb-9" ["fD"]
    {[ "fD" := "docs.v2" ]} 1 (initialWorld 0).

(** A page that shows the real KB, with folder [/A] indexed *)
Definition pollWorld : World :=
  setIndexedFolders [FolderFiles.mk "fA" "/A" ["x1"]]
    (setCurrentKB (Some realKB) (initialWorld 0)).

(** The hook as it mounts on that page at 1000 *)
Definition mountedPollers : Pollers :=
  mkPollers (initialPollingState 1000) pollWorld [].

(** The poll of [/A] that the start effect sets going while the flag is
    unset *)
Definition pollOfA : FolderPoll := mkFolderPoll "/A" ["x1"] false.

(** The polls of the folders start; the poll of [/A] finds its file
    failed; then the root listing shows an errored file next to a
    pending one. *)
Definition erroredPolls : list PollEvent :=
  [FoldersStarted;
   FolderPolled pollOfA
     (Some [FileItem.mk "x1" "A/x.txt" file 10 (Some "failed") None]);
   RootPoll (Some [FileItem.mk "r2" "s.txt" file 30 (Some "error") None;
                   FileItem.mk "r3" "t.txt" file 30 (Some "pending") None]) 3000].

(** A root listing with one file that is still pending *)
Definition pendingListing : list FileItem.t :=
  [FileItem.mk "r2" "s.txt" file 30 (Some "pending") None].

(** A queue of two requests against the real KB, and what happens while
    it is drained: the effect calls [processQueue] again while the first
    call of the service is awaited; that call is rejected; another
    request is queued; the second call resolves and the pause passes. *)
Definition drainWorld : World :=
  queueDeleteRequest "y1" "A/B/y.txt" "kb-9" 2010 afterSuccess.

Definition drainEvents : list Drain.Event :=
  [Drain.Called 2020;
   Drain.EffectRun 2030;
   Drain.Called 2040;
   Drain.CallSettled 0 false 2100;
   Drain.Enqueued "x1" "A/x.txt" "kb-9" 2150;
   Drain.Callback (toast info "files-queued-for-deletion");
   Drain.Called 2160;
   Drain.CallSettled 0 true 2200;
   Drain.PauseOver 0 3200].

(** * Well-formed worlds *)

(** [createNewKB] of [useKnowledgeBaseOperations/index.ts]: everything is
    cleared, the browser forgets the KB and the page reloads. *)
Definition createNewKB (now : Z) (w : World) : World :=
  reloadPage now (set_kbStorage None (clearAllState now w)).

(** What the browser storage holds is well keyed too. *)
Definition storageWellKeyed (w : World) : Prop :=
  ∀ stored, cacheStorage w = Some stored →
    (is_Some (CacheStorageData.rootResources stored) →
       CacheStorageData.kbId stored ≠ EmptyString)
    ∧ (∀ p, is_Some (CacheStorageData.folderStatuses stored !! p) →
         CacheStorageData.kbId stored ≠ EmptyString ∧ p ≠ EmptyString)
    ∧ Forall (λ ke, startsWith (OptimisticFolderEntry.folderPath (snd ke)) "/" = true)
        (CacheStorageData.optimisticFolderRegistry stored).

Definition wellFormed (w : World) : Prop :=
  cachesWellKeyed w ∧ registeredPathsRooted w ∧ storageWellKeyed w.

(** The two worlds hold the same resource caches, folder registry and
    stored snapshot. *)
Definition sameResources (w w' : World) : Prop :=
  kbResources w' = kbResources w
  ∧ kbFileStatus w' = kbFileStatus w
  ∧ optimisticFolderEntries w' = optimisticFolderEntries w
  ∧ cacheStorage w' = cacheStorage w.

(** * Further vocabulary *)

(** ** Folder helpers *)

(** [name.split("/").length] *)
Definition segments (f : FileItem.t) : nat :=
  length (split slash (FileItem.name f)).

(** The test that [getAllDescendantFileIds] applies to find the files of
    a directory: [g] is named under [f], one segment deeper. *)
Definition isChildOf (f g : FileItem.t) : bool :=
  startsWith (FileItem.name g) (FileItem.name f +:+ "/")
  && bool_decide (segments g = S (segments f)).

(** [h] is [f], or is reached from [f] by going down through
    directories, each time to a child among [allFiles]. *)
Inductive descends (allFiles : list FileItem.t) : FileItem.t → FileItem.t → Prop :=
  | descends_here f : descends allFiles f f
  | descends_child f g h :
      FileItem.type f = directory →
      g ∈ allFiles →
      isChildOf f g = true →
      descends allFiles g h →
      descends allFiles f h.

(** The longest name of a listing, in segments *)
Definition longestName (files : list FileItem.t) : nat :=
  foldr (λ f acc, Nat.max (length (split slash (FileItem.name f))) acc) O files.

(** The requests that [deleteSelectedFiles] queues: one for every
    selected id that [files] knows, in the order of the selection. *)
Definition requestsFor (selectedIds : list string) (files : list FileItem.t)
    (kbId : string) (now : Z) : list DeleteRequest.t :=
  omap (λ fileId,
    (λ f, newDeleteRequest fileId (FileItem.name f) kbId now) <$> findFile files fileId)
    selectedIds.

(** [fileIds.includes(resource.id)] is false *)
Definition keptBy (fileIds : list string) (resource : FileItem.t) : bool :=
  negb (bool_decide (FileItem.id resource ∈ fileIds)).

(** * The file tree ([useFileTree]) *)

(** A row of the tree: the record of the listing with what
    [buildFileTree] adds to it.  The [status] of [item] is the one the
    builder wrote.  A record that never went through the builder has no
    level; every reader takes that for level 0. *)
Module TreeItem.
#[local] Unset Elimination Schemes.
Inductive t := mk {
  item : FileItem.t;
  isExpanded : bool;
  isLoading : bool;
  children : list t;
  level : nat;
}.
#[local] Set Elimination Schemes.
End TreeItem.

(** ** Tree state ([useFileTree/treeState.ts]) *)

(** [delayedPollingFolders] is iterated, so it is kept in the order of a
    JavaScript [Set]: insertion order, without repetition. *)
Record TreeState := mkTreeState {
  expandedFolders : gset string;
  loadingFolders : gset string;
  errorToastShown : gset string;
  refreshTrigger : Z;
  delayedPollingFolders : list string;
}.

Definition initialTreeState : TreeState := mkTreeState ∅ ∅ ∅ 0 [].

Definition setExpandedFolders (v : gset string) (ts : TreeState) : TreeState :=
  mkTreeState v (loadingFolders ts) (errorToastShown ts) (refreshTrigger ts)
    (delayedPollingFolders ts).

Definition setLoadingFolders (v : gset string) (ts : TreeState) : TreeState :=
  mkTreeState (expandedFolders ts) v (errorToastShown ts) (refreshTrigger ts)
    (delayedPollingFolders ts).

Definition setErrorToastShown (v : gset string) (ts : TreeState) : TreeState :=
  mkTreeState (expandedFolders ts) (loadingFolders ts) v (refreshTrigger ts)
    (delayedPollingFolders ts).

Definition setDelayedPollingFolders (v : list string) (ts : TreeState) : TreeState :=
  mkTreeState (expandedFolders ts) (loadingFolders ts) (errorToastShown ts)
    (refreshTrigger ts) v.

(** [new Set(prev).add(x)] on an insertion-ordered set *)
Definition setAdd (x : string) (l : list string) : list string :=
  if bool_decide (x ∈ l) then l else (l ++ [x])%list.

Definition collapseAllFolders (ts : TreeState) : TreeState :=
  mkTreeState ∅ ∅ ∅ (refreshTrigger ts) (delayedPollingFolders ts).

Definition forceRefresh (ts : TreeState) : TreeState :=
  mkTreeState (expandedFolders ts) (loadingFolders ts) (errorToastShown ts)
    (refreshTrigger ts + 1) (delayedPollingFolders ts).

(** ** Tree builder ([useFileTree/treeBuilder.ts]) *)

(** [resolved === "-" || resolved === null ? undefined : resolved] *)
Definition finalStatus (resolved : StatusValue) : option string :=
  match resolved with
  | Status s => if String.eqb s "-" then None else Some s
  | Undefined => None
  | Null => None
  end.

(** [name.split("/").pop()] *)
Definition lastSegment (name : string) : string :=
  List.last (split slash name) EmptyString.

(** [{ ...file, status }] *)
Definition withStatus (status : option string) (f : FileItem.t) : FileItem.t :=
  FileItem.mk (FileItem.id f) (FileItem.name f) (FileItem.type f) (FileItem.size f)
    status (FileItem.indexed_at f).

(** [kbId || null] *)
Definition orNull (kbId : option string) : option string :=
  if truthy kbId then kbId else None.

(** [buildFileTree(files, level, parentPath)].  The builder calls itself
    on the cached listing of every expanded folder; nothing in the code
    bounds the depth, so [fuel] counts the levels still allowed and the
    result is [None] when they are used up.  The memo of the resolver is
    threaded in the order of the calls: the rows of a folder before the
    folder itself. *)
Fixpoint buildFileTree (fuel : nat) (kbId : option string)
    (expanded loading : gset string) (w : World)
    (files : list FileItem.t) (level : nat) (parentPath : string)
    (statusCache : StatusCache) {struct fuel}
    : option (list TreeItem.t * StatusCache) :=
  match fuel with
  | O => None
  | S fuel' =>
      (fix rows (files : list FileItem.t) (statusCache : StatusCache)
         : option (list TreeItem.t * StatusCache) :=
         match files with
         | [] => Some ([], statusCache)
         | f :: rest =>
             let isExpanded := bool_decide (FileItem.id f ∈ expanded) in
             let isLoading := bool_decide (FileItem.id f ∈ loading) in
             let built :=
               if bool_decide (FileItem.type f = directory) && isExpanded
                  && negb isLoading then
                 match driveFiles w !! FileItem.id f with
                 | Some data =>
                     let currentPath :=
                       if truthy (Some parentPath)
                       then parentPath +:+ "/" +:+ lastSegment (FileItem.name f)
                       else lastSegment (FileItem.name f) in
                     buildFileTree fuel' kbId expanded loading w data (S level)
                       currentPath statusCache
                 | None => Some ([], statusCache)
                 end
               else Some ([], statusCache) in
             match built with
             | None => None
             | Some (children, statusCache) =>
                 let folderPath :=
                   if bool_decide (level = O) then "/"
                   else getFolderPathFromFileName (FileItem.name f) in
                 let '(resolved, statusCache) :=
                   resolveFileStatus w statusCache (FileItem.id f) (orNull kbId)
                     (Some folderPath) in
                 let row :=
                   TreeItem.mk (withStatus (finalStatus resolved) f)
                     isExpanded isLoading children level in
                 match rows rest statusCache with
                 | None => None
                 | Some (more, statusCache) => Some (row :: more, statusCache)
                 end
             end
         end) files statusCache
  end.

(** [fileTree]: the tree of the root listing, empty while there is none *)
Definition fileTree (fuel : nat) (kbId : option string) (ts : TreeState)
    (w : World) (statusCache : StatusCache)
    : option (list TreeItem.t * StatusCache) :=
  match driveFiles w !! "root" with
  | Some data =>
      buildFileTree fuel kbId (expandedFolders ts) (loadingFolders ts) w data O
        EmptyString statusCache
  | None => Some ([], statusCache)
  end.

(** [flattenTree]: every row, followed by the rows under it *)
Fixpoint flattenItem (t : TreeItem.t) : list TreeItem.t :=
  t :: List.flat_map flattenItem (TreeItem.children t).

Definition flattenTree (tree : list TreeItem.t) : list TreeItem.t :=
  List.flat_map flattenItem tree.

(** [flatFiles] *)
Definition flatFiles (fuel : nat) (kbId : option string) (ts : TreeState)
    (w : World) (statusCache : StatusCache) : option (list TreeItem.t) :=
  (λ r, flattenTree (fst r)) <$> fileTree fuel kbId ts w statusCache.

(** * Row selection ([useFileSelection.ts]) *)

(** [rowSelection]: the object whose keys are the ids of the selected
    rows *)
Abbreviation RowSelection := (gmap string bool).

(** [files.find(f => f.id === fileId)] on rows *)
Definition findRow (files : list TreeItem.t) (fileId : string) : option TreeItem.t :=
  List.find (λ f, String.eqb (FileItem.id (TreeItem.item f)) fileId) files.

(** [file.level && file.level > 0 ? getFolderPathFromFileName(file.name) : undefined] *)
Definition folderPathOf (file : TreeItem.t) : option string :=
  if bool_decide (0 < TreeItem.level file)%nat
  then Some (getFolderPathFromFileName (FileItem.name (TreeItem.item file)))
  else None.

(** The statuses with which a file can be selected for deletion *)
Definition selectableStatus (resolved : StatusValue) : bool :=
  bool_decide (resolved = Status "indexed")
  || bool_decide (resolved = Status "error")
  || bool_decide (resolved = Status "failed").

(** [canSelectFile(file)]; the resolver is called for a file in delete
    mode only. *)
Definition canSelectFile (hasKB : bool) (kbId : option string) (w : World)
    (file : TreeItem.t) (statusCache : StatusCache) : bool * StatusCache :=
  if negb hasKB then (true, statusCache)
  else if negb (truthy kbId) then (false, statusCache)
  else if bool_decide (FileItem.type (TreeItem.item file) = directory)
  then (false, statusCache)
  else
    let '(resolved, statusCache) :=
      resolveFileStatus w statusCache (FileItem.id (TreeItem.item file)) kbId
        (folderPathOf file) in
    (selectableStatus resolved, statusCache).

(** [fileRelationships.childrenMap]: under the id of every directory,
    the ids of the rows named under it, at any depth; a later directory
    with the same id replaces the entry. *)
Definition childrenMap (files : list TreeItem.t) : gmap string (list string) :=
  fold_left (λ m f,
    if bool_decide (FileItem.type (TreeItem.item f) = directory) then
      <[FileItem.id (TreeItem.item f) :=
          List.map (λ g, FileItem.id (TreeItem.item g))
            (List.filter (λ g,
               startsWith (FileItem.name (TreeItem.item g))
                 (FileItem.name (TreeItem.item f) +:+ "/")) files)]> m
    else m) files ∅.

(** The [while] loop of [getAllDescendantIds] on [(queue, descendants)].
    The loop goes on as long as the queue holds an id, which is for ever
    when a directory is listed under itself; [fuel] counts the turns
    still allowed, and the result is [None] when they are used up. *)
Fixpoint descendantsLoop (fuel : nat) (children : gmap string (list string))
    (queue descendants : list string) : option (list string) :=
  match queue with
  | [] => Some descendants
  | currentId :: queue =>
      match fuel with
      | O => None
      | S fuel' =>
          let childIds := default [] (children !! currentId) in
          descendantsLoop fuel' children (queue ++ childIds) (descendants ++ childIds)
      end
  end.

Definition getAllDescendantIds (fuel : nat) (files : list TreeItem.t)
    (fileId : string) : option (list string) :=
  descendantsLoop fuel (childrenMap files) [fileId] [].

(** One turn of the loop of [handleRowSelection] over the descendants *)
Definition selectDescendant (hasKB : bool) (kbId : option string) (w : World)
    (files : list TreeItem.t) (isSelected : bool)
    (acc : RowSelection * StatusCache) (id : string) : RowSelection * StatusCache :=
  let '(newSelection, statusCache) := acc in
  match findRow files id with
  | None => acc
  | Some descendantFile =>
      if isSelected then
        let '(can, statusCache) := canSelectFile hasKB kbId w descendantFile statusCache in
        if can then (<[id := true]> newSelection, statusCache)
        else (delete id newSelection, statusCache)
      else (delete id newSelection, statusCache)
  end.

(** [handleRowSelection(fileId, isSelected)] *)
Definition handleRowSelection (fuel : nat) (hasKB : bool) (kbId : option string)
    (w : World) (files : list TreeItem.t) (fileId : string) (isSelected : bool)
    (st : RowSelection * StatusCache) : option (RowSelection * StatusCache) :=
  let '(prev, statusCache) := st in
  match findRow files fileId with
  | None => Some st
  | Some f =>
      let '(can, statusCache) :=
        if isSelected then canSelectFile hasKB kbId w f statusCache
        else (true, statusCache) in
      if isSelected && negb can then Some (prev, statusCache)
      else
        let newSelection :=
          if isSelected then <[fileId := true]> prev else delete fileId prev in
        if bool_decide (FileItem.type (TreeItem.item f) = directory) && negb hasKB then
          (λ descendantIds,
             fold_left (selectDescendant hasKB kbId w files isSelected)
               descendantIds (newSelection, statusCache))
          <$> getAllDescendantIds fuel files fileId
        else Some (newSelection, statusCache)
  end.

(** [handleSelectAll(isSelected, visibleRows)] *)
Definition handleSelectAll (hasKB : bool) (kbId : option string) (w : World)
    (isSelected : bool) (visibleRows : list TreeItem.t) (statusCache : StatusCache)
    : RowSelection * StatusCache :=
  if isSelected then
    fold_left (λ acc f,
      let '(newSelection, statusCache) := acc in
      let '(can, statusCache) := canSelectFile hasKB kbId w f statusCache in
      if can then (<[FileItem.id (TreeItem.item f) := true]> newSelection, statusCache)
      else (newSelection, statusCache)) visibleRows (∅, statusCache)
  else (∅, statusCache).

(** [selectedFiles]: the rows that are selected and can still be
    selected *)
Fixpoint selectedFiles (hasKB : bool) (kbId : option string) (w : World)
    (rowSelection : RowSelection) (files : list TreeItem.t)
    (statusCache : StatusCache) : list TreeItem.t * StatusCache :=
  match files with
  | [] => ([], statusCache)
  | f :: rest =>
      if bool_decide (rowSelection !! FileItem.id (TreeItem.item f) = Some true) then
        let '(can, statusCache) := canSelectFile hasKB kbId w f statusCache in
        let '(more, statusCache) :=
          selectedFiles hasKB kbId w rowSelection rest statusCache in
        (if can then f :: more else more, statusCache)
      else selectedFiles hasKB kbId w rowSelection rest statusCache
  end.

Definition selectedResourceIds (hasKB : bool) (kbId : option string) (w : World)
    (rowSelection : RowSelection) (files : list TreeItem.t)
    (statusCache : StatusCache) : list string :=
  List.map (λ f, FileItem.id (TreeItem.item f))
    (fst (selectedFiles hasKB kbId w rowSelection files statusCache)).

Definition clearSelection : RowSelection := ∅.

(** One turn of the loop of the effect that deselects the files that are
    no longer indexed *)
Definition deselectStale (kbId : option string) (w : World)
    (files : list TreeItem.t) (acc : RowSelection * bool * StatusCache)
    (fileId : string) : RowSelection * bool * StatusCache :=
  let '(newSelection, hasChanges, statusCache) := acc in
  match findRow files fileId with
  | None => acc
  | Some f =>
      let '(resolved, statusCache) :=
        resolveFileStatus w statusCache fileId kbId (folderPathOf f) in
      if selectableStatus resolved then (newSelection, hasChanges, statusCache)
      else (delete fileId newSelection, true, statusCache)
  end.

(** The effect itself.  [keys] is [Object.keys(prev)], the keys of the
    selection in the order the engine enumerates them. *)
Definition autoDeselect (hasKB : bool) (kbId : option string) (w : World)
    (files : list TreeItem.t) (keys : list string)
    (st : RowSelection * StatusCache) : RowSelection * StatusCache :=
  let '(prev, statusCache) := st in
  if negb hasKB || negb (truthy kbId) then st
  else
    let '(newSelection, hasChanges, statusCache) :=
      fold_left (deselectStale kbId w files) keys (prev, false, statusCache) in
    (if hasChanges then newSelection else prev, statusCache).

(** ** Vocabulary for the rows of the table *)

Definition rowId (f : TreeItem.t) : string := FileItem.id (TreeItem.item f).
Definition rowName (f : TreeItem.t) : string := FileItem.name (TreeItem.item f).
Definition rowType (f : TreeItem.t) : FileType := FileItem.type (TreeItem.item f).

(** [g] is named under the folder [f], at any depth. *)
Definition namedUnder (f g : TreeItem.t) : bool :=
  startsWith (rowName g) (rowName f +:+ "/").

(** The ids of the rows named under [f] *)
Definition idsUnder (files : list TreeItem.t) (f : TreeItem.t) : list string :=
  List.map rowId (List.filter (namedUnder f) files).

(** [childrenMap.get(id) || []] *)
Definition childIds (children : gmap string (list string)) (id : string)
    : list string :=
  default [] (children !! id).

(** The length of the name of the row with this id *)
Definition nameLength (files : list TreeItem.t) (id : string) : nat :=
  match findRow files id with
  | Some f => String.length (rowName f)
  | None => O
  end.

Definition longestRowName (files : list TreeItem.t) : nat :=
  foldr (λ f acc, Nat.max (String.length (rowName f)) acc) O files.

(** A bound on the turns that the loop of [getAllDescendantIds] takes
    for the ids of a queue, when every child has a longer name than its
    parent: a row counts for as many turns as all the rows under it can
    take together, plus one.  [len] measures the ids, up to [longest],
    and no id has more than [n] children. *)
Definition turnsOf (len : string → nat) (longest n : nat) (id : string) : nat :=
  S n ^ (longest - len id).

Definition turnsOfAll (len : string → nat) (longest n : nat) (queue : list string)
    : nat :=
  foldr (λ id acc, turnsOf len longest n id + acc)%nat O queue.

Definition turnsFor (files : list TreeItem.t) (id : string) : nat :=
  S (length files) ^ (longestRowName files - nameLength files id).

Definition turnsForAll (files : list TreeItem.t) (queue : list string) : nat :=
  foldr (λ id acc, turnsFor files id + acc)%nat O queue.

(** ** Vocabulary for the memo of the resolver *)

Definition bar : ascii := "|"%char.

(** The id holds no bar, the separator of the keys of the memo. *)
Definition barFree (s : string) : bool := negb (includes s bar).

(** Whatever the memo holds for a file id without a bar and for [kbId]
    is what the resolver computes in this world. *)
Definition memoSound (w : World) (kbId : option string) (statusCache : StatusCache)
    : Prop :=
  ∀ fileId folderPath v,
    barFree fileId = true →
    statusCache !! cacheKey fileId kbId folderPath = Some v →
    v = computeFileStatus w fileId kbId folderPath.

(** The row can be selected, going by what the resolver computes for it
    in this world. *)
Definition selectable (hasKB : bool) (kbId : option string) (w : World)
    (f : TreeItem.t) : bool :=
  negb hasKB
  || (truthy kbId && bool_decide (rowType f = file)
      && selectableStatus (computeFileStatus w (rowId f) kbId (folderPathOf f))).

(** The id is that of a row of the table which no longer resolves to
    indexed, error or failed. *)
Definition staleSelection (kbId : option string) (w : World)
    (files : list TreeItem.t) (fileId : string) : bool :=
  match findRow files fileId with
  | Some f =>
      negb (selectableStatus (computeFileStatus w fileId kbId (folderPathOf f)))
  | None => false
  end.

(** ** Vocabulary for the tree *)

(** The builder goes into the folder: a directory that is expanded and
    is not loading. *)
Definition opensFolder (expanded loading : gset string) (f : FileItem.t) : bool :=
  bool_decide (FileItem.type f = directory)
  && bool_decide (FileItem.id f ∈ expanded)
  && negb (bool_decide (FileItem.id f ∈ loading)).

(** The folder path under which the builder resolves a row *)
Definition rowPath (level : nat) (name : string) : string :=
  if bool_decide (level = O) then "/" else getFolderPathFromFileName name.

(** The status that the tree shows for a record at a level, going by
    what the resolver computes in this world *)
Definition shownStatus (kbId : option string) (w : World) (level : nat)
    (f : FileItem.t) : option string :=
  finalStatus
    (computeFileStatus w (FileItem.id f) (orNull kbId)
       (Some (rowPath level (FileItem.name f)))).

(** The row that the builder makes of a record, children apart *)
Definition rowOf (kbId : option string) (expanded loading : gset string)
    (w : World) (level : nat) (children : list TreeItem.t) (f : FileItem.t)
    : TreeItem.t :=
  TreeItem.mk (withStatus (shownStatus kbId w level f) f)
    (bool_decide (FileItem.id f ∈ expanded))
    (bool_decide (FileItem.id f ∈ loading)) children level.

(** A row as the builder leaves it: its status is the one the resolver
    computes, never the dash of a deleted file; it has rows under it only
    if it is a folder that is expanded and not loading; and the rows
    under it are one level deeper. *)
Definition wellBuilt (kbId : option string) (expanded loading : gset string)
    (w : World) (row : TreeItem.t) : Prop :=
  FileItem.status (TreeItem.item row)
  = finalStatus
      (computeFileStatus w (rowId row) (orNull kbId)
         (Some (rowPath (TreeItem.level row) (rowName row))))
  ∧ FileItem.status (TreeItem.item row) ≠ Some "-"
  ∧ TreeItem.isExpanded row = bool_decide (rowId row ∈ expanded)
  ∧ TreeItem.isLoading row = bool_decide (rowId row ∈ loading)
  ∧ (TreeItem.children row ≠ [] →
     rowType row = directory ∧ rowId row ∈ expanded ∧ (rowId row ∉ loading)
     ∧ ∃ data, driveFiles w !! rowId row = Some data
               ∧ rowId <$> TreeItem.children row = FileItem.id <$> data)
  ∧ Forall (λ child, TreeItem.level child = S (TreeItem.level row))
      (TreeItem.children row).

(** The shape of a row as the builder leaves it, its status apart: it
    never shows the dash of a deleted file; it has rows under it only if
    it is a folder that is expanded and not loading; and the rows under
    it are one level deeper. *)
Definition wellShaped (expanded loading : gset string) (w : World)
    (row : TreeItem.t) : Prop :=
  FileItem.status (TreeItem.item row) ≠ Some "-"
  ∧ TreeItem.isExpanded row = bool_decide (rowId row ∈ expanded)
  ∧ TreeItem.isLoading row = bool_decide (rowId row ∈ loading)
  ∧ (TreeItem.children row ≠ [] →
     rowType row = directory ∧ rowId row ∈ expanded ∧ (rowId row ∉ loading)
     ∧ ∃ data, driveFiles w !! rowId row = Some data
               ∧ rowId <$> TreeItem.children row = FileItem.id <$> data)
  ∧ Forall (λ child, TreeItem.level child = S (TreeItem.level row))
      (TreeItem.children row).

(** Every id of the listing and of the cached listings holds no bar. *)
Definition listingsBarFree (w : World) (files : list FileItem.t) : Prop :=
  Forall (λ f, barFree (FileItem.id f) = true) files
  ∧ ∀ folderId data, driveFiles w !! folderId = Some data →
      Forall (λ f, barFree (FileItem.id f) = true) data.

(** The folders that the builder goes into nest to a finite depth:
    [depth] goes down from a folder to the records of its cached
    listing. *)
Definition nestsBy (depth : string → nat) (expanded loading : gset string)
    (w : World) : Prop :=
  ∀ f data c,
    opensFolder expanded loading f = true →
    driveFiles w !! FileItem.id f = Some data →
    c ∈ data →
    (depth (FileItem.id c) < depth (FileItem.id f))%nat.

(** * The name cell ([components/file-picker/FileNameCell.tsx]) *)

(** [truncatePath(path, maxLength)].  [String.length] counts the
    characters of the string, as JavaScript's [length] does for a name
    in ASCII. *)
Definition truncatePath (path : string) (maxLength : nat) : string :=
  if (String.length path <=? maxLength)%nat then path
  else
    let parts := split slash path in
    if (length parts <=? 2)%nat then path
    else
      let fileName := List.last parts EmptyString in
      let firstFolder := List.hd EmptyString parts in
      if (String.length firstFolder + String.length fileName + 5 <=? maxLength)%nat
      then firstFolder +:+ "/.../" +:+ fileName
      else ".../" +:+ fileName.

(** The text of the cell: [isFiltering ? truncatePath(file.name) :
    file.name.split("/").pop()] *)
Definition cellText (isFiltering : bool) (name : string) : string :=
  if isFiltering then truncatePath name 40 else lastSegment name.

(** * Status polling of the tree ([useFileTree/statusPolling.ts]) *)

Module StatusPolling.

Definition MAX_CONCURRENT_POLLS : nat := 2.

(** An entry of [pollQueue] *)
Record Poll := mkPoll {
  folderPath : string;
  folderId : string;
}.

(** The two refs of the hook.  Of the JavaScript [Set] only [has],
    [add], [delete] and [size] are used. *)
Record Refs := mkRefs {
  activePolls : gset string;
  pollQueue : list Poll;
}.

Definition initialRefs : Refs := mkRefs ∅ [].

(** [processNextPoll]: the poll it starts, if any, is returned. *)
Definition processNextPoll (r : Refs) : Refs * option Poll :=
  if (MAX_CONCURRENT_POLLS <=? size (activePolls r))%nat
     || (length (pollQueue r) =? 0)%nat
  then (r, None)
  else
    match pollQueue r with
    | [] => (r, None)
    | nextPoll :: rest =>
        (mkRefs ({[folderPath nextPoll]} ∪ activePolls r) rest, Some nextPoll)
    end.

(** The [finally] of a poll that [processNextPoll] started *)
Definition pollFinished (nextPoll : Poll) (r : Refs) : Refs * option Poll :=
  processNextPoll (mkRefs (activePolls r ∖ {[folderPath nextPoll]}) (pollQueue r)).

(** [pollFolderStatus(folderPath, folderId)], the function that the hook
    hands out *)
Definition pollFolderStatus (path id : string) (r : Refs) : Refs * option Poll :=
  if bool_decide (path ∈ activePolls r) then (r, None)
  else if existsb (λ p, String.eqb (folderPath p) path) (pollQueue r) then (r, None)
  else processNextPoll (mkRefs (activePolls r) (pollQueue r ++ [mkPoll path id])).

(** The callback of the timer that a poll sets when it found a file
    pending *)
Definition pollAgain (path id : string) (r : Refs) : Refs * option Poll :=
  if negb (bool_decide (path ∈ activePolls r)) then
    processNextPoll (mkRefs (activePolls r) (pollQueue r ++ [mkPoll path id]))
  else (r, None).

(** The hook with what is under way: the polls that were started and
    have not settled, and the timers that were set and have not fired. *)
Record Machine := mkMachine {
  refs : Refs;
  running : list Poll;
  timers : list Poll;
}.

Definition initialMachine : Machine := mkMachine initialRefs [] [].

(** What can happen to the hook: a call of [pollFolderStatus]; the
    [i]-th running poll settles, having found a file pending or not; the
    [i]-th timer fires. *)
Inductive Event :=
  | Call (path id : string)
  | Settle (i : nat) (hasPending : bool)
  | Fire (i : nat).

Definition started (o : option Poll) : list Poll :=
  match o with Some p => [p] | None => [] end.

Definition run (e : Event) (m : Machine) : Machine :=
  match e with
  | Call path id =>
      let '(r, o) := pollFolderStatus path id (refs m) in
      mkMachine r (running m ++ started o) (timers m)
  | Settle i hasPending =>
      match running m !! i with
      | Some poll =>
          let timers' := if hasPending then (timers m ++ [poll])%list else timers m in
          let '(r, o) := pollFinished poll (refs m) in
          mkMachine r (delete i (running m) ++ started o) timers'
      | None => m
      end
  | Fire i =>
      match timers m !! i with
      | Some poll =>
          let '(r, o) := pollAgain (folderPath poll) (folderId poll) (refs m) in
          mkMachine r (running m ++ started o) (delete i (timers m))
      | None => m
      end
  end.

Definition runAll (events : list Event) (m : Machine) : Machine :=
  fold_left (λ m e, run e m) events m.

Definition isFire (e : Event) : bool :=
  match e with Fire _ => true | _ => false end.

(** What holds of the slots whatever happens: no more active paths than
    slots, and a running poll for every active path. *)
Definition slotsKept (r : Refs) (polls : list Poll) : Prop :=
  (size (activePolls r) ≤ MAX_CONCURRENT_POLLS)%nat
  ∧ ∀ path, path ∈ activePolls r →
      ∃ poll, poll ∈ polls ∧ folderPath poll = path.

(** What holds as long as no timer has fired: the running polls are the
    active paths, one each, and the queue holds no path twice and no
    active path. *)
Definition slotsExact (r : Refs) (polls : list Poll) : Prop :=
  NoDup (folderPath <$> polls)
  ∧ (∀ path, path ∈ activePolls r ↔ path ∈ (folderPath <$> polls))
  ∧ NoDup (folderPath <$> pollQueue r)
  ∧ ∀ poll, poll ∈ pollQueue r → folderPath poll ∉ activePolls r.

(** No poll waits while a slot is free. *)
Definition slotsFilled (r : Refs) : Prop :=
  pollQueue r = [] ∨ (MAX_CONCURRENT_POLLS ≤ size (activePolls r))%nat.

End StatusPolling.

(** [fetchKBStatusForFolder] from the listing that came back:
    [statusMap.set(resource.id, resource.status || "unknown")] for each
    resource in turn *)
Definition kbStatusMapOf (resources : list FileItem.t) : gmap string string :=
  fold_left (λ statusMap resource,
    <[FileItem.id resource :=
        if truthy (FileItem.status resource)
        then orEmpty (FileItem.status resource) else "unknown"]> statusMap)
    resources ∅.

(** The callback of [folderData.data.map] in
    [updateCachedFilesWithStatus], with the two flags it sets *)
Definition withKBStatus (kbStatusMap : gmap string string)
    (flags : bool * bool) (f : FileItem.t) : (bool * bool) * FileItem.t :=
  let '(hasPending, hasErrors) := flags in
  if bool_decide (FileItem.type f = file) then
    let kbStatus := kbStatusMap !! FileItem.id f in
    if truthy kbStatus then
      let hasPending :=
        if String.eqb (orEmpty kbStatus) "pending" then true else hasPending in
      let hasErrors :=
        if String.eqb (orEmpty kbStatus) "failed" || String.eqb (orEmpty kbStatus) "error"
        then true else hasErrors in
      ((hasPending, hasErrors), withStatus kbStatus f)
    else (flags, f)
  else (flags, f).

Fixpoint mapWithKBStatus (kbStatusMap : gmap string string) (flags : bool * bool)
    (data : list FileItem.t) : (bool * bool) * list FileItem.t :=
  match data with
  | [] => (flags, [])
  | f :: rest =>
      let '(flags, f') := withKBStatus kbStatusMap flags f in
      let '(flags, rest') := mapWithKBStatus kbStatusMap flags rest in
      (flags, f' :: rest')
  end.

(** [updateCachedFilesWithStatus(folderId, kbStatusMap)]: the flags it
    returns and the listing that it will write at the next animation
    frame, if any *)
Definition updateCachedFilesWithStatus (folderId : string)
    (kbStatusMap : gmap string string) (w : World)
    : (bool * bool) * option (list FileItem.t) :=
  match driveFiles w !! folderId with
  | None => ((false, false), None)
  | Some data =>
      let '(flags, updatedFiles) := mapWithKBStatus kbStatusMap (false, false) data in
      (flags, Some updatedFiles)
  end.

(** The record that [updateCachedFilesWithStatus] is to make of a
    record: a file that the status map knows under a non-empty status
    bears that status. *)
Definition updatedRecord (kbStatusMap : gmap string string) (f : FileItem.t)
    : FileItem.t :=
  if bool_decide (FileItem.type f = file) && truthy (kbStatusMap !! FileItem.id f)
  then withStatus (kbStatusMap !! FileItem.id f) f else f.

(** A file that has the status [s] in the status map *)
Definition hasKBStatus (kbStatusMap : gmap string string) (s : string)
    (f : FileItem.t) : bool :=
  bool_decide (FileItem.type f = file)
  && bool_decide (kbStatusMap !! FileItem.id f = Some s).

(** The callback of [requestAnimationFrame] *)
Definition writeUpdatedFiles (folderId : string) (updatedFiles : option (list FileItem.t))
    (w : World) : World :=
  match updatedFiles with
  | Some updated => set_driveFiles (<[folderId := updated]> (driveFiles w)) w
  | None => w
  end.

(** * Prefetching of folders ([usePrefetch]) *)

Module Prefetch.

Definition MAX_CONCURRENT_PREFETCHES : Z := 3.

(** The refs of the hook.  [activePrefetches] maps a folder to its
    request; of the request only its timer matters here, and the value
    tells whether the timer is still to fire.  The abort controller of
    a request is aborted only where its timer is cleared, so a timer
    that fires never finds it aborted. *)
Record Refs := mkRefs {
  activePrefetches : gmap string bool;
  visibleFolders : gset string;
  requestQueue : list string;
  activeRequestCount : Z;
}.

Definition initialRefs : Refs := mkRefs ∅ ∅ [] 0.

(** [processQueue], which calls itself past a folder that is not visible
    any more: the queue and the count it leaves, and the folder whose
    prefetch it starts, if any. *)
Fixpoint processQueueFrom (visible : gset string) (count : Z) (queue : list string)
    : list string * Z * option string :=
  if (MAX_CONCURRENT_PREFETCHES <=? count)%Z || (length queue =? 0)%nat
  then (queue, count, None)
  else
    match queue with
    | [] => (queue, count, None)
    | folderId :: rest =>
        if negb (truthy (Some folderId)) then (rest, count, None)
        else if bool_decide (folderId ∈ visible) then
          (rest, (count + 1)%Z, Some folderId)
        else processQueueFrom visible count rest
    end.

Definition processQueue (r : Refs) : Refs * option string :=
  let '(queue, count, o) :=
    processQueueFrom (visibleFolders r) (activeRequestCount r) (requestQueue r) in
  (mkRefs (activePrefetches r) (visibleFolders r) queue count, o).

(** The [finally] of a prefetch that [processQueue] started *)
Definition prefetchSettled (r : Refs) : Refs * option string :=
  processQueue
    (mkRefs (activePrefetches r) (visibleFolders r) (requestQueue r)
       (activeRequestCount r - 1)).

Definition cancelPrefetch (folderId : string) (r : Refs) : Refs :=
  mkRefs (delete folderId (activePrefetches r)) (visibleFolders r)
    (List.filter (λ id, negb (String.eqb id folderId)) (requestQueue r))
    (activeRequestCount r).

(** [startPrefetch(folderId)]: the timer is set and the request stored. *)
Definition startPrefetch (isEnabled : bool) (folderId : string) (r : Refs) : Refs :=
  if negb isEnabled then r
  else if negb (bool_decide (folderId ∈ visibleFolders r)) then r
  else
    let r := cancelPrefetch folderId r in
    mkRefs (<[folderId := true]> (activePrefetches r)) (visibleFolders r)
      (requestQueue r) (activeRequestCount r).

(** The callback of the timer of [startPrefetch] *)
Definition prefetchDue (folderId : string) (r : Refs) : Refs * option string :=
  if bool_decide (folderId ∈ visibleFolders r) then
    if negb (bool_decide (folderId ∈ requestQueue r)) then
      processQueue
        (mkRefs (activePrefetches r) (visibleFolders r)
           (requestQueue r ++ [folderId]) (activeRequestCount r))
    else (r, None)
  else (r, None).

(** The callback of the intersection observer, for one entry *)
Definition observed (folderId : string) (isIntersecting : bool) (r : Refs) : Refs :=
  if negb (truthy (Some folderId)) then r
  else if isIntersecting then
    mkRefs (activePrefetches r) ({[folderId]} ∪ visibleFolders r) (requestQueue r)
      (activeRequestCount r)
  else
    cancelPrefetch folderId
      (mkRefs (activePrefetches r) (visibleFolders r ∖ {[folderId]}) (requestQueue r)
         (activeRequestCount r)).

(** The cleanup that [registerFolder] returns *)
Definition unregisterFolder (folderId : string) (r : Refs) : Refs :=
  cancelPrefetch folderId
    (mkRefs (activePrefetches r) (visibleFolders r ∖ {[folderId]}) (requestQueue r)
       (activeRequestCount r)).

(** The cleanup of the effect that sets the observer up *)
Definition cleanup (r : Refs) : Refs := mkRefs ∅ (visibleFolders r) [] 0.

Definition isPrefetching (folderId : string) (r : Refs) : bool :=
  bool_decide (is_Some (activePrefetches r !! folderId))
  || bool_decide (folderId ∈ requestQueue r).

(** The hook with the prefetches that were started and have not
    settled *)
Record Machine := mkMachine {
  refs : Refs;
  running : list string;
}.

Definition initialMachine : Machine := mkMachine initialRefs [].

(** What can happen to the hook: [startPrefetch], the timer of the
    request of a folder fires, the [i]-th running prefetch settles,
    [cancelPrefetch], the observer reports a folder, the cleanup of a
    registered folder, the cleanup of the effect. *)
Inductive Event :=
  | Start (folderId : string)
  | Due (folderId : string)
  | Settle (i : nat)
  | Cancel (folderId : string)
  | Observe (folderId : string) (isIntersecting : bool)
  | Unregister (folderId : string)
  | Cleanup.

Definition started (o : option string) : list string :=
  match o with Some folderId => [folderId] | None => [] end.

Definition run (isEnabled : bool) (e : Event) (m : Machine) : Machine :=
  match e with
  | Start folderId => mkMachine (startPrefetch isEnabled folderId (refs m)) (running m)
  | Due folderId =>
      match activePrefetches (refs m) !! folderId with
      | Some true =>
          let r :=
            mkRefs (<[folderId := false]> (activePrefetches (refs m)))
              (visibleFolders (refs m)) (requestQueue (refs m))
              (activeRequestCount (refs m)) in
          let '(r, o) := prefetchDue folderId r in
          mkMachine r (running m ++ started o)
      | _ => m
      end
  | Settle i =>
      match running m !! i with
      | Some _ =>
          let '(r, o) := prefetchSettled (refs m) in
          mkMachine r (delete i (running m) ++ started o)
      | None => m
      end
  | Cancel folderId => mkMachine (cancelPrefetch folderId (refs m)) (running m)
  | Observe folderId isIntersecting =>
      mkMachine (observed folderId isIntersecting (refs m)) (running m)
  | Unregister folderId => mkMachine (unregisterFolder folderId (refs m)) (running m)
  | Cleanup => mkMachine (cleanup (refs m)) (running m)
  end.

Definition runAll (isEnabled : bool) (events : list Event) (m : Machine) : Machine :=
  fold_left (λ m e, run isEnabled e m) events m.

Definition isCleanup (e : Event) : bool :=
  match e with Cleanup => true | _ => false end.

(** What holds of the refs whatever happens: the count is within the
    limit and no greater than the number of running prefetches; the
    queue holds no folder twice, and only folders that are visible and
    have a request; no folder without an id is visible. *)
Definition refsKept (r : Refs) (prefetches : list string) : Prop :=
  (activeRequestCount r ≤ MAX_CONCURRENT_PREFETCHES)%Z
  ∧ (activeRequestCount r ≤ Z.of_nat (length prefetches))%Z
  ∧ NoDup (requestQueue r)
  ∧ (∀ folderId, folderId ∈ requestQueue r →
       folderId ∈ visibleFolders r ∧ is_Some (activePrefetches r !! folderId))
  ∧ EmptyString ∉ visibleFolders r.

(** What holds as long as the effect was not cleaned up: the count is
    the number of running prefetches, and a folder waits in the queue
    only while the limit is reached. *)
Definition countExact (r : Refs) (prefetches : list string) : Prop :=
  activeRequestCount r = Z.of_nat (length prefetches)
  ∧ (requestQueue r = [] ∨ activeRequestCount r = MAX_CONCURRENT_PREFETCHES).

End Prefetch.

(** * Expanding and collapsing a folder ([useFileTree/folderOperations.ts]) *)

(** What [toggleFolder] leaves to happen later: the timer after which
    the folder is polled, the call of [pollFolderStatus], and the write
    that [updateCachedFilesWithStatus] leaves to the next animation
    frame. *)
Inductive Scheduled :=
  | PollAfterDelay (folderPath folderId : string)
  | PollNow (folderPath folderId : string)
  | FrameWrite (folderId : string) (updatedFiles : list FileItem.t).

(** What [toggleFolder] works on: the state of the tree, the caches, the
    memo of the resolver and the refs of the prefetches. *)
Record Picker := mkPicker {
  tree : TreeState;
  pickerWorld : World;
  pickerMemo : StatusCache;
  prefetches : Prefetch.Refs;
  scheduled : list Scheduled;
}.

(** Where a call of [toggleFolder] stands when it gives way: it has
    returned, it awaits the contents of the folder, or it awaits the
    statuses of the KB for the folder path. *)
Inductive ToggleNext :=
  | Returned
  | AwaitContents
  | AwaitStatus (folderPath : string) (contents : list FileItem.t).

(** [setExpandedFolders((prev) => new Set(prev).add(folderId))] *)
Definition expand (folderId : string) (p : Picker) : Picker :=
  mkPicker
    (setExpandedFolders ({[folderId]} ∪ expandedFolders (tree p)) (tree p))
    (pickerWorld p) (pickerMemo p) (prefetches p) (scheduled p).

(** The [finally] of [toggleFolder] *)
Definition loaded (folderId : string) (p : Picker) : Picker :=
  mkPicker
    (setLoadingFolders (loadingFolders (tree p) ∖ {[folderId]}) (tree p))
    (pickerWorld p) (pickerMemo p) (prefetches p) (scheduled p).

Definition schedule (s : Scheduled) (p : Picker) : Picker :=
  mkPicker (tree p) (pickerWorld p) (pickerMemo p) (prefetches p)
    (scheduled p ++ [s]).

(** [toggleFolder(folderId)] up to its first [await].
    [expandedInClosure] is the value of [expandedFolders] that the
    callback closed over. *)
Definition toggleFolder_called (expandedInClosure : gset string) (folderId : string)
    (p : Picker) : Picker * ToggleNext :=
  if bool_decide (folderId ∈ expandedInClosure) then
    (mkPicker
       (setExpandedFolders (expandedFolders (tree p) ∖ {[folderId]}) (tree p))
       (pickerWorld p) (pickerMemo p) (prefetches p) (scheduled p),
     Returned)
  else
    (mkPicker
       (setLoadingFolders ({[folderId]} ∪ loadingFolders (tree p)) (tree p))
       (pickerWorld p) (pickerMemo p)
       (Prefetch.cancelPrefetch folderId (prefetches p)) (scheduled p),
     AwaitContents).

(** [toggleFolder] from the moment [fetchFolderContents] has settled.
    [fetched] is the listing it resolved with, which the query client
    has cached ([None]: it threw). *)
Definition toggleFolder_contents (kbId : option string) (isCreatingKB : bool)
    (folderId : string) (fetched : option (list FileItem.t)) (isoString : string)
    (p : Picker) : Picker * ToggleNext :=
  match fetched with
  | None => (loaded folderId (expand folderId p), Returned)
  | Some contents =>
      let w := set_driveFiles (<[folderId := contents]> (driveFiles (pickerWorld p)))
                 (pickerWorld p) in
      let p := mkPicker (tree p) w (pickerMemo p) (prefetches p) (scheduled p) in
      if truthy kbId && bool_decide (0 < length contents)%nat then
        let folderPath := getFolderPath contents in
        let '(resolved, statusCache) :=
          resolveFileStatus w (pickerMemo p) EmptyString kbId (Some folderPath) in
        let p := mkPicker (tree p) w statusCache (prefetches p) (scheduled p) in
        if bool_decide (resolved = Status "indexed") then
          let optimisticFiles :=
            List.map (λ f,
              FileItem.mk (FileItem.id f) (FileItem.name f) (FileItem.type f)
                (FileItem.size f) (Some "indexed") (Some isoString))
              (List.filter (λ f, bool_decide (FileItem.type f = file)) contents) in
          let w :=
            set_kbFileStatus
              (<[(orEmpty kbId, folderPath) := optimisticFiles]> (kbFileStatus w)) w in
          let p := mkPicker (tree p) w statusCache (prefetches p) (scheduled p) in
          let p :=
            if negb isCreatingKB then schedule (PollAfterDelay folderPath folderId) p
            else
              mkPicker
                (setDelayedPollingFolders
                   (setAdd folderId (delayedPollingFolders (tree p))) (tree p))
                (pickerWorld p) (pickerMemo p) (prefetches p) (scheduled p) in
          (loaded folderId (expand folderId p), Returned)
        else if negb isCreatingKB then (p, AwaitStatus folderPath contents)
        else (loaded folderId (expand folderId p), Returned)
      else (loaded folderId (expand folderId p), Returned)
  end.

(** [fetchKBStatusForFolder(folderPath)] without a forced refresh, from
    the listing that the query resolves with and caches ([None]: it
    threw): the status map and the caches it leaves. *)
Definition fetchKBStatusForFolder (kbId : option string) (folderPath : string)
    (response : option (list FileItem.t)) (w : World) : gmap string string * World :=
  if negb (truthy kbId) then (∅, w)
  else
    match response with
    | None => (∅, w)
    | Some data =>
        (kbStatusMapOf data,
         set_kbFileStatus (<[(orEmpty kbId, folderPath) := data]> (kbFileStatus w)) w)
    end.

(** [toggleFolder] from the moment [fetchKBStatusForFolder] has
    settled *)
Definition toggleFolder_status (kbId : option string) (folderId folderPath : string)
    (contents : list FileItem.t) (response : option (list FileItem.t)) (p : Picker)
    : Picker :=
  let '(kbStatusMap, w) :=
    fetchKBStatusForFolder kbId folderPath response (pickerWorld p) in
  let p := mkPicker (tree p) w (pickerMemo p) (prefetches p) (scheduled p) in
  let p :=
    match snd (updateCachedFilesWithStatus folderId kbStatusMap w) with
    | Some updatedFiles => schedule (FrameWrite folderId updatedFiles) p
    | None => p
    end in
  let files := List.filter (λ f, bool_decide (FileItem.type f = file)) contents in
  let hasPendingFiles :=
    existsb (λ f, bool_decide (kbStatusMap !! FileItem.id f = Some "pending")) files in
  let p := if hasPendingFiles then schedule (PollNow folderPath folderId) p else p in
  loaded folderId (expand folderId p).

(** The effect of [useFileTree] that takes up the folders put aside
    while the KB was being created: one turn of its [forEach], which
    sets the timer of a poll. *)
Definition pollDelayed (kbId : string) (w : World) (timers : list Scheduled)
    (folderId : string) : list Scheduled :=
  match driveFiles w !! folderId with
  | Some data =>
      if bool_decide (0 < length data)%nat then
        let folderPath := getFolderPath data in
        if isDescendantOfOptimisticFolder kbId folderPath w
        then (timers ++ [PollAfterDelay folderPath folderId])%list
        else timers
      else timers
  | None => timers
  end.

(** After a toggle the folder shows expanded and not loading, and the
    other folders show as they did. *)
Definition shownExpanded (folderId : string) (before after : TreeState) : Prop :=
  folderId ∈ expandedFolders after
  ∧ (folderId ∉ loadingFolders after)
  ∧ (∀ other, other ≠ folderId →
       (other ∈ expandedFolders after ↔ other ∈ expandedFolders before)
       ∧ (other ∈ loadingFolders after ↔ other ∈ loadingFolders before))
  ∧ errorToastShown after = errorToastShown before
  ∧ refreshTrigger after = refreshTrigger before.

Definition delayedPollingEffect (isCreatingKB : bool) (kbId : option string)
    (p : Picker) : Picker :=
  if negb isCreatingKB && truthy kbId
     && bool_decide (0 < length (delayedPollingFolders (tree p)))%nat
  then
    mkPicker (setDelayedPollingFolders [] (tree p)) (pickerWorld p) (pickerMemo p)
      (prefetches p)
      (fold_left (pollDelayed (orEmpty kbId) (pickerWorld p))
         (delayedPollingFolders (tree p)) (scheduled p))
  else p.

(** * The resolver between renders ([useDataManager/optimisticRegistry.ts]) *)

(** The hook [useOptimisticRegistry] as the page holds it: the memo
    [statusCacheRef.current], the [lastUpdated] of the optimistic update
    counter, and the two dependencies with which the effect that clears
    the memo last ran ([None]: it has not run yet). *)
Record Resolver := mkResolver {
  resolverMemo : StatusCache;
  counterLastUpdated : Z;
  clearedFor : option (Z * Z);
}.

(** The hook as it mounts at [now] *)
Definition mountedResolver (now : Z) : Resolver := mkResolver ∅ now None.

(** [incrementOptimisticUpdateCounter], when its animation frame comes *)
Definition counterIncremented (now : Z) (r : Resolver) : Resolver :=
  mkResolver (resolverMemo r) now (clearedFor r).

(** The effect [statusCacheRef.current.clear()], which React runs after
    a render when [registryData?.lastUpdated] or
    [optimisticUpdateCounter?.lastUpdated] is not what it was at the
    render before, and after the first render. *)
Definition clearingEffect (w : World) (r : Resolver) : Resolver :=
  let deps :=
    (OptimisticDeleteRegistryData.lastUpdated (registryData w), counterLastUpdated r) in
  if bool_decide (clearedFor r = Some deps) then r
  else mkResolver ∅ (counterLastUpdated r) (Some deps).

(** The calls of [resolveFileStatus] that the components make while they
    render, one after the other over the same memo *)
Fixpoint resolveAll (w : World) (statusCache : StatusCache)
    (asked : list (string * option string * option string))
    : list StatusValue * StatusCache :=
  match asked with
  | [] => ([], statusCache)
  | (fileId, kbId, folderPath) :: rest =>
      let '(status, statusCache) :=
        resolveFileStatus w statusCache fileId kbId folderPath in
      let '(statuses, statusCache) := resolveAll w statusCache rest in
      (status :: statuses, statusCache)
  end.

(** A render of the page in which the components ask for the statuses
    [asked], followed by its effects: what the components show, and the
    hook afterwards. *)
Definition rendered (w : World) (asked : list (string * option string * option string))
    (r : Resolver) : list StatusValue * Resolver :=
  let '(shown, statusCache) := resolveAll w (resolverMemo r) asked in
  (shown, clearingEffect w (mkResolver statusCache (counterLastUpdated r) (clearedFor r))).

(** ** A file deleted after it was shown *)

(** The root poller has stored a listing with the file [s.txt],
    indexed. *)
Definition listedFile : FileItem.t :=
  FileItem.mk "r2" "s.txt" file 30 (Some "indexed") None.

Definition listedWorld : World :=
  snd (rootRefetched true (Some "kb-9") (Some [listedFile]) 2000
         (initialPollingState 1000, pollWorld)).

(** The page has rendered twice with the row of [s.txt] since. *)
Definition listedResolver : Resolver :=
  snd (rendered listedWorld [("r2", Some "kb-9", None)]
         (snd (rendered listedWorld [("r2", Some "kb-9", None)]
                 (mountedResolver 1000)))).

(** The user deletes [s.txt]. *)
Definition deletedWorld : World :=
  fst (deleteSelectedFiles ["r2"] [listedFile] 5000 listedWorld).

(** ** A folder polled after its files were shown *)





(** * Reachable pages *)

(** The page between two callbacks: the world; the contexts of the
    creations begun on it (a background fetch of [onMutate] holds the
    context of its creation until it settles, also after the creation
    itself has settled, and [indexedFolders] is the array [folderFiles]
    of such a context, which the background fetches push onto); the
    folder polls of [useKnowledgeBaseStatus] that are under way; the
    folder paths for which the picker has a fetch of the KB statuses
    under way or a poll set; and the calls of [processQueue] under
    way. *)
Record Page := mkPage {
  pageWorld : World;
  creations : list MutationContext.t;
  folderPolls : list FolderPoll;
  statusFetches : list string;
  drains : list Drain.Call;
}.

(** The page after a first load at [now], with an empty browser storage *)
Definition firstLoad (now : Z) : Page := mkPage (initialWorld now) [] [] [] [].

Definition set_pageWorld (w : World) (p : Page) : Page :=
  mkPage w (creations p) (folderPolls p) (statusFetches p) (drains p).

Definition addCreation (context : MutationContext.t) (p : Page) : Page :=
  mkPage (pageWorld p) (context :: creations p) (folderPolls p) (statusFetches p)
    (drains p).

Definition addFolderPolls (polls : list FolderPoll) (p : Page) : Page :=
  mkPage (pageWorld p) (creations p) (folderPolls p ++ polls) (statusFetches p)
    (drains p).

Definition addStatusFetches (folderPaths : list string) (p : Page) : Page :=
  mkPage (pageWorld p) (creations p) (folderPolls p) (statusFetches p ++ folderPaths)
    (drains p).

(** The folder paths of the polls that the picker has set *)
Definition scheduledPaths (timers : list Scheduled) : list string :=
  flat_map (λ s,
    match s with
    | PollAfterDelay folderPath _ | PollNow folderPath _ => [folderPath]
    | FrameWrite _ _ => []
    end) timers.

(** The folder path whose statuses [toggleFolder] awaits *)
Definition awaitedPaths (next : ToggleNext) : list string :=
  match next with
  | AwaitStatus folderPath _ => [folderPath]
  | _ => []
  end.

(** [toggleFolder] from the moment the contents have settled, as the
    page sees it: the world it leaves, and the folder paths it polls
    later or fetches the statuses of. *)
Definition toggledContents (kbId : option string) (isCreatingKB : bool)
    (folderId : string) (fetched : option (list FileItem.t)) (isoString : string)
    (treeState : TreeState) (statusCache : StatusCache) (refs : Prefetch.Refs)
    (p : Page) : Page :=
  let r :=
    toggleFolder_contents kbId isCreatingKB folderId fetched isoString
      (mkPicker treeState (pageWorld p) statusCache refs []) in
  addStatusFetches (scheduledPaths (scheduled (fst r)) ++ awaitedPaths (snd r))
    (set_pageWorld (pickerWorld (fst r)) p).

(** The effect of [useFileTree] that takes up the folders put aside
    during the creation, as the page sees it *)
Definition delayedPollsSet (isCreatingKB : bool) (kbId : option string)
    (treeState : TreeState) (statusCache : StatusCache) (refs : Prefetch.Refs)
    (p : Page) : Page :=
  addStatusFetches
    (scheduledPaths
       (scheduled (delayedPollingEffect isCreatingKB kbId
                     (mkPicker treeState (pageWorld p) statusCache refs []))))
    p.

(** [prefetchFolderContents] of [useFileSelection], once it holds the
    listing [data] of the folder: with a KB and a listing that is not
    empty, it fetches the KB statuses of the folder path when the cache
    has none. *)
Definition prefetchStatusDue (kbId : option string) (data : list FileItem.t)
    (w : World) : list string :=
  if truthy kbId && bool_decide (0 < length data)%nat then
    let folderPath := getFolderPath data in
    match kbFileStatus w !! (orEmpty kbId, folderPath) with
    | Some _ => []
    | None => [folderPath]
    end
  else [].

(** An event of the drain of the delete queue, as the page sees it *)
Definition drained (ev : Drain.Event) (p : Page) : Page :=
  let m := Drain.run (Drain.mkMachine (pageWorld p) (drains p) []) ev in
  mkPage (Drain.world m) (creations p) (folderPolls p) (statusFetches p)
    (Drain.calls m).

(** One step of the page: a callback of the hooks runs to its end, or
    to the point where it awaits something.

    - A creation begins ([onMutate]), one of its background fetches
      settles, it succeeds or it fails.
    - Files are deleted, and the deletion settles.
    - The picker writes a listing to the drive-files cache (the contents
      of a folder, a prefetch, the write that
      [updateCachedFilesWithStatus] leaves to the next frame);
      [toggleFolder] goes on after the contents have settled; the effect
      of the delayed polls runs; a prefetch finds that it has to fetch
      the KB statuses of a folder path; a fetch of the KB statuses that
      is under way settles ([fetchKBStatusForFolder] of [toggleFolder]
      and of the poller of the tree, and the prefetch, which stores the
      listing in the same way).
    - A refetch of the root listing settles; the folder polls start over
      the indexed folders; a folder poll gets its response.
    - [processQueue] is called, by hand or by the effect; one of its
      calls of the service settles; one of its pauses is over.
    - The page is reloaded and restores its caches; [createNewKB]. *)
Inductive step : Page → Page → Prop :=
  | step_onMutate resourceIds files clock p :
      step p
        (addCreation (snd (fst (onMutate resourceIds files clock (pageWorld p))))
           (set_pageWorld (fst (fst (onMutate resourceIds files clock (pageWorld p))))
              p))
  | step_backgroundFetch folderId files response clock context p :
      context ∈ creations p →
      step p
        (addCreation
           (snd (backgroundFetchSettled folderId files response clock
                   (pageWorld p, context)))
           (set_pageWorld
              (fst (backgroundFetchSettled folderId files response clock
                      (pageWorld p, context))) p))
  | step_created kb resourceIds files now context p :
      context ∈ creations p →
      KnowledgeBase.id kb ≠ EmptyString →
      step p
        (set_pageWorld
           (createKBSettled (Resolved kb resourceIds) files (Some context) now
              (pageWorld p)) p)
  | step_rejected files now context p :
      context ∈ creations p →
      step p
        (set_pageWorld (createKBSettled Rejected files (Some context) now (pageWorld p))
           p)
  | step_delete selectedIds files now p :
      step p
        (set_pageWorld (fst (deleteSelectedFiles selectedIds files now (pageWorld p))) p)
  | step_deleted ok now p :
      step p (set_pageWorld (deleteFilesSettled ok now (pageWorld p)) p)
  | step_driveFiles folderId listing p :
      step p
        (set_pageWorld
           (set_driveFiles (<[folderId := listing]> (driveFiles (pageWorld p)))
              (pageWorld p)) p)
  | step_toggleContents kbId isCreatingKB folderId fetched isoString treeState statusCache
      refs p :
      step p
        (toggledContents kbId isCreatingKB folderId fetched isoString treeState statusCache
           refs p)
  | step_delayedPolling isCreatingKB kbId treeState statusCache refs p :
      step p (delayedPollsSet isCreatingKB kbId treeState statusCache refs p)
  | step_prefetchDue kbId data p :
      step p (addStatusFetches (prefetchStatusDue kbId data (pageWorld p)) p)
  | step_statusFetched kbId folderPath response p :
      folderPath ∈ statusFetches p →
      step p
        (set_pageWorld
           (snd (fetchKBStatusForFolder kbId folderPath response (pageWorld p))) p)
  | step_rootRefetched enabled kbId response now polling p :
      step p
        (set_pageWorld
           (snd (rootRefetched enabled kbId response now (polling, pageWorld p))) p)
  | step_startFolderPolls shown context p :
      context ∈ creations p →
      step p (addFolderPolls (pollsStarted shown (MutationContext.folderFiles context)) p)
  | step_pollFolder kbId poll response polling p :
      poll ∈ folderPolls p →
      step p
        (set_pageWorld
           (snd (snd (pollFolderStatus kbId true (shownThen poll) (polledPath poll)
                        (polledFileIds poll) response (polling, pageWorld p)))) p)
  | step_processQueue now p : step p (drained (Drain.Called now) p)
  | step_queueEffect now p : step p (drained (Drain.EffectRun now) p)
  | step_callSettled i ok now p : step p (drained (Drain.CallSettled i ok now) p)
  | step_pauseOver i now p : step p (drained (Drain.PauseOver i now) p)
  | step_reload now restoredAt p :
      step p
        (mkPage (restoreCacheFromStorage restoredAt (reloadPage now (pageWorld p)))
           [] [] [] [])
  | step_createNewKB now p :
      step p (mkPage (createNewKB now (pageWorld p)) [] [] [] []).

(** The pages that can be reached from a first load with an empty
    browser storage *)
Definition reachable (p : Page) : Prop :=
  ∃ now, rtc step (firstLoad now) p.

(** What holds of the page next to the well-formedness of its world: the
    creations have a temporary id and folder paths that are not empty,
    and so have the folder polls and the fetches of statuses under
    way. *)
Definition pageWellFormed (p : Page) : Prop :=
  wellFormed (pageWorld p)
  ∧ Forall (λ context,
      KnowledgeBase.id (MutationContext.optimisticKB context) ≠ EmptyString
      ∧ Forall (λ ff, FolderFiles.folderPath ff ≠ EmptyString)
          (MutationContext.folderFiles context)) (creations p)
  ∧ Forall (λ poll, polledPath poll ≠ EmptyString) (folderPolls p)
  ∧ Forall (λ folderPath, folderPath ≠ EmptyString) (statusFetches p).

(** * Properties *)

(** ** Strings and truthiness *)

Lemma truthy_Some s : truthy (Some s) = true ↔ s ≠ EmptyString.
Proof.
  unfold truthy. rewrite negb_true_iff. split.
  - intros H ->. discriminate.
  - intros H. apply String.eqb_neq. exact H.
Qed.

Lemma truthy_Some_false s : truthy (Some s) = false ↔ s = EmptyString.
Proof.
  unfold truthy. rewrite negb_false_iff. apply String.eqb_eq.
Qed.

Lemma truthy_orEmpty o : truthy o = true → o = Some (orEmpty o).
Proof. destruct o; [reflexivity | discriminate]. Qed.

Lemma startsWith_app s p : startsWith s p = true ↔ ∃ rest, s = p +:+ rest.
Proof.
  revert s. induction p as [|c p IH]; intros s; simpl.
  - split; [intros _; exists s; reflexivity | reflexivity].
  - destruct s as [|d s].
    + split; [discriminate | intros [rest H]; discriminate].
    + rewrite andb_true_iff, Ascii.eqb_eq, IH. split.
      * intros [-> [rest ->]]. exists rest. reflexivity.
      * intros [rest H]. injection H as -> ->. split; [reflexivity | eauto].
Qed.

Lemma string_app_cons x (a b : string) : String x a +:+ b = String x (a +:+ b).
Proof. reflexivity. Qed.

Lemma string_app_assoc (a b c : string) : (a +:+ b) +:+ c = a +:+ (b +:+ c).
Proof.
  induction a as [|x a IH]; [reflexivity|].
  by rewrite !string_app_cons, IH.
Qed.

Lemma string_app_length (a b : string) :
  String.length (a +:+ b) = (String.length a + String.length b)%nat.
Proof.
  induction a as [|x a IH]; [reflexivity|].
  rewrite string_app_cons. simpl. by rewrite IH.
Qed.

Lemma coversTarget_Covers target registeredPath :
  coversTarget target registeredPath = true ↔ Covers target registeredPath.
Proof.
  unfold coversTarget, Covers.
  rewrite orb_true_iff, startsWith_app, String.eqb_eq. split.
  - intros [[rest H] | H]; [right | left; exact H].
    exists rest. rewrite H. apply string_app_assoc.
  - intros [H | [rest H]]; [right; exact H | left].
    exists rest. rewrite H. symmetry. apply string_app_assoc.
Qed.

(** ** Sync state *)

Lemma updateSyncState_kbId newState kbId now w :
  SyncStateData.kbId (syncStateData (updateSyncState newState kbId now w))
  = or_else kbId (SyncStateData.kbId (syncStateData w)).
Proof. reflexivity. Qed.

Lemma updateSyncState_state newState kbId now w :
  SyncStateData.state (syncStateData (updateSyncState newState kbId now w)) = newState.
Proof. reflexivity. Qed.

Lemma updateSyncStates_snoc calls call w :
  updateSyncStates (calls ++ [call]) w
  = updateSyncState (fst (fst call)) (snd (fst call)) (snd call)
      (updateSyncStates calls w).
Proof. unfold updateSyncStates. by rewrite fold_left_app. Qed.

Lemma lastKbIdPassed_snoc calls call :
  lastKbIdPassed (calls ++ [call])
  = if truthy (snd (fst call)) then Some (snd (fst call)) else lastKbIdPassed calls.
Proof.
  unfold lastKbIdPassed. rewrite fmap_app, List.filter_app. simpl.
  destruct (truthy (snd (fst call))).
  - apply last_snoc.
  - by rewrite app_nil_r.
Qed.

(** C10. [updateSyncState] keeps the stored kbId whenever it is called
    with a null or empty kbId: after any sequence of calls the stored
    kbId is the last non-empty one that was passed (the initial one when
    none was), and [resetSyncState] and [setSyncCompleted] with the empty
    string set the state field and leave the kbId as it was. *)
Theorem updateSyncState_remembers_kbId calls w :
  SyncStateData.kbId (syncStateData (updateSyncStates calls w))
  = default (SyncStateData.kbId (syncStateData w)) (lastKbIdPassed calls)
  ∧ (∀ now,
       SyncStateData.state (syncStateData (resetSyncState now w)) = idle
       ∧ SyncStateData.kbId (syncStateData (resetSyncState now w))
         = SyncStateData.kbId (syncStateData w))
  ∧ (∀ now,
       SyncStateData.state (syncStateData (setSyncCompleted EmptyString now w)) = synced
       ∧ SyncStateData.kbId (syncStateData (setSyncCompleted EmptyString now w))
         = SyncStateData.kbId (syncStateData w)).
Proof.
  split; [|split; intros now; split; reflexivity].
  induction calls as [|call calls IH] using rev_ind; [reflexivity|].
  rewrite updateSyncStates_snoc, updateSyncState_kbId, lastKbIdPassed_snoc, IH.
  unfold or_else. by destruct (truthy (snd (fst call))).
Qed.

(** A remembered kbId is never cleared back to null. *)
Lemma updateSyncStates_never_clears calls w :
  truthy (SyncStateData.kbId (syncStateData w)) = true →
  truthy (SyncStateData.kbId (syncStateData (updateSyncStates calls w))) = true.
Proof.
  intros H. induction calls as [|call calls IH] using rev_ind; [exact H|].
  rewrite updateSyncStates_snoc, updateSyncState_kbId. unfold or_else.
  by destruct (truthy (snd (fst call))) eqn:E.
Qed.

Example sync_state_after_rollback_calls :
  let w := updateSyncStates
             [(pending, Some "temp-17", 1); (synced, Some EmptyString, 2);
              (idle, None, 3)] (initialWorld 0) in
  syncStateData w = SyncStateData.mk idle (Some "temp-17") 3.
Proof. reflexivity. Qed.

(** ** Status resolver *)

Lemma resolveFileStatus_fresh w statusCache fileId kbId folderPath :
  memoFresh w statusCache fileId kbId folderPath →
  fst (resolveFileStatus w statusCache fileId kbId folderPath)
  = computeFileStatus w fileId kbId folderPath.
Proof.
  intros Hfresh. unfold resolveFileStatus.
  destruct (statusCache !! cacheKey fileId kbId folderPath) as [v|] eqn:E; simpl.
  - by apply Hfresh.
  - reflexivity.
Qed.

Lemma memoFresh_empty w fileId kbId folderPath :
  memoFresh w ∅ fileId kbId folderPath.
Proof. intros v H. by rewrite lookup_empty in H. Qed.

Lemma memoFresh_miss w statusCache fileId kbId folderPath :
  statusCache !! cacheKey fileId kbId folderPath = None →
  memoFresh w statusCache fileId kbId folderPath.
Proof. intros Hmiss v H. congruence. Qed.

(** A lookup stores what it returns, and the next lookup under the same
    key returns it from the memo. *)
Lemma resolveFileStatus_memoises w w' statusCache fileId kbId folderPath :
  let r := resolveFileStatus w statusCache fileId kbId folderPath in
  snd r !! cacheKey fileId kbId folderPath = Some (fst r)
  ∧ fst (resolveFileStatus w' (snd r) fileId kbId folderPath) = fst r.
Proof.
  unfold resolveFileStatus.
  destruct (statusCache !! cacheKey fileId kbId folderPath) as [v|] eqn:E; simpl.
  - by rewrite E.
  - by rewrite lookup_insert_eq.
Qed.

(** With a memo that holds nothing stale under the key of the lookup, a
    file that is in the optimistic delete registry resolves to Deleted,
    the dash, for every kbId and folderPath and whatever the root cache
    and the folder-status caches hold. *)
Lemma resolveFileStatus_deleted w statusCache fileId kbId folderPath :
  is_Some (optimisticDeleteEntries w !! fileId) →
  memoFresh w statusCache fileId kbId folderPath →
  fst (resolveFileStatus w statusCache fileId kbId folderPath) = Deleted.
Proof.
  intros Hin Hfresh. rewrite resolveFileStatus_fresh by exact Hfresh.
  unfold computeFileStatus. by rewrite bool_decide_eq_true_2.
Qed.

Example resolveFileStatus_deleted_example :
  let w := set_kbResources
             {[ "kb-1" := [FileItem.mk "f1" "a.txt" file 10 (Some "indexed") None] ]}
             (markFileAsDeleted "f1" "a.txt" "kb-1" 5 (initialWorld 0)) in
  fst (resolveFileStatus w ∅ "f1" (Some "kb-1") (Some "/")) = Deleted.
Proof.
  apply resolveFileStatus_deleted.
  - eexists. reflexivity.
  - apply memoFresh_empty.
Qed.

Lemma computeFileStatus_not_deleted w fileId kbId folderPath :
  optimisticDeleteEntries w !! fileId = None →
  cachesWellKeyed w →
  computeFileStatus w fileId kbId folderPath
  = match rootRecord w kbId fileId with
    | Some resource => displayStatus resource
    | None =>
        match folderRecord w kbId folderPath fileId with
        | Some folderFile => displayStatus folderFile
        | None =>
            if underOptimisticFolder w kbId folderPath then Indexed else Absent
        end
    end.
Proof.
  intros Hout [Hroot Hfolder]. unfold computeFileStatus.
  rewrite bool_decide_eq_false_2 by (rewrite Hout; by intros [? ?]).
  assert (Hr : (if truthy kbId
                then kbResources w !! orEmpty kbId ≫= λ data, findFile data fileId
                else None) = rootRecord w kbId fileId).
  { destruct kbId as [k|]; [|reflexivity]. simpl.
    destruct (negb (String.eqb k EmptyString)) eqn:E; [reflexivity|].
    apply negb_false_iff, String.eqb_eq in E. subst k.
    destruct (kbResources w !! EmptyString) eqn:E'; [|reflexivity].
    by destruct (Hroot EmptyString). }
  rewrite Hr. destruct (rootRecord w kbId fileId); [reflexivity|].
  assert (Hf : (if truthy kbId && truthy folderPath
                then kbFileStatus w !! (orEmpty kbId, orEmpty folderPath)
                       ≫= λ data, findFile data fileId
                else None) = folderRecord w kbId folderPath fileId).
  { destruct kbId as [k|]; [|reflexivity].
    destruct folderPath as [p|]; [|by rewrite andb_false_r].
    simpl. destruct (kbFileStatus w !! (k, p)) eqn:E'.
    - destruct (Hfolder k p) as [Hk Hp]; [by eexists|].
      apply String.eqb_neq in Hk, Hp. by rewrite Hk, Hp.
    - by destruct (negb _ && negb _). }
  rewrite Hf. destruct (folderRecord w kbId folderPath fileId); [reflexivity|].
  destruct kbId as [k|]; [|reflexivity].
  destruct folderPath as [p|]; [|by rewrite andb_false_r].
  simpl. unfold isDescendantOfOptimisticFolder. simpl.
  destruct (negb (String.eqb k EmptyString)), (negb (String.eqb p EmptyString));
    reflexivity.
Qed.

(** With a memo that holds nothing stale under the key of the lookup, a
    file that is not in the optimistic delete registry resolves to the
    status of its record in the root cache of the KB when there is one,
    otherwise to the status of its record in the folder-status cache of
    the KB and folder path, pending being shown as indexed in both
    cases; when neither cache has the file and the folder path is not
    under a registered optimistic folder, it resolves to Absent. *)
Lemma resolveFileStatus_from_caches w statusCache fileId kbId folderPath :
  optimisticDeleteEntries w !! fileId = None →
  cachesWellKeyed w →
  memoFresh w statusCache fileId kbId folderPath →
  let resolved := fst (resolveFileStatus w statusCache fileId kbId folderPath) in
  (∀ resource, rootRecord w kbId fileId = Some resource →
     resolved = displayStatus resource)
  ∧ (∀ folderFile, rootRecord w kbId fileId = None →
       folderRecord w kbId folderPath fileId = Some folderFile →
       resolved = displayStatus folderFile)
  ∧ (rootRecord w kbId fileId = None →
     folderRecord w kbId folderPath fileId = None →
     underOptimisticFolder w kbId folderPath = false →
     resolved = Absent)
  ∧ (∀ resource,
       displayStatus resource
       = match FileItem.status resource with
         | Some s => if decide (s = "pending") then Indexed else Status s
         | None => Undefined
         end).
Proof.
  intros Hout Hkeyed Hfresh resolved. subst resolved.
  rewrite resolveFileStatus_fresh by exact Hfresh.
  rewrite computeFileStatus_not_deleted by assumption.
  repeat split.
  - intros resource ->. reflexivity.
  - intros folderFile -> ->. reflexivity.
  - intros -> -> ->. reflexivity.
  - intros resource. unfold displayStatus.
    destruct (FileItem.status resource) as [s|]; [|reflexivity].
    destruct (decide (s = "pending")) as [->|Hne]; [reflexivity|].
    apply String.eqb_neq in Hne. by rewrite Hne.
Qed.

Example resolveFileStatus_from_caches_example :
  let w := set_kbResources
             {[ "kb-1" := [FileItem.mk "f1" "a.txt" file 10 (Some "pending") None] ]}
             (initialWorld 0) in
  optimisticDeleteEntries w !! "f1" = None
  ∧ cachesWellKeyed w
  ∧ fst (resolveFileStatus w ∅ "f1" (Some "kb-1") (Some "/")) = Indexed.
Proof.
  intros w.
  assert (Hout : optimisticDeleteEntries w !! "f1" = None) by reflexivity.
  assert (Hkeyed : cachesWellKeyed w).
  { split.
    - intros k [d H] ->. vm_compute in H. discriminate.
    - intros k p [d H]. simpl in H. by rewrite lookup_empty in H. }
  split; [exact Hout | split; [exact Hkeyed|]].
  destruct (resolveFileStatus_from_caches w ∅ "f1" (Some "kb-1") (Some "/")
              Hout Hkeyed (memoFresh_empty _ _ _ _)) as (Hroot & _).
  apply (Hroot (FileItem.mk "f1" "a.txt" file 10 (Some "pending") None)).
  reflexivity.
Qed.

(** ** Optimistic folder registry *)

Lemma anyCovers_spec target entries :
  anyCovers target entries = true
  ↔ ∃ entry, In entry entries
      ∧ coversTarget target (OptimisticFolderEntry.folderPath entry) = true.
Proof.
  induction entries as [|e entries IH]; simpl.
  - split; [discriminate | intros (? & [] & _)].
  - destruct (coversTarget target (OptimisticFolderEntry.folderPath e)) eqn:E.
    + split; [intros _; exists e; auto | reflexivity].
    + rewrite IH. split.
      * intros (e' & Hin & Hc). exists e'. auto.
      * intros (e' & [-> | Hin] & Hc); [congruence | exists e'; auto].
Qed.

Lemma kbEntries_In kbId entries entry :
  In entry (kbEntries kbId entries)
  ↔ entry ∈ (snd <$> entries) ∧ OptimisticFolderEntry.kbId entry = kbId.
Proof.
  unfold kbEntries. rewrite List.filter_In, String.eqb_eq.
  by rewrite <- list_elem_of_In.
Qed.

Lemma matchingEntry_kbEntries w kbId path entry :
  matchingEntry w kbId path entry
  ↔ In entry (kbEntries kbId (optimisticFolderEntries w))
    ∧ coversTarget (normalizedTarget path)
        (OptimisticFolderEntry.folderPath entry) = true.
Proof.
  unfold matchingEntry. rewrite kbEntries_In, coversTarget_Covers. tauto.
Qed.

Lemma closerAncestor_closest target seen acc entry :
  closest target seen acc →
  closest target (seen ++ [entry]) (closerAncestor target acc entry).
Proof.
  intros (Hbest & Hnone & Hmax). unfold closerAncestor.
  destruct (coversTarget target (OptimisticFolderEntry.folderPath entry)) eqn:Hc.
  - case_bool_decide as Hlt; simpl.
    + split; [|split].
      * intros e [= <-]. rewrite in_app_iff. simpl. auto.
      * discriminate.
      * intros e [Hin | [<- | []]]%in_app_iff He; simpl; [|lia].
        specialize (Hmax e Hin He). lia.
    + split; [|split].
      * intros e He. destruct (Hbest e He) as (? & ? & ?).
        rewrite in_app_iff. auto.
      * exact Hnone.
      * intros e [Hin | [<- | []]]%in_app_iff He; [by apply Hmax | lia].
  - split; [|split].
    + intros e He. destruct (Hbest e He) as (? & ? & ?).
      rewrite in_app_iff. auto.
    + exact Hnone.
    + intros e [Hin | [<- | []]]%in_app_iff He; [by apply Hmax | congruence].
Qed.

Lemma closerAncestor_fold target entries : ∀ seen acc,
  closest target seen acc →
  closest target (seen ++ entries) (fold_left (closerAncestor target) entries acc).
Proof.
  induction entries as [|e entries IH]; intros seen acc H; simpl.
  - by rewrite app_nil_r.
  - replace (seen ++ e :: entries)%list with ((seen ++ [e]) ++ entries)%list
      by (by rewrite <- app_assoc).
    apply IH, closerAncestor_closest, H.
Qed.

Lemma getOptimisticAncestorFolder_closest kbId path w :
  kbId ≠ EmptyString → path ≠ EmptyString →
  ∃ n, closest (normalizedTarget path) (kbEntries kbId (optimisticFolderEntries w))
         (getOptimisticAncestorFolder kbId path w, n).
Proof.
  intros Hk Hp. unfold getOptimisticAncestorFolder.
  apply truthy_Some in Hk, Hp. rewrite Hk, Hp. simpl.
  pose proof (closerAncestor_fold (normalizedTarget path)
                (kbEntries kbId (optimisticFolderEntries w)) [] (None, O)) as H.
  simpl in H.
  destruct (fold_left _ _ _) as [best n]. exists n. apply H.
  split; [|split]; simpl; [discriminate | reflexivity | intros ? []].
Qed.

Lemma rooted_nonempty w entry :
  registeredPathsRooted w →
  entry ∈ (snd <$> optimisticFolderEntries w) →
  (0 < String.length (OptimisticFolderEntry.folderPath entry))%nat.
Proof.
  intros Hrooted Hin. apply list_elem_of_fmap in Hin as ([k e] & -> & Hin).
  unfold registeredPathsRooted in Hrooted. rewrite Forall_forall in Hrooted.
  specialize (Hrooted _ Hin). simpl in *.
  destruct (OptimisticFolderEntry.folderPath e); [discriminate | simpl; lia].
Qed.

(** The guard of both lookups: nothing is found for an empty kbId or an
    empty path. *)
Lemma folder_lookups_guard kbId path w :
  kbId = EmptyString ∨ path = EmptyString →
  isDescendantOfOptimisticFolder kbId path w = false
  ∧ getOptimisticAncestorFolder kbId path w = None.
Proof.
  unfold isDescendantOfOptimisticFolder, getOptimisticAncestorFolder.
  intros [-> | ->]; simpl; [done|]. by rewrite orb_true_r.
Qed.

(** C6, as the code has it.  For a non-empty kbId and a non-empty path,
    [isDescendantOfOptimisticFolder] is true exactly when an entry
    registered for the kbId has a folder path that equals the normalised
    path or is a prefix of it ending where a slash begins, and
    [getOptimisticAncestorFolder] returns one of these entries whose
    folder path is the longest, and returns one whenever there is one
    (registered folder paths start with a slash).  For an empty kbId or
    path both answer no ([folder_lookups_guard]). *)
Theorem folder_registry_lookups kbId path w :
  kbId ≠ EmptyString → path ≠ EmptyString →
  registeredPathsRooted w →
  (isDescendantOfOptimisticFolder kbId path w = true
     ↔ ∃ entry, matchingEntry w kbId path entry)
  ∧ (∀ entry, getOptimisticAncestorFolder kbId path w = Some entry →
       matchingEntry w kbId path entry
       ∧ ∀ other, matchingEntry w kbId path other →
           (String.length (OptimisticFolderEntry.folderPath other)
            ≤ String.length (OptimisticFolderEntry.folderPath entry))%nat)
  ∧ ((∃ entry, matchingEntry w kbId path entry) →
       is_Some (getOptimisticAncestorFolder kbId path w)).
Proof.
  intros Hk Hp Hrooted. split; [|split].
  - unfold isDescendantOfOptimisticFolder.
    pose proof Hk as Hk'. pose proof Hp as Hp'.
    apply truthy_Some in Hk', Hp'. rewrite Hk', Hp'. simpl.
    rewrite anyCovers_spec. split.
    + intros (e & Hin & Hc). exists e. by apply matchingEntry_kbEntries.
    + intros (e & He). exists e. by apply matchingEntry_kbEntries.
  - intros entry Hsome.
    destruct (getOptimisticAncestorFolder_closest kbId path w Hk Hp)
      as (n & Hbest & _ & Hmax).
    destruct (Hbest entry Hsome) as (Hin & Hc & Hn). simpl in *. split.
    + by apply matchingEntry_kbEntries.
    + intros other [Hin' Hc']%matchingEntry_kbEntries.
      rewrite <- Hn. by apply Hmax.
  - intros (e & He).
    destruct (getOptimisticAncestorFolder_closest kbId path w Hk Hp)
      as (n & _ & Hnone & Hmax).
    destruct (getOptimisticAncestorFolder kbId path w) eqn:E; [by eexists|].
    simpl in *. pose proof He as (Hmem & _ & _).
    apply matchingEntry_kbEntries in He as [Hin Hc].
    specialize (Hmax e Hin Hc). rewrite (Hnone eq_refl) in Hmax.
    pose proof (rooted_nonempty w e Hrooted Hmem). lia.
Qed.

(** With [/A] and [/A/B] registered, the ancestor of [/A/B/x] is the
    entry of [/A/B]. *)
Example getOptimisticAncestorFolder_longest :
  getOptimisticAncestorFolder "kb-9" "/A/B/x" nestedRegistry
  = Some (OptimisticFolderEntry.mk "kb-9" "fB" "/A/B" 1 ["fA"; "fB"])
  ∧ isDescendantOfOptimisticFolder "kb-9" "/A/B/x" nestedRegistry = true
  ∧ isDescendantOfOptimisticFolder "kb-9" "/Z" nestedRegistry = false.
Proof. repeat split; reflexivity. Qed.

Lemma nestedRegistry_rooted : registeredPathsRooted nestedRegistry.
Proof. repeat constructor. Qed.

Lemma folder_registry_lookups_witness :
  "kb-9" ≠ EmptyString ∧ "/A/B/x" ≠ EmptyString
  ∧ registeredPathsRooted nestedRegistry
  ∧ (isDescendantOfOptimisticFolder "kb-9" "/A/B/x" nestedRegistry = true
       ↔ ∃ entry, matchingEntry nestedRegistry "kb-9" "/A/B/x" entry).
Proof.
  assert (H1 : "kb-9" ≠ EmptyString) by discriminate.
  assert (H2 : "/A/B/x" ≠ EmptyString) by discriminate.
  repeat split; try assumption; try apply nestedRegistry_rooted;
    apply (folder_registry_lookups "kb-9" "/A/B/x" nestedRegistry H1 H2
             nestedRegistry_rooted).
Defined.

(** C6, as stated, fails for the empty path: its normalised form is the
    slash, which is the registered path of a root folder whose name has a
    dot, and yet the guard answers no. *)
Lemma isDescendant_empty_path_counterexample :
  ¬ (isDescendantOfOptimisticFolder "kb-9" EmptyString dottedRegistry = true
       ↔ ∃ entry, matchingEntry dottedRegistry "kb-9" EmptyString entry).
Proof.
  intros [_ H].
  assert (Hex : ∃ entry, matchingEntry dottedRegistry "kb-9" EmptyString entry).
  { exists (OptimisticFolderEntry.mk "kb-9" "fD" "/" 1 ["fD"]).
    split; [|split].
    - apply list_elem_of_here.
    - reflexivity.
    - left. reflexivity. }
  apply H in Hex. discriminate Hex.
Qed.

(** ** Knowledge-base creation *)

Lemma removeOptimisticCaches_root kbId w k :
  kbResources (removeOptimisticCaches kbId w) !! k
  = if decide (kbId = k) then None else kbResources w !! k.
Proof. unfold removeOptimisticCaches. simpl. apply lookup_delete. Qed.

Lemma removeOptimisticCaches_folder kbId w k p :
  kbFileStatus (removeOptimisticCaches kbId w) !! (k, p)
  = if decide (k = kbId) then None else kbFileStatus w !! (k, p).
Proof.
  unfold removeOptimisticCaches. simpl.
  destruct (decide (k = kbId)) as [->|Hne].
  - apply map_lookup_filter_None. right. intros d _ H. by apply H.
  - destruct (kbFileStatus w !! (k, p)) as [d|] eqn:E.
    + apply map_lookup_filter_Some. split; [exact E | exact Hne].
    + apply map_lookup_filter_None. by left.
Qed.

Lemma transfer_fold_temp tempId realId ffs : ∀ m p,
  realId ≠ tempId →
  fold_left (transferFolderStatus tempId realId) ffs m !! (tempId, p)
  = m !! (tempId, p).
Proof.
  induction ffs as [|ff ffs IH]; intros m p Hne; simpl; [reflexivity|].
  rewrite IH by exact Hne. unfold transferFolderStatus.
  destruct (m !! (tempId, FolderFiles.folderPath ff)); [|reflexivity].
  apply lookup_insert_ne. congruence.
Qed.

Lemma transfer_fold_stable tempId realId ffs : ∀ m p d,
  realId ≠ tempId →
  m !! (tempId, p) = Some d → m !! (realId, p) = Some d →
  fold_left (transferFolderStatus tempId realId) ffs m !! (realId, p) = Some d.
Proof.
  induction ffs as [|ff ffs IH]; intros m p d Hne Ht Hr; simpl; [exact Hr|].
  apply IH; [exact Hne | |]; unfold transferFolderStatus.
  - destruct (m !! (tempId, FolderFiles.folderPath ff)); [|exact Ht].
    rewrite lookup_insert_ne by congruence. exact Ht.
  - destruct (m !! (tempId, FolderFiles.folderPath ff)) as [d'|] eqn:E; [|exact Hr].
    destruct (decide (FolderFiles.folderPath ff = p)) as [<-|Hp].
    + rewrite lookup_insert_eq. congruence.
    + rewrite lookup_insert_ne by congruence. exact Hr.
Qed.

Lemma transfer_fold_real tempId realId ffs : ∀ m ff d,
  realId ≠ tempId →
  ff ∈ ffs →
  m !! (tempId, FolderFiles.folderPath ff) = Some d →
  fold_left (transferFolderStatus tempId realId) ffs m
    !! (realId, FolderFiles.folderPath ff) = Some d.
Proof.
  induction ffs as [|a ffs IH]; intros m ff d Hne Hin Ht; [by inversion Hin|].
  simpl. apply elem_of_cons in Hin as [<-|Hin].
  - apply transfer_fold_stable; [exact Hne | |]; unfold transferFolderStatus;
      rewrite Ht.
    + rewrite lookup_insert_ne by congruence. exact Ht.
    + apply lookup_insert_eq.
  - apply IH; [exact Hne | exact Hin |]. unfold transferFolderStatus.
    destruct (m !! (tempId, FolderFiles.folderPath a)); [|exact Ht].
    rewrite lookup_insert_ne by congruence. exact Ht.
Qed.

Lemma retarget_kbId oldKbId newKbId request :
  DeleteRequest.kbId (retarget oldKbId newKbId request)
  = if String.eqb (DeleteRequest.kbId request) oldKbId then newKbId
    else DeleteRequest.kbId request.
Proof. unfold retarget. by destruct (String.eqb _ _). Qed.

Lemma retarget_rest oldKbId newKbId request :
  DeleteRequest.id (retarget oldKbId newKbId request) = DeleteRequest.id request
  ∧ DeleteRequest.fileId (retarget oldKbId newKbId request) = DeleteRequest.fileId request
  ∧ DeleteRequest.fileName (retarget oldKbId newKbId request) = DeleteRequest.fileName request
  ∧ DeleteRequest.resourcePath (retarget oldKbId newKbId request)
    = DeleteRequest.resourcePath request
  ∧ DeleteRequest.timestamp (retarget oldKbId newKbId request)
    = DeleteRequest.timestamp request.
Proof. unfold retarget. by destruct (String.eqb _ _). Qed.

Lemma entryKeyOf_inj kbId a b : entryKeyOf kbId a = entryKeyOf kbId b → a = b.
Proof.
  unfold entryKeyOf. intros H.
  apply (inj (String.append kbId)) in H. by apply (inj (String.append "-")) in H.
Qed.

Lemma lookupEntry_setEntry_eq key entry entries :
  lookupEntry key (setEntry key entry entries) = Some entry.
Proof.
  unfold lookupEntry. induction entries as [|[k e] entries IH]; simpl.
  - by rewrite String.eqb_refl.
  - destruct (String.eqb k key) eqn:E; simpl.
    + by rewrite String.eqb_refl.
    + by rewrite E.
Qed.

Lemma lookupEntry_setEntry_ne key key' entry entries :
  key' ≠ key →
  lookupEntry key (setEntry key' entry entries) = lookupEntry key entries.
Proof.
  intros Hne. unfold lookupEntry.
  induction entries as [|[k e] entries IH]; simpl.
  - apply String.eqb_neq in Hne. by rewrite Hne.
  - destruct (String.eqb k key') eqn:E; simpl.
    + apply String.eqb_eq in E. subst k.
      apply String.eqb_neq in Hne. by rewrite Hne.
    + destruct (String.eqb k key); [reflexivity | exact IH].
Qed.

Lemma setEntry_Forall (P : string * OptimisticFolderEntry.t → Prop) key entry entries :
  P (key, entry) → Forall P entries → Forall P (setEntry key entry entries).
Proof.
  intros Hnew. induction 1 as [|[k e] entries Hke Hrest IH]; simpl.
  - by repeat constructor.
  - destruct (String.eqb k key); constructor; auto.
Qed.

Lemma markFolder_Forall (P : string * OptimisticFolderEntry.t → Prop)
    kbId selected names now entries folderId :
  (∀ name, names !! folderId = Some name →
     P (entryKeyOf kbId folderId,
        OptimisticFolderEntry.mk kbId folderId (getFolderPathFromName name) now selected)) →
  Forall P entries →
  Forall P (markFolder kbId selected names now entries folderId).
Proof.
  intros Hnew H. unfold markFolder.
  destruct (names !! folderId) as [name|]; [|exact H].
  destruct (truthy (Some name)); [|exact H].
  apply setEntry_Forall; auto.
Qed.

Lemma markFolders_Forall (P : string * OptimisticFolderEntry.t → Prop)
    kbId selected names now ids : ∀ entries,
  (∀ folderId name,
     P (entryKeyOf kbId folderId,
        OptimisticFolderEntry.mk kbId folderId (getFolderPathFromName name) now selected)) →
  Forall P entries →
  Forall P (fold_left (markFolder kbId selected names now) ids entries).
Proof.
  induction ids as [|a ids IH]; intros entries Hnew H; simpl; [exact H|].
  apply IH; [exact Hnew|]. apply markFolder_Forall; auto.
Qed.

Lemma markFolders_stable kbId selected names now ids : ∀ entries folderId name,
  names !! folderId = Some name →
  lookupEntry (entryKeyOf kbId folderId) entries
  = Some (OptimisticFolderEntry.mk kbId folderId (getFolderPathFromName name) now selected) →
  lookupEntry (entryKeyOf kbId folderId)
    (fold_left (markFolder kbId selected names now) ids entries)
  = Some (OptimisticFolderEntry.mk kbId folderId (getFolderPathFromName name) now selected).
Proof.
  induction ids as [|a ids IH]; intros entries folderId name Hname H; simpl;
    [exact H|].
  apply IH; [exact Hname|]. unfold markFolder.
  destruct (names !! a) as [name'|] eqn:Ea; [|exact H].
  destruct (truthy (Some name')); [|exact H].
  destruct (decide (a = folderId)) as [->|Hne].
  - rewrite lookupEntry_setEntry_eq. congruence.
  - rewrite lookupEntry_setEntry_ne; [exact H|].
    intros Hk. by apply entryKeyOf_inj in Hk.
Qed.

Lemma markFolders_lookup kbId selected names now ids : ∀ entries folderId name,
  folderId ∈ ids →
  names !! folderId = Some name → name ≠ EmptyString →
  lookupEntry (entryKeyOf kbId folderId)
    (fold_left (markFolder kbId selected names now) ids entries)
  = Some (OptimisticFolderEntry.mk kbId folderId (getFolderPathFromName name) now selected).
Proof.
  induction ids as [|a ids IH]; intros entries folderId name Hin Hname Hne;
    [by inversion Hin|].
  simpl. apply elem_of_cons in Hin as [<-|Hin].
  - apply markFolders_stable; [exact Hname|]. unfold markFolder.
    rewrite Hname. apply truthy_Some in Hne. rewrite Hne.
    apply lookupEntry_setEntry_eq.
  - by apply IH.
Qed.

Lemma folderNameMapOf_fold files ids : ∀ (m : gmap string string) folderId,
  fold_left (λ (m : gmap string string) folderId,
    match findFile files folderId with
    | Some folderItem => <[folderId := FileItem.name folderItem]> m
    | None => m
    end) ids m !! folderId
  = match (if bool_decide (folderId ∈ ids) then findFile files folderId else None) with
    | Some folderItem => Some (FileItem.name folderItem)
    | None => m !! folderId
    end.
Proof.
  induction ids as [|a ids IH]; intros m folderId; simpl; [reflexivity|].
  rewrite IH.
  assert (Hstep :
    match findFile files a with
    | Some folderItem => <[a := FileItem.name folderItem]> m
    | None => m
    end !! folderId
    = if decide (folderId = a)
      then match findFile files a with
           | Some folderItem => Some (FileItem.name folderItem)
           | None => m !! folderId
           end
      else m !! folderId).
  { destruct (decide (folderId = a)) as [->|Hne]; destruct (findFile files a);
      try reflexivity.
    - apply lookup_insert_eq.
    - by apply lookup_insert_ne. }
  rewrite Hstep. destruct (decide (folderId = a)) as [->|Hne].
  - rewrite (bool_decide_eq_true_2 (a ∈ a :: ids)) by (by left).
    destruct (bool_decide (a ∈ ids)); destruct (findFile files a); reflexivity.
  - rewrite (bool_decide_ext (folderId ∈ a :: ids) (folderId ∈ ids))
      by (rewrite elem_of_cons; tauto).
    reflexivity.
Qed.

Lemma folderNameMapOf_lookup ids files folderId folderItem :
  folderId ∈ ids → findFile files folderId = Some folderItem →
  folderNameMapOf ids files !! folderId = Some (FileItem.name folderItem).
Proof.
  intros Hin Hfind. unfold folderNameMapOf. rewrite folderNameMapOf_fold.
  by rewrite bool_decide_eq_true_2, Hfind.
Qed.

(** C3, as the code has it.  When the creation succeeds with a real id
    that differs from the temporary one: no root cache and no
    folder-status cache is left under the temporary id; the root cache
    and every populated folder-status cache whose folder is recorded in
    the creation context ([context.folderFiles]) are present under the
    real id; every queued request that named the temporary id names the
    real id and no request names the temporary id; and, when the ids
    returned by the mutation include a folder, the optimistic folder
    registry has no entry of the temporary id and holds each of these
    folders that has a name under the real id. *)
Theorem onSuccess_migrates kb resourceIds files context now w :
  let tempId := KnowledgeBase.id (MutationContext.optimisticKB context) in
  let realId := KnowledgeBase.id kb in
  let w' := onSuccess kb resourceIds files (Some context) now w in
  realId ≠ tempId →
  kbResources w' !! tempId = None
  ∧ (∀ p, kbFileStatus w' !! (tempId, p) = None)
  ∧ (∀ d, kbResources w !! tempId = Some d → kbResources w' !! realId = Some d)
  ∧ (∀ ff d, ff ∈ MutationContext.folderFiles context →
       kbFileStatus w !! (tempId, FolderFiles.folderPath ff) = Some d →
       kbFileStatus w' !! (realId, FolderFiles.folderPath ff) = Some d)
  ∧ queue w' = retarget tempId realId <$> queue w
  ∧ (∀ request, request ∈ queue w' → DeleteRequest.kbId request ≠ tempId)
  ∧ (selectedOfType directory resourceIds files ≠ [] →
       (∀ entry, entry ∈ (snd <$> optimisticFolderEntries w') →
          OptimisticFolderEntry.kbId entry ≠ tempId)
       ∧ (∀ folderId folderItem,
            folderId ∈ selectedOfType directory resourceIds files →
            findFile files folderId = Some folderItem →
            FileItem.name folderItem ≠ EmptyString →
            lookupEntry (entryKeyOf realId folderId) (optimisticFolderEntries w')
            = Some (OptimisticFolderEntry.mk realId folderId
                      (getFolderPathFromName (FileItem.name folderItem)) now
                      (selectedOfType directory resourceIds files)))).
Proof.
  intros tempId realId w' Hne.
  set (selected := selectedOfType directory resourceIds files).
  assert (Hroot : ∀ k, kbResources w' !! k
            = if decide (tempId = k) then None
              else match kbResources w !! tempId with
                   | Some d => <[realId := d]> (kbResources w) !! k
                   | None => kbResources w !! k
                   end).
  { intros k. subst w'. unfold onSuccess. fold tempId realId selected.
    cbn -[removeOptimisticCaches markFoldersAsOptimisticallyIndexed
          clearOptimisticFoldersForKB].
    rewrite removeOptimisticCaches_root. destruct (decide (tempId = k)); [done|].
    destruct (kbResources w !! tempId) eqn:E; simpl;
      by destruct (bool_decide (0 < length selected)%nat). }
  assert (Hfolder : ∀ k p, kbFileStatus w' !! (k, p)
            = if decide (k = tempId) then None
              else fold_left (transferFolderStatus tempId realId)
                     (MutationContext.folderFiles context) (kbFileStatus w) !! (k, p)).
  { intros k p. subst w'. unfold onSuccess. fold tempId realId selected.
    cbn -[removeOptimisticCaches markFoldersAsOptimisticallyIndexed
          clearOptimisticFoldersForKB].
    rewrite removeOptimisticCaches_folder. destruct (decide (k = tempId)); [done|].
    destruct (kbResources w !! tempId) eqn:E; simpl;
      by destruct (bool_decide (0 < length selected)%nat). }
  assert (Hqueue : queue w' = retarget tempId realId <$> queue w).
  { subst w'. unfold onSuccess. fold tempId realId selected.
    destruct (kbResources _ !! tempId) eqn:E;
      destruct (bool_decide (0 < length selected)%nat); reflexivity. }
  split; [|split; [|split; [|split; [|split; [|split]]]]].
  - rewrite Hroot. by rewrite decide_True.
  - intros p. rewrite Hfolder. by rewrite decide_True.
  - intros d Hd. rewrite Hroot, decide_False by congruence.
    rewrite Hd. apply lookup_insert_eq.
  - intros ff d Hin Hd. rewrite Hfolder, decide_False by exact Hne.
    by apply transfer_fold_real.
  - exact Hqueue.
  - intros request Hin. rewrite Hqueue in Hin.
    apply list_elem_of_fmap in Hin as (r & -> & _). rewrite retarget_kbId.
    destruct (String.eqb (DeleteRequest.kbId r) tempId) eqn:E; [exact Hne|].
    by apply String.eqb_neq.
  - intros Hsel.
    assert (Hentries : optimisticFolderEntries w'
              = fold_left (markFolder realId selected (folderNameMapOf selected files) now)
                  selected
                  (List.filter
                     (λ ke, negb (String.eqb (OptimisticFolderEntry.kbId (snd ke)) tempId))
                     (optimisticFolderEntries w))).
    { subst w'. unfold onSuccess. fold tempId realId selected.
      rewrite bool_decide_eq_true_2
        by (destruct selected; [done | simpl; lia]).
      by destruct (kbResources _ !! tempId) eqn:E. }
    rewrite Hentries. split.
    + intros entry Hin. apply list_elem_of_fmap in Hin as ([k e] & -> & Hin).
      simpl.
      assert (HF : Forall (λ ke, OptimisticFolderEntry.kbId (snd ke) ≠ tempId)
                (fold_left (markFolder realId selected (folderNameMapOf selected files) now)
                   selected
                   (List.filter
                      (λ ke, negb (String.eqb (OptimisticFolderEntry.kbId (snd ke)) tempId))
                      (optimisticFolderEntries w)))).
      { apply markFolders_Forall; [intros; exact Hne|].
        apply Forall_forall. intros ke Hke.
        apply list_elem_of_In, List.filter_In in Hke as [_ H].
        apply negb_true_iff in H. by apply String.eqb_neq. }
      rewrite Forall_forall in HF. exact (HF (k, e) Hin).
    + intros folderId folderItem Hin Hfind Hname.
      apply markFolders_lookup; [exact Hin | | exact Hname].
      by apply folderNameMapOf_lookup.
Qed.

Lemma onSuccess_migrates_witness :
  KnowledgeBase.id realKB
    ≠ KnowledgeBase.id (MutationContext.optimisticKB exampleContext)
  ∧ kbFileStatus afterSuccess !! ("temp-1000", "/A") = None
  ∧ queue afterSuccess = retarget "temp-1000" "kb-9" <$> queue whilePending.
Proof.
  assert (H : KnowledgeBase.id realKB
                ≠ KnowledgeBase.id (MutationContext.optimisticKB exampleContext))
    by (vm_compute; discriminate).
  destruct (onSuccess_migrates realKB ["fA"; "r1"] exampleFiles exampleContext
              2000 whilePending H) as (_ & Hfolder & _ & _ & Hqueue & _).
  split; [exact H | split; [exact (Hfolder "/A") | exact Hqueue]].
Defined.

(** The run of the example: the caches of [/A] and of the root, the
    queued request and the registry entry are under the real id. *)
Example creation_succeeds :
  (FileItem.id <$> default [] (kbFileStatus afterSuccess !! ("kb-9", "/A")))
    = ["x1"; "y1"]
  ∧ kbResources afterSuccess !! "kb-9" = Some []
  ∧ (DeleteRequest.kbId <$> queue afterSuccess) = ["kb-9"]
  ∧ (fst <$> optimisticFolderEntries afterSuccess) = ["kb-9-fA"]
  ∧ syncStateData afterSuccess = SyncStateData.mk synced (Some "kb-9") 2000.
Proof. vm_compute. repeat split. Qed.

(** C3, as stated, fails: the folder-status cache that the expansion of
    [A/B] wrote under the temporary id while the creation was pending is
    not recorded in the creation context; [onSuccess] removes it without
    copying it. *)
Lemma onSuccess_drops_unrecorded_folder_cache :
  ¬ (∀ p, is_Some (kbFileStatus whilePending !! ("temp-1000", p)) →
          is_Some (kbFileStatus afterSuccess !! ("kb-9", p))).
Proof.
  intros H. destruct (H "/A/B") as [d Hd].
  - eexists. vm_compute. reflexivity.
  - vm_compute in Hd. discriminate Hd.
Qed.

(** ** Rollback *)

(** What [onError] does for every context: the caches of the temporary
    id are removed and the KB reference is the previous one; the sync
    state is set to synced with the stored kbId kept, and the optimistic
    folder registry and the delete queue are left as they were. *)
Lemma onError_effect context now w :
  let tempId := KnowledgeBase.id (MutationContext.optimisticKB context) in
  let w' := onError (Some context) now w in
  kbResources w' !! tempId = None
  ∧ (∀ p, kbFileStatus w' !! (tempId, p) = None)
  ∧ currentKB w' = MutationContext.previousKB context
  ∧ SyncStateData.state (syncStateData w') = synced
  ∧ SyncStateData.kbId (syncStateData w') = SyncStateData.kbId (syncStateData w)
  ∧ optimisticFolderEntries w' = optimisticFolderEntries w
  ∧ queue w' = queue w.
Proof.
  intros tempId w'. subst w'. unfold onError. fold tempId.
  split; [|split]; [| |repeat split].
  - cbn -[removeOptimisticCaches]. rewrite removeOptimisticCaches_root.
    by rewrite decide_True.
  - intros p. cbn -[removeOptimisticCaches]. rewrite removeOptimisticCaches_folder.
    by rewrite decide_True.
Qed.

Lemma onMutate_context resourceIds files clock w :
  let context := snd (fst (onMutate resourceIds files clock w)) in
  MutationContext.previousKB context = None
  ∧ KnowledgeBase.id (MutationContext.optimisticKB context)
    = "temp-" +:+ pretty (Clock.now clock).
Proof.
  unfold onMutate.
  destruct (fold_left _ _ _) as [[cached uncached] allIds]. split; reflexivity.
Qed.

(** C1 on the code: the creation of the example fails after the
    optimistic phase.  The caches of the temporary id are gone and there
    is no current KB, but the sync state is synced, not idle, it still
    names the temporary id, and the registry entry and the queued request
    of the temporary id are still there. *)
Theorem onError_leaves_residue :
  kbResources afterError !! "temp-1000" = None
  ∧ kbFileStatus afterError = ∅
  ∧ currentKB afterError = None
  ∧ syncStateData afterError = SyncStateData.mk synced (Some "temp-1000") 2000
  ∧ optimisticFolderEntries afterError
    = [("temp-1000-fA",
        OptimisticFolderEntry.mk "temp-1000" "fA" "/A" 1000 ["fA"])]
  ∧ (DeleteRequest.kbId <$> queue afterError) = ["temp-1000"].
Proof. vm_compute. repeat split. Qed.

(** ** Delete queue *)

(** [queueDeleteRequest] appends at the tail: the queue is in the order
    of the enqueues. *)
Lemma queueDeleteRequest_appends fileId fileName kbId now w :
  queue (queueDeleteRequest fileId fileName kbId now w)
  = (queue w ++ [newDeleteRequest fileId fileName kbId now])%list.
Proof. reflexivity. Qed.

Lemma removeFromQueue_elem requestId now w request :
  request ∈ queue (removeFromQueue requestId now w)
  ↔ request ∈ queue w ∧ DeleteRequest.id request ≠ requestId.
Proof.
  unfold removeFromQueue, updateQueueData, queue. simpl. split.
  - intros Hin. apply list_elem_of_In, List.filter_In in Hin as [Hin Hne].
    apply negb_true_iff, String.eqb_neq in Hne. split; [|exact Hne].
    by apply list_elem_of_In.
  - intros [Hin Hne]. apply list_elem_of_In, List.filter_In.
    split; [by apply list_elem_of_In|]. by apply negb_true_iff, String.eqb_neq.
Qed.

Lemma removeFromQueue_ids requestId now w id :
  id ∈ queuedIds (removeFromQueue requestId now w)
  ↔ id ∈ queuedIds w ∧ id ≠ requestId.
Proof.
  unfold queuedIds. rewrite !list_elem_of_fmap. split.
  - intros (r & -> & [Hin Hne]%removeFromQueue_elem). split; [|exact Hne].
    by exists r.
  - intros [(r & -> & Hin) Hne]. exists r. split; [reflexivity|].
    by apply removeFromQueue_elem.
Qed.

Lemma queuedIds_removeFromQueue requestId now w :
  queuedIds (removeFromQueue requestId now w)
  = List.filter (λ id, negb (String.eqb id requestId)) (queuedIds w).
Proof.
  unfold queuedIds, removeFromQueue, updateQueueData, queue. simpl.
  induction (DeleteQueueData.queue (queueData w)) as [|r l IH]; [reflexivity|].
  cbn [List.filter]. rewrite fmap_cons. cbn [List.filter].
  destruct (negb (String.eqb (DeleteRequest.id r) requestId));
    rewrite ?fmap_cons; by rewrite IH.
Qed.

Lemma filter_out_fresh id ids :
  id ∉ ids → List.filter (λ x, negb (String.eqb x id)) ids = ids.
Proof.
  induction ids as [|x ids IH]; simpl; [reflexivity|]. intros Hout.
  apply not_elem_of_cons in Hout as [Hne Hout].
  apply not_eq_sym, String.eqb_neq in Hne. rewrite Hne. simpl. by rewrite IH.
Qed.

Lemma queuedIds_updateQueueKBId oldKbId newKbId now w :
  queuedIds (updateQueueKBId oldKbId newKbId now w) = queuedIds w.
Proof.
  unfold queuedIds, updateQueueKBId, updateQueueData, queue. simpl.
  induction (DeleteQueueData.queue (queueData w)) as [|r l IH]; [reflexivity|].
  cbn [List.map]. rewrite !fmap_cons, IH. f_equal.
  unfold retarget. by destruct (String.eqb _ _).
Qed.

Lemma queuedIds_queueDeleteRequest fileId fileName kbId now w :
  queuedIds (queueDeleteRequest fileId fileName kbId now w)
  = (queuedIds w
     ++ [DeleteRequest.id (newDeleteRequest fileId fileName kbId now)])%list.
Proof. unfold queuedIds. by rewrite queueDeleteRequest_appends, fmap_app. Qed.

(** *** Traces *)

Lemma invoked_app t1 t2 : invoked (t1 ++ t2) = (invoked t1 ++ invoked t2)%list.
Proof.
  induction t1 as [|[r|r ok] t1 IH]; simpl; [reflexivity | by rewrite IH | exact IH].
Qed.

Lemma answered_app t1 t2 : answered (t1 ++ t2) = (answered t1 ++ answered t2)%list.
Proof.
  induction t1 as [|[r|r ok] t1 IH]; simpl; [reflexivity | exact IH | by rewrite IH].
Qed.

Lemma callsAndAnswers_snoc pairs request ok :
  callsAndAnswers (pairs ++ [(request, ok)])
  = (callsAndAnswers pairs ++ [Invoked request; Settled request ok])%list.
Proof. unfold callsAndAnswers. by rewrite flat_map_app. Qed.

Lemma invoked_callsAndAnswers pairs : invoked (callsAndAnswers pairs) = fst <$> pairs.
Proof. induction pairs as [|[r ok] pairs IH]; simpl; [reflexivity | by rewrite IH]. Qed.

Lemma answered_callsAndAnswers pairs : answered (callsAndAnswers pairs) = fst <$> pairs.
Proof. induction pairs as [|[r ok] pairs IH]; simpl; [reflexivity | by rewrite IH]. Qed.

(** In a trace of answered calls, with or without a last call in
    flight, there is never more than one call in flight. *)
Lemma inFlight_callsAndAnswers pairs last : ∀ done rest,
  (callsAndAnswers pairs ++ (Invoked <$> option_list last))%list = (done ++ rest)%list →
  0 ≤ inFlight done ≤ 1.
Proof.
  induction pairs as [|[r ok] pairs IH]; intros done rest H; simpl in H.
  - destruct done as [|e1 done]; [simpl; lia|].
    destruct last as [r|]; [|discriminate H]. simpl in H.
    injection H as <- H. symmetry in H. apply app_eq_nil in H as [-> _].
    simpl. lia.
  - destruct done as [|e1 done]; [simpl; lia|].
    injection H as <- H.
    destruct done as [|e2 done]; [simpl; lia|].
    injection H as <- H. simpl.
    specialize (IH done rest H). lia.
Qed.

(** *** The invariant of the drain *)

Lemma drainInvariant_world ids m w :
  queueData w = queueData (Drain.world m) →
  drainInvariant ids m →
  drainInvariant ids (Drain.mkMachine w (Drain.calls m) (Drain.trace m)).
Proof.
  intros Hq (pairs & Hids & Hcalls). exists pairs.
  unfold queuedIds, queue, queueProcessing in *. cbn [Drain.world Drain.calls Drain.trace].
  rewrite Hq. by split.
Qed.

Lemma nextRequest_invariant ids pairs rest queueLength now w c w' call invoked :
  Drain.nextRequest rest queueLength now w = (w', call, invoked) →
  ids = ((DeleteRequest.id ∘ fst <$> pairs) ++ queuedIds w)%list →
  queueProcessing w = true →
  (DeleteRequest.id <$> rest) `prefix_of` queuedIds w →
  drainInvariant ids
    (Drain.mkMachine w' (Drain.resume 0 call [c]) (callsAndAnswers pairs ++ invoked)).
Proof.
  intros Hnext Hids Hflag Hprefix. exists pairs.
  destruct rest as [|request rest]; simpl in Hnext; injection Hnext as <- <- <-.
  - simpl. by rewrite app_nil_r.
  - simpl. split; [exact Hids|]. split; [exact Hflag|]. split; [exact Hprefix|].
    by exists request, rest.
Qed.

Lemma processQueue_invariant ids now m :
  drainInvariant ids m → drainInvariant ids (Drain.processQueue now m).
Proof.
  intros Hinv. unfold Drain.processQueue.
  destruct (negb (bool_decide (is_Some (currentKBId (Drain.world m))))
            || queueProcessing (Drain.world m)
            || negb (queueHasItems (Drain.world m))) eqn:Hguard; [exact Hinv|].
  apply orb_false_iff in Hguard as [[_ Hflag]%orb_false_iff Hitems].
  apply negb_false_iff, bool_decide_eq_true_1 in Hitems.
  destruct Hinv as (pairs & Hids & Hcalls).
  destruct (Drain.calls m) as [|c [|c2 l]] eqn:Hc; [| |done].
  - unfold queue in *.
    destruct (DeleteQueueData.queue (queueData (Drain.world m)))
      as [|request rest] eqn:Hq; [simpl in Hitems; lia|].
    simpl. exists pairs. simpl.
    unfold queuedIds, queue, queueProcessing in *. simpl. rewrite Hq.
    split; [by rewrite Hids, Hq|]. split; [reflexivity|]. split; [reflexivity|].
    exists request, rest. by rewrite Hcalls.
  - destruct Hcalls as [Hon _]. congruence.
Qed.

Lemma callSettled_invariant ids i ok now m :
  NoDup ids →
  drainInvariant ids m → drainInvariant ids (Drain.callSettled i ok now m).
Proof.
  intros Hnodup Hinv. pose proof Hinv as (pairs & Hids & Hcalls).
  unfold Drain.callSettled.
  destruct (Drain.calls m) as [|c [|c2 l]] eqn:Hc; [| |done].
  - rewrite lookup_nil. exact Hinv.
  - destruct i as [|i]; [|simpl; exact Hinv]. simpl.
    destruct c as [remaining queueLength stage].
    destruct Hcalls as (Hflag & Hprefix & Hstage). simpl in Hprefix, Hstage.
    destruct stage; [|by destruct remaining].
    destruct Hstage as (request & rest & -> & Htrace).
    set (w1 := removeFromQueue (DeleteRequest.id request) now (Drain.world m)).
    destruct Hprefix as [later Hqueue]. simpl in Hqueue.
    assert (Hremoved : queuedIds w1 = ((DeleteRequest.id <$> rest) ++ later)%list).
    { subst w1. rewrite queuedIds_removeFromQueue, Hqueue. simpl.
      rewrite String.eqb_refl. simpl. apply filter_out_fresh.
      rewrite Hids, Hqueue in Hnodup.
      apply NoDup_app in Hnodup as (_ & _ & Hnodup).
      by apply NoDup_cons in Hnodup as [Hout _]. }
    assert (Hids1 : ids = ((DeleteRequest.id ∘ fst <$> pairs ++ [(request, ok)])
                           ++ queuedIds w1)%list).
    { rewrite Hremoved, fmap_app, <- app_assoc. simpl. by rewrite Hids, Hqueue. }
    assert (Hflag1 : queueProcessing w1 = true) by exact Hflag.
    assert (Hprefix1 : (DeleteRequest.id <$> rest) `prefix_of` queuedIds w1).
    { rewrite Hremoved. by exists later. }
    assert (Hanswered : (Drain.trace m ++ [Settled request ok])%list
                        = callsAndAnswers (pairs ++ [(request, ok)])).
    { by rewrite Htrace, callsAndAnswers_snoc, <- app_assoc. }
    rewrite Hanswered.
    destruct (ok && bool_decide (1 < queueLength)%nat).
    + exists (pairs ++ [(request, ok)])%list. simpl.
      split; [exact Hids1|]. by repeat split.
    + destruct (Drain.nextRequest rest queueLength now w1) as [[w' call] invoked] eqn:E.
      by eapply nextRequest_invariant.
Qed.

Lemma pauseOver_invariant ids i now m :
  drainInvariant ids m → drainInvariant ids (Drain.pauseOver i now m).
Proof.
  intros Hinv. pose proof Hinv as (pairs & Hids & Hcalls).
  unfold Drain.pauseOver.
  destruct (Drain.calls m) as [|c [|c2 l]] eqn:Hc; [| |done].
  - rewrite lookup_nil. exact Hinv.
  - destruct i as [|i]; [|simpl; exact Hinv]. simpl.
    destruct c as [remaining queueLength stage].
    destruct Hcalls as (Hflag & Hprefix & Hstage). simpl in Hprefix, Hstage.
    destruct stage; [exact Hinv|].
    destruct (Drain.nextRequest remaining queueLength now (Drain.world m))
      as [[w' call] invoked] eqn:E.
    rewrite Hstage. by eapply nextRequest_invariant.
Qed.

Lemma run_invariant ids m ev :
  NoDup (ids ++ enqueuedIds [ev]) →
  leavesQueue ev →
  drainInvariant ids m →
  drainInvariant (ids ++ enqueuedIds [ev]) (Drain.run m ev).
Proof.
  intros Hnodup Hleaves Hinv.
  destruct ev as [now | now | i ok now | i now | fileId fileName kbId now
                  | oldKbId newKbId now | task];
    simpl in Hnodup |- *; rewrite ?app_nil_r in *.
  - by apply processQueue_invariant.
  - unfold Drain.processQueueWhenSynced.
    destruct (_ && _ && _); [by apply processQueue_invariant | exact Hinv].
  - by apply callSettled_invariant.
  - by apply pauseOver_invariant.
  - destruct Hinv as (pairs & Hids & Hcalls). exists pairs.
    cbn [Drain.world Drain.calls Drain.trace].
    rewrite queuedIds_queueDeleteRequest.
    split; [by rewrite Hids, <- app_assoc|].
    destruct (Drain.calls m) as [|c [|c2 l]]; [exact Hcalls | | done].
    destruct Hcalls as (Hflag & Hprefix & Hstage).
    split; [exact Hflag|]. split; [|exact Hstage].
    by apply prefix_app_r.
  - destruct Hinv as (pairs & Hids & Hcalls). exists pairs.
    cbn [Drain.world Drain.calls Drain.trace].
    rewrite queuedIds_updateQueueKBId. split; [exact Hids|].
    destruct (Drain.calls m) as [|c [|c2 l]]; [exact Hcalls | exact Hcalls | done].
  - apply drainInvariant_world; [apply Hleaves | exact Hinv].
Qed.

Lemma enqueuedIds_cons ev events :
  enqueuedIds (ev :: events) = (enqueuedIds [ev] ++ enqueuedIds events)%list.
Proof. unfold enqueuedIds. simpl. by rewrite app_nil_r. Qed.

Lemma runAll_invariant events : ∀ ids m,
  NoDup (ids ++ enqueuedIds events) →
  Forall leavesQueue events →
  drainInvariant ids m →
  drainInvariant (ids ++ enqueuedIds events) (Drain.runAll events m).
Proof.
  induction events as [|ev events IH]; intros ids m Hnodup Hleaves Hinv.
  - simpl. by rewrite app_nil_r.
  - rewrite enqueuedIds_cons, app_assoc in Hnodup |- *.
    apply Forall_cons in Hleaves as [Hev Hleaves].
    cbn [Drain.runAll fold_left]. apply IH; [exact Hnodup | exact Hleaves|].
    apply run_invariant; [|exact Hev | exact Hinv].
    by apply NoDup_app in Hnodup as (Hnodup & _).
Qed.

(** *** A drain that gets its answers *)

Lemma runAll_cons ev events m :
  Drain.runAll (ev :: events) m = Drain.runAll events (Drain.run m ev).
Proof. reflexivity. Qed.

Lemma runAll_app events1 events2 m :
  Drain.runAll (events1 ++ events2) m
  = Drain.runAll events2 (Drain.runAll events1 m).
Proof. apply fold_left_app. Qed.

Lemma answersOf_cons request requests queueLength resolves clock i :
  answersOf (request :: requests) queueLength resolves clock i
  = ((Drain.CallSettled 0 (resolves i) (clock i)
      :: (if resolves i && bool_decide (1 < queueLength)%nat
          then [Drain.PauseOver 0 (clock i)] else []))
     ++ answersOf requests queueLength resolves clock (S i))%list.
Proof. reflexivity. Qed.

(** With one call of [processQueue] under way, awaiting the answer for
    the head of its array, the answers and the ends of the pauses take
    it through the rest of the array and to its end. *)
Lemma answersOf_drain queueLength resolves clock requests : ∀ i request m,
  Drain.calls m = [Drain.mkCall (request :: requests) queueLength Drain.AwaitingCall] →
  let m' :=
    Drain.runAll (answersOf (request :: requests) queueLength resolves clock i) m in
  Drain.trace m'
  = (Drain.trace m
     ++ Settled request (resolves i) :: drainTrace requests resolves (S i))%list
  ∧ Drain.calls m' = []
  ∧ queueProcessing (Drain.world m') = false
  ∧ (∀ queued, queued ∈ queue (Drain.world m') →
       queued ∈ queue (Drain.world m)
       ∧ DeleteRequest.id queued ∉ (DeleteRequest.id <$> request :: requests)).
Proof.
  induction requests as [|request' requests IH]; intros i request m Hcalls m'.
  - subst m'. rewrite answersOf_cons. cbn [answersOf]. rewrite app_nil_r.
    destruct (resolves i && bool_decide (1 < queueLength)%nat) eqn:Hpause;
      cbn [Drain.runAll fold_left Drain.run]; unfold Drain.callSettled;
      rewrite Hcalls; cbn [lookup list_lookup]; rewrite Hpause.
    + unfold Drain.pauseOver. cbn [Drain.calls lookup list_lookup list_insert
                                     Drain.world Drain.trace Drain.nextRequest
                                     Drain.resume].
      simpl. rewrite app_nil_r. split; [reflexivity|]. split; [reflexivity|].
      split; [reflexivity|]. intros queued Hin.
      change (queued ∈ queue (removeFromQueue (DeleteRequest.id request) (clock i)
                                (Drain.world m))) in Hin.
      apply removeFromQueue_elem in Hin as [Hin Hne]. split; [exact Hin|].
      simpl. intros Heq%list_elem_of_singleton. by apply Hne.
    + simpl. rewrite app_nil_r. split; [reflexivity|]. split; [reflexivity|].
      split; [reflexivity|]. intros queued Hin.
      change (queued ∈ queue (removeFromQueue (DeleteRequest.id request) (clock i)
                                (Drain.world m))) in Hin.
      apply removeFromQueue_elem in Hin as [Hin Hne]. split; [exact Hin|].
      simpl. intros Heq%list_elem_of_singleton. by apply Hne.
  - subst m'. rewrite answersOf_cons.
    set (w1 := removeFromQueue (DeleteRequest.id request) (clock i) (Drain.world m)).
    set (m2 := Drain.mkMachine w1
                 [Drain.mkCall (request' :: requests) queueLength Drain.AwaitingCall]
                 (Drain.trace m ++ [Settled request (resolves i)]
                  ++ [Invoked request'])).
    assert (Hstep :
      Drain.runAll
        (Drain.CallSettled 0 (resolves i) (clock i)
         :: (if resolves i && bool_decide (1 < queueLength)%nat
             then [Drain.PauseOver 0 (clock i)] else [])) m = m2).
    { destruct (resolves i && bool_decide (1 < queueLength)%nat) eqn:Hpause;
        cbn [Drain.runAll fold_left Drain.run]; unfold Drain.callSettled;
        rewrite Hcalls; cbn [lookup list_lookup]; rewrite Hpause.
      - unfold Drain.pauseOver. simpl. subst m2. by rewrite <- app_assoc.
      - simpl. subst m2. by rewrite <- app_assoc. }
    rewrite runAll_app, Hstep.
    destruct (IH (S i) request' m2 eq_refl) as (Htrace & Hcalls' & Hflag & Hqueue).
    cbv zeta in Htrace, Hcalls', Hflag, Hqueue.
    split; [|split; [exact Hcalls' | split; [exact Hflag|]]].
    + rewrite Htrace. subst m2. cbn [Drain.trace drainTrace].
      by rewrite <- !app_assoc.
    + intros queued Hin. destruct (Hqueue queued Hin) as [Hin1 Hout].
      change (queued ∈ queue w1) in Hin1.
      apply removeFromQueue_elem in Hin1 as [Hin1 Hne]. split; [exact Hin1|].
      rewrite fmap_cons. intros [Heq|Hin2]%elem_of_cons; [by apply Hne | by apply Hout].
Qed.

(** C4. The delete queue is drained one call of the service at a time,
    in the order of the enqueues, and no request is called twice, also
    when [processQueue] is called again while a drain is under way.
    Over any run of the page from a world with no drain under way, in
    which no two requests carry the same id and the callbacks of the
    other hooks leave the queue alone: the trace of the service is a
    sequence of calls each followed by its answer, with at most the last
    call still in flight; the ids called are an initial stretch of the
    ids enqueued, in that order, each once; the requests answered,
    resolved or rejected, followed by the requests queued, are the
    requests enqueued, so an answered request is out of the queue; at
    most one call of [processQueue] is under way, and while one is, the
    processing flag is set and another call of [processQueue] returns at
    its guard.  And a drain that starts and gets its answers calls the
    service for every request of the queue in turn and ends with the
    queue empty and the flag cleared. *)
Theorem processQueue_drains_in_order w events :
  let m := Drain.runAll events (Drain.idle w) in
  let ids := (queuedIds w ++ enqueuedIds events)%list in
  NoDup ids →
  Forall leavesQueue events →
  (∃ pairs last,
     Drain.trace m = (callsAndAnswers pairs ++ (Invoked <$> option_list last))%list)
  ∧ (∀ done rest, Drain.trace m = (done ++ rest)%list → 0 ≤ inFlight done ≤ 1)
  ∧ (DeleteRequest.id <$> invoked (Drain.trace m)) `prefix_of` ids
  ∧ NoDup (DeleteRequest.id <$> invoked (Drain.trace m))
  ∧ ids = ((DeleteRequest.id <$> answered (Drain.trace m))
           ++ queuedIds (Drain.world m))%list
  ∧ (∀ request, request ∈ answered (Drain.trace m) →
       DeleteRequest.id request ∉ queuedIds (Drain.world m))
  ∧ (length (Drain.calls m) ≤ 1)%nat
  ∧ (Drain.calls m ≠ [] →
     queueProcessing (Drain.world m) = true
     ∧ ∀ now, Drain.processQueue now m = m ∧ Drain.processQueueWhenSynced now m = m)
  ∧ (∀ now resolves clock,
       drainStarts w = true →
       let drained :=
         Drain.runAll
           (Drain.Called now
            :: answersOf (queue w) (length (queue w)) resolves clock O)
           (Drain.idle w) in
       Drain.trace drained = drainTrace (queue w) resolves O
       ∧ Drain.calls drained = []
       ∧ queue (Drain.world drained) = []
       ∧ queueProcessing (Drain.world drained) = false).
Proof.
  intros m ids Hnodup Hleaves.
  assert (Hinv : drainInvariant ids m).
  { apply runAll_invariant; [exact Hnodup | exact Hleaves|].
    exists []. simpl. by split. }
  destruct Hinv as (pairs & Hids & Hcalls).
  assert (Hshape : ∃ last,
    Drain.trace m = (callsAndAnswers pairs ++ (Invoked <$> option_list last))%list
    ∧ (∀ request, last = Some request →
         ∃ later, queuedIds (Drain.world m) = DeleteRequest.id request :: later)).
  { destruct (Drain.calls m) as [|c [|c2 l]]; [| |done].
    - exists None. simpl. by rewrite app_nil_r.
    - destruct Hcalls as (_ & Hprefix & Hstage).
      destruct (Drain.stage c).
      + destruct Hstage as (request & rest & Hrem & Htrace).
        exists (Some request). split; [exact Htrace|].
        intros ? [= <-]. rewrite Hrem in Hprefix.
        destruct Hprefix as [later Hq]. simpl in Hq. by eexists.
      + exists None. simpl. by rewrite app_nil_r. }
  destruct Hshape as (last & Htrace & Hlast).
  assert (Hanswered : answered (Drain.trace m) = fst <$> pairs).
  { rewrite Htrace, answered_app, answered_callsAndAnswers.
    destruct last; simpl; by rewrite app_nil_r. }
  assert (Hdone : ids = ((DeleteRequest.id <$> answered (Drain.trace m))
                         ++ queuedIds (Drain.world m))%list).
  { rewrite Hanswered, <- list_fmap_compose. exact Hids. }
  assert (Hprefix : (DeleteRequest.id <$> invoked (Drain.trace m)) `prefix_of` ids).
  { rewrite Htrace, invoked_app, invoked_callsAndAnswers, fmap_app, Hids.
    rewrite <- list_fmap_compose. apply prefix_app.
    destruct last as [request|]; simpl; [|apply prefix_nil].
    destruct (Hlast request eq_refl) as [later ->]. by exists later. }
  split; [by exists pairs, last|].
  split; [intros done rest H; rewrite Htrace in H;
          by eapply inFlight_callsAndAnswers|].
  split; [exact Hprefix|].
  split; [destruct Hprefix as [later Hl]; rewrite Hl in Hnodup;
          by apply NoDup_app in Hnodup as (? & _)|].
  split; [exact Hdone|].
  split.
  { intros request Hin Hqueued. rewrite Hdone in Hnodup.
    apply NoDup_app in Hnodup as (_ & Hdisjoint & _).
    apply (Hdisjoint (DeleteRequest.id request)); [|exact Hqueued].
    by apply list_elem_of_fmap_2. }
  split; [destruct (Drain.calls m) as [|c [|c2 l]]; simpl; [lia | lia | done]|].
  split.
  { intros Hne. destruct (Drain.calls m) as [|c [|c2 l]]; [done| |done].
    destruct Hcalls as (Hflag & _). split; [exact Hflag|]. intros now.
    unfold Drain.processQueueWhenSynced, Drain.processQueue. rewrite Hflag.
    by rewrite orb_true_r, andb_false_r. }
  intros now resolves clock Hstarts drained.
  apply andb_true_iff in Hstarts as [[Hkb Hflag]%andb_true_iff Hitems].
  apply negb_true_iff in Hflag.
  pose proof Hitems as Hlen. apply bool_decide_eq_true_1 in Hlen.
  destruct (queue w) as [|request requests] eqn:Hq; [simpl in Hlen; lia|].
  set (m1 := Drain.mkMachine (setQueueProcessing true now w)
               [Drain.mkCall (request :: requests) (length (request :: requests))
                  Drain.AwaitingCall] [Invoked request]).
  assert (Hfirst : Drain.run (Drain.idle w) (Drain.Called now) = m1).
  { cbn [Drain.run]. unfold Drain.processQueue. cbn [Drain.idle Drain.world].
    rewrite Hkb, Hflag, Hitems, Hq. reflexivity. }
  subst drained. rewrite runAll_cons, Hfirst.
  destruct (answersOf_drain (length (request :: requests)) resolves clock requests
              O request m1 eq_refl) as (Ht & Hc & Hf & Hqueue).
  cbv zeta in Ht, Hc, Hf, Hqueue.
  split; [exact Ht | split; [exact Hc | split; [|exact Hf]]].
  destruct (queue (Drain.world (Drain.runAll _ m1))) as [|queued l] eqn:Hleft;
    [reflexivity|].
  destruct (Hqueue queued) as [Hin Hout]; [by left|].
  exfalso. apply Hout. apply list_elem_of_fmap_2.
  change (queued ∈ queue w) in Hin. by rewrite Hq in Hin.
Qed.

Lemma drainEvents_leave_queue : Forall leavesQueue drainEvents.
Proof. repeat constructor. Qed.

Lemma drainEvents_ids :
  NoDup (queuedIds drainWorld ++ enqueuedIds drainEvents)%list.
Proof.
  apply (bool_decide_unpack (NoDup (queuedIds drainWorld ++ enqueuedIds drainEvents))).
  vm_compute. exact I.
Qed.

Lemma processQueue_drains_in_order_witness :
  NoDup (queuedIds drainWorld ++ enqueuedIds drainEvents)%list
  ∧ Forall leavesQueue drainEvents
  ∧ (length (Drain.calls (Drain.runAll drainEvents (Drain.idle drainWorld))) ≤ 1)%nat.
Proof.
  split; [exact drainEvents_ids | split; [exact drainEvents_leave_queue|]].
  destruct (processQueue_drains_in_order drainWorld drainEvents
              drainEvents_ids drainEvents_leave_queue)
    as (_ & _ & _ & _ & _ & _ & Hlen & _).
  exact Hlen.
Defined.

(** The drain of the example: both captured requests are called in the
    order of their enqueue, the rejected one is dropped like the resolved
    one, the calls of [processQueue] made meanwhile start nothing, and
    the request that arrived meanwhile stays queued. *)
Example drain_of_two_requests :
  let m := Drain.runAll drainEvents (Drain.idle drainWorld) in
  ((λ ev, match ev with
          | Invoked request => ("call", DeleteRequest.fileId request, true)
          | Settled request ok => ("return", DeleteRequest.fileId request, ok)
          end) <$> Drain.trace m)
  = [("call", "r1", true); ("return", "r1", false);
     ("call", "y1", true); ("return", "y1", true)]
  ∧ (DeleteRequest.fileId <$> queue (Drain.world m)) = ["x1"]
  ∧ queueProcessing (Drain.world m) = false
  ∧ Drain.calls m = [].
Proof. vm_compute. repeat split. Qed.

(** ** Root poller *)

Lemma shouldEnablePolling_true enabled kbId p :
  shouldEnablePolling enabled kbId p = true
  ↔ enabled = true ∧ truthy kbId = true ∧ isTemporaryKB kbId = false
    ∧ shouldPoll p = true.
Proof.
  unfold shouldEnablePolling.
  rewrite !andb_true_iff, negb_true_iff. tauto.
Qed.

Lemma checkUnsettledFiles_state filtered p w :
  let r := checkUnsettledFiles filtered (p, w) in
  shouldPoll (fst (snd r)) = shouldPoll p
  ∧ pollingStartTime (fst (snd r)) = pollingStartTime p
  ∧ folderPollingStatus (fst (snd r)) = folderPollingStatus p
  ∧ kbResources (snd (snd r)) = kbResources w
  ∧ optimisticDeleteEntries (snd (snd r)) = optimisticDeleteEntries w.
Proof.
  unfold checkUnsettledFiles. destruct filtered as [data|]; simpl; [|done].
  by destruct (_ && _).
Qed.

Lemma filter_hasStatus_settled s files :
  s ≠ "indexed" → s ≠ "error" →
  Forall isSettled files → List.filter (hasStatus s) files = [].
Proof.
  intros H1 H2. induction 1 as [|f files Hf _ IH]; simpl; [reflexivity|].
  unfold hasStatus at 1. rewrite bool_decide_eq_false_2; [exact IH|].
  intros E. destruct Hf as [Hf|Hf]; rewrite Hf in E; congruence.
Qed.

Lemma checkUnsettledFiles_settled data p w :
  Forall isSettled (onlyFiles data) →
  fst (checkUnsettledFiles (Some data) (p, w)) = false.
Proof.
  intros H. unfold checkUnsettledFiles. simpl.
  rewrite !filter_hasStatus_settled by (assumption || discriminate).
  reflexivity.
Qed.

Lemma decidePolling_never_resumes enabled kbId filtered hasUnsettledFiles now p :
  shouldPoll p = false →
  shouldPoll (decidePolling enabled kbId filtered hasUnsettledFiles now p) = false.
Proof.
  intros H. unfold decidePolling, checkPollingTimeout, stopPolling.
  destruct (negb enabled || negb (truthy kbId)); [exact H|].
  destruct filtered as [resources|]; [|exact H].
  repeat (case_bool_decide || destruct (_ && _)); simpl; auto.
Qed.

Lemma decidePolling_stops enabled kbId resources hasUnsettledFiles now p :
  enabled = true → truthy kbId = true →
  resources = []
  ∨ onlyFiles resources = []
  ∨ (hasUnsettledFiles = false ∧ isFolderPollingActive p = false)
  ∨ MAX_POLL_DURATION < now - pollingStartTime p →
  shouldPoll (decidePolling enabled kbId (Some resources) hasUnsettledFiles now p)
  = false.
Proof.
  intros -> Hk Hstop. unfold decidePolling, checkPollingTimeout, stopPolling.
  rewrite Hk. simpl.
  case_bool_decide as Htime; [reflexivity|].
  case_bool_decide as Hempty; [reflexivity|].
  case_bool_decide as Hfiles; [reflexivity|].
  destruct Hstop as [-> | [H | [[-> Hfolder] | H]]].
  - by destruct Hempty.
  - rewrite H in Hfiles. by destruct Hfiles.
  - simpl in *. by rewrite Hfolder.
  - by destruct Htime.
Qed.

Lemma onlyFiles_filterPollingResponse w data :
  onlyFiles data = [] → onlyFiles (filterPollingResponse w data) = [].
Proof.
  unfold onlyFiles, filterPollingResponse. intros H.
  induction data as [|f data IH]; simpl in *; [reflexivity|].
  destruct (bool_decide (FileItem.type f = file)) eqn:E; [discriminate|].
  destruct (negb _); simpl; [rewrite E|]; auto.
Qed.

Lemma renderStatus_unfold enabled kbId now p w :
  renderStatus enabled kbId now (p, w)
  = let filtered := filteredKbResources w (kbId ≫= λ k, kbResources w !! k) in
    let r := checkUnsettledFiles filtered (p, w) in
    (decidePolling enabled kbId filtered (fst r) now (fst (snd r)), snd (snd r)).
Proof.
  unfold renderStatus. cbn [fst snd].
  by destruct (checkUnsettledFiles _ _) as [u [p1 w1]].
Qed.

Lemma renderStatus_never_resumes enabled kbId now p w :
  shouldPoll p = false →
  shouldPoll (fst (renderStatus enabled kbId now (p, w))) = false.
Proof.
  intros H. rewrite renderStatus_unfold. cbn [fst snd].
  apply decidePolling_never_resumes.
  by rewrite (proj1 (checkUnsettledFiles_state _ p w)).
Qed.

Lemma pollFolderStatus_disabled kbId shown folderPath expected response pw :
  pollFolderStatus kbId false shown folderPath expected response pw = (false, pw).
Proof.
  unfold pollFolderStatus. destruct pw as [p w]. by rewrite orb_true_r.
Qed.

Lemma pollFolderStatus_keeps kbId enabledInClosure shown folderPath expected
    response p w :
  let r := pollFolderStatus kbId enabledInClosure shown folderPath expected response
             (p, w) in
  shouldPoll (fst (snd r)) = shouldPoll p
  ∧ pollingStartTime (fst (snd r)) = pollingStartTime p
  ∧ kbResources (snd (snd r)) = kbResources w
  ∧ optimisticDeleteEntries (snd (snd r)) = optimisticDeleteEntries w.
Proof.
  unfold pollFolderStatus.
  destruct (negb (truthy kbId) || negb enabledInClosure); [done|].
  destruct response as [folderFiles|]; [|done].
  destruct (existsb (λ fileId, _ || _) expected && negb shown);
    [case_bool_decide|];
    destruct (existsb (expectedHasStatus folderFiles "pending") expected); done.
Qed.


Lemma pollStep_never_resumes enabled kbId m ev :
  shouldPoll (hookState m) = false →
  shouldPoll (hookState (pollStep enabled kbId m ev)) = false
  ∧ kbResources (hookWorld (pollStep enabled kbId m ev)) = kbResources (hookWorld m).
Proof.
  destruct m as [p w polls]. simpl. intros H.
  assert (Hoff : shouldEnablePolling enabled kbId p = false).
  { unfold shouldEnablePolling. rewrite H. apply andb_false_r. }
  destruct ev as [response now | now | | poll response];
    cbn [pollStep hookState hookWorld underWay fst snd].
  - unfold rootRefetched. rewrite Hoff. auto.
  - split; [by apply renderStatus_never_resumes|].
    rewrite renderStatus_unfold. cbn [fst snd].
    unfold checkUnsettledFiles.
    destruct (filteredKbResources w _); [|done].
    by destruct (_ && _).
  - rewrite Hoff. auto.
  - case_bool_decide; [|auto].
    destruct (pollFolderStatus_keeps kbId true (shownThen poll) (polledPath poll)
                (polledFileIds poll) response p w) as (H1 & _ & H2 & _).
    cbv zeta in H1, H2.
    destruct (pollFolderStatus _ _ _ _ _ _ _) as [again [p1 w1]]. simpl in *.
    split; [congruence | exact H2].
Qed.

Lemma pollRun_never_resumes enabled kbId events : ∀ m,
  shouldPoll (hookState m) = false →
  shouldPoll (hookState (pollRun enabled kbId events m)) = false
  ∧ kbResources (hookWorld (pollRun enabled kbId events m)) = kbResources (hookWorld m).
Proof.
  induction events as [|ev events IH]; intros m H; simpl; [auto|].
  destruct (pollStep_never_resumes enabled kbId m ev H) as (H1 & H2).
  destruct (IH _ H1) as (IH1 & IH2).
  rewrite IH2. auto.
Qed.

(** What the deciding effect does after a refetch that brought a new
    listing.  A temporary KB id is never polled.  The poller stops when
    the listing without the optimistically deleted records is empty,
    when it has no record of type file, when every record of type file
    is settled (indexed or error) and no folder poller is active, or
    when the poll duration exceeds its maximum.  Stopped, it stays
    stopped: no later event stores a root listing or turns polling on
    again. *)
Lemma decision_after_new_listing enabled kbId listing now p w :
  let filtered := filterPollingResponse w listing in
  let p' := fst (rootRefetched enabled kbId (Some listing) now (p, w)) in
  (isTemporaryKB kbId = true →
     shouldEnablePolling enabled kbId p = false
     ∧ rootRefetched enabled kbId (Some listing) now (p, w) = (p, w))
  ∧ (shouldEnablePolling enabled kbId p = true →
     kbResources w !! orEmpty kbId ≠ Some listing →
     filtered = []
     ∨ onlyFiles filtered = []
     ∨ (Forall isSettled (onlyFiles filtered) ∧ isFolderPollingActive p = false)
     ∨ MAX_POLL_DURATION < now - pollingStartTime p →
     shouldPoll p' = false)
  ∧ (∀ m events,
       shouldPoll (hookState m) = false →
       shouldEnablePolling enabled kbId
         (hookState (pollRun enabled kbId events m)) = false
       ∧ kbResources (hookWorld (pollRun enabled kbId events m))
         = kbResources (hookWorld m)).
Proof.
  intros filtered p'. split; [|split].
  - intros Htemp.
    assert (Hoff : shouldEnablePolling enabled kbId p = false).
    { unfold shouldEnablePolling. rewrite Htemp. simpl.
      by rewrite andb_false_r. }
    split; [exact Hoff|]. unfold rootRefetched. by rewrite Hoff.
  - intros Hon Hnew Hc. subst p'. unfold rootRefetched. rewrite Hon.
    rewrite bool_decide_eq_false_2 by exact Hnew.
    apply shouldEnablePolling_true in Hon as (-> & Hk & _ & _).
    destruct kbId as [k|]; [|discriminate].
    change (orEmpty (Some k)) with k.
    set (w1 := set_kbResources (<[k:=listing]> (kbResources w)) w).
    rewrite renderStatus_unfold. cbv zeta.
    assert (Hf : filteredKbResources w1 (Some k ≫= λ k0, kbResources w1 !! k0)
                 = Some filtered).
    { simpl. by rewrite lookup_insert_eq. }
    rewrite !Hf. cbn [fst snd].
    destruct (checkUnsettledFiles_state (Some filtered) p w1)
      as (Hsp & Hstart & Hfolder & _).
    cbn zeta in Hsp, Hstart, Hfolder.
    set (r := checkUnsettledFiles (Some filtered) (p, w1)) in *.
    apply decidePolling_stops; [reflexivity | exact Hk |].
    destruct Hc as [H | [H | [[H1 H2] | H]]]; [by left | by right; left | |].
    + right. right. left. split.
      * apply (checkUnsettledFiles_settled filtered p w1 H1).
      * unfold isFolderPollingActive, folderPollingValues in *. by rewrite Hfolder.
    + right. right. right. by rewrite Hstart.
  - intros m events Hq.
    destruct (pollRun_never_resumes enabled kbId events m Hq) as (H1 & H2).
    split; [|exact H2]. unfold shouldEnablePolling. rewrite H1.
    apply andb_false_r.
Qed.

Lemma rootRefetched_same_listing enabled kbId listing now p w :
  kbResources w !! orEmpty kbId = Some listing →
  rootRefetched enabled kbId (Some listing) now (p, w) = (p, w).
Proof.
  intros H. unfold rootRefetched.
  destruct (shouldEnablePolling enabled kbId p); [|reflexivity].
  by rewrite bool_decide_eq_true_2.
Qed.

(** C7. The time limit is not enforced.  The hook mounts at 1000 on a
    page that shows kb-9; the refetch that settles at 2000 shows one
    file, pending, and polling goes on.  From then on every refetch
    returns the same listing.  Whenever those refetches settle, also
    long after the two minutes of the limit, each leaves the hook as it
    was, because the deciding effect, which is the only place where the
    limit is checked, does not run again: polling stays enabled.  Had
    the effect run at one of those times past the limit, it would have
    stopped the poller. *)
Theorem root_poller_outlives_time_limit (times : list Z) :
  let observed :=
    pollStep true (Some "kb-9") mountedPollers (RootPoll (Some pendingListing) 2000) in
  let later :=
    pollRun true (Some "kb-9") (RootPoll (Some pendingListing) <$> times) observed in
  later = observed
  ∧ shouldEnablePolling true (Some "kb-9") (hookState later) = true
  ∧ Forall (λ now,
      MAX_POLL_DURATION < now - pollingStartTime (hookState observed) →
      shouldPoll (hookState (pollStep true (Some "kb-9") observed (Rendered now)))
      = false) times.
Proof.
  intros observed later.
  assert (Hsame : later = observed).
  { subst later. induction times as [|now times IH]; [reflexivity|].
    rewrite fmap_cons. cbn [pollRun fold_left].
    replace (pollStep true (Some "kb-9") observed
               (RootPoll (Some pendingListing) now)) with observed; [exact IH|].
    cbn [pollStep].
    rewrite rootRefetched_same_listing; [by destruct observed | reflexivity]. }
  split; [exact Hsame | split; [by rewrite Hsame|]].
  apply Forall_forall. intros now _ Hpast.
  cbn [pollStep hookState]. rewrite renderStatus_unfold. cbn [fst snd].
  apply decidePolling_stops; [reflexivity | reflexivity |].
  right. right. right.
  rewrite (proj1 (proj2 (checkUnsettledFiles_state _ _ _))). exact Hpast.
Qed.

(** A first listing without a record of type file stops the poller at
    once. *)
Example root_poller_zero_files :
  shouldEnablePolling true (Some "kb-9") (hookState mountedPollers) = true
  ∧ shouldPoll (hookState (pollStep true (Some "kb-9") mountedPollers
                             (RootPoll (Some [folderA]) 2000))) = false.
Proof. split; reflexivity. Qed.

(** One file seen pending, pending, then indexed: polling goes on after
    the first two listings and stops at the third, with every file
    settled. *)
Example root_poller_three_listings :
  let seen s := Some [FileItem.mk "r2" "s.txt" file 30 (Some s) None] in
  let m1 := pollStep true (Some "kb-9") mountedPollers (RootPoll (seen "pending") 2000) in
  let m2 := pollStep true (Some "kb-9") m1 (RootPoll (seen "pending") 3000) in
  let m3 := pollStep true (Some "kb-9") m2 (RootPoll (seen "indexed") 4000) in
  shouldPoll (hookState m1) = true ∧ shouldPoll (hookState m2) = true
  ∧ shouldPoll (hookState m3) = false
  ∧ allFilesSettled (kbResources (hookWorld m3) !! "kb-9") (hookState m3) = true.
Proof. vm_compute. repeat split. Qed.

(** ** Error notifications *)















Example errored_polls_toasts :
  toasts (hookWorld (pollRun true (Some "kb-9") erroredPolls mountedPollers))
  = [Toast.mk error "folder-error-/A"].
Proof. reflexivity. Qed.

(** A poll that goes on because a file is still pending runs the
    callback it was started with again, and with it reads the flag as it
    was then: it raises its notification at every turn that sees the
    failed file. *)
Example repoll_reads_the_flag_of_its_start :
  let poll := mkFolderPoll "/A" ["x1"; "x2"] false in
  let seen :=
    Some [FileItem.mk "x1" "A/x.txt" file 10 (Some "failed") None;
          FileItem.mk "x2" "A/z.txt" file 10 (Some "pending") None] in
  let m := mkPollers (initialPollingState 1000) pollWorld [poll] in
  toasts (hookWorld (pollRun true (Some "kb-9")
                       [FolderPolled poll seen; FolderPolled poll seen] m))
  = [Toast.mk error "folder-error-/A"; Toast.mk error "folder-error-/A"].
Proof. reflexivity. Qed.

(** ** Snapshot round trip *)

Lemma folderStatusesOf_lookup (kbId : string)
    (m : gmap (string * string) (list FileItem.t)) (p : string) :
  folderStatusesOf kbId m !! p = m !! (kbId, p).
Proof.
  unfold folderStatusesOf.
  destruct (map_curry (M1:=gmap string) (M2:=gmap string) m !! kbId) as [inner|] eqn:E;
    simpl.
  - rewrite <- (lookup_map_curry (M1:=gmap string) (M2:=gmap string) m kbId p).
    by rewrite E.
  - rewrite lookup_empty. symmetry.
    by apply (lookup_map_curry_None (M1:=gmap string) (M2:=gmap string) m kbId).
Qed.

Lemma restoreFolderStatuses_lookup (kbId : string)
    (folderStatuses : gmap string (list FileItem.t))
    (m : gmap (string * string) (list FileItem.t)) (k p : string) :
  restoreFolderStatuses kbId folderStatuses m !! (k, p)
  = match (if decide (k = kbId) then folderStatuses !! p else None) with
    | Some data => Some data
    | None => m !! (k, p)
    end.
Proof.
  unfold restoreFolderStatuses.
  apply (map_fold_weak_ind
    (λ (r : gmap (string * string) (list FileItem.t))
       (fs : gmap string (list FileItem.t)),
       r !! (k, p)
       = match (if decide (k = kbId) then fs !! p else None) with
         | Some data => Some data
         | None => m !! (k, p)
         end)).
  - rewrite lookup_empty. by destruct (decide (k = kbId)).
  - intros path data fs r Hfresh IH.
    destruct (decide (k = kbId)) as [->|Hne].
    + destruct (decide (path = p)) as [->|Hp].
      * by rewrite !lookup_insert_eq.
      * rewrite !lookup_insert_ne by congruence. exact IH.
    + rewrite lookup_insert_ne by congruence. exact IH.
Qed.

Lemma computeFileStatus_ext w1 w2 fileId kbId folderPath :
  optimisticDeleteEntries w1 = optimisticDeleteEntries w2 →
  kbResources w1 = kbResources w2 →
  kbFileStatus w1 = kbFileStatus w2 →
  optimisticFolderEntries w1 = optimisticFolderEntries w2 →
  computeFileStatus w1 fileId kbId folderPath
  = computeFileStatus w2 fileId kbId folderPath.
Proof.
  intros H1 H2 H3 H4. unfold computeFileStatus, isDescendantOfOptimisticFolder.
  by rewrite H1, H2, H3, H4.
Qed.

(** What a reload followed by the restore effect brings back of a world
    that was persisted for [kbId] *)
Lemma restore_after_reload kbId now1 now2 now3 w :
  let w' := restoreCacheFromStorage now3
              (reloadPage now2 (persistCacheToStorage kbId now1 w)) in
  optimisticDeleteEntries w' = optimisticDeleteEntries w
  ∧ optimisticFolderEntries w' = optimisticFolderEntries w
  ∧ (∀ k, kbResources w' !! k
          = if decide (k = kbId) then kbResources w !! kbId else None)
  ∧ (∀ k p, kbFileStatus w' !! (k, p)
            = if decide (k = kbId) then kbFileStatus w !! (kbId, p) else None).
Proof.
  intros w'. subst w'. unfold restoreCacheFromStorage, persistCacheToStorage.
  cbn [getCacheFromStorage reloadPage cacheStorage saveCacheToStorage
       set_cacheStorage CacheStorageData.kbId CacheStorageData.rootResources
       CacheStorageData.folderStatuses CacheStorageData.optimisticRegistry
       CacheStorageData.optimisticFolderRegistry].
  split; [|split; [|split]].
  - by destruct (kbResources w !! kbId).
  - by destruct (kbResources w !! kbId).
  - intros k. destruct (kbResources w !! kbId) as [d|] eqn:E; simpl.
    + destruct (decide (k = kbId)) as [->|Hne].
      * apply lookup_insert_eq.
      * rewrite lookup_insert_ne by congruence. apply lookup_empty.
    + rewrite lookup_empty. by destruct (decide (k = kbId)).
  - intros k p.
    assert (H : restoreFolderStatuses kbId (folderStatusesOf kbId (kbFileStatus w))
                  ∅ !! (k, p)
                = if decide (k = kbId) then kbFileStatus w !! (kbId, p) else None).
    { rewrite restoreFolderStatuses_lookup, lookup_empty.
      destruct (decide (k = kbId)); [|reflexivity].
      rewrite folderStatusesOf_lookup. by destruct (kbFileStatus w !! (kbId, p)). }
    destruct (kbResources w !! kbId); simpl; exact H.
Qed.

(** A world whose resource caches belong to one KB is persisted for that
    KB, the page is reloaded, which clears the live state, and the
    snapshot is restored: the resolver gives every file, KB id and folder
    path the result it gave before with a memo that held nothing stale
    under the key of the lookup. *)
Lemma snapshot_round_trip kbId now1 now2 now3 w statusCache fileId k p :
  cachesOnlyFor kbId w →
  memoFresh w statusCache fileId k p →
  let w' := restoreCacheFromStorage now3
              (reloadPage now2 (persistCacheToStorage kbId now1 w)) in
  fst (resolveFileStatus w' ∅ fileId k p)
  = fst (resolveFileStatus w statusCache fileId k p).
Proof.
  intros [Hroot Hfolder] Hfresh w'.
  rewrite (resolveFileStatus_fresh w statusCache) by exact Hfresh.
  rewrite (resolveFileStatus_fresh w' ∅) by apply memoFresh_empty.
  destruct (restore_after_reload kbId now1 now2 now3 w) as (H1 & H2 & H3 & H4).
  fold w' in H1, H2, H3, H4.
  apply computeFileStatus_ext; [exact H1 | | | exact H2].
  - apply map_eq. intros j. rewrite H3.
    destruct (decide (j = kbId)) as [->|Hne]; [reflexivity|].
    symmetry. by apply Hroot.
  - apply map_eq. intros [j q]. rewrite H4.
    destruct (decide (j = kbId)) as [->|Hne]; [reflexivity|].
    symmetry. by apply Hfolder.
Qed.

Lemma afterSuccess_caches :
  kbResources afterSuccess = {[ "kb-9" := [] ]}
  ∧ kbFileStatus afterSuccess
    = {[ ("kb-9", "/A") :=
           [FileItem.mk "x1" "A/x.txt" file 10 (Some "indexed")
              (Some "2025-01-01T00:00:00.000Z");
            FileItem.mk "y1" "A/B/y.txt" file 20 (Some "indexed")
              (Some "2025-01-01T00:00:00.000Z")] ]}.
Proof. split; vm_compute; reflexivity. Qed.

Lemma afterSuccess_cachesOnlyFor : cachesOnlyFor "kb-9" afterSuccess.
Proof.
  destruct afterSuccess_caches as [Hroot Hfolder]. split.
  - intros k Hne. rewrite Hroot. by apply lookup_singleton_ne.
  - intros k p Hne. rewrite Hfolder. apply lookup_singleton_ne. congruence.
Qed.

Example snapshot_round_trip_example :
  cachesOnlyFor "kb-9" afterSuccess
  ∧ fst (resolveFileStatus
           (restoreCacheFromStorage 5000
              (reloadPage 4000 (persistCacheToStorage "kb-9" 3000 afterSuccess)))
           ∅ "y1" (Some "kb-9") (Some "/A/B"))
    = fst (resolveFileStatus afterSuccess ∅ "y1" (Some "kb-9") (Some "/A/B")).
Proof.
  split; [exact afterSuccess_cachesOnlyFor|].
  apply (snapshot_round_trip "kb-9" 3000 4000 5000 afterSuccess ∅ "y1"
           (Some "kb-9") (Some "/A/B") afterSuccess_cachesOnlyFor).
  apply memoFresh_empty.
Qed.

(** The results of the example survive the round trip: the file of
    [/A/B] is shown indexed through the registered folder [/A], the
    deleted file is shown as deleted, a file outside is absent. *)
Example round_trip_results :
  let w' := restoreCacheFromStorage 5000
              (reloadPage 4000 (persistCacheToStorage "kb-9" 3000 afterSuccess)) in
  fst (resolveFileStatus w' ∅ "y1" (Some "kb-9") (Some "/A/B")) = Indexed
  ∧ fst (resolveFileStatus w' ∅ "x1" (Some "kb-9") (Some "/A")) = Indexed
  ∧ fst (resolveFileStatus w' ∅ "r1" (Some "kb-9") (Some "/")) = Deleted
  ∧ fst (resolveFileStatus w' ∅ "z9" (Some "kb-9") (Some "/Z")) = Absent.
Proof. vm_compute. repeat split. Qed.

(** ** The invariants that the properties assume *)

Lemma getFolderPathFromName_rooted name :
  startsWith (getFolderPathFromName name) "/" = true.
Proof. reflexivity. Qed.

Lemma getFolderPathFromFileName_nonempty fileName :
  getFolderPathFromFileName fileName ≠ EmptyString.
Proof. discriminate. Qed.

Lemma getFolderPath_nonempty files :
  files ≠ [] → getFolderPath files ≠ EmptyString.
Proof. destruct files; [done | discriminate]. Qed.

Lemma initialWorld_rooted now : registeredPathsRooted (initialWorld now).
Proof. constructor. Qed.

Lemma markFoldersAsOptimisticallyIndexed_rooted kbId selected names now w :
  registeredPathsRooted w →
  registeredPathsRooted
    (markFoldersAsOptimisticallyIndexed kbId selected names now w).
Proof.
  unfold registeredPathsRooted, markFoldersAsOptimisticallyIndexed. simpl.
  intros H. apply markFolders_Forall; [|exact H].
  intros folderId name. exact (getFolderPathFromName_rooted name).
Qed.

Lemma clearOptimisticFoldersForKB_rooted kbId now w :
  registeredPathsRooted w →
  registeredPathsRooted (clearOptimisticFoldersForKB kbId now w).
Proof.
  unfold registeredPathsRooted, clearOptimisticFoldersForKB. simpl.
  rewrite !Forall_forall. intros H ke Hin.
  apply H. apply list_elem_of_In, List.filter_In in Hin as [Hin _].
  by apply list_elem_of_In.
Qed.

Lemma removeOptimisticFolder_rooted kbId folderId now w :
  registeredPathsRooted w →
  registeredPathsRooted (removeOptimisticFolder kbId folderId now w).
Proof.
  unfold registeredPathsRooted, removeOptimisticFolder, deleteEntry. simpl.
  rewrite !Forall_forall. intros H ke Hin.
  apply H. apply list_elem_of_In, List.filter_In in Hin as [Hin _].
  by apply list_elem_of_In.
Qed.

Lemma onSuccess_rooted kb resourceIds files context now w :
  registeredPathsRooted w →
  registeredPathsRooted (onSuccess kb resourceIds files context now w).
Proof.
  intros H. unfold onSuccess.
  destruct context as [c|]; [|exact H].
  unfold registeredPathsRooted.
  destruct (kbResources _ !! _); case_bool_decide; try exact H;
    apply (markFoldersAsOptimisticallyIndexed_rooted _ _ _ _
             (clearOptimisticFoldersForKB _ _ _)),
          clearOptimisticFoldersForKB_rooted; exact H.
Qed.

Lemma initialWorld_wellKeyed now : cachesWellKeyed (initialWorld now).
Proof.
  split; simpl.
  - intros k [d H]. by rewrite lookup_empty in H.
  - intros k p [d H]. by rewrite lookup_empty in H.
Qed.

Lemma updateKBResourcesCache_wellKeyed kbId updater now w :
  kbId ≠ EmptyString → cachesWellKeyed w →
  cachesWellKeyed (updateKBResourcesCache kbId updater now w).
Proof.
  intros Hk [Hroot Hfolder]. split; simpl.
  - intros k [d H]. destruct (decide (kbId = k)) as [<-|Hne]; [exact Hk|].
    rewrite lookup_insert_ne in H by exact Hne. apply Hroot. by eexists.
  - exact Hfolder.
Qed.

Lemma updateFolderStatusCache_wellKeyed kbId folderPath updater now w :
  kbId ≠ EmptyString → folderPath ≠ EmptyString → cachesWellKeyed w →
  cachesWellKeyed (updateFolderStatusCache kbId folderPath updater now w).
Proof.
  intros Hk Hp [Hroot Hfolder]. split; simpl.
  - exact Hroot.
  - intros k p [d H].
    destruct (decide ((kbId, folderPath) = (k, p))) as [[= <- <-]|Hne]; [done|].
    rewrite lookup_insert_ne in H by exact Hne. apply Hfolder. by eexists.
Qed.

Lemma removeOptimisticCaches_wellKeyed kbId w :
  cachesWellKeyed w → cachesWellKeyed (removeOptimisticCaches kbId w).
Proof.
  intros [Hroot Hfolder]. split.
  - intros k [d H]. rewrite removeOptimisticCaches_root in H.
    destruct (decide (kbId = k)); [discriminate|]. apply Hroot. by eexists.
  - intros k p [d H]. rewrite removeOptimisticCaches_folder in H.
    destruct (decide (k = kbId)); [discriminate|]. apply Hfolder. by eexists.
Qed.

Lemma expandFolderOptimistically_wellKeyed kbId folderContents isoString w statusCache :
  cachesWellKeyed w →
  cachesWellKeyed
    (fst (expandFolderOptimistically kbId folderContents isoString (w, statusCache))).
Proof.
  intros Hw. unfold expandFolderOptimistically.
  destruct (truthy kbId) eqn:Hk; [|exact Hw]. simpl.
  case_bool_decide as Hlen; [|exact Hw].
  destruct (resolveFileStatus _ _ _ _ _) as [resolved statusCache'].
  case_bool_decide as Hres; [|exact Hw]. simpl.
  destruct Hw as [Hroot Hfolder]. split; simpl; [exact Hroot|].
  intros k p [d H].
  destruct (decide ((orEmpty kbId, getFolderPath folderContents) = (k, p)))
    as [[= <- <-]|Hne].
  - split.
    + destruct kbId as [k0|]; [|discriminate]. by apply truthy_Some.
    + apply getFolderPath_nonempty.
      destruct folderContents; [simpl in Hlen; lia | done].
  - rewrite lookup_insert_ne in H by exact Hne. apply Hfolder. by eexists.
Qed.

Lemma rootRefetched_wellKeyed enabled kbId response now p w :
  cachesWellKeyed w →
  cachesWellKeyed (snd (rootRefetched enabled kbId response now (p, w))).
Proof.
  intros [Hroot Hfolder]. unfold rootRefetched.
  destruct (shouldEnablePolling enabled kbId p) eqn:Hon; [|by split].
  destruct response as [listing|]; [|by split].
  case_bool_decide as Hsame; [by split|].
  apply shouldEnablePolling_true in Hon as (_ & Hk & _ & _).
  destruct kbId as [k|]; [|discriminate]. apply truthy_Some in Hk.
  rewrite renderStatus_unfold. cbv zeta. cbn [fst snd].
  set (w1 := set_kbResources _ w).
  assert (Hw1 : cachesWellKeyed w1).
  { split; simpl; [|exact Hfolder]. intros j [d H].
    destruct (decide (k = j)) as [<-|Hne]; [exact Hk|].
    change (orEmpty (Some k)) with k in H.
    rewrite lookup_insert_ne in H by exact Hne. apply Hroot. by eexists. }
  unfold checkUnsettledFiles. destruct (filteredKbResources w1 _); [|exact Hw1].
  by destruct (_ && _).
Qed.

(** ** Reachable worlds are well formed *)

Lemma sameResources_refl w : sameResources w w.
Proof. by repeat split. Qed.

Lemma sameResources_trans w1 w2 w3 :
  sameResources w1 w2 → sameResources w2 w3 → sameResources w1 w3.
Proof.
  intros (A1 & A2 & A3 & A4) (B1 & B2 & B3 & B4).
  repeat split; congruence.
Qed.

Lemma sameResources_fold {A} (f : World → A → World) l : ∀ w,
  (∀ w x, sameResources w (f w x)) → sameResources w (fold_left f l w).
Proof.
  induction l as [|x l IH]; intros w H; simpl; [apply sameResources_refl|].
  eapply sameResources_trans; [apply H | by apply IH].
Qed.

Lemma wellFormed_same w w' : sameResources w w' → wellFormed w → wellFormed w'.
Proof.
  intros (H1 & H2 & H3 & H4) ((Hroot & Hfolder) & Hrooted & Hstorage).
  split; [split|split].
  - intros k. rewrite H1. apply Hroot.
  - intros k p. rewrite H2. apply Hfolder.
  - unfold registeredPathsRooted. rewrite H3. exact Hrooted.
  - intros stored. rewrite H4. apply Hstorage.
Qed.

Lemma persistCacheToStorage_wellFormed kbId now w :
  cachesWellKeyed w → registeredPathsRooted w →
  wellFormed (persistCacheToStorage kbId now w).
Proof.
  intros [Hroot Hfolder] Hrooted. split; [|split].
  - split; [exact Hroot | exact Hfolder].
  - exact Hrooted.
  - intros stored [= <-]. simpl. split; [|split].
    + intros H. by apply Hroot.
    + intros p H. rewrite folderStatusesOf_lookup in H. by apply Hfolder.
    + exact Hrooted.
Qed.

Lemma updateKBResourcesCache_wellFormed kbId updater now w :
  kbId ≠ EmptyString → wellFormed w →
  wellFormed (updateKBResourcesCache kbId updater now w).
Proof.
  intros Hk (Hc & Hr & _). apply persistCacheToStorage_wellFormed; [|exact Hr].
  exact (updateKBResourcesCache_wellKeyed kbId updater now w Hk Hc).
Qed.

Lemma updateFolderStatusCache_wellFormed kbId folderPath updater now w :
  kbId ≠ EmptyString → folderPath ≠ EmptyString → wellFormed w →
  wellFormed (updateFolderStatusCache kbId folderPath updater now w).
Proof.
  intros Hk Hp (Hc & Hr & _). apply persistCacheToStorage_wellFormed; [|exact Hr].
  exact (updateFolderStatusCache_wellKeyed kbId folderPath updater now w Hk Hp Hc).
Qed.

Lemma markFoldersAsOptimisticallyIndexed_wellFormed kbId selected names now w :
  wellFormed w →
  wellFormed (markFoldersAsOptimisticallyIndexed kbId selected names now w).
Proof.
  intros (Hc & Hr & Hs). split; [exact Hc | split; [|exact Hs]].
  by apply markFoldersAsOptimisticallyIndexed_rooted.
Qed.

Lemma clearOptimisticFoldersForKB_wellFormed kbId now w :
  wellFormed w → wellFormed (clearOptimisticFoldersForKB kbId now w).
Proof.
  intros (Hc & Hr & Hs). split; [exact Hc | split; [|exact Hs]].
  by apply clearOptimisticFoldersForKB_rooted.
Qed.

Lemma segregateFolder_paths w files acc folderId :
  Forall (λ ff, FolderFiles.folderPath ff ≠ EmptyString) (fst (fst acc)) →
  Forall (λ ff, FolderFiles.folderPath ff ≠ EmptyString)
    (fst (fst (segregateFolder w files acc folderId))).
Proof.
  destruct acc as [[cached uncached] allIds]. unfold segregateFolder. simpl.
  intros H. destruct (driveFiles w !! folderId) as [[|first rest]|]; simpl;
    try exact H.
  case_bool_decide; simpl; [|exact H].
  apply Forall_app. split; [exact H|]. by repeat constructor.
Qed.

Lemma segregate_fold_paths w files ids : ∀ acc,
  Forall (λ ff, FolderFiles.folderPath ff ≠ EmptyString) (fst (fst acc)) →
  Forall (λ ff, FolderFiles.folderPath ff ≠ EmptyString)
    (fst (fst (fold_left (segregateFolder w files) ids acc))).
Proof.
  induction ids as [|a ids IH]; intros acc H; simpl; [exact H|].
  by apply IH, segregateFolder_paths.
Qed.

Lemma folderStatus_fold_wellFormed kbId (mk : FolderFiles.t → list FileItem.t) now
    ffs : ∀ w,
  kbId ≠ EmptyString →
  Forall (λ ff, FolderFiles.folderPath ff ≠ EmptyString) ffs →
  wellFormed w →
  wellFormed
    (fold_left (λ w ff,
       updateFolderStatusCache kbId (FolderFiles.folderPath ff) (λ _, mk ff) now w)
       ffs w).
Proof.
  induction ffs as [|ff ffs IH]; intros w Hk Hp Hw; simpl; [exact Hw|].
  inversion Hp as [|? ? Hff Hrest]; subst.
  apply IH; [exact Hk | exact Hrest |].
  by apply updateFolderStatusCache_wellFormed.
Qed.

Lemma tempId_nonempty (now : Z) : "temp-" +:+ pretty now ≠ EmptyString.
Proof. discriminate. Qed.

Lemma onMutate_wellFormed resourceIds files clock w :
  wellFormed w →
  wellFormed (fst (fst (onMutate resourceIds files clock w)))
  ∧ KnowledgeBase.id
      (MutationContext.optimisticKB (snd (fst (onMutate resourceIds files clock w))))
    ≠ EmptyString.
Proof.
  intros Hw. unfold onMutate.
  pose proof (segregate_fold_paths
    (setSyncPending ("temp-" +:+ pretty (Clock.now clock)) (Clock.now clock)
       (setCurrentKB
          (Some (KnowledgeBase.mk ("temp-" +:+ pretty (Clock.now clock))
                   ("Knowledge Base " +:+ Clock.localeString clock)
                   (Clock.isoString clock) (Some false))) w))
    files (selectedOfType directory resourceIds files)
    ([], [], selectedOfType file resourceIds files)) as Hpaths.
  cbn [KnowledgeBase.id] in *.
  destruct (fold_left _ _ _) as [[cached uncached] allIds]. cbn [fst snd] in *.
  split; [|apply tempId_nonempty].
  apply (folderStatus_fold_wellFormed _
           (λ ff, List.map (optimisticFolderResource files (Clock.isoString clock))
                    (FolderFiles.fileIds ff)));
    [apply tempId_nonempty | apply Hpaths; constructor |].
  assert (Hroot : wellFormed
    (updateKBResourcesCache ("temp-" +:+ pretty (Clock.now clock))
       (λ _, List.map (optimisticRootResource files (Clock.isoString clock))
               (selectedOfType file resourceIds files)) (Clock.now clock)
       (setIndexedFolders cached
          (setSyncPending ("temp-" +:+ pretty (Clock.now clock)) (Clock.now clock)
             (setCurrentKB
                (Some (KnowledgeBase.mk ("temp-" +:+ pretty (Clock.now clock))
                         ("Knowledge Base " +:+ Clock.localeString clock)
                         (Clock.isoString clock) (Some false))) w))))).
  { apply updateKBResourcesCache_wellFormed; [apply tempId_nonempty|].
    eapply wellFormed_same; [|exact Hw]. by repeat split. }
  case_bool_decide; [|exact Hroot].
  by apply markFoldersAsOptimisticallyIndexed_wellFormed.
Qed.

Lemma backgroundFetchSettled_wellFormed folderId files response clock w context :
  KnowledgeBase.id (MutationContext.optimisticKB context) ≠ EmptyString →
  wellFormed w →
  wellFormed (fst (backgroundFetchSettled folderId files response clock (w, context)))
  ∧ KnowledgeBase.id
      (MutationContext.optimisticKB
         (snd (backgroundFetchSettled folderId files response clock (w, context))))
    ≠ EmptyString.
Proof.
  intros Hk Hw. unfold backgroundFetchSettled.
  destruct (findFile files folderId); [|by split].
  destruct response as [folderContents|]; [|by split].
  assert (Hw' : wellFormed
            (set_driveFiles (<[folderId:=folderContents]> (driveFiles w)) w)).
  { eapply wellFormed_same; [|exact Hw]. by repeat split. }
  destruct folderContents as [|first rest]; [by split|].
  case_bool_decide; [|by split]. split; [|exact Hk].
  apply updateFolderStatusCache_wellFormed; [exact Hk | discriminate | exact Hw'].
Qed.

Lemma transfer_fold_keys tempId realId ffs : ∀ m k p,
  is_Some (fold_left (transferFolderStatus tempId realId) ffs m !! (k, p)) →
  is_Some (m !! (k, p)) ∨ (k = realId ∧ is_Some (m !! (tempId, p))).
Proof.
  induction ffs as [|ff ffs IH]; intros m k p H; simpl in H; [by left|].
  apply IH in H. unfold transferFolderStatus in H.
  destruct (m !! (tempId, FolderFiles.folderPath ff)) as [d|] eqn:E; [|exact H].
  destruct (decide ((realId, FolderFiles.folderPath ff) = (k, p))) as [[= <- <-]|Hne].
  - right. split; [reflexivity | by eexists].
  - rewrite lookup_insert_ne in H by exact Hne.
    destruct H as [H | [-> H]]; [by left|].
    destruct (decide ((realId, FolderFiles.folderPath ff) = (tempId, p)))
      as [[= -> <-]|Hne'].
    + right. split; [reflexivity | by eexists].
    + rewrite lookup_insert_ne in H by exact Hne'. by right.
Qed.

Lemma onSuccess_wellFormed kb resourceIds files context now w :
  KnowledgeBase.id kb ≠ EmptyString →
  wellFormed w →
  wellFormed (onSuccess kb resourceIds files context now w).
Proof.
  intros Hk Hw. pose proof Hw as ((Hroot & Hfolder) & Hrooted & Hstorage).
  split; [|split].
  - destruct context as [c|]; [|exact (proj1 Hw)].
    unfold onSuccess.
    set (tempId := KnowledgeBase.id (MutationContext.optimisticKB c)).
    set (realId := KnowledgeBase.id kb) in *.
    split.
    + intros k [d H]. revert H.
      cbn -[removeOptimisticCaches markFoldersAsOptimisticallyIndexed
            clearOptimisticFoldersForKB].
      rewrite removeOptimisticCaches_root.
      destruct (decide (tempId = k)); [discriminate|].
      destruct (kbResources w !! tempId) eqn:E; simpl;
        destruct (bool_decide (0 < length _)%nat); simpl; intros H;
        try (apply Hroot; by eexists);
        (destruct (decide (realId = k)) as [<-|Hne]; [exact Hk|];
         rewrite lookup_insert_ne in H by exact Hne; apply Hroot; by eexists).
    + intros k p [d H]. revert H.
      cbn -[removeOptimisticCaches markFoldersAsOptimisticallyIndexed
            clearOptimisticFoldersForKB].
      rewrite removeOptimisticCaches_folder.
      destruct (decide (k = tempId)); [discriminate|].
      assert (Hkeys : is_Some
                (fold_left (transferFolderStatus tempId realId)
                   (MutationContext.folderFiles c) (kbFileStatus w) !! (k, p)) →
              k ≠ EmptyString ∧ p ≠ EmptyString).
      { intros [H | [-> H]]%transfer_fold_keys; [by apply Hfolder|].
        split; [exact Hk | by apply (Hfolder tempId p)]. }
      destruct (kbResources w !! tempId) eqn:E; simpl;
        destruct (bool_decide (0 < length _)%nat); simpl; intros H;
        apply Hkeys; by eexists.
  - by apply onSuccess_rooted.
  - destruct context as [c|]; [|exact Hstorage].
    unfold onSuccess, storageWellKeyed.
    destruct (kbResources _ !! _); destruct (bool_decide (0 < length _)%nat);
      exact Hstorage.
Qed.

Lemma onError_wellFormed context now w :
  wellFormed w → wellFormed (onError context now w).
Proof.
  intros Hw. destruct context as [c|].
  - unfold onError. destruct Hw as (Hc & Hr & Hs). split; [|split].
    + apply (removeOptimisticCaches_wellKeyed _
               (setSyncCompleted EmptyString now
                  (setIndexedFolders [] (setCurrentKB _ w)))).
      exact Hc.
    + exact Hr.
    + exact Hs.
  - eapply wellFormed_same; [|exact Hw]. by repeat split.
Qed.

Lemma markFileAsDeleted_same fileId fileName kbId now w :
  sameResources w (markFileAsDeleted fileId fileName kbId now w).
Proof. by repeat split. Qed.

Lemma queueDeleteRequest_same fileId fileName kbId now w :
  sameResources w (queueDeleteRequest fileId fileName kbId now w).
Proof. by repeat split. Qed.

Lemma deleteSelectedFiles_wellFormed selectedIds files now w :
  wellFormed w → wellFormed (fst (deleteSelectedFiles selectedIds files now w)).
Proof.
  intros Hw. unfold deleteSelectedFiles.
  destruct (currentKBId w) as [kbId|]; [|exact Hw].
  set (w1 := fold_left _ selectedIds w).
  assert (H1 : wellFormed w1).
  { eapply wellFormed_same; [|exact Hw]. apply sameResources_fold.
    intros v x. destruct (findFile files x);
      [apply markFileAsDeleted_same | apply sameResources_refl]. }
  set (w2 := match kbResources w1 !! kbId with Some _ => _ | None => w1 end).
  assert (H2 : wellFormed w2).
  { subst w2. destruct (kbResources w1 !! kbId) as [data|] eqn:E; [|exact H1].
    destruct H1 as ((Hroot & Hfolder) & Hr & Hs).
    split; [split; [|exact Hfolder] | split; [exact Hr | exact Hs]].
    intros k [d H]. simpl in H.
    destruct (decide (kbId = k)) as [<-|Hne]; [apply Hroot; by eexists|].
    rewrite lookup_insert_ne in H by exact Hne. apply Hroot. by eexists. }
  destruct (isSyncPending w); [|exact H2]. simpl.
  eapply wellFormed_same; [|exact H2].
  eapply sameResources_trans; [|by repeat split].
  apply sameResources_fold.
  intros v x. destruct (findFile files x);
    [apply queueDeleteRequest_same | apply sameResources_refl].
Qed.

Lemma deleteFilesSettled_wellFormed ok now w :
  wellFormed w → wellFormed (deleteFilesSettled ok now w).
Proof.
  intros Hw. unfold deleteFilesSettled. destruct ok.
  - eapply wellFormed_same; [by repeat split|].
    destruct (currentKBId w); [|exact Hw].
    destruct Hw as (Hc & Hr & _). by apply persistCacheToStorage_wellFormed.
  - eapply wellFormed_same; [|exact Hw]. by repeat split.
Qed.

Lemma expandFolderOptimistically_wellFormed kbId folderContents isoString w statusCache :
  wellFormed w →
  wellFormed
    (fst (expandFolderOptimistically kbId folderContents isoString (w, statusCache))).
Proof.
  intros Hw. split; [|split].
  - apply expandFolderOptimistically_wellKeyed, Hw.
  - destruct Hw as (_ & Hr & _). unfold expandFolderOptimistically.
    destruct (truthy kbId && _); [|exact Hr].
    destruct (resolveFileStatus _ _ _ _ _). by case_bool_decide.
  - destruct Hw as (_ & _ & Hs). unfold expandFolderOptimistically.
    destruct (truthy kbId && _); [|exact Hs].
    destruct (resolveFileStatus _ _ _ _ _). by case_bool_decide.
Qed.

Lemma rootRefetched_wellFormed enabled kbId response now p w :
  wellFormed w →
  wellFormed (snd (rootRefetched enabled kbId response now (p, w))).
Proof.
  intros Hw. split; [apply rootRefetched_wellKeyed, Hw|].
  destruct Hw as (_ & Hr & Hs). unfold rootRefetched.
  destruct (shouldEnablePolling enabled kbId p); [|by split].
  destruct response as [listing|]; [|by split].
  case_bool_decide; [by split|].
  rewrite renderStatus_unfold. cbv zeta. cbn [fst snd].
  unfold checkUnsettledFiles. destruct (filteredKbResources _ _); [|by split].
  by destruct (_ && _).
Qed.

Lemma pollFolderStatus_wellFormed kbId enabledInClosure shownInClosure folderPath
    expected response p w :
  folderPath ≠ EmptyString →
  wellFormed w →
  wellFormed (snd (snd (pollFolderStatus kbId enabledInClosure shownInClosure
                          folderPath expected response (p, w)))).
Proof.
  intros Hp Hw. unfold pollFolderStatus.
  destruct (truthy kbId) eqn:Hk; [|exact Hw]. simpl.
  destruct enabledInClosure; [|exact Hw]. simpl.
  destruct response as [folderFiles|]; [|exact Hw].
  assert (Hw1 : wellFormed
            (set_kbFileStatus
               (<[(orEmpty kbId, folderPath):=folderFiles]> (kbFileStatus w)) w)).
  { destruct Hw as ((Hroot & Hfolder) & Hr & Hs).
    split; [split; [exact Hroot|] | split; [exact Hr | exact Hs]].
    intros k q [d H]. simpl in H.
    destruct (decide ((orEmpty kbId, folderPath) = (k, q))) as [[= <- <-]|Hne].
    - split; [|exact Hp]. destruct kbId; [by apply truthy_Some | discriminate].
    - rewrite lookup_insert_ne in H by exact Hne. apply Hfolder. by eexists. }
  destruct (existsb (λ fileId, _ || _) expected && negb shownInClosure);
    [case_bool_decide|];
    destruct (existsb (expectedHasStatus folderFiles "pending") expected);
    simpl; try exact Hw1;
    (eapply wellFormed_same; [|exact Hw1]; by repeat split).
Qed.

Lemma restore_reload_wellFormed now restoredAt w :
  storageWellKeyed w →
  wellFormed (restoreCacheFromStorage restoredAt (reloadPage now w)).
Proof.
  intros Hs. unfold restoreCacheFromStorage.
  change (getCacheFromStorage (reloadPage now w)) with (cacheStorage w).
  destruct (cacheStorage w) as [stored|] eqn:E.
  - destruct (Hs stored E) as (Hroot & Hfolder & Hreg).
    split; [split|split].
    + intros k [d H]. revert H.
      destruct (CacheStorageData.rootResources stored) as [root|]; simpl.
      * intros H. destruct (decide (CacheStorageData.kbId stored = k)) as [<-|Hne];
          [apply Hroot; by eexists|].
        rewrite lookup_insert_ne in H by exact Hne. by rewrite lookup_empty in H.
      * intros H. by rewrite lookup_empty in H.
    + intros k p [d H]. revert H.
      assert (Hl : restoreFolderStatuses (CacheStorageData.kbId stored)
                     (CacheStorageData.folderStatuses stored) ∅ !! (k, p) = Some d →
                   k ≠ EmptyString ∧ p ≠ EmptyString).
      { rewrite restoreFolderStatuses_lookup, lookup_empty.
        destruct (decide (k = CacheStorageData.kbId stored)) as [->|]; [|done].
        destruct (CacheStorageData.folderStatuses stored !! p) eqn:Ep; [|done].
        intros _. apply Hfolder. by eexists. }
      destruct (CacheStorageData.rootResources stored); simpl; exact Hl.
    + unfold registeredPathsRooted.
      destruct (CacheStorageData.rootResources stored); simpl; exact Hreg.
    + intros stored'. destruct (CacheStorageData.rootResources stored); simpl;
        rewrite E; intros [= <-]; by apply Hs.
  - split; [split|split]; simpl.
    + intros k [d H]. by rewrite lookup_empty in H.
    + intros k p [d H]. by rewrite lookup_empty in H.
    + constructor.
    + intros stored H. change (cacheStorage w = Some stored) in H. congruence.
Qed.

Lemma createNewKB_wellFormed now w : wellFormed (createNewKB now w).
Proof.
  split; [split|split]; simpl.
  - intros k [d H]. by rewrite lookup_empty in H.
  - intros k p [d H]. by rewrite lookup_empty in H.
  - constructor.
  - intros stored H. discriminate H.
Qed.

Lemma toggleFolder_contents_wellFormed kbId isCreatingKB folderId fetched isoString
    treeState w statusCache refs :
  wellFormed w →
  let r :=
    toggleFolder_contents kbId isCreatingKB folderId fetched isoString
      (mkPicker treeState w statusCache refs []) in
  wellFormed (pickerWorld (fst r))
  ∧ Forall (λ folderPath, folderPath ≠ EmptyString)
      (scheduledPaths (scheduled (fst r)) ++ awaitedPaths (snd r)).
Proof.
  intros Hw r. subst r. unfold toggleFolder_contents.
  destruct fetched as [contents|]; [|by split].
  cbn [tree pickerWorld pickerMemo prefetches scheduled].
  set (w1 := set_driveFiles _ w).
  assert (Hw1 : wellFormed w1).
  { eapply wellFormed_same; [|exact Hw]. by repeat split. }
  destruct (truthy kbId) eqn:Hk; [|by split].
  case_bool_decide as Hlen; [|by split].
  cbn [andb].
  assert (Hpath : getFolderPath contents ≠ EmptyString).
  { apply getFolderPath_nonempty. destruct contents; [simpl in Hlen; lia | done]. }
  destruct (resolveFileStatus w1 statusCache EmptyString kbId
              (Some (getFolderPath contents))) as [resolved memo].
  case_bool_decide as Hresolved.
  - set (optimisticFiles := List.map _ _).
    assert (Hw2 : wellFormed
              (set_kbFileStatus
                 (<[(orEmpty kbId, getFolderPath contents) := optimisticFiles]>
                    (kbFileStatus w1)) w1)).
    { destruct Hw1 as ((Hroot & Hfolder) & Hr & Hs).
      split; [split; [exact Hroot|] | split; [exact Hr | exact Hs]].
      intros k q [d H]. simpl in H.
      destruct (decide ((orEmpty kbId, getFolderPath contents) = (k, q)))
        as [[= <- <-]|Hne].
      - split; [|exact Hpath]. destruct kbId; [by apply truthy_Some | discriminate].
      - rewrite lookup_insert_ne in H by exact Hne. apply Hfolder. by eexists. }
    destruct isCreatingKB; simpl; (split; [exact Hw2|]); by repeat constructor.
  - destruct isCreatingKB; simpl; (split; [exact Hw1|]); by repeat constructor.
Qed.

Lemma pollDelayed_paths kbId w folderIds : ∀ timers,
  Forall (λ folderPath, folderPath ≠ EmptyString) (scheduledPaths timers) →
  Forall (λ folderPath, folderPath ≠ EmptyString)
    (scheduledPaths (fold_left (pollDelayed kbId w) folderIds timers)).
Proof.
  induction folderIds as [|folderId folderIds IH]; intros timers H; [exact H|].
  cbn [fold_left]. apply IH. unfold pollDelayed.
  destruct (driveFiles w !! folderId) as [data|]; [|exact H].
  case_bool_decide as Hlen; [|exact H].
  destruct (isDescendantOfOptimisticFolder _ _ _); [|exact H].
  unfold scheduledPaths in *. rewrite flat_map_app. apply Forall_app.
  split; [exact H|]. simpl. constructor; [|constructor].
  apply getFolderPath_nonempty. destruct data; [simpl in Hlen; lia | done].
Qed.

Lemma fetchKBStatusForFolder_wellFormed kbId folderPath response w :
  folderPath ≠ EmptyString →
  wellFormed w →
  wellFormed (snd (fetchKBStatusForFolder kbId folderPath response w)).
Proof.
  intros Hp Hw. unfold fetchKBStatusForFolder.
  destruct (truthy kbId) eqn:Hk; [|exact Hw]. simpl.
  destruct response as [data|]; [|exact Hw]. simpl.
  destruct Hw as ((Hroot & Hfolder) & Hr & Hs).
  split; [split; [exact Hroot|] | split; [exact Hr | exact Hs]].
  intros k q [d H]. simpl in H.
  destruct (decide ((orEmpty kbId, folderPath) = (k, q))) as [[= <- <-]|Hne].
  - split; [|exact Hp]. destruct kbId; [by apply truthy_Some | discriminate].
  - rewrite lookup_insert_ne in H by exact Hne. apply Hfolder. by eexists.
Qed.

Lemma nextRequest_same rest queueLength now w :
  sameResources w (fst (fst (Drain.nextRequest rest queueLength now w))).
Proof. destruct rest; by repeat split. Qed.

Lemma drain_run_same m ev :
  (∀ task, ev ≠ Drain.Callback task) →
  sameResources (Drain.world m) (Drain.world (Drain.run m ev)).
Proof.
  intros Hev.
  assert (Hstart : ∀ now, sameResources (Drain.world m)
                            (Drain.world (Drain.processQueue now m))).
  { intros now. unfold Drain.processQueue.
    destruct (_ || _); [apply sameResources_refl|].
    destruct (queue (Drain.world m)); by repeat split. }
  destruct ev as [now | now | i ok now | i now | fileId fileName kbId now
                  | oldKbId newKbId now | task]; cbn [Drain.run].
  - apply Hstart.
  - unfold Drain.processQueueWhenSynced.
    destruct (_ && _ && _); [apply Hstart | apply sameResources_refl].
  - unfold Drain.callSettled.
    destruct (Drain.calls m !! i) as [[[|request rest] queueLength []]|];
      try apply sameResources_refl.
    destruct (ok && _); [by repeat split|].
    destruct rest; by repeat split.
  - unfold Drain.pauseOver.
    destruct (Drain.calls m !! i) as [[rest queueLength []]|];
      try apply sameResources_refl.
    destruct rest; by repeat split.
  - by repeat split.
  - by repeat split.
  - by destruct (Hev task).
Qed.

Lemma onMutate_context_paths resourceIds files clock w :
  Forall (λ ff, FolderFiles.folderPath ff ≠ EmptyString)
    (MutationContext.folderFiles (snd (fst (onMutate resourceIds files clock w)))).
Proof.
  unfold onMutate.
  pose proof (segregate_fold_paths
    (setSyncPending ("temp-" +:+ pretty (Clock.now clock)) (Clock.now clock)
       (setCurrentKB
          (Some (KnowledgeBase.mk ("temp-" +:+ pretty (Clock.now clock))
                   ("Knowledge Base " +:+ Clock.localeString clock)
                   (Clock.isoString clock) (Some false))) w))
    files (selectedOfType directory resourceIds files)
    ([], [], selectedOfType file resourceIds files)) as Hpaths.
  cbn [KnowledgeBase.id] in *.
  destruct (fold_left _ _ _) as [[cached uncached] allIds]. cbn [fst snd] in *.
  apply Hpaths. constructor.
Qed.

Lemma backgroundFetchSettled_context_paths folderId files response clock w context :
  Forall (λ ff, FolderFiles.folderPath ff ≠ EmptyString)
    (MutationContext.folderFiles context) →
  Forall (λ ff, FolderFiles.folderPath ff ≠ EmptyString)
    (MutationContext.folderFiles
       (snd (backgroundFetchSettled folderId files response clock (w, context)))).
Proof.
  intros H. unfold backgroundFetchSettled.
  destruct (findFile files folderId); [|exact H].
  destruct response as [[|first rest]|]; try exact H.
  case_bool_decide; [|exact H]. cbn [snd pushFolderFiles MutationContext.folderFiles].
  apply Forall_app. split; [exact H|]. by repeat constructor.
Qed.

Lemma step_wellFormed p p' : step p p' → pageWellFormed p → pageWellFormed p'.
Proof.
  intros Hstep (Hw & Hc & Hpolls & Hfetches).
  destruct Hstep; unfold pageWellFormed;
    cbn [pageWorld creations folderPolls statusFetches drains set_pageWorld
         addCreation addFolderPolls addStatusFetches].
  - destruct (onMutate_wellFormed resourceIds files clock (pageWorld p) Hw) as [H1 H2].
    split; [exact H1|]. split; [|by split].
    constructor; [|exact Hc]. split; [exact H2 | apply onMutate_context_paths].
  - destruct (proj1 (Forall_forall _ _) Hc context H) as [Hid Hpaths].
    destruct (backgroundFetchSettled_wellFormed folderId files response clock
                (pageWorld p) context Hid Hw) as [H1 H2].
    split; [exact H1|]. split; [|by split].
    constructor; [|exact Hc].
    split; [exact H2 | by apply backgroundFetchSettled_context_paths].
  - split; [by apply onSuccess_wellFormed | by repeat split].
  - split; [by apply onError_wellFormed | by repeat split].
  - split; [by apply deleteSelectedFiles_wellFormed | by repeat split].
  - split; [by apply deleteFilesSettled_wellFormed | by repeat split].
  - split; [|by repeat split].
    eapply wellFormed_same; [|exact Hw]. by repeat split.
  - unfold toggledContents.
    destruct (toggleFolder_contents_wellFormed kbId isCreatingKB folderId fetched
                isoString treeState (pageWorld p) statusCache refs Hw) as [H1 H2].
    cbv zeta in H1, H2.
    cbn [pageWorld creations folderPolls statusFetches drains set_pageWorld
         addStatusFetches].
    split; [exact H1|]. split; [exact Hc|]. split; [exact Hpolls|].
    apply Forall_app. split; [exact Hfetches | exact H2].
  - unfold delayedPollsSet.
    cbn [pageWorld creations folderPolls statusFetches drains addStatusFetches].
    split; [exact Hw|]. split; [exact Hc|]. split; [exact Hpolls|].
    apply Forall_app. split; [exact Hfetches|].
    unfold delayedPollingEffect. destruct (_ && _ && _); [|constructor].
    cbn [scheduled]. apply pollDelayed_paths. constructor.
  - split; [exact Hw|]. split; [exact Hc|]. split; [exact Hpolls|].
    apply Forall_app. split; [exact Hfetches|].
    unfold prefetchStatusDue. destruct (truthy kbId); [|constructor].
    case_bool_decide as Hlen; [|constructor]. cbn [andb].
    destruct (kbFileStatus _ !! _); [constructor|].
    constructor; [|constructor].
    apply getFolderPath_nonempty. destruct data; [simpl in Hlen; lia | done].
  - split; [|by repeat split].
    apply fetchKBStatusForFolder_wellFormed; [|exact Hw].
    by apply (proj1 (Forall_forall _ _) Hfetches).
  - split; [by apply rootRefetched_wellFormed | by repeat split].
  - split; [exact Hw|]. split; [exact Hc|]. split; [|exact Hfetches].
    apply Forall_app. split; [exact Hpolls|].
    destruct (proj1 (Forall_forall _ _) Hc context H) as [_ Hpaths].
    unfold pollsStarted. apply Forall_forall. intros poll Hin.
    apply list_elem_of_In, in_map_iff in Hin as (ff & <- & Hff).
    apply List.filter_In in Hff as [Hff _]. cbn [polledPath].
    by apply (proj1 (Forall_forall _ _) Hpaths), list_elem_of_In.
  - split; [|by repeat split].
    apply pollFolderStatus_wellFormed; [|exact Hw].
    by apply (proj1 (Forall_forall _ _) Hpolls).
  - split; [|by repeat split]. unfold drained. cbn [pageWorld].
    eapply wellFormed_same; [|exact Hw].
    by apply (drain_run_same (Drain.mkMachine (pageWorld p) (drains p) [])).
  - split; [|by repeat split]. unfold drained. cbn [pageWorld].
    eapply wellFormed_same; [|exact Hw].
    by apply (drain_run_same (Drain.mkMachine (pageWorld p) (drains p) [])).
  - split; [|by repeat split]. unfold drained. cbn [pageWorld].
    eapply wellFormed_same; [|exact Hw].
    by apply (drain_run_same (Drain.mkMachine (pageWorld p) (drains p) [])).
  - split; [|by repeat split]. unfold drained. cbn [pageWorld].
    eapply wellFormed_same; [|exact Hw].
    by apply (drain_run_same (Drain.mkMachine (pageWorld p) (drains p) [])).
  - split; [apply restore_reload_wellFormed, Hw | by repeat split].
  - split; [apply createNewKB_wellFormed | by repeat split].
Qed.

(** X16. Every page that can be reached from a first load with an empty
    browser storage is well formed: no resource cache is filed under an
    empty KB id or an empty folder path, and every registered folder
    path starts with a slash.  The steps are the callbacks of the hooks
    that write the caches, the registry or the storage: creations that
    begin, whose background fetches settle (before or after the creation
    itself), and that succeed with a KB whose id is not empty or fail;
    deletions; writes of folder listings; [toggleFolder], the delayed
    polls, the prefetch and the fetches of KB statuses of the picker;
    the refetches of the root listing and the folder polls, which poll
    the folders of a creation; the drain of the delete queue; reloads
    and resets. *)
Theorem reachable_wellFormed p :
  reachable p → cachesWellKeyed (pageWorld p) ∧ registeredPathsRooted (pageWorld p).
Proof.
  intros [now Hrtc].
  assert (H : pageWellFormed p).
  { revert p Hrtc. apply rtc_ind_r.
    - split; [|by repeat split]. split; [apply initialWorld_wellKeyed|].
      split; [apply initialWorld_rooted | intros stored H; discriminate H].
    - intros p1 p2 _ Hstep IH. by eapply step_wellFormed. }
  destruct H as [(Hc & Hr & _) _]. by split.
Qed.

Lemma reachable_wellFormed_witness :
  let created :=
    addCreation (snd (fst (onMutate ["fA"; "r1"] exampleFiles exampleClock
                             (initialWorld 0))))
      (set_pageWorld (fst (fst (onMutate ["fA"; "r1"] exampleFiles exampleClock
                                  (initialWorld 0)))) (firstLoad 0)) in
  reachable created
  ∧ cachesWellKeyed (pageWorld created)
  ∧ registeredPathsRooted (pageWorld created).
Proof.
  intros created.
  assert (Hreach : reachable created).
  { exists 0. apply rtc_once. apply (step_onMutate _ _ _ (firstLoad 0)). }
  split; [exact Hreach|]. exact (reachable_wellFormed created Hreach).
Defined.

(** * Properties of the helpers and of the state operations *)

(** ** Descendants of a listing *)

Lemma longestName_bound files f :
  f ∈ files → (segments f ≤ longestName files)%nat.
Proof.
  induction files as [|g files IH]; intros Hin; [by inversion Hin|].
  apply elem_of_cons in Hin as [->|Hin]; unfold longestName, segments in *; simpl.
  - apply Nat.le_max_l.
  - etrans; [by apply IH | apply Nat.le_max_r].
Qed.

Lemma longestName_app l1 l2 :
  (longestName l1 ≤ longestName (l1 ++ l2))%nat.
Proof.
  induction l1 as [|g l1 IH]; unfold longestName in *; simpl; [lia|].
  apply Nat.max_le_compat_l, IH.
Qed.

Lemma processFiles_elem fuel allFiles files id :
  id ∈ processFiles (S fuel) allFiles files
  ↔ ∃ f, f ∈ files
      ∧ ((FileItem.type f = file ∧ id = FileItem.id f)
         ∨ (FileItem.type f = directory
            ∧ id ∈ processFiles fuel allFiles
                     (List.filter (isChildOf f) allFiles))).
Proof.
  simpl. rewrite list_elem_of_In, in_flat_map. split.
  - intros (f & Hf & Hid). exists f. split; [by apply list_elem_of_In|].
    destruct (FileItem.type f).
    + left. split; [reflexivity|]. by destruct Hid as [<-|[]].
    + right. split; [reflexivity|]. by apply list_elem_of_In.
  - intros (f & Hf & H). exists f. split; [by apply list_elem_of_In|].
    destruct H as [[-> ->]|[-> H]]; [by left | by apply list_elem_of_In].
Qed.

Lemma processFiles_sound allFiles fuel : ∀ files id,
  id ∈ processFiles fuel allFiles files →
  ∃ p h, p ∈ files ∧ descends allFiles p h
         ∧ FileItem.type h = file ∧ FileItem.id h = id.
Proof.
  induction fuel as [|fuel IH]; intros files id H; [by inversion H|].
  apply processFiles_elem in H as (f & Hf & [[Hty ->]|[Hty H]]).
  - exists f, f. repeat split; [exact Hf | constructor | exact Hty].
  - apply IH in H as (g & h & Hg & Hd & Hh & Hid).
    apply list_elem_of_In, List.filter_In in Hg as [Hg Hchild].
    exists f, h. repeat split; [exact Hf | | exact Hh | exact Hid].
    eapply descends_child; [exact Hty | by apply list_elem_of_In | exact Hchild
                           | exact Hd].
Qed.

Lemma processFiles_complete allFiles p h :
  descends allFiles p h → FileItem.type h = file →
  ∀ fuel files,
    p ∈ files → (0 < fuel)%nat →
    (longestName allFiles < segments p + fuel)%nat →
    FileItem.id h ∈ processFiles fuel allFiles files.
Proof.
  induction 1 as [f|f g h Hty Hg Hchild Hd IH]; intros Hfile fuel files Hin Hpos Hfuel;
    (destruct fuel as [|fuel]; [lia|]); apply processFiles_elem; exists f;
    (split; [exact Hin|]).
  - left. by split.
  - right. split; [exact Hty|].
    pose proof Hchild as Hseg. unfold isChildOf in Hseg.
    apply andb_true_iff in Hseg as [_ Hseg]. apply bool_decide_eq_true_1 in Hseg.
    pose proof (longestName_bound allFiles g Hg) as Hbound.
    apply IH; [exact Hfile | | lia | lia].
    apply list_elem_of_In, List.filter_In. split; [by apply list_elem_of_In|].
    exact Hchild.
Qed.

(** X1. [getAllDescendantFileIds] returns exactly the ids of the
    file-type records reached from [parentFiles] by going down through
    directories to their children in [allFiles]; the id of a directory
    is never returned, and the bound on the depth of the recursion, the
    longest name, loses no file. *)
Theorem getAllDescendantFileIds_descends parentFiles allFiles id :
  id ∈ getAllDescendantFileIds parentFiles allFiles
  ↔ ∃ p h, p ∈ parentFiles ∧ descends allFiles p h
           ∧ FileItem.type h = file ∧ FileItem.id h = id.
Proof.
  unfold getAllDescendantFileIds. split; [apply processFiles_sound|].
  intros (p & h & Hp & Hd & Hh & <-).
  eapply processFiles_complete; [exact Hd | exact Hh | exact Hp | |];
    unfold depthBound; [lia|].
  pose proof (longestName_app allFiles parentFiles) as Hle.
  unfold longestName in *. lia.
Qed.

(** ** Splitting and joining a name *)

Lemma split_nonempty sep s : split sep s ≠ [].
Proof.
  destruct s as [|c s]; simpl; [discriminate|].
  destruct (Ascii.eqb c sep); [discriminate|]. by destruct (split sep s).
Qed.

Lemma join_split sep s : join (String sep EmptyString) (split sep s) = s.
Proof.
  induction s as [|c s IH]; [reflexivity|]. simpl.
  destruct (Ascii.eqb c sep) eqn:E.
  - apply Ascii.eqb_eq in E as ->.
    pose proof (split_nonempty sep s) as Hne.
    destruct (split sep s) as [|part parts]; [done|].
    change (join (String sep EmptyString) (EmptyString :: part :: parts))
      with (String sep (join (String sep EmptyString) (part :: parts))).
    by rewrite IH.
  - pose proof (split_nonempty sep s) as Hne.
    destruct (split sep s) as [|part parts]; [done|].
    destruct parts as [|part' parts].
    + simpl in *. by rewrite IH.
    + change (join (String sep EmptyString) (String c part :: part' :: parts))
        with (String c (join (String sep EmptyString) (part :: part' :: parts))).
      by rewrite IH.
Qed.

Lemma split_no_sep sep s : includes s sep = false → split sep s = [s].
Proof.
  induction s as [|c s IH]; [reflexivity|]. simpl.
  intros [Hc Hs]%orb_false_iff. rewrite Hc, (IH Hs). reflexivity.
Qed.

Lemma split_app sep a b :
  split sep (a +:+ String sep b) = (split sep a ++ split sep b)%list.
Proof.
  induction a as [|c a IH].
  - change (EmptyString +:+ String sep b) with (String sep b). simpl.
    by rewrite Ascii.eqb_refl.
  - rewrite string_app_cons. simpl. rewrite IH.
    destruct (Ascii.eqb c sep); [reflexivity|].
    pose proof (split_nonempty sep a) as Hne.
    by destruct (split sep a).
Qed.

Lemma join_app sep l1 l2 :
  l1 ≠ [] → l2 ≠ [] →
  join sep (l1 ++ l2) = join sep l1 +:+ sep +:+ join sep l2.
Proof.
  intros H1 H2. induction l1 as [|a l1 IH]; [done|].
  destruct l1 as [|a' l1].
  - destruct l2; [done|]. reflexivity.
  - change (join sep ((a :: a' :: l1) ++ l2))
      with (a +:+ sep +:+ join sep ((a' :: l1) ++ l2)).
    rewrite IH by done.
    change (join sep (a :: a' :: l1)) with (a +:+ sep +:+ join sep (a' :: l1)).
    by rewrite !string_app_assoc.
Qed.

Lemma last_split_base sep dir base :
  includes base sep = false →
  List.last (split sep (dir +:+ String sep base)) EmptyString = base.
Proof.
  intros H. rewrite split_app, (split_no_sep _ _ H). apply last_last.
Qed.

Lemma pop_split_base sep dir base :
  includes base sep = false →
  pop (split sep (dir +:+ String sep base)) = split sep dir.
Proof.
  intros H. rewrite split_app, (split_no_sep _ _ H). apply removelast_last.
Qed.

(** The folder path of a name is nothing but the name up to its last
    slash: what follows the folder of a file does not matter. *)
Lemma getFolderPathFromFileName_under folderName rest :
  getFolderPathFromFileName (folderName +:+ "/" +:+ rest) = "/" +:+ folderName
  ∨ ∃ deeper, getFolderPathFromFileName (folderName +:+ "/" +:+ rest)
              = ("/" +:+ folderName) +:+ "/" +:+ deeper.
Proof.
  unfold getFolderPathFromFileName, pop.
  change (folderName +:+ "/" +:+ rest) with (folderName +:+ String slash rest).
  rewrite split_app.
  rewrite removelast_app by apply split_nonempty.
  destruct (removelast (split slash rest)) as [|part parts] eqn:E.
  - left. rewrite app_nil_r. by rewrite (join_split slash).
  - right. exists (join "/" (part :: parts)).
    rewrite join_app by (apply split_nonempty || done).
    rewrite (join_split slash). by rewrite !string_app_assoc.
Qed.

(** X2. The folder path that keys the folder-status caches is the name
    without its last segment, behind a slash: a file [dir/base] lies in
    [/dir] and a name without a slash lies in the root [/].  The path
    that [toggleFolder] computes from a listing is that of its first
    record, and the empty string for an empty listing. *)
Theorem getFolderPathFromFileName_parent dir base rest :
  includes base slash = false →
  getFolderPathFromFileName (dir +:+ "/" +:+ base) = "/" +:+ dir
  ∧ getFolderPathFromFileName base = "/"
  ∧ getFolderPath [] = EmptyString
  ∧ (∀ first, getFolderPath (first :: rest)
              = getFolderPathFromFileName (FileItem.name first)).
Proof.
  intros H. unfold getFolderPathFromFileName. repeat split.
  - change (dir +:+ "/" +:+ base) with (dir +:+ String slash base).
    rewrite (pop_split_base _ _ _ H). by rewrite (join_split slash).
  - by rewrite (split_no_sep _ _ H).
Qed.

Lemma getFolderPathFromFileName_parent_witness :
  getFolderPathFromFileName "A/B/c.txt" = "/A/B"
  ∧ getFolderPathFromFileName "c.txt" = "/".
Proof.
  destruct (getFolderPathFromFileName_parent "A/B" "c.txt" [] eq_refl)
    as (H1 & H2 & _).
  split; [exact H1 | exact H2].
Defined.

(** X3. The path under which a selected folder is registered: a folder
    whose last segment holds no dot is registered under its own name
    behind a slash; one whose last segment holds a dot is taken for a
    file and registered under the path of its parent, the root [/] when
    it has none. *)
Theorem getFolderPathFromName_cases dir base :
  includes base slash = false →
  (includes base dot = false →
     getFolderPathFromName (dir +:+ "/" +:+ base) = "/" +:+ dir +:+ "/" +:+ base
     ∧ getFolderPathFromName base = "/" +:+ base)
  ∧ (includes base dot = true →
     getFolderPathFromName (dir +:+ "/" +:+ base) = "/" +:+ dir
     ∧ getFolderPathFromName base = "/").
Proof.
  intros H. unfold getFolderPathFromName.
  change (dir +:+ "/" +:+ base) with (dir +:+ String slash base).
  rewrite (last_split_base _ _ _ H), (pop_split_base _ _ _ H).
  rewrite (split_no_sep _ _ H). simpl List.last.
  split; intros ->; (split; [|reflexivity]); by rewrite (join_split slash).
Qed.

Lemma getFolderPathFromName_cases_witness :
  getFolderPathFromName "A/B" = "/A/B"
  ∧ getFolderPathFromName "A/docs.v2" = "/A"
  ∧ getFolderPathFromName "docs.v2" = "/".
Proof.
  destruct (getFolderPathFromName_cases "A" "B" eq_refl) as [H1 _].
  destruct (getFolderPathFromName_cases "A" "docs.v2" eq_refl) as [_ H2].
  destruct (H1 eq_refl) as [H1' _]. destruct (H2 eq_refl) as [H2' H2''].
  split; [exact H1' | split; [exact H2' | exact H2'']].
Defined.

(** ** What a registered folder covers *)

Lemma lookupEntry_elem key entries e :
  lookupEntry key entries = Some e → e ∈ (snd <$> entries).
Proof.
  unfold lookupEntry. destruct (List.find _ entries) as [[k e']|] eqn:E; [|done].
  intros [= <-]. apply find_some in E as [Hin _].
  apply list_elem_of_fmap. exists (k, e'). split; [reflexivity|].
  by apply list_elem_of_In.
Qed.

Lemma registered_covers kbId selected names now w folderId name target :
  kbId ≠ EmptyString → folderId ∈ selected →
  names !! folderId = Some name → name ≠ EmptyString →
  startsWith target "/" = true →
  Covers target (getFolderPathFromName name) →
  isDescendantOfOptimisticFolder kbId target
    (markFoldersAsOptimisticallyIndexed kbId selected names now w) = true.
Proof.
  intros Hk Hin Hname Hne Hrooted Hcovers.
  unfold isDescendantOfOptimisticFolder.
  apply truthy_Some in Hk. rewrite Hk.
  assert (Ht : truthy (Some target) = true).
  { apply truthy_Some. intros ->. discriminate. }
  rewrite Ht. simpl. apply anyCovers_spec.
  exists (OptimisticFolderEntry.mk kbId folderId (getFolderPathFromName name) now
            selected).
  split.
  - apply kbEntries_In. split; [|reflexivity].
    apply (lookupEntry_elem (entryKeyOf kbId folderId)).
    by apply markFolders_lookup.
  - apply coversTarget_Covers. unfold normalizedTarget. by rewrite Hrooted.
Qed.

Lemma computeFileStatus_registered w fileId kbId folderPath :
  kbId ≠ EmptyString → folderPath ≠ EmptyString →
  optimisticDeleteEntries w !! fileId = None →
  rootRecord w (Some kbId) fileId = None →
  folderRecord w (Some kbId) (Some folderPath) fileId = None →
  isDescendantOfOptimisticFolder kbId folderPath w = true →
  computeFileStatus w fileId (Some kbId) (Some folderPath) = Indexed.
Proof.
  intros Hk Hp Hout Hroot Hfolder Hcov. unfold computeFileStatus.
  rewrite bool_decide_eq_false_2 by (rewrite Hout; by intros [? ?]).
  apply truthy_Some in Hk. apply truthy_Some in Hp. rewrite Hk, Hp.
  simpl in *. rewrite Hroot, Hfolder, Hcov. reflexivity.
Qed.

(** X4. Once the selected folders are registered, every file named
    under a registered folder is covered by the registry, however deep it
    lies, when the last segment of the folder name holds no dot; such a
    file resolves to indexed as long as it is not deleted and no cache of
    the KB holds a record for it. *)
Theorem selected_folder_files_resolve_indexed kbId selected names now w
    folderId folderName rest fileId statusCache :
  let w' := markFoldersAsOptimisticallyIndexed kbId selected names now w in
  let folderPath := getFolderPathFromFileName (folderName +:+ "/" +:+ rest) in
  kbId ≠ EmptyString → folderId ∈ selected →
  names !! folderId = Some folderName → folderName ≠ EmptyString →
  includes (List.last (split slash folderName) EmptyString) dot = false →
  isDescendantOfOptimisticFolder kbId folderPath w' = true
  ∧ (optimisticDeleteEntries w !! fileId = None →
     rootRecord w (Some kbId) fileId = None →
     folderRecord w (Some kbId) (Some folderPath) fileId = None →
     memoFresh w' statusCache fileId (Some kbId) (Some folderPath) →
     fst (resolveFileStatus w' statusCache fileId (Some kbId) (Some folderPath))
     = Indexed).
Proof.
  intros w' folderPath Hk Hin Hname Hne Hdot.
  assert (Hcov : isDescendantOfOptimisticFolder kbId folderPath w' = true).
  { eapply registered_covers; try eassumption; [reflexivity|].
    unfold getFolderPathFromName. rewrite Hdot, (join_split slash).
    destruct (getFolderPathFromFileName_under folderName rest) as [H|[deeper H]];
      [left; exact H | right; exists deeper; exact H]. }
  split; [exact Hcov|]. intros Hout Hroot Hfolder Hfresh.
  rewrite resolveFileStatus_fresh by exact Hfresh.
  apply computeFileStatus_registered; try assumption.
  apply getFolderPathFromFileName_nonempty.
Qed.

Lemma selected_folder_files_resolve_indexed_witness :
  isDescendantOfOptimisticFolder "kb-9"
    (getFolderPathFromFileName "A/B/c.txt")
    (markFoldersAsOptimisticallyIndexed "kb-9" ["fA"] {["fA" := "A"]} 1000
       (initialWorld 0)) = true
  ∧ fst (resolveFileStatus
           (markFoldersAsOptimisticallyIndexed "kb-9" ["fA"] {["fA" := "A"]} 1000
              (initialWorld 0))
           ∅ "c1" (Some "kb-9") (Some (getFolderPathFromFileName "A/B/c.txt")))
    = Indexed.
Proof.
  destruct (selected_folder_files_resolve_indexed "kb-9" ["fA"] {["fA" := "A"]} 1000
              (initialWorld 0) "fA" "A" "B/c.txt" "c1" ∅) as [H1 H2].
  - discriminate.
  - apply list_elem_of_In. simpl. by left.
  - reflexivity.
  - discriminate.
  - reflexivity.
  - split; [exact H1|]. apply H2; [reflexivity | reflexivity | reflexivity |].
    apply memoFresh_empty.
Defined.

(** X5. A selected folder whose last segment holds a dot is registered
    under the path of its parent, so the registry then covers every file
    named under the parent, the files of the sibling folders included,
    although they were not selected. *)
Theorem dotted_folder_covers_siblings kbId selected names now w
    folderId dir base sibling :
  kbId ≠ EmptyString → folderId ∈ selected →
  names !! folderId = Some (dir +:+ "/" +:+ base) →
  includes base slash = false → includes base dot = true →
  isDescendantOfOptimisticFolder kbId
    (getFolderPathFromFileName (dir +:+ "/" +:+ sibling))
    (markFoldersAsOptimisticallyIndexed kbId selected names now w) = true.
Proof.
  intros Hk Hin Hname Hslash Hdot.
  eapply registered_covers; try eassumption; [|reflexivity|].
  - destruct dir; discriminate.
  - unfold getFolderPathFromName.
    change (dir +:+ "/" +:+ base) with (dir +:+ String slash base).
    rewrite (last_split_base _ _ _ Hslash), (pop_split_base _ _ _ Hslash), Hdot.
    rewrite (join_split slash).
    destruct (getFolderPathFromFileName_under dir sibling) as [H'|[deeper H']];
      [left; exact H' | right; exists deeper; exact H'].
Qed.

Lemma dotted_folder_covers_siblings_witness :
  isDescendantOfOptimisticFolder "kb-9"
    (getFolderPathFromFileName "A/other/c.txt")
    (markFoldersAsOptimisticallyIndexed "kb-9" ["fD"] {["fD" := "A/docs.v2"]} 1000
       (initialWorld 0)) = true.
Proof.
  apply (dotted_folder_covers_siblings "kb-9" ["fD"] {["fD" := "A/docs.v2"]} 1000
           (initialWorld 0) "fD" "A" "docs.v2" "other/c.txt").
  - discriminate.
  - apply list_elem_of_In. simpl. by left.
  - reflexivity.
  - reflexivity.
  - reflexivity.
Defined.

(** ** Deleting the selected files *)

Lemma markDeleted_fold_frame files kbId now ids : ∀ w,
  let w' :=
    fold_left (λ w fileId,
      match findFile files fileId with
      | Some f => markFileAsDeleted fileId (FileItem.name f) kbId now w
      | None => w
      end) ids w in
  w' = set_registryData (registryData w') w.
Proof.
  induction ids as [|a ids IH]; intros w; simpl; [by destruct w|].
  destruct (findFile files a) as [f|]; [|apply IH].
  rewrite IH at 1. reflexivity.
Qed.

Lemma markFileAsDeleted_entries fileId fileName kbId now w :
  optimisticDeleteEntries (markFileAsDeleted fileId fileName kbId now w)
  = <[fileId := OptimisticDeleteEntry.mk fileId fileName kbId now true]>
      (optimisticDeleteEntries w).
Proof. reflexivity. Qed.

Lemma markDeleted_fold_entries files kbId now fileId ids : ∀ w,
  let w' :=
    fold_left (λ w fileId,
      match findFile files fileId with
      | Some f => markFileAsDeleted fileId (FileItem.name f) kbId now w
      | None => w
      end) ids w in
  (is_Some (optimisticDeleteEntries w !! fileId) → is_Some (optimisticDeleteEntries w' !! fileId))
  ∧ (fileId ∈ ids → is_Some (findFile files fileId) →
     is_Some (optimisticDeleteEntries w' !! fileId))
  ∧ (fileId ∉ ids →
     optimisticDeleteEntries w' !! fileId = optimisticDeleteEntries w !! fileId).
Proof.
  induction ids as [|a ids IH]; intros w; simpl.
  - split; [done|]. split; [by intros H; inversion H | done].
  - set (w1 := match findFile files a with
               | Some f => markFileAsDeleted a (FileItem.name f) kbId now w
               | None => w
               end).
    destruct (IH w1) as (Hkeep & Hin & Hout).
    assert (Hstep : is_Some (optimisticDeleteEntries w !! fileId) →
                    is_Some (optimisticDeleteEntries w1 !! fileId)).
    { subst w1. destruct (findFile files a); [|done].
      rewrite markFileAsDeleted_entries. intros H. destruct (decide (a = fileId)) as [->|Hne].
      - rewrite lookup_insert_eq. by eexists.
      - by rewrite lookup_insert_ne. }
    split; [auto|]. split.
    + intros [->|Hin']%elem_of_cons Hfound; [|by apply Hin].
      apply Hkeep. subst w1. destruct Hfound as [f ->].
      rewrite markFileAsDeleted_entries, lookup_insert_eq. by eexists.
    + intros [Hne Hnin]%not_elem_of_cons. rewrite Hout by exact Hnin.
      subst w1. destruct (findFile files a); [|done].
      by rewrite markFileAsDeleted_entries, lookup_insert_ne.
Qed.

Lemma queued_fold files kbId now ids : ∀ w,
  let w' :=
    fold_left (λ w fileId,
      match findFile files fileId with
      | Some f => queueDeleteRequest fileId (FileItem.name f) kbId now w
      | None => w
      end) ids w in
  w' = set_queueData (queueData w') w
  ∧ queue w' = (queue w ++ requestsFor ids files kbId now)%list
  ∧ queueProcessing w' = queueProcessing w.
Proof.
  induction ids as [|a ids IH]; intros w; simpl.
  - split; [by destruct w|]. split; [by rewrite app_nil_r | done].
  - unfold requestsFor. simpl.
    destruct (findFile files a) as [f|]; simpl; [|apply IH].
    destruct (IH (queueDeleteRequest a (FileItem.name f) kbId now w))
      as (Hframe & Hqueue & Hproc).
    split; [by rewrite Hframe at 1|]. split; [|exact Hproc].
    rewrite Hqueue. unfold queue at 1. simpl. by rewrite <- app_assoc.
Qed.

Lemma findFile_filter_out fileIds data fileId :
  fileId ∈ fileIds →
  findFile (List.filter (keptBy fileIds) data) fileId = None.
Proof.
  intros Hin. unfold findFile.
  destruct (List.find _ _) as [r|] eqn:E; [|reflexivity].
  apply find_some in E as [Hr Hid]. apply List.filter_In in Hr as [_ Hkept].
  apply String.eqb_eq in Hid. subst fileId. unfold keptBy in Hkept.
  by rewrite bool_decide_eq_true_2 in Hkept.
Qed.

Lemma findFile_filter_in fileIds data fileId :
  fileId ∉ fileIds →
  findFile (List.filter (keptBy fileIds) data) fileId = findFile data fileId.
Proof.
  intros Hout. unfold findFile. induction data as [|r data IH]; [reflexivity|].
  simpl. unfold keptBy at 1. case_bool_decide as Hr; simpl.
  - destruct (String.eqb (FileItem.id r) fileId) eqn:E; [|exact IH].
    apply String.eqb_eq in E. congruence.
  - destruct (String.eqb (FileItem.id r) fileId); [reflexivity | exact IH].
Qed.

(** X6. A file that the user deletes shows as deleted at once: every
    selected id that the file list knows is in the optimistic delete
    registry afterwards, no selected id is left in the root cache of the
    current KB, and the resolver answers Deleted for the file under every
    kbId and folder path. *)
Theorem deleteSelectedFiles_shows_deleted selectedIds files now w kb fileId
    statusCache kbId folderPath :
  let w' := fst (deleteSelectedFiles selectedIds files now w) in
  currentKBId w = Some kb →
  fileId ∈ selectedIds →
  rootRecord w' (Some kb) fileId = None
  ∧ (is_Some (findFile files fileId) →
     is_Some (optimisticDeleteEntries w' !! fileId)
     ∧ (memoFresh w' statusCache fileId kbId folderPath →
        fst (resolveFileStatus w' statusCache fileId kbId folderPath) = Deleted)).
Proof.
  intros w' Hkb Hin. subst w'. unfold deleteSelectedFiles. rewrite Hkb.
  set (w1 := fold_left _ selectedIds w).
  pose proof (markDeleted_fold_frame files kb now selectedIds w) as Hframe.
  pose proof (markDeleted_fold_entries files kb now fileId selectedIds w)
    as (_ & Hmarked & _).
  fold w1 in Hframe, Hmarked. cbv zeta in Hframe, Hmarked.
  set (w2 := match kbResources w1 !! kb with Some _ => _ | None => w1 end).
  assert (Hroot : rootRecord w2 (Some kb) fileId = None).
  { subst w2. unfold rootRecord. simpl.
    destruct (kbResources w1 !! kb) as [data|] eqn:E; simpl.
    - rewrite lookup_insert_eq. simpl. by apply findFile_filter_out.
    - by rewrite E. }
  assert (Hreg : optimisticDeleteEntries w2 = optimisticDeleteEntries w1).
  { subst w2. by destruct (kbResources w1 !! kb). }
  set (w3 := fold_left _ selectedIds w2).
  destruct (queued_fold files kb now selectedIds w2) as (Hq & _ & _).
  fold w3 in Hq. cbv zeta in Hq.
  assert (Hfinal : ∀ wf, (wf = w2 ∨ wf = toast info "files-queued-for-deletion" w3) →
            rootRecord wf (Some kb) fileId = None
            ∧ (is_Some (findFile files fileId) →
               is_Some (optimisticDeleteEntries wf !! fileId)
               ∧ (memoFresh wf statusCache fileId kbId folderPath →
                  fst (resolveFileStatus wf statusCache fileId kbId folderPath)
                  = Deleted))).
  { intros wf Hwf.
    assert (Hroot' : rootRecord wf (Some kb) fileId = None).
    { destruct Hwf as [->| ->]; [exact Hroot|]. rewrite Hq. exact Hroot. }
    assert (Hreg' : optimisticDeleteEntries wf = optimisticDeleteEntries w1).
    { destruct Hwf as [->| ->]; [exact Hreg|]. rewrite Hq. exact Hreg. }
    split; [exact Hroot'|]. intros Hfound.
    assert (Hmk : is_Some (optimisticDeleteEntries wf !! fileId)).
    { rewrite Hreg'. by apply Hmarked. }
    split; [exact Hmk|]. intros Hfresh.
    rewrite resolveFileStatus_fresh by exact Hfresh.
    unfold computeFileStatus. by rewrite bool_decide_eq_true_2. }
  destruct (isSyncPending w); cbn [fst].
  - apply (Hfinal (toast info "files-queued-for-deletion" w3)). by right.
  - apply (Hfinal w2). by left.
Qed.

Lemma deleteSelectedFiles_shows_deleted_witness :
  let w' := fst (deleteSelectedFiles ["r1"] exampleFiles 2000 afterSuccess) in
  rootRecord w' (Some "kb-9") "r1" = None
  ∧ is_Some (optimisticDeleteEntries w' !! "r1")
  ∧ fst (resolveFileStatus w' ∅ "r1" (Some "kb-9") None) = Deleted.
Proof.
  destruct (deleteSelectedFiles_shows_deleted ["r1"] exampleFiles 2000 afterSuccess
              "kb-9" "r1" ∅ (Some "kb-9") None) as [H1 H2].
  - reflexivity.
  - apply list_elem_of_In. simpl. by left.
  - destruct H2 as [H2 H3]; [by eexists|].
    split; [exact H1 | split; [exact H2 | apply H3, memoFresh_empty]].
Defined.

(** X7. What [deleteSelectedFiles] hands on: without a current KB it
    changes nothing and submits nothing; while the sync is pending it
    appends one request per selected id that the file list knows, in the
    order of the selection and against the current KB, and submits
    nothing; otherwise the queue is left alone, nothing is announced, and
    the whole selection is submitted for deletion. *)
Theorem deleteSelectedFiles_queues_or_submits selectedIds files now w :
  let r := deleteSelectedFiles selectedIds files now w in
  match currentKBId w with
  | None => r = (w, None)
  | Some kb =>
      if isSyncPending w then
        queue (fst r) = (queue w ++ requestsFor selectedIds files kb now)%list
        ∧ queueProcessing (fst r) = queueProcessing w
        ∧ toasts (fst r) = (toasts w ++ [Toast.mk info "files-queued-for-deletion"])%list
        ∧ snd r = None
      else
        queueData (fst r) = queueData w
        ∧ toasts (fst r) = toasts w
        ∧ snd r = Some selectedIds
  end.
Proof.
  intros r. subst r. unfold deleteSelectedFiles.
  destruct (currentKBId w) as [kb|]; [|reflexivity].
  set (w1 := fold_left _ selectedIds w).
  pose proof (markDeleted_fold_frame files kb now selectedIds w) as Hframe.
  fold w1 in Hframe. cbv zeta in Hframe.
  set (w2 := match kbResources w1 !! kb with Some _ => _ | None => w1 end).
  assert (H2 : queueData w2 = queueData w ∧ toasts w2 = toasts w).
  { subst w2. destruct (kbResources w1 !! kb); simpl; by rewrite Hframe. }
  destruct (isSyncPending w); simpl; [|by destruct H2].
  set (w3 := fold_left _ selectedIds w2).
  destruct (queued_fold files kb now selectedIds w2) as (Hq & Hqueue & Hproc).
  fold w3 in Hq, Hqueue, Hproc. cbv zeta in Hq, Hqueue, Hproc.
  destruct H2 as [Hqd Ht].
  repeat split.
  - change (queue w3 = (queue w ++ requestsFor selectedIds files kb now)%list).
    rewrite Hqueue. unfold queue. by rewrite Hqd.
  - change (queueProcessing w3 = queueProcessing w).
    rewrite Hproc. unfold queueProcessing. by rewrite Hqd.
  - rewrite Hq. simpl. by rewrite Ht.
Qed.

(** ** Delete queue and optimistic delete registry *)

Lemma filter_id_out (requests : list DeleteRequest.t) id :
  id ∉ (DeleteRequest.id <$> requests) →
  List.filter (λ req, negb (String.eqb (DeleteRequest.id req) id)) requests
  = requests.
Proof.
  induction requests as [|r requests IH]; [reflexivity|]. simpl.
  intros [Hne Hout]%not_elem_of_cons.
  apply not_eq_sym, String.eqb_neq in Hne. rewrite Hne. simpl. by rewrite IH.
Qed.

(** X8. The delete queue by request id: removing the request that was
    just queued gives the queue back as it was, when no older request
    bears the same id; removing an id that is not queued leaves the
    requests alone; and after a removal no request with that id is left,
    the other requests keeping their order. *)
Theorem queue_round_trip fileId fileName kbId now later w :
  let request := newDeleteRequest fileId fileName kbId now in
  let w1 := queueDeleteRequest fileId fileName kbId now w in
  queue w1 = (queue w ++ [request])%list
  ∧ (DeleteRequest.id request ∉ queuedIds w →
     queue (removeFromQueue (DeleteRequest.id request) later w1) = queue w)
  ∧ (∀ id, id ∉ queuedIds w → queue (removeFromQueue id later w) = queue w)
  ∧ (∀ id, (id ∉ queuedIds (removeFromQueue id later w))
           ∧ sublist (queue (removeFromQueue id later w)) (queue w))
  ∧ queueProcessing (removeFromQueue (DeleteRequest.id request) later w1)
    = queueProcessing w.
Proof.
  intros request w1. split; [reflexivity|]. split; [|split; [|split]].
  - intros Hout. unfold removeFromQueue, w1, queueDeleteRequest, queue. simpl.
    rewrite List.filter_app. simpl. rewrite String.eqb_refl. simpl.
    rewrite app_nil_r. by apply filter_id_out.
  - intros id Hout. unfold removeFromQueue, queue. simpl. by apply filter_id_out.
  - intros id. unfold queuedIds, removeFromQueue, queue. simpl. split.
    + intros Hin. apply list_elem_of_fmap in Hin as (r & -> & Hr).
      apply list_elem_of_In, List.filter_In in Hr as [_ Hr].
      by rewrite String.eqb_refl in Hr.
    + induction (DeleteQueueData.queue (queueData w)) as [|r l IH]; simpl;
        [constructor|].
      destruct (negb _); by constructor.
  - reflexivity.
Qed.

(** X9. Marking a file as deleted and taking the mark back is a round
    trip: when the file was not in the registry, the entries are what
    they were, and for every file, kbId and folder path the resolver
    computes, on a miss of its memo, what it computed before.  While the
    mark is there the file is computed as Deleted, and a lookup whose
    memo holds nothing stale under its key (it misses, or holds the
    value of the world as it is) resolves the file to Deleted.  Taking
    back a mark that is not there changes no entry. *)
Theorem delete_registry_round_trip fileId fileName kbId now later w :
  let marked := markFileAsDeleted fileId fileName kbId now w in
  let w' := removeFromRegistry fileId later marked in
  (∀ k p, computeFileStatus marked fileId k p = Deleted)
  ∧ (∀ k p statusCache,
       memoFresh marked statusCache fileId k p →
       fst (resolveFileStatus marked statusCache fileId k p) = Deleted)
  ∧ optimisticDeleteEntries w' = delete fileId (optimisticDeleteEntries w)
  ∧ (optimisticDeleteEntries w !! fileId = None →
     optimisticDeleteEntries w' = optimisticDeleteEntries w
     ∧ optimisticDeleteEntries (removeFromRegistry fileId later w)
       = optimisticDeleteEntries w
     ∧ (∀ f k p, computeFileStatus w' f k p = computeFileStatus w f k p)
     ∧ (∀ f k p statusCache,
          statusCache !! cacheKey f k p = None →
          fst (resolveFileStatus w' statusCache f k p)
          = fst (resolveFileStatus w statusCache f k p))).
Proof.
  intros marked w'.
  assert (Hentries : optimisticDeleteEntries w'
                     = delete fileId (optimisticDeleteEntries w)).
  { unfold w', marked, optimisticDeleteEntries, removeFromRegistry,
      markFileAsDeleted, updateRegistryData. simpl. apply delete_insert_eq. }
  assert (Hmarked : ∀ k p, computeFileStatus marked fileId k p = Deleted).
  { intros k p. unfold computeFileStatus, marked.
    rewrite markFileAsDeleted_entries, lookup_insert_eq.
    by rewrite bool_decide_eq_true_2. }
  split; [exact Hmarked|]. split; [|split; [exact Hentries|]].
  - intros k p statusCache Hfresh.
    by rewrite (resolveFileStatus_fresh _ _ _ _ _ Hfresh).
  - intros Hout.
    assert (Hsame : optimisticDeleteEntries w' = optimisticDeleteEntries w).
    { rewrite Hentries. by apply delete_id. }
    assert (Hcomputed : ∀ f k p,
              computeFileStatus w' f k p = computeFileStatus w f k p).
    { intros f k p. by apply computeFileStatus_ext. }
    split; [exact Hsame|]. split; [|split; [exact Hcomputed|]].
    + unfold optimisticDeleteEntries, removeFromRegistry, updateRegistryData. simpl.
      by apply delete_id.
    + intros f k p statusCache Hmiss. unfold resolveFileStatus.
      rewrite Hmiss. cbn [fst]. apply Hcomputed.
Qed.

(** ** Cache operations *)

Lemma findFile_Some files fileId f :
  findFile files fileId = Some f → f ∈ files ∧ FileItem.id f = fileId.
Proof.
  unfold findFile. intros [Hin Hid]%find_some.
  split; [by apply list_elem_of_In | by apply String.eqb_eq].
Qed.

Lemma findFile_None files fileId :
  findFile files fileId = None ↔ fileId ∉ (FileItem.id <$> files).
Proof.
  unfold findFile. split.
  - intros H Hin. apply list_elem_of_fmap in Hin as (f & -> & Hf).
    apply list_elem_of_In in Hf.
    pose proof (find_none _ _ H _ Hf) as Hne. simpl in Hne.
    by rewrite String.eqb_refl in Hne.
  - intros H. destruct (List.find _ files) as [f|] eqn:E; [|reflexivity].
    apply find_some in E as [Hin Hid]. apply String.eqb_eq in Hid.
    exfalso. apply H. apply list_elem_of_fmap. exists f.
    split; [done | by apply list_elem_of_In].
Qed.

Lemma rootRecord_Some w k fileId :
  rootRecord w (Some k) fileId = kbResources w !! k ≫= λ data, findFile data fileId.
Proof. reflexivity. Qed.

Lemma folderRecord_Some w k p fileId :
  folderRecord w (Some k) (Some p) fileId
  = kbFileStatus w !! (k, p) ≫= λ data, findFile data fileId.
Proof. reflexivity. Qed.

(** X10. [removeFromKBResourcesCache] and [removeFromFolderStatusCache]
    drop from the cache they are given every record whose id is listed
    and keep the other records as they were, in their order; the other
    caches are not touched.  A cache that did not exist is created empty.
    Either call saves a snapshot of the KB. *)
Theorem removeFromCaches_drop_listed kbId folderPath fileIds now w :
  let wr := removeFromKBResourcesCache kbId fileIds now w in
  let wf := removeFromFolderStatusCache kbId folderPath fileIds now w in
  kbResources wr !! kbId
  = Some (List.filter (keptBy fileIds) (default [] (kbResources w !! kbId)))
  ∧ kbFileStatus wf !! (kbId, folderPath)
    = Some (List.filter (keptBy fileIds)
              (default [] (kbFileStatus w !! (kbId, folderPath))))
  ∧ (∀ fileId,
       rootRecord wr (Some kbId) fileId
       = if bool_decide (fileId ∈ fileIds) then None
         else rootRecord w (Some kbId) fileId)
  ∧ (∀ fileId,
       folderRecord wf (Some kbId) (Some folderPath) fileId
       = if bool_decide (fileId ∈ fileIds) then None
         else folderRecord w (Some kbId) (Some folderPath) fileId)
  ∧ (∀ k, k ≠ kbId → kbResources wr !! k = kbResources w !! k)
  ∧ kbFileStatus wr = kbFileStatus w
  ∧ (∀ k p, (k, p) ≠ (kbId, folderPath) →
       kbFileStatus wf !! (k, p) = kbFileStatus w !! (k, p))
  ∧ kbResources wf = kbResources w
  ∧ CacheStorageData.kbId <$> cacheStorage wr = Some kbId
  ∧ CacheStorageData.kbId <$> cacheStorage wf = Some kbId.
Proof.
  intros wr wf.
  assert (Hr : kbResources wr !! kbId
               = Some (List.filter (keptBy fileIds)
                         (default [] (kbResources w !! kbId)))).
  { unfold wr, removeFromKBResourcesCache, updateKBResourcesCache. simpl.
    rewrite lookup_insert_eq. by destruct (kbResources w !! kbId). }
  assert (Hf : kbFileStatus wf !! (kbId, folderPath)
               = Some (List.filter (keptBy fileIds)
                         (default [] (kbFileStatus w !! (kbId, folderPath))))).
  { unfold wf, removeFromFolderStatusCache, updateFolderStatusCache. simpl.
    rewrite lookup_insert_eq. by destruct (kbFileStatus w !! (kbId, folderPath)). }
  split; [exact Hr|]. split; [exact Hf|]. split; [|split].
  - intros fileId. rewrite !rootRecord_Some, Hr. simpl.
    case_bool_decide as Hin.
    + by apply findFile_filter_out.
    + rewrite findFile_filter_in by exact Hin.
      by destruct (kbResources w !! kbId).
  - intros fileId. rewrite !folderRecord_Some, Hf. simpl.
    case_bool_decide as Hin.
    + by apply findFile_filter_out.
    + rewrite findFile_filter_in by exact Hin.
      by destruct (kbFileStatus w !! (kbId, folderPath)).
  - repeat split.
    + intros k Hne. unfold wr, removeFromKBResourcesCache, updateKBResourcesCache.
      simpl. by rewrite lookup_insert_ne.
    + intros k p Hne. unfold wf, removeFromFolderStatusCache,
        updateFolderStatusCache. simpl. by rewrite lookup_insert_ne.
Qed.

Lemma ids_of_indexed (mk : string → FileItem.t) (ids : list string) :
  (∀ id, FileItem.id (mk id) = id) →
  FileItem.id <$> List.filter (λ f, bool_decide (FileItem.type f = file))
                    (List.map mk ids)
  = List.filter (λ id, bool_decide (FileItem.type (mk id) = file)) ids.
Proof.
  intros Hid. induction ids as [|a ids IH]; [reflexivity|].
  cbn [List.map List.filter]. case_bool_decide; [|exact IH].
  by rewrite fmap_cons, Hid, IH.
Qed.

(** X11. [setFolderContentsAsIndexed] replaces the folder-status cache
    of the path by records that are all files with status indexed: one
    for every listed id, in order, except the ids that the file list
    knows as directories; an id that the file list does not know is
    kept, as a file without a name.  When the KB id and the folder path
    are not empty, each of these files then resolves to indexed under
    that path, unless it is deleted or the root cache of the KB holds
    it, in a lookup whose memo holds nothing stale under its key (it
    misses, or holds the value of the world as it is). *)
Theorem setFolderContentsAsIndexed_records kbId folderPath fileIds files nowIso
    now w :
  let w' := setFolderContentsAsIndexed kbId folderPath fileIds files nowIso now w in
  let kept :=
    List.filter (λ fileId,
      bool_decide (FileItem.type <$> findFile files fileId ≠ Some directory))
      fileIds in
  ∃ data,
    kbFileStatus w' !! (kbId, folderPath) = Some data
    ∧ FileItem.id <$> data = kept
    ∧ Forall (λ r, FileItem.type r = file
                   ∧ FileItem.status r = Some "indexed"
                   ∧ FileItem.indexed_at r = Some nowIso) data
    ∧ (∀ fileId statusCache,
         fileId ∈ kept →
         kbId ≠ EmptyString → folderPath ≠ EmptyString →
         optimisticDeleteEntries w !! fileId = None →
         rootRecord w (Some kbId) fileId = None →
         memoFresh w' statusCache fileId (Some kbId) (Some folderPath) →
         fst (resolveFileStatus w' statusCache fileId (Some kbId) (Some folderPath))
         = Indexed).
Proof.
  intros w' kept.
  set (mk := λ fileId,
         FileItem.mk fileId
           (default EmptyString (FileItem.name <$> findFile files fileId))
           (default file (FileItem.type <$> findFile files fileId))
           (default 0 (FileItem.size <$> findFile files fileId))
           (Some "indexed") (Some nowIso)).
  set (data := List.filter (λ f, bool_decide (FileItem.type f = file))
                 (List.map mk fileIds)).
  assert (Hdata : kbFileStatus w' !! (kbId, folderPath) = Some data).
  { unfold w', setFolderContentsAsIndexed, updateFolderStatusCache. simpl.
    by rewrite lookup_insert_eq. }
  assert (Hids : FileItem.id <$> data = kept).
  { unfold data. rewrite (ids_of_indexed mk fileIds) by done. unfold kept.
    apply List.filter_ext. intros fileId. unfold mk. simpl.
    destruct (findFile files fileId) as [f|]; simpl; [|done].
    destruct (FileItem.type f); by repeat case_bool_decide. }
  assert (Hall : Forall (λ r, FileItem.type r = file
                              ∧ FileItem.status r = Some "indexed"
                              ∧ FileItem.indexed_at r = Some nowIso) data).
  { apply Forall_forall. intros r Hr.
    apply list_elem_of_In, List.filter_In in Hr as [Hr Hty].
    apply bool_decide_eq_true_1 in Hty. split; [exact Hty|].
    apply List.in_map_iff in Hr as (fileId & <- & _). by split. }
  exists data. split; [exact Hdata|]. split; [exact Hids|]. split; [exact Hall|].
  intros fileId statusCache Hin Hk Hp Hout Hroot Hfresh.
  rewrite resolveFileStatus_fresh by exact Hfresh.
  unfold computeFileStatus.
  change (optimisticDeleteEntries w') with (optimisticDeleteEntries w).
  rewrite bool_decide_eq_false_2 by (rewrite Hout; by intros [? ?]).
  apply truthy_Some in Hk. apply truthy_Some in Hp. rewrite Hk, Hp.
  change (kbResources w') with (kbResources w).
  rewrite rootRecord_Some in Hroot. simpl orEmpty. rewrite Hroot.
  rewrite Hdata. simpl.
  destruct (findFile data fileId) as [r|] eqn:E.
  - apply findFile_Some in E as [Hr _].
    rewrite Forall_forall in Hall. destruct (Hall r Hr) as (_ & Hst & _).
    unfold displayStatus. by rewrite Hst.
  - apply findFile_None in E. rewrite Hids in E. done.
Qed.

(** ** The pollers, further *)

Lemma elem_length_pos {A} (x : A) (l : list A) : x ∈ l → (0 < length l)%nat.
Proof. destruct 1; simpl; lia. Qed.

Lemma isFolderPollingActive_state p q :
  folderPollingStatus q = folderPollingStatus p →
  isFolderPollingActive q = isFolderPollingActive p.
Proof. unfold isFolderPollingActive, folderPollingValues. by intros ->. Qed.

Lemma decidePolling_continues enabled kbId resources now p :
  shouldPoll p = true →
  now - pollingStartTime p ≤ MAX_POLL_DURATION →
  onlyFiles resources ≠ [] →
  shouldPoll (decidePolling enabled kbId (Some resources) true now p) = true.
Proof.
  intros Hp Htime Hfiles. unfold decidePolling, checkPollingTimeout.
  destruct (negb enabled || negb (truthy kbId)); [exact Hp|].
  rewrite bool_decide_eq_false_2 by lia.
  case_bool_decide as Hlen.
  { destruct resources; [done | discriminate]. }
  case_bool_decide as Hlen'.
  { destruct (onlyFiles resources); [done | discriminate]. }
  exact Hp.
Qed.

(** X12. The root poller does not give up while work is left: as long
    as the time limit has not passed, a listing that still shows a file
    as pending or pending_delete (a file that is not optimistically
    deleted) leaves polling enabled after the refetch. *)
Theorem root_poller_keeps_polling enabled kbId response now p w f :
  shouldEnablePolling enabled kbId p = true →
  now - pollingStartTime p ≤ MAX_POLL_DURATION →
  f ∈ response → FileItem.type f = file →
  FileItem.status f = Some "pending" ∨ FileItem.status f = Some "pending_delete" →
  optimisticDeleteEntries w !! FileItem.id f = None →
  shouldEnablePolling enabled kbId
    (fst (rootRefetched enabled kbId (Some response) now (p, w))) = true.
Proof.
  intros Hon Htime Hin Hty Hst Hout. unfold rootRefetched. rewrite Hon.
  case_bool_decide as Hsame; [exact Hon|].
  pose proof Hon as (He & Hk & Htemp & Hp)%shouldEnablePolling_true.
  apply shouldEnablePolling_true. repeat split; try assumption.
  rewrite renderStatus_unfold. cbn [fst snd].
  set (w1 := set_kbResources _ w).
  assert (Hlisting : (kbId ≫= λ k, kbResources w1 !! k) = Some response).
  { destruct kbId as [k|]; [|discriminate]. simpl. apply lookup_insert_eq. }
  rewrite Hlisting. unfold filteredKbResources. simpl fmap.
  set (data := filterPollingResponse w1 response).
  assert (Hdata : f ∈ onlyFiles data).
  { apply list_elem_of_In, List.filter_In. split; [|by apply bool_decide_eq_true_2].
    apply List.filter_In. split; [by apply list_elem_of_In|].
    change (optimisticDeleteEntries w1) with (optimisticDeleteEntries w).
    rewrite Hout. apply negb_true_iff, bool_decide_eq_false_2. by intros [? ?]. }
  destruct (checkUnsettledFiles_state (Some data) p w1) as (Hsp & Hstart & _).
  assert (Hunsettled : fst (checkUnsettledFiles (Some data) (p, w1)) = true).
  { unfold checkUnsettledFiles. cbn [fst]. apply orb_true_iff.
    destruct Hst as [Hst|Hst]; [left | right]; apply bool_decide_eq_true_2;
      apply (elem_length_pos f); apply list_elem_of_In, List.filter_In;
      (split; [by apply list_elem_of_In | by apply bool_decide_eq_true_2]). }
  rewrite Hunsettled. apply decidePolling_continues.
  - by rewrite Hsp.
  - by rewrite Hstart.
  - intros Hnil. rewrite Hnil in Hdata. by inversion Hdata.
Qed.

Lemma root_poller_keeps_polling_witness :
  shouldEnablePolling true (Some "kb-9")
    (fst (rootRefetched true (Some "kb-9")
            (Some [FileItem.mk "r1" "r.txt" file 1 (Some "pending") None]) 2000
            (initialPollingState 1000, initialWorld 0))) = true.
Proof.
  apply (root_poller_keeps_polling true (Some "kb-9") _ 2000
           (initialPollingState 1000) (initialWorld 0)
           (FileItem.mk "r1" "r.txt" file 1 (Some "pending") None)).
  - reflexivity.
  - unfold MAX_POLL_DURATION. simpl. lia.
  - apply list_elem_of_In. simpl. by left.
  - reflexivity.
  - by left.
  - reflexivity.
Defined.

(** X13. The time limit of the poller runs from the moment the hook
    was mounted: a change of KB switches polling on again and clears the
    error flag and the folder statuses, but keeps the start time, so
    when the limit has passed the first decision over a listing of the
    new KB stops polling whatever the listing holds.  A change to no KB
    changes nothing. *)
Theorem polling_time_limit_survives_kb_change enabled newKbId now p w :
  pollingStartTime (kbChanged newKbId p) = pollingStartTime p
  ∧ (truthy newKbId = false → kbChanged newKbId p = p)
  ∧ (truthy newKbId = true →
     shouldPoll (kbChanged newKbId p) = true
     ∧ hasShownErrorToast (kbChanged newKbId p) = false
     ∧ folderPollingStatus (kbChanged newKbId p) = ∅
     ∧ (enabled = true →
        MAX_POLL_DURATION < now - pollingStartTime p →
        is_Some (kbResources w !! orEmpty newKbId) →
        shouldPoll (fst (renderStatus enabled newKbId now (kbChanged newKbId p, w)))
        = false)).
Proof.
  unfold kbChanged. split; [by destruct (truthy newKbId)|].
  split; [by intros ->|]. intros Hk. rewrite Hk.
  repeat split. intros He Htime [listing Hl].
  rewrite renderStatus_unfold. cbn [fst snd].
  destruct newKbId as [k|]; [|discriminate]. simpl in Hl. simpl mbind.
  rewrite Hl. unfold filteredKbResources. simpl fmap.
  set (p1 := setFolderPollingStatus _ _).
  destruct (checkUnsettledFiles_state (Some (filterPollingResponse w listing)) p1 w)
    as (_ & Hstart & _).
  apply decidePolling_stops; [exact He | exact Hk |].
  right. right. right. by rewrite Hstart.
Qed.

Lemma startFolderPolling_fold folders : ∀ (m : gmap string bool) path,
  fold_left (λ m ff,
    if bool_decide (0 < length (FolderFiles.fileIds ff))%nat
    then <[FolderFiles.folderPath ff := true]> m else m) folders m !! path
  = if bool_decide (Exists (λ ff, FolderFiles.folderPath ff = path
                                  ∧ FolderFiles.fileIds ff ≠ []) folders)
    then Some true else m !! path.
Proof.
  induction folders as [|ff folders IH]; intros m path; cbn [fold_left].
  - rewrite bool_decide_eq_false_2; [done | by intros H; inversion H].
  - rewrite IH. case_bool_decide as Hex.
    + rewrite bool_decide_eq_true_2; [done | by right].
    + case_bool_decide as Hlen.
      * destruct (decide (FolderFiles.folderPath ff = path)) as [<-|Hne].
        -- rewrite lookup_insert_eq. rewrite bool_decide_eq_true_2; [done|].
           left. split; [done|].
           destruct (FolderFiles.fileIds ff); [simpl in Hlen; lia | done].
        -- rewrite lookup_insert_ne by done. case_bool_decide as Hex'; [|done].
           inversion Hex' as [? ? [? ?]|]; subst; done.
      * case_bool_decide as Hex'; [|done].
        inversion Hex' as [? ? [? Hids]|]; subst; [|done].
        destruct (FolderFiles.fileIds ff); [done | simpl in Hlen; lia].
Qed.

Lemma isFolderPollingActive_lookup p :
  isFolderPollingActive p = true ↔ ∃ path, folderPollingStatus p !! path = Some true.
Proof.
  unfold isFolderPollingActive, folderPollingValues. rewrite existsb_exists. split.
  - intros (b & Hin & ->). apply list_elem_of_In, list_elem_of_fmap in Hin
      as ([path b] & Hb & Hin). simpl in Hb. subst b.
    exists path. by apply elem_of_map_to_list.
  - intros [path H]. exists true. split; [|done].
    apply list_elem_of_In, list_elem_of_fmap. exists (path, true).
    split; [done | by apply elem_of_map_to_list].
Qed.

(** X14. The life of the folder pollers.  When polling is enabled and
    folders were indexed, [startFolderPolling] forgets the statuses it
    held and marks as active exactly the folder paths that come with at
    least one file id, so a folder poller is active exactly when there
    is such a folder; otherwise it changes nothing.  A poll of a folder
    that runs and finds none of the expected files pending, or whose
    request fails, marks that path as done and leaves the other paths
    as they are; a poll that finds an expected file pending schedules
    itself again and marks nothing. *)
Theorem folder_poller_lifecycle enabled kbId folders p w shown folderPath expected
    response :
  let started := startFolderPolling enabled kbId folders p in
  let polled :=
    pollFolderStatus kbId true shown folderPath expected response (p, w) in
  (shouldEnablePolling enabled kbId p = false ∨ folders = [] → started = p)
  ∧ (shouldEnablePolling enabled kbId p = true → folders ≠ [] →
     (∀ path, folderPollingStatus started !! path
              = if bool_decide (Exists (λ ff, FolderFiles.folderPath ff = path
                                              ∧ FolderFiles.fileIds ff ≠ []) folders)
                then Some true else None)
     ∧ (isFolderPollingActive started = true
        ↔ Exists (λ ff, FolderFiles.fileIds ff ≠ []) folders))
  ∧ (truthy kbId = true →
     match response with
     | Some folderFiles =>
         if existsb (expectedHasStatus folderFiles "pending") expected
         then fst polled = true
              ∧ folderPollingStatus (fst (snd polled)) = folderPollingStatus p
         else fst polled = false
              ∧ folderPollingStatus (fst (snd polled))
                = <[folderPath := false]> (folderPollingStatus p)
     | None =>
         fst polled = false
         ∧ folderPollingStatus (fst (snd polled))
           = <[folderPath := false]> (folderPollingStatus p)
     end).
Proof.
  intros started polled. split; [|split].
  - unfold started, startFolderPolling. intros [-> | ->]; [done|].
    by rewrite orb_true_r.
  - intros Hon Hne. unfold started, startFolderPolling. rewrite Hon.
    apply shouldEnablePolling_true in Hon as (_ & Hk & _ & _). rewrite Hk.
    rewrite bool_decide_eq_false_2 by (destruct folders; [done | discriminate]).
    simpl.
    assert (Hlookup : ∀ path,
      fold_left (λ m ff,
        if bool_decide (0 < length (FolderFiles.fileIds ff))%nat
        then <[FolderFiles.folderPath ff := true]> m else m) folders
        (∅ : gmap string bool) !! path
      = if bool_decide (Exists (λ ff, FolderFiles.folderPath ff = path
                                      ∧ FolderFiles.fileIds ff ≠ []) folders)
        then Some true else None).
    { intros path. rewrite startFolderPolling_fold. by rewrite lookup_empty. }
    split; [exact Hlookup|].
    rewrite isFolderPollingActive_lookup. simpl. split.
    + intros [path H]. rewrite Hlookup in H. case_bool_decide as Hex; [|done].
      eapply Exists_impl; [exact Hex|]. by intros ff [_ ?].
    + intros Hex. apply Exists_exists in Hex as (ff & Hin & Hids).
      exists (FolderFiles.folderPath ff). rewrite Hlookup.
      rewrite bool_decide_eq_true_2; [done|].
      apply Exists_exists. by exists ff.
  - intros Hk. unfold polled, pollFolderStatus. rewrite Hk. simpl negb.
    cbn [orb]. destruct response as [folderFiles|]; [|done].
    destruct (existsb (λ fileId, _ || _) expected && negb shown);
      [case_bool_decide|];
      destruct (existsb (expectedHasStatus folderFiles "pending") expected); done.
Qed.

Lemma forallb_negb_existsb (l : list bool) :
  forallb (λ isActive, negb isActive) l = true →
  existsb (λ isActive, isActive) l = false.
Proof.
  induction l as [|b l IH]; [done|]. simpl.
  intros [Hb Hl]%andb_true_iff. apply negb_true_iff in Hb. by rewrite Hb, IH.
Qed.

(** X15. When the hook reports that all files are settled, nothing is
    unsettled in the listing and the poller stops at the decision that
    follows: the settled flag shown to the user is never true while the
    hook goes on polling by its own decision. *)
Theorem allFilesSettled_stops_polling enabled kbId now p w :
  let filtered := filteredKbResources w (kbId ≫= λ k, kbResources w !! k) in
  allFilesSettled filtered p = true →
  fst (checkUnsettledFiles filtered (p, w)) = false
  ∧ (enabled = true → truthy kbId = true →
     shouldPoll (fst (renderStatus enabled kbId now (p, w))) = false).
Proof.
  intros filtered Hsettled. unfold allFilesSettled in Hsettled.
  destruct filtered as [data|] eqn:Hf; [|discriminate].
  assert (Hcases : onlyFiles data = []
                   ∨ (Forall isSettled (onlyFiles data)
                      ∧ isFolderPollingActive p = false)).
  { case_bool_decide as Hlen.
    - left. by destruct (onlyFiles data).
    - right. apply andb_true_iff in Hsettled as [Hroot Hfolders]. split.
      + apply Forall_forall. intros f Hin.
        rewrite forallb_forall in Hroot.
        specialize (Hroot f (proj1 (list_elem_of_In _ _) Hin)).
        apply orb_true_iff in Hroot as [H|H]; apply bool_decide_eq_true_1 in H;
          [by left | by right].
      + by apply forallb_negb_existsb. }
  assert (Hun : fst (checkUnsettledFiles (Some data) (p, w)) = false).
  { destruct Hcases as [Hnil|[Hall _]]; [|by apply checkUnsettledFiles_settled].
    unfold checkUnsettledFiles. cbn [fst]. by rewrite Hnil. }
  split; [exact Hun|]. intros He Hk.
  rewrite renderStatus_unfold. cbn [fst snd]. fold filtered. rewrite Hf, Hun.
  destruct (checkUnsettledFiles_state (Some data) p w) as (_ & _ & Hfs & _).
  apply decidePolling_stops; [exact He | exact Hk |].
  destruct Hcases as [Hnil|[_ Hact]]; [by right; left|].
  right. right. left. split; [done|].
  by rewrite (isFolderPollingActive_state p _ Hfs).
Qed.

Lemma allFilesSettled_stops_polling_witness :
  shouldPoll (fst (renderStatus true (Some "kb-9") 2000
                     (initialPollingState 1000, afterSuccess))) = false.
Proof.
  destruct (allFilesSettled_stops_polling true (Some "kb-9") 2000
              (initialPollingState 1000) afterSuccess) as [_ H].
  - reflexivity.
  - apply H; reflexivity.
Defined.

(** * Row selection *)

Lemma canSelectFile_create kbId w f statusCache :
  canSelectFile false kbId w f statusCache = (true, statusCache).
Proof. reflexivity. Qed.

Lemma canSelectFile_directory hasKB kbId w f statusCache :
  hasKB = true → FileItem.type (TreeItem.item f) = directory →
  canSelectFile hasKB kbId w f statusCache = (false, statusCache).
Proof.
  intros -> Hdir. unfold canSelectFile. simpl.
  destruct (truthy kbId); [|reflexivity]. simpl.
  by rewrite bool_decide_eq_true_2.
Qed.

Lemma canSelectFile_no_kb hasKB kbId w f statusCache :
  hasKB = true → truthy kbId = false →
  canSelectFile hasKB kbId w f statusCache = (false, statusCache).
Proof. intros -> Hk. unfold canSelectFile. simpl. by rewrite Hk. Qed.

Lemma canSelectFile_file kbId w f statusCache :
  truthy kbId = true → FileItem.type (TreeItem.item f) = file →
  canSelectFile true kbId w f statusCache
  = (selectableStatus
       (fst (resolveFileStatus w statusCache (FileItem.id (TreeItem.item f)) kbId
               (folderPathOf f))),
     snd (resolveFileStatus w statusCache (FileItem.id (TreeItem.item f)) kbId
            (folderPathOf f))).
Proof.
  intros Hk Hfile. unfold canSelectFile. simpl. rewrite Hk. simpl.
  rewrite bool_decide_eq_false_2 by (rewrite Hfile; discriminate).
  by destruct (resolveFileStatus _ _ _ _ _).
Qed.

(** X17. What can be selected.  While no KB exists every row can be
    selected, folders included, and the resolver is not consulted.  Once
    a KB exists a folder can never be selected, nothing can be selected
    without a kbId, and a file can be selected exactly when the
    resolver, asked with the memo that the caller holds, returns
    indexed, error or failed for it; the memo is left as that lookup
    leaves it.  With a memo that holds nothing stale under the key of
    the row, a file in the optimistic delete registry cannot be
    selected again. *)
Theorem canSelectFile_cases hasKB kbId w f statusCache :
  (hasKB = false → canSelectFile hasKB kbId w f statusCache = (true, statusCache))
  ∧ (hasKB = true →
     (truthy kbId = false ∨ FileItem.type (TreeItem.item f) = directory →
      canSelectFile hasKB kbId w f statusCache = (false, statusCache))
     ∧ (truthy kbId = true → FileItem.type (TreeItem.item f) = file →
        let lookup :=
          resolveFileStatus w statusCache (FileItem.id (TreeItem.item f)) kbId
            (folderPathOf f) in
        (fst (canSelectFile hasKB kbId w f statusCache) = true
         ↔ fst lookup = Status "indexed" ∨ fst lookup = Status "error"
           ∨ fst lookup = Status "failed")
        ∧ snd (canSelectFile hasKB kbId w f statusCache) = snd lookup
        ∧ (memoFresh w statusCache (FileItem.id (TreeItem.item f)) kbId
             (folderPathOf f) →
           is_Some (optimisticDeleteEntries w !! FileItem.id (TreeItem.item f)) →
           fst (canSelectFile hasKB kbId w f statusCache) = false))).
Proof.
  split; [intros ->; apply canSelectFile_create|]. intros ->. split.
  - intros [Hk|Hdir]; [by apply canSelectFile_no_kb | by apply canSelectFile_directory].
  - intros Hk Hfile lookup.
    rewrite (canSelectFile_file _ _ _ _ Hk Hfile). cbn [fst snd]. fold lookup.
    assert (Hiff : selectableStatus (fst lookup) = true
                   ↔ fst lookup = Status "indexed" ∨ fst lookup = Status "error"
                     ∨ fst lookup = Status "failed").
    { unfold selectableStatus. rewrite !orb_true_iff, !bool_decide_eq_true. tauto. }
    split; [exact Hiff|]. split; [reflexivity|]. intros Hfresh Hdel.
    assert (Hst : fst lookup = Status "-").
    { unfold lookup. rewrite (resolveFileStatus_fresh _ _ _ _ _ Hfresh).
      unfold computeFileStatus. by rewrite bool_decide_eq_true_2. }
    apply not_true_is_false. rewrite Hiff, Hst.
    intros [H|[H|H]]; discriminate.
Qed.

Lemma selectedFiles_spec hasKB kbId w rowSelection files : ∀ statusCache,
  let selected := fst (selectedFiles hasKB kbId w rowSelection files statusCache) in
  sublist selected files
  ∧ Forall (λ f, rowSelection !! FileItem.id (TreeItem.item f) = Some true
                 ∧ (hasKB = true →
                    truthy kbId = true
                    ∧ FileItem.type (TreeItem.item f) = file)) selected.
Proof.
  induction files as [|f files IH]; intros statusCache; simpl.
  - split; constructor.
  - case_bool_decide as Hsel.
    + destruct (canSelectFile hasKB kbId w f statusCache) as [can cache1] eqn:Hcan.
      specialize (IH cache1).
      destruct (selectedFiles hasKB kbId w rowSelection files cache1)
        as [more cache2]. simpl in *. destruct IH as [Hsub Hall].
      destruct can; [|split; [by constructor | exact Hall]].
      split; [by constructor|]. constructor; [|exact Hall].
      split; [exact Hsel|]. intros ->.
      destruct (truthy kbId) eqn:Hk;
        [|by rewrite canSelectFile_no_kb in Hcan].
      split; [reflexivity|].
      destruct (FileItem.type (TreeItem.item f)) eqn:Hty; [reflexivity|].
      by rewrite canSelectFile_directory in Hcan.
    + specialize (IH statusCache).
      destruct (selectedFiles hasKB kbId w rowSelection files statusCache)
        as [more cache2]. simpl in *. destruct IH as [Hsub Hall].
      split; [by constructor | exact Hall].
Qed.

Lemma selectedFiles_create kbId w rowSelection files : ∀ statusCache,
  selectedFiles false kbId w rowSelection files statusCache
  = (List.filter (λ f,
       bool_decide (rowSelection !! FileItem.id (TreeItem.item f) = Some true))
       files, statusCache).
Proof.
  induction files as [|f files IH]; intros statusCache; simpl; [reflexivity|].
  rewrite IH. by case_bool_decide.
Qed.

(** X18. What is handed on as the selection.  The selected files are
    rows of the table, in the order of the table, each of them selected
    in the row selection; the selected resource ids are their ids.
    While no KB exists they are all the selected rows of the table.
    Once a KB exists none of them is a folder, whatever the row
    selection holds, and without a kbId there is none. *)
Theorem selectedFiles_properties hasKB kbId w rowSelection files statusCache :
  let selected := fst (selectedFiles hasKB kbId w rowSelection files statusCache) in
  sublist selected files
  ∧ selectedResourceIds hasKB kbId w rowSelection files statusCache
    = List.map (λ f, FileItem.id (TreeItem.item f)) selected
  ∧ Forall (λ f, rowSelection !! FileItem.id (TreeItem.item f) = Some true) selected
  ∧ (hasKB = false →
     selected
     = List.filter (λ f,
         bool_decide (rowSelection !! FileItem.id (TreeItem.item f) = Some true))
         files)
  ∧ (hasKB = true →
     Forall (λ f, FileItem.type (TreeItem.item f) = file) selected
     ∧ (truthy kbId = false → selected = [])).
Proof.
  intros selected.
  destruct (selectedFiles_spec hasKB kbId w rowSelection files statusCache)
    as [Hsub Hall].
  fold selected in Hsub, Hall.
  split; [exact Hsub|]. split; [reflexivity|]. split; [|split].
  - eapply Forall_impl; [exact Hall|]. by intros f [? _].
  - intros ->. unfold selected. by rewrite selectedFiles_create.
  - intros ->. split.
    + eapply Forall_impl; [exact Hall|]. intros f [_ H]. by apply H.
    + intros Hk. destruct selected as [|f rest]; [reflexivity|].
      inversion Hall as [|? ? [_ H] _]; subst.
      destruct (H eq_refl) as [Hk' _]. congruence.
Qed.

(** ** Selecting a folder with the rows under it *)

Section descendantsLoop.
Variable children : gmap string (list string).
Variable len : string → nat.
Variables longest n : nat.

Hypothesis children_longer : ∀ q c,
  c ∈ childIds children q → (len q < len c ∧ len c ≤ longest)%nat.
Hypothesis children_few : ∀ q, (length (childIds children q) ≤ n)%nat.

Lemma turns_pos id : (1 ≤ turnsOf len longest n id)%nat.
  Proof.
    unfold turnsOf.
    assert (S n ^ (longest - len id) ≠ 0)%nat by (apply Nat.pow_nonzero; lia).
    lia.
  Qed.

Lemma turnsAll_app l1 l2 :
  turnsOfAll len longest n (l1 ++ l2)
  = (turnsOfAll len longest n l1 + turnsOfAll len longest n l2)%nat.
  Proof. induction l1 as [|a l1 IH]; simpl; [done|]. rewrite IH. lia. Qed.

Lemma turnsAll_bound (l : list string) bound :
    (∀ c, c ∈ l → (turnsOf len longest n c ≤ bound)%nat) →
    (turnsOfAll len longest n l ≤ length l * bound)%nat.
  Proof.
    induction l as [|a l IH]; intros H; simpl; [lia|].
    pose proof (H a (list_elem_of_here _ _)) as Ha.
    assert (Hl : (turnsOfAll len longest n l ≤ length l * bound)%nat).
    { apply IH. intros c Hc. apply H. by right. }
    lia.
  Qed.

Lemma turns_children q :
  (turnsOfAll len longest n (childIds children q) + 1 ≤ turnsOf len longest n q)%nat.
  Proof.
    destruct (childIds children q) as [|c0 rest] eqn:E.
    { simpl. apply turns_pos. }
    destruct (children_longer q c0) as [Hlt Hle]; [rewrite E; by left|].
    set (bound := (S n ^ (longest - len q - 1))%nat).
    assert (Hb : (turnsOfAll len longest n (c0 :: rest)
                  ≤ length (c0 :: rest) * bound)%nat).
    { apply turnsAll_bound. intros c Hc.
      destruct (children_longer q c) as [Hlt' Hle']; [by rewrite E|].
      unfold turnsOf, bound. apply Nat.pow_le_mono_r; lia. }
    pose proof (children_few q) as Hfew. rewrite E in Hfew.
    assert (Hq : turnsOf len longest n q = (S n * bound)%nat).
    { unfold turnsOf, bound. rewrite <- Nat.pow_succ_r'. f_equal. lia. }
    assert (Hpos : (bound ≠ 0)%nat).
    { unfold bound. apply Nat.pow_nonzero. lia. }
    rewrite Hq. nia.
  Qed.

Lemma descendantsLoop_terminates : ∀ fuel queue descendants,
    (turnsOfAll len longest n queue ≤ fuel)%nat →
    is_Some (descendantsLoop fuel children queue descendants).
  Proof.
    induction fuel as [|fuel IH]; intros queue descendants Hfuel.
    - destruct queue as [|q queue]; [by eexists|].
      simpl in Hfuel. pose proof (turns_pos q). lia.
    - destruct queue as [|q queue]; [by eexists|]. simpl.
      apply IH. fold (childIds children q). rewrite turnsAll_app.
      simpl in Hfuel. pose proof (turns_children q). lia.
  Qed.

Hypothesis children_closed : ∀ q c e,
  c ∈ childIds children q → e ∈ childIds children c → e ∈ childIds children q.

Lemma descendantsLoop_elems : ∀ fuel queue descendants result,
    descendantsLoop fuel children queue descendants = Some result →
    ∀ id, id ∈ result
          ↔ id ∈ descendants ∨ ∃ q, q ∈ queue ∧ id ∈ childIds children q.
  Proof.
    induction fuel as [|fuel IH]; intros queue descendants result H id.
    - destruct queue as [|q queue]; [|discriminate]. injection H as <-.
      split; [by left|]. intros [Hd|(q & Hq & _)]; [done | by inversion Hq].
    - destruct queue as [|q queue].
      { injection H as <-. split; [by left|].
        intros [Hd|(q & Hq & _)]; [done | by inversion Hq]. }
      simpl in H. fold (childIds children q) in H.
      rewrite (IH _ _ _ H id). rewrite elem_of_app. split.
      + intros [[Hd|Hc]|(q' & Hq' & Hid)].
        * by left.
        * right. exists q. split; [by left | done].
        * apply elem_of_app in Hq' as [Hq'|Hq'].
          -- right. exists q'. split; [by right | done].
          -- right. exists q. split; [by left|]. by eapply children_closed.
      + intros [Hd|(q' & Hq' & Hid)]; [by left; left|].
        apply elem_of_cons in Hq' as [->|Hq'].
        * left. by right.
        * right. exists q'. split; [|done]. apply elem_of_app. by left.
  Qed.
End descendantsLoop.

Lemma findRow_Some files fileId f :
  findRow files fileId = Some f → f ∈ files ∧ rowId f = fileId.
Proof.
  unfold findRow. intros [Hin Hid]%find_some.
  split; [by apply list_elem_of_In | by apply String.eqb_eq].
Qed.

Lemma findRow_NoDup files f :
  NoDup (rowId <$> files) → f ∈ files → findRow files (rowId f) = Some f.
Proof.
  unfold findRow. induction files as [|g files IH]; intros Hnd Hin;
    [by inversion Hin|].
  rewrite fmap_cons in Hnd. apply NoDup_cons in Hnd as [Hg Hnd]. simpl.
  fold (rowId g).
  destruct (String.eqb (rowId g) (rowId f)) eqn:E.
  - apply String.eqb_eq in E. apply elem_of_cons in Hin as [->|Hin]; [done|].
    exfalso. apply Hg. rewrite E. apply list_elem_of_fmap. by exists f.
  - apply elem_of_cons in Hin as [->|Hin]; [by rewrite String.eqb_refl in E|].
    by apply IH.
Qed.

Lemma findRow_None files fileId :
  fileId ∉ (rowId <$> files) → findRow files fileId = None.
Proof.
  intros Hout. destruct (findRow files fileId) as [f|] eqn:E; [|done].
  apply findRow_Some in E as [Hin <-]. exfalso. apply Hout.
  apply list_elem_of_fmap. by exists f.
Qed.

Lemma childrenMap_fold files l : ∀ (m : gmap string (list string)) id,
  NoDup (rowId <$> l) →
  fold_left (λ m f,
    if bool_decide (FileItem.type (TreeItem.item f) = directory) then
      <[FileItem.id (TreeItem.item f) :=
          List.map (λ g, FileItem.id (TreeItem.item g))
            (List.filter (λ g,
               startsWith (FileItem.name (TreeItem.item g))
                 (FileItem.name (TreeItem.item f) +:+ "/")) files)]> m
    else m) l m !! id
  = match findRow l id with
    | Some f => if bool_decide (rowType f = directory)
                then Some (idsUnder files f) else m !! id
    | None => m !! id
    end.
Proof.
  induction l as [|h l IH]; intros m id Hnd; [reflexivity|].
  rewrite fmap_cons in Hnd. apply NoDup_cons in Hnd as [Hh Hnd].
  cbn [fold_left]. rewrite IH by exact Hnd.
  unfold findRow at 2. cbn [List.find]. fold (rowId h). fold (findRow l id).
  destruct (String.eqb (rowId h) id) eqn:E.
  - apply String.eqb_eq in E. subst id.
    rewrite findRow_None by exact Hh. unfold rowType.
    case_bool_decide; [|reflexivity]. by rewrite lookup_insert_eq.
  - apply String.eqb_neq in E.
    destruct (findRow l id) as [f|]; [case_bool_decide; [reflexivity|]|];
      (case_bool_decide; [by rewrite lookup_insert_ne|reflexivity]).
Qed.

Lemma childIds_childrenMap files id :
  NoDup (rowId <$> files) →
  childIds (childrenMap files) id
  = match findRow files id with
    | Some f => if bool_decide (rowType f = directory) then idsUnder files f else []
    | None => []
    end.
Proof.
  intros Hnd. unfold childIds, childrenMap. rewrite childrenMap_fold by exact Hnd.
  rewrite lookup_empty. destruct (findRow files id); [|reflexivity].
  by case_bool_decide.
Qed.

Lemma elem_idsUnder files f id :
  id ∈ idsUnder files f ↔ ∃ g, g ∈ files ∧ rowId g = id ∧ namedUnder f g = true.
Proof.
  unfold idsUnder. rewrite list_elem_of_In, List.in_map_iff. split.
  - intros (g & Hid & [Hg Hu]%List.filter_In). exists g.
    split; [by apply list_elem_of_In | done].
  - intros (g & Hg & Hid & Hu). exists g. split; [done|].
    apply List.filter_In. split; [by apply list_elem_of_In | done].
Qed.

Lemma longestRowName_bound files f :
  f ∈ files → (String.length (rowName f) ≤ longestRowName files)%nat.
Proof.
  induction files as [|g files IH]; intros Hin; [by inversion Hin|].
  apply elem_of_cons in Hin as [->|Hin]; unfold longestRowName in *; simpl.
  - apply Nat.le_max_l.
  - etrans; [by apply IH | apply Nat.le_max_r].
Qed.

Lemma namedUnder_longer f g :
  namedUnder f g = true →
  (String.length (rowName f) < String.length (rowName g))%nat.
Proof.
  unfold namedUnder. intros [rest H]%startsWith_app. rewrite H.
  rewrite !string_app_length. simpl. lia.
Qed.

Lemma namedUnder_trans f g h :
  namedUnder f g = true → namedUnder g h = true → namedUnder f h = true.
Proof.
  unfold namedUnder. intros [r1 H1]%startsWith_app [r2 H2]%startsWith_app.
  apply startsWith_app. exists (r1 +:+ "/" +:+ r2).
  rewrite H2, H1. by rewrite !string_app_assoc.
Qed.

Lemma childIds_spec files q c :
  NoDup (rowId <$> files) →
  c ∈ childIds (childrenMap files) q
  ↔ ∃ f g, findRow files q = Some f ∧ rowType f = directory
           ∧ g ∈ files ∧ rowId g = c ∧ namedUnder f g = true.
Proof.
  intros Hnd. rewrite childIds_childrenMap by exact Hnd. split.
  - destruct (findRow files q) as [f|] eqn:E; [|by intros H; inversion H].
    case_bool_decide as Hdir; [|by intros H; inversion H].
    intros (g & Hg & Hid & Hu)%elem_idsUnder. by exists f, g.
  - intros (f & g & -> & Hdir & Hg & Hid & Hu).
    rewrite bool_decide_eq_true_2 by exact Hdir.
    apply elem_idsUnder. by exists g.
Qed.

Lemma getAllDescendantIds_result files f :
  NoDup (rowId <$> files) → f ∈ files → rowType f = directory →
  ∃ result,
    getAllDescendantIds (turnsFor files (rowId f)) files (rowId f) = Some result
    ∧ ∀ id, id ∈ result ↔ ∃ g, g ∈ files ∧ rowId g = id ∧ namedUnder f g = true.
Proof.
  intros Hnd Hf Hdir. unfold getAllDescendantIds.
  assert (Hlonger : ∀ q c, c ∈ childIds (childrenMap files) q →
            (nameLength files q < nameLength files c
             ∧ nameLength files c ≤ longestRowName files)%nat).
  { intros q c (f' & g & Hq & _ & Hg & <- & Hu)%childIds_spec; [|exact Hnd].
    unfold nameLength. rewrite Hq, (findRow_NoDup _ _ Hnd Hg).
    split; [by apply namedUnder_longer | by apply longestRowName_bound]. }
  assert (Hfew : ∀ q, (length (childIds (childrenMap files) q) ≤ length files)%nat).
  { intros q. rewrite childIds_childrenMap by exact Hnd.
    destruct (findRow files q) as [f'|]; [|simpl; lia].
    case_bool_decide; [|simpl; lia]. unfold idsUnder.
    rewrite length_map. apply List.filter_length_le. }
  assert (Hclosed : ∀ q c e, c ∈ childIds (childrenMap files) q →
            e ∈ childIds (childrenMap files) c → e ∈ childIds (childrenMap files) q).
  { intros q c e (f1 & g1 & Hq & Hd1 & Hg1 & <- & Hu1)%childIds_spec
                 (f2 & g2 & Hc & Hd2 & Hg2 & <- & Hu2)%childIds_spec;
      try exact Hnd.
    rewrite (findRow_NoDup _ _ Hnd Hg1) in Hc. injection Hc as <-.
    apply childIds_spec; [exact Hnd|]. exists f1, g2.
    repeat split; try done. by eapply namedUnder_trans. }
  destruct (descendantsLoop_terminates (childrenMap files) (nameLength files)
              (longestRowName files) (length files) Hlonger Hfew
              (turnsFor files (rowId f)) [rowId f] []) as [result Hres].
  { unfold turnsOfAll, turnsOf, turnsFor. simpl. lia. }
  exists result. split; [exact Hres|]. intros id.
  rewrite (descendantsLoop_elems (childrenMap files) Hclosed _ _ _ _ Hres id).
  split.
  - intros [H|(q & Hq & Hid)]; [by inversion H|].
    apply list_elem_of_singleton in Hq as ->.
    apply childIds_spec in Hid as (f' & g & Hq & _ & Hg & Hidg & Hu); [|exact Hnd].
    rewrite (findRow_NoDup _ _ Hnd Hf) in Hq. injection Hq as <-. by exists g.
  - intros (g & Hg & Hid & Hu). right. exists (rowId f).
    split; [by apply list_elem_of_singleton|].
    apply childIds_spec; [exact Hnd|]. exists f, g.
    by rewrite (findRow_NoDup _ _ Hnd Hf).
Qed.

(** ** Row selection handlers *)

Lemma selectDescendants_create kbId w files isSelected ids : ∀ m statusCache,
  (∀ i, i ∈ ids → is_Some (findRow files i)) →
  ∃ selection,
    fold_left (selectDescendant false kbId w files isSelected) ids (m, statusCache)
    = (selection, statusCache)
    ∧ ∀ id, selection !! id
            = if bool_decide (id ∈ ids)
              then (if isSelected then Some true else None)
              else m !! id.
Proof.
  induction ids as [|a ids IH]; intros m statusCache Hfound.
  - exists m. split; [reflexivity|]. intros id.
    rewrite bool_decide_eq_false_2; [done | by intros H; inversion H].
  - cbn [fold_left]. unfold selectDescendant at 2.
    destruct (Hfound a) as [r Hr]; [by left|]. rewrite Hr.
    set (m1 := if isSelected then <[a := true]> m else delete a m).
    assert (Hstep : (if isSelected
                     then let '(can, statusCache0) :=
                            canSelectFile false kbId w r statusCache in
                          if can then (<[a := true]> m, statusCache0)
                          else (delete a m, statusCache0)
                     else (delete a m, statusCache)) = (m1, statusCache)).
    { unfold m1. by destruct isSelected. }
    rewrite Hstep.
    destruct (IH m1 statusCache) as (selection & Hfold & Hlookup).
    { intros i Hi. apply Hfound. by right. }
    exists selection. split; [exact Hfold|]. intros id. rewrite Hlookup.
    case_bool_decide as Hin.
    + rewrite bool_decide_eq_true_2; [done | by right].
    + destruct (decide (id = a)) as [->|Hne].
      * rewrite bool_decide_eq_true_2 by (by left).
        unfold m1. destruct isSelected;
          [by rewrite lookup_insert_eq | by rewrite lookup_delete_eq].
      * rewrite bool_decide_eq_false_2
          by (intros [?|?]%elem_of_cons; done).
        unfold m1. destruct isSelected;
          [by rewrite lookup_insert_ne | by rewrite lookup_delete_ne].
Qed.

(** X19. Selecting a folder while no KB exists, in a table whose rows
    have distinct ids: the handler returns, within the number of turns
    that the names of the rows allow, and the folder and every row named
    under it, at any depth, are then selected; deselecting the folder
    deselects them all.  The selection of every other row is left as it
    was, and the resolver is not consulted. *)
Theorem handleRowSelection_folder kbId w files f isSelected prev statusCache :
  NoDup (rowId <$> files) → f ∈ files → rowType f = directory →
  ∃ selection,
    handleRowSelection (turnsFor files (rowId f)) false kbId w files (rowId f)
      isSelected (prev, statusCache) = Some (selection, statusCache)
    ∧ ∀ id,
        (id = rowId f ∨ (∃ g, g ∈ files ∧ rowId g = id ∧ namedUnder f g = true) →
         selection !! id = if isSelected then Some true else None)
        ∧ (id ≠ rowId f →
           (∀ g, g ∈ files → rowId g = id → namedUnder f g = false) →
           selection !! id = prev !! id).
Proof.
  intros Hnd Hf Hdir.
  destruct (getAllDescendantIds_result files f Hnd Hf Hdir) as (result & Hres & Hin).
  set (m0 := if isSelected then <[rowId f := true]> prev else delete (rowId f) prev).
  destruct (selectDescendants_create kbId w files isSelected result m0 statusCache)
    as (selection & Hfold & Hlookup).
  { intros i (g & Hg & <- & _)%Hin. rewrite (findRow_NoDup _ _ Hnd Hg). by eexists. }
  exists selection. split.
  - unfold handleRowSelection. rewrite (findRow_NoDup _ _ Hnd Hf).
    assert (Hcan : (if isSelected then canSelectFile false kbId w f statusCache
                    else (true, statusCache)) = (true, statusCache)).
    { by destruct isSelected. }
    rewrite Hcan. rewrite andb_false_r.
    unfold rowType in Hdir. rewrite bool_decide_eq_true_2 by exact Hdir.
    cbn [negb andb]. rewrite Hres. cbn [fmap option_fmap option_map].
    fold m0. by rewrite Hfold.
  - intros id. rewrite Hlookup. split.
    + intros [->|Hunder].
      * case_bool_decide as Hr; [reflexivity|].
        unfold m0. destruct isSelected;
          [by rewrite lookup_insert_eq | by rewrite lookup_delete_eq].
      * rewrite bool_decide_eq_true_2; [reflexivity | by apply Hin].
    + intros Hne Hnot. rewrite bool_decide_eq_false_2.
      * unfold m0. destruct isSelected;
          [by rewrite lookup_insert_ne | by rewrite lookup_delete_ne].
      * intros (g & Hg & Hid & Hu)%Hin. rewrite (Hnot g Hg Hid) in Hu. discriminate.
Qed.

Lemma handleRowSelection_folder_witness :
  let rowA := TreeItem.mk folderA false false [] 0 in
  let rowX := TreeItem.mk fileX false false [] 1 in
  let rowR := TreeItem.mk fileR false false [] 0 in
  ∃ selection,
    handleRowSelection (turnsFor [rowA; rowX; rowR] "fA") false None (initialWorld 0)
      [rowA; rowX; rowR] "fA" true (∅, ∅) = Some (selection, ∅)
    ∧ selection !! "fA" = Some true.
Proof.
  intros rowA rowX rowR.
  destruct (handleRowSelection_folder None (initialWorld 0) [rowA; rowX; rowR] rowA
              true ∅ ∅) as (selection & Hsel & Hlookup).
  - apply (bool_decide_unpack _). by vm_compute.
  - apply list_elem_of_In. simpl. by left.
  - reflexivity.
  - exists selection. split; [exact Hsel|].
    apply (proj1 (Hlookup "fA")). by left.
Defined.

Lemma handleSelectAll_fold hasKB kbId w rows :
  ∀ (m : RowSelection) (statusCache : StatusCache),
  let r :=
    fold_left (λ acc f,
      let '(newSelection, statusCache) := acc in
      let '(can, statusCache) := canSelectFile hasKB kbId w f statusCache in
      if can then (<[FileItem.id (TreeItem.item f) := true]> newSelection, statusCache)
      else (newSelection, statusCache)) rows (m, statusCache) in
  (∀ id, fst r !! id = m !! id
         ∨ (fst r !! id = Some true
            ∧ ∃ f, f ∈ rows ∧ rowId f = id
                   ∧ (hasKB = true → truthy kbId = true ∧ rowType f = file)))
  ∧ (hasKB = false →
     snd r = statusCache
     ∧ ∀ id, fst r !! id = if bool_decide (id ∈ (rowId <$> rows)) then Some true
                           else m !! id).
Proof.
  induction rows as [|f rows IH]; intros m statusCache; cbn [fold_left].
  - split; [by left|]. intros _. split; [reflexivity|]. intros id.
    rewrite bool_decide_eq_false_2; [done | by intros H; inversion H].
  - destruct (canSelectFile hasKB kbId w f statusCache) as [can cache1] eqn:Hcan.
    set (m1 := if can then <[FileItem.id (TreeItem.item f) := true]> m else m).
    assert (Hstep : (if can
                     then (<[FileItem.id (TreeItem.item f) := true]> m, cache1)
                     else (m, cache1)) = (m1, cache1)).
    { unfold m1. by destruct can. }
    rewrite Hstep. destruct (IH m1 cache1) as [Hany Hcreate]. split.
    + intros id. destruct (Hany id) as [Hsame|(Htrue & g & Hg & Hid & Hmode)].
      * rewrite Hsame. unfold m1. destruct can; [|by left].
        destruct (decide (rowId f = id)) as [Heq|Hne].
        -- right. unfold rowId in Heq. rewrite Heq, lookup_insert_eq.
           split; [reflexivity|]. exists f. split; [by left|].
           split; [exact Heq|]. intros ->.
           destruct (truthy kbId) eqn:Hk;
             [|by rewrite canSelectFile_no_kb in Hcan].
           split; [reflexivity|]. unfold rowType.
           destruct (FileItem.type (TreeItem.item f)) eqn:Hty; [reflexivity|].
           by rewrite canSelectFile_directory in Hcan.
        -- left. unfold rowId in Hne. by rewrite lookup_insert_ne.
      * right. split; [exact Htrue|]. exists g. split; [by right | done].
    + intros ->. rewrite canSelectFile_create in Hcan. injection Hcan as <- <-.
      destruct (Hcreate eq_refl) as [Hcache Hlookup]. split; [exact Hcache|].
      intros id. rewrite Hlookup, fmap_cons. unfold m1.
      case_bool_decide as Hin.
      * rewrite bool_decide_eq_true_2; [done | by right].
      * destruct (decide (rowId f = id)) as [Heq|Hne].
        -- subst id. rewrite bool_decide_eq_true_2 by (by left).
           unfold rowId. by rewrite lookup_insert_eq.
        -- rewrite bool_decide_eq_false_2
             by (intros [?|?]%elem_of_cons; done).
           unfold rowId in Hne. by rewrite lookup_insert_ne.
Qed.

(** X20. The other ways a selection changes.  Select-all starts from
    nothing: while no KB exists it selects exactly the visible rows;
    once a KB exists whatever it selects is a visible file, never a
    folder; and unselect-all leaves nothing selected.  A click on a row
    that the table does not hold changes nothing, and neither does a
    click that would select a row that cannot be selected, a folder in
    delete mode for one; unselecting a row takes its own id out. *)
Theorem selection_handlers hasKB kbId w fuel files rows fileId prev statusCache :
  handleSelectAll hasKB kbId w false rows statusCache = (∅, statusCache)
  ∧ (∀ id, fst (handleSelectAll hasKB kbId w true rows statusCache) !! id = Some true
           ∨ fst (handleSelectAll hasKB kbId w true rows statusCache) !! id = None)
  ∧ (hasKB = false →
     ∀ id, fst (handleSelectAll hasKB kbId w true rows statusCache) !! id
           = if bool_decide (id ∈ (rowId <$> rows)) then Some true else None)
  ∧ (hasKB = true →
     ∀ id, is_Some (fst (handleSelectAll hasKB kbId w true rows statusCache) !! id) →
           truthy kbId = true
           ∧ ∃ f, f ∈ rows ∧ rowId f = id ∧ rowType f = file)
  ∧ (findRow files fileId = None →
     ∀ isSelected,
       handleRowSelection fuel hasKB kbId w files fileId isSelected (prev, statusCache)
       = Some (prev, statusCache))
  ∧ (∀ f, findRow files fileId = Some f →
       (fst (canSelectFile hasKB kbId w f statusCache) = false →
        fst <$> handleRowSelection fuel hasKB kbId w files fileId true
                  (prev, statusCache) = Some prev)
       ∧ (hasKB = true ∨ rowType f = file →
          handleRowSelection fuel hasKB kbId w files fileId false (prev, statusCache)
          = Some (delete fileId prev, statusCache))).
Proof.
  split; [reflexivity|].
  destruct (handleSelectAll_fold hasKB kbId w rows ∅ statusCache) as [Hany Hcreate].
  unfold handleSelectAll. cbn [fst snd] in *.
  split; [|split; [|split; [|split]]].
  - intros id. destruct (Hany id) as [H|[H _]]; [right | left]; [|exact H].
    by rewrite H, lookup_empty.
  - intros Hmode id. destruct (Hcreate Hmode) as [_ H]. rewrite H.
    by rewrite lookup_empty.
  - intros Hmode id [b Hb].
    destruct (Hany id) as [H|(_ & f & Hf & Hid & Hrest)].
    + rewrite H, lookup_empty in Hb. discriminate.
    + destruct (Hrest Hmode) as [Hk Hty]. split; [exact Hk|]. by exists f.
  - intros Hnone isSelected. unfold handleRowSelection. by rewrite Hnone.
  - intros f Hfound. unfold handleRowSelection. rewrite Hfound. split.
    + intros Hcan.
      destruct (canSelectFile hasKB kbId w f statusCache) as [can cache1].
      simpl in Hcan. subst can. reflexivity.
    + intros Hmode. cbn [andb].
      assert (Hbranch : bool_decide (FileItem.type (TreeItem.item f) = directory)
                        && negb hasKB = false).
      { destruct Hmode as [->|Hfile]; [apply andb_false_r|].
        unfold rowType in Hfile. rewrite bool_decide_eq_false_2; [done|].
        rewrite Hfile. discriminate. }
      by rewrite Hbranch.
Qed.

(** ** The memo of the resolver over many lookups *)

Lemma string_app_inj_l (a b c : string) : a +:+ b = a +:+ c → b = c.
Proof.
  induction a as [|x a IH]; [done|]. rewrite !string_app_cons.
  intros [= H]. by apply IH.
Qed.

Lemma barFree_split (a a' b b' : string) :
  barFree a = true → barFree a' = true →
  a +:+ String bar b = a' +:+ String bar b' → a = a' ∧ b = b'.
Proof.
  unfold barFree. revert a'.
  induction a as [|x a IH]; intros a' Ha Ha' H.
  - destruct a' as [|y a'].
    + change (String bar b = String bar b') in H. by injection H.
    + change (String bar b = String y (a' +:+ String bar b')) in H.
      injection H as <- _. unfold bar in Ha'. simpl in Ha'. discriminate.
  - destruct a' as [|y a'].
    + change (String x (a +:+ String bar b) = String bar b') in H.
      injection H as -> _. unfold bar in Ha. simpl in Ha. discriminate.
    + rewrite !string_app_cons in H. injection H as <- H.
      simpl in Ha, Ha'. apply negb_true_iff, orb_false_iff in Ha as [_ Ha].
      apply negb_true_iff, orb_false_iff in Ha' as [_ Ha'].
      destruct (IH a') as [-> ->]; [by rewrite Ha | by rewrite Ha' | exact H|].
      done.
Qed.

Lemma cacheKey_inj fileId fileId' kbId folderPath folderPath' :
  barFree fileId = true → barFree fileId' = true →
  cacheKey fileId kbId folderPath = cacheKey fileId' kbId folderPath' →
  fileId = fileId' ∧ orEmpty folderPath = orEmpty folderPath'.
Proof.
  intros Hf Hf' H. unfold cacheKey in H.
  change (fileId +:+ String bar (orEmpty kbId +:+ "|" +:+ orEmpty folderPath)
          = fileId' +:+ String bar (orEmpty kbId +:+ "|" +:+ orEmpty folderPath'))
    in H.
  apply barFree_split in H as [-> H]; [|done|done]. split; [done|].
  apply string_app_inj_l in H. by apply (string_app_inj_l "|") in H.
Qed.

Lemma truthy_by_orEmpty o : truthy o = negb (String.eqb (orEmpty o) EmptyString).
Proof. by destruct o. Qed.

Lemma computeFileStatus_path w fileId kbId folderPath folderPath' :
  orEmpty folderPath = orEmpty folderPath' →
  computeFileStatus w fileId kbId folderPath
  = computeFileStatus w fileId kbId folderPath'.
Proof.
  intros H. unfold computeFileStatus.
  by rewrite (truthy_by_orEmpty folderPath), (truthy_by_orEmpty folderPath'), H.
Qed.

Lemma memoSound_empty w kbId : memoSound w kbId ∅.
Proof. intros fileId folderPath v _ H. by rewrite lookup_empty in H. Qed.

Lemma resolveFileStatus_sound w kbId statusCache fileId folderPath :
  memoSound w kbId statusCache → barFree fileId = true →
  fst (resolveFileStatus w statusCache fileId kbId folderPath)
  = computeFileStatus w fileId kbId folderPath
  ∧ memoSound w kbId (snd (resolveFileStatus w statusCache fileId kbId folderPath)).
Proof.
  intros Hsound Hfree. unfold resolveFileStatus.
  destruct (statusCache !! cacheKey fileId kbId folderPath) as [v|] eqn:E; simpl.
  - split; [by apply Hsound | exact Hsound].
  - split; [reflexivity|]. intros fileId' folderPath' v Hfree' Hv.
    destruct (decide (cacheKey fileId kbId folderPath
                      = cacheKey fileId' kbId folderPath')) as [Heq|Hne].
    + rewrite Heq, lookup_insert_eq in Hv. injection Hv as <-.
      apply cacheKey_inj in Heq as [-> Hp]; [|done|done].
      by apply computeFileStatus_path.
    + rewrite lookup_insert_ne in Hv by exact Hne. by apply Hsound.
Qed.

Lemma canSelectFile_sound hasKB kbId w f statusCache :
  memoSound w kbId statusCache → barFree (rowId f) = true →
  memoSound w kbId (snd (canSelectFile hasKB kbId w f statusCache))
  ∧ fst (canSelectFile hasKB kbId w f statusCache)
    = (negb hasKB
       || (truthy kbId && bool_decide (rowType f = file)
           && selectableStatus (computeFileStatus w (rowId f) kbId (folderPathOf f)))).
Proof.
  intros Hsound Hfree. unfold canSelectFile.
  destruct hasKB; [|by split]. simpl.
  destruct (truthy kbId); [|by split]. simpl.
  unfold rowType. case_bool_decide as Hdir.
  - split; [exact Hsound|]. rewrite bool_decide_eq_false_2; [done|].
    rewrite Hdir. discriminate.
  - destruct (resolveFileStatus_sound w kbId statusCache (rowId f) (folderPathOf f)
                Hsound Hfree) as [Hval Hnext].
    unfold rowId in *.
    destruct (resolveFileStatus w statusCache _ kbId (folderPathOf f))
      as [resolved cache1]. simpl in *. subst resolved.
    split; [exact Hnext|]. rewrite bool_decide_eq_true_2; [done|].
    by destruct (FileItem.type (TreeItem.item f)).
Qed.

(** ** The selection, exactly *)

Lemma canSelectFile_selectable hasKB kbId w f statusCache :
  memoSound w kbId statusCache → barFree (rowId f) = true →
  memoSound w kbId (snd (canSelectFile hasKB kbId w f statusCache))
  ∧ fst (canSelectFile hasKB kbId w f statusCache) = selectable hasKB kbId w f.
Proof. apply canSelectFile_sound. Qed.

Lemma selectedFiles_sound hasKB kbId w rowSelection files : ∀ statusCache,
  memoSound w kbId statusCache →
  Forall (λ f, barFree (rowId f) = true) files →
  fst (selectedFiles hasKB kbId w rowSelection files statusCache)
  = List.filter (λ f,
      bool_decide (rowSelection !! rowId f = Some true)
      && selectable hasKB kbId w f) files
  ∧ memoSound w kbId (snd (selectedFiles hasKB kbId w rowSelection files statusCache)).
Proof.
  induction files as [|f files IH]; intros statusCache Hsound Hfree; [by split|].
  inversion Hfree as [|? ? Hf Hrest]; subst. cbn [selectedFiles List.filter].
  fold (rowId f). case_bool_decide as Hsel; [|by apply IH].
  destruct (canSelectFile_selectable hasKB kbId w f statusCache Hsound Hf)
    as [Hnext Hcan].
  destruct (canSelectFile hasKB kbId w f statusCache) as [can cache1].
  simpl in Hnext, Hcan. subst can.
  destruct (IH cache1 Hnext Hrest) as [Hmore Hlast].
  destruct (selectedFiles hasKB kbId w rowSelection files cache1) as [more cache2].
  simpl in *. subst more. split; [|exact Hlast].
  by destruct (selectable hasKB kbId w f).
Qed.

Lemma handleSelectAll_sound hasKB kbId w rows :
  ∀ (m : RowSelection) (statusCache : StatusCache),
  memoSound w kbId statusCache →
  Forall (λ f, barFree (rowId f) = true) rows →
  let r :=
    fold_left (λ acc f,
      let '(newSelection, statusCache) := acc in
      let '(can, statusCache) := canSelectFile hasKB kbId w f statusCache in
      if can then (<[FileItem.id (TreeItem.item f) := true]> newSelection, statusCache)
      else (newSelection, statusCache)) rows (m, statusCache) in
  memoSound w kbId (snd r)
  ∧ ∀ id, fst r !! id
          = if existsb (λ f, String.eqb (rowId f) id && selectable hasKB kbId w f) rows
            then Some true else m !! id.
Proof.
  induction rows as [|f rows IH]; intros m statusCache Hsound Hfree;
    cbn [fold_left existsb]; [by split|].
  inversion Hfree as [|? ? Hf Hrest]; subst.
  destruct (canSelectFile_selectable hasKB kbId w f statusCache Hsound Hf)
    as [Hnext Hcan].
  destruct (canSelectFile hasKB kbId w f statusCache) as [can cache1].
  simpl in Hnext, Hcan. subst can.
  set (m1 := if selectable hasKB kbId w f
             then <[FileItem.id (TreeItem.item f) := true]> m else m).
  assert (Hstep : (if selectable hasKB kbId w f
                   then (<[FileItem.id (TreeItem.item f) := true]> m, cache1)
                   else (m, cache1)) = (m1, cache1)).
  { unfold m1. by destruct (selectable hasKB kbId w f). }
  rewrite Hstep. destruct (IH m1 cache1 Hnext Hrest) as [Hlast Hlookup].
  split; [exact Hlast|]. intros id. rewrite Hlookup.
  destruct (existsb _ rows); [by rewrite orb_true_r|]. rewrite orb_false_r.
  unfold m1. destruct (selectable hasKB kbId w f); [|by rewrite andb_false_r].
  rewrite andb_true_r. destruct (String.eqb (rowId f) id) eqn:E.
  - apply String.eqb_eq in E. unfold rowId in E. by rewrite E, lookup_insert_eq.
  - apply String.eqb_neq in E. unfold rowId in E. by rewrite lookup_insert_ne.
Qed.

Lemma deselectStale_step kbId w files (m : RowSelection) (changed : bool)
    (statusCache : StatusCache) a :
  memoSound w kbId statusCache →
  Forall (λ f, barFree (rowId f) = true) files →
  ∃ cache1,
    deselectStale kbId w files (m, changed, statusCache) a
    = (if staleSelection kbId w files a then delete a m else m,
       changed || staleSelection kbId w files a, cache1)
    ∧ memoSound w kbId cache1.
Proof.
  intros Hsound Hfree. unfold deselectStale, staleSelection.
  destruct (findRow files a) as [f|] eqn:Hrow.
  - assert (Hf : barFree a = true).
    { destruct (findRow_Some _ _ _ Hrow) as [Hin Hid].
      rewrite Forall_forall in Hfree. rewrite <- Hid. by apply Hfree. }
    destruct (resolveFileStatus_sound w kbId statusCache a (folderPathOf f)
                Hsound Hf) as [Hval Hnext].
    destruct (resolveFileStatus w statusCache a kbId (folderPathOf f))
      as [resolved cache1]. simpl in Hval, Hnext. subst resolved.
    exists cache1. split; [|exact Hnext].
    destruct (selectableStatus _); simpl; [by rewrite orb_false_r|].
    by rewrite orb_true_r.
  - exists statusCache. split; [|exact Hsound]. by rewrite orb_false_r.
Qed.

Lemma deselectStale_sound kbId w files keys :
  ∀ (m : RowSelection) (changed : bool) (statusCache : StatusCache),
  memoSound w kbId statusCache →
  Forall (λ f, barFree (rowId f) = true) files →
  let r := fold_left (deselectStale kbId w files) keys (m, changed, statusCache) in
  memoSound w kbId (snd r)
  ∧ (∀ id, fst (fst r) !! id
           = if bool_decide (id ∈ keys) && staleSelection kbId w files id
             then None else m !! id)
  ∧ snd (fst r) = changed || existsb (staleSelection kbId w files) keys.
Proof.
  induction keys as [|a keys IH]; intros m changed statusCache Hsound Hfree;
    cbn [fold_left existsb].
  - split; [exact Hsound|]. split; [|by rewrite orb_false_r].
    intros id. rewrite bool_decide_eq_false_2; [done | by intros H; inversion H].
  - destruct (deselectStale_step kbId w files m changed statusCache a Hsound Hfree)
      as (cache1 & -> & Hnext).
    destruct (IH (if staleSelection kbId w files a then delete a m else m)
                (changed || staleSelection kbId w files a) cache1 Hnext Hfree)
      as (Hlast & Hlookup & Hchanged).
    split; [exact Hlast|]. split; [|by rewrite Hchanged, orb_assoc].
    intros id. rewrite Hlookup.
    destruct (decide (id = a)) as [->|Hne].
    + rewrite (bool_decide_eq_true_2 (a ∈ a :: keys)) by (by left).
      destruct (staleSelection kbId w files a).
      * rewrite andb_true_r, lookup_delete_eq. by case_bool_decide.
      * by rewrite !andb_false_r.
    + assert (Hmem : bool_decide (id ∈ a :: keys) = bool_decide (id ∈ keys)).
      { apply bool_decide_ext. rewrite elem_of_cons.
        split; [by intros [?|?] | by right]. }
      rewrite Hmem. destruct (_ && _); [reflexivity|].
      destruct (staleSelection kbId w files a); [|reflexivity].
      by rewrite lookup_delete_ne.
Qed.

(** X21. The selection, exactly, when the memo of the resolver holds
    nothing stale and no row id holds a bar.  The selected files are the
    rows that are selected and that can be selected, going by what the
    resolver computes; select-all selects exactly the ids of the visible
    rows that can be selected; and the effect that follows a change of
    the statuses takes out of the selection exactly the ids of rows that
    no longer resolve to indexed, error or failed, and keeps the ids of
    rows that the table does not hold.  While no KB exists, or without a
    kbId, the effect changes nothing.  The memo stays free of stale
    values throughout. *)
Theorem selection_exact hasKB kbId w rowSelection files rows keys statusCache :
  memoSound w kbId statusCache →
  Forall (λ f, barFree (rowId f) = true) files →
  Forall (λ f, barFree (rowId f) = true) rows →
  let selected := selectedFiles hasKB kbId w rowSelection files statusCache in
  let all := handleSelectAll hasKB kbId w true rows statusCache in
  let kept := autoDeselect hasKB kbId w files keys (rowSelection, statusCache) in
  fst selected
  = List.filter (λ f,
      bool_decide (rowSelection !! rowId f = Some true)
      && selectable hasKB kbId w f) files
  ∧ (∀ id, fst all !! id
           = if existsb (λ f, String.eqb (rowId f) id && selectable hasKB kbId w f)
                  rows
             then Some true else None)
  ∧ (hasKB = false ∨ truthy kbId = false → kept = (rowSelection, statusCache))
  ∧ (hasKB = true → truthy kbId = true →
     ∀ id, fst kept !! id
           = if bool_decide (id ∈ keys) && staleSelection kbId w files id
             then None else rowSelection !! id)
  ∧ memoSound w kbId (snd selected)
  ∧ memoSound w kbId (snd all)
  ∧ memoSound w kbId (snd kept).
Proof.
  intros Hsound Hfiles Hrows selected all kept.
  destruct (selectedFiles_sound hasKB kbId w rowSelection files statusCache
              Hsound Hfiles) as [Hsel Hsel'].
  destruct (handleSelectAll_sound hasKB kbId w rows ∅ statusCache Hsound Hrows)
    as [Hall' Hall].
  destruct (deselectStale_sound kbId w files keys rowSelection false statusCache
              Hsound Hfiles) as (Hkept' & Hkept & Hchanged).
  assert (Hidle : hasKB = false ∨ truthy kbId = false →
                  kept = (rowSelection, statusCache)).
  { unfold kept, autoDeselect. intros [-> | ->]; [done|]. by rewrite orb_true_r. }
  split; [exact Hsel|]. split.
  { intros id. unfold all, handleSelectAll. rewrite Hall. by rewrite lookup_empty. }
  split; [exact Hidle|]. split; [|split; [exact Hsel'|split; [exact Hall'|]]].
  - intros -> Hk id. unfold kept, autoDeselect. rewrite Hk. cbn [negb orb].
    destruct (fold_left (deselectStale kbId w files) keys
                (rowSelection, false, statusCache)) as [[newSelection changed] cache1].
    cbn [fst snd] in *. destruct changed; [apply Hkept|].
    symmetry in Hchanged. cbn [orb] in Hchanged.
    destruct (bool_decide (id ∈ keys)) eqn:Hin; [|reflexivity].
    destruct (staleSelection kbId w files id) eqn:Hstale; [|reflexivity].
    exfalso. apply bool_decide_eq_true_1 in Hin.
    assert (Hex : existsb (staleSelection kbId w files) keys = true).
    { apply existsb_exists. exists id. split; [by apply list_elem_of_In | done]. }
    congruence.
  - destruct (decide (hasKB = false ∨ truthy kbId = false)) as [Hi|Hn].
    + by rewrite (Hidle Hi).
    + unfold kept, autoDeselect.
      destruct hasKB; [|exfalso; apply Hn; by left].
      destruct (truthy kbId); [|exfalso; apply Hn; by right]. cbn [negb orb].
      destruct (fold_left (deselectStale kbId w files) keys
                  (rowSelection, false, statusCache))
        as [[newSelection changed] cache1].
      exact Hkept'.
Qed.

Lemma selection_exact_witness :
  let rowX := TreeItem.mk fileX false false [] 1 in
  let rowR := TreeItem.mk fileR false false [] 0 in
  fst (selectedFiles true (Some "kb-9") afterSuccess {["r1" := true; "x1" := true]}
         [rowX; rowR] ∅)
  = List.filter (λ f,
      bool_decide (({["r1" := true; "x1" := true]} : RowSelection) !! rowId f
                   = Some true)
      && selectable true (Some "kb-9") afterSuccess f) [rowX; rowR].
Proof.
  intros rowX rowR.
  destruct (selection_exact true (Some "kb-9") afterSuccess
              {["r1" := true; "x1" := true]} [rowX; rowR] [rowX; rowR] ["r1"] ∅)
    as (H & _).
  - apply memoSound_empty.
  - by repeat constructor.
  - by repeat constructor.
  - exact H.
Defined.

(** * The file tree *)

Lemma TreeItem_ind' (P : TreeItem.t → Prop) :
  (∀ item isExpanded isLoading children level,
     Forall P children → P (TreeItem.mk item isExpanded isLoading children level)) →
  ∀ t, P t.
Proof.
  intros H. fix IH 1. intros [item isExpanded isLoading children level].
  apply H. induction children as [|c cs IHcs]; constructor; [apply IH | exact IHcs].
Qed.

Lemma buildFileTree_nil fuel kbId expanded loading w level parentPath statusCache :
  buildFileTree (S fuel) kbId expanded loading w [] level parentPath statusCache
  = Some ([], statusCache).
Proof. reflexivity. Qed.

Lemma buildFileTree_cons fuel kbId expanded loading w f rest level parentPath
    statusCache :
  buildFileTree (S fuel) kbId expanded loading w (f :: rest) level parentPath
    statusCache
  = match
      (if opensFolder expanded loading f then
         match driveFiles w !! FileItem.id f with
         | Some data =>
             buildFileTree fuel kbId expanded loading w data (S level)
               (if truthy (Some parentPath)
                then parentPath +:+ "/" +:+ lastSegment (FileItem.name f)
                else lastSegment (FileItem.name f)) statusCache
         | None => Some ([], statusCache)
         end
       else Some ([], statusCache))
    with
    | None => None
    | Some (children, cache1) =>
        let r := resolveFileStatus w cache1 (FileItem.id f) (orNull kbId)
                   (Some (rowPath level (FileItem.name f))) in
        match buildFileTree (S fuel) kbId expanded loading w rest level parentPath
                (snd r) with
        | None => None
        | Some (more, cache3) =>
            Some (TreeItem.mk (withStatus (finalStatus (fst r)) f)
                    (bool_decide (FileItem.id f ∈ expanded))
                    (bool_decide (FileItem.id f ∈ loading)) children level :: more,
                  cache3)
        end
    end.
Proof.
  cbn [buildFileTree]. unfold opensFolder, rowPath.
  destruct (if _ && _ && _ then _ else _) as [[children cache1]|]; [|reflexivity].
  by destruct (resolveFileStatus w cache1 _ _ _).
Qed.

Lemma finalStatus_not_dash resolved : finalStatus resolved ≠ Some "-".
Proof.
  destruct resolved as [s| |]; simpl; [|done|done].
  destruct (String.eqb s "-") eqn:E; [done|].
  apply String.eqb_neq in E. congruence.
Qed.

(** The builder returns when the folders it goes into nest to a finite
    depth. *)
Lemma buildFileTree_returns depth kbId expanded loading w :
  nestsBy depth expanded loading w →
  ∀ fuel files level parentPath statusCache,
    (∀ f, f ∈ files → (depth (FileItem.id f) < fuel)%nat) →
    is_Some (buildFileTree (S fuel) kbId expanded loading w files level parentPath
               statusCache).
Proof.
  intros Hnest. induction fuel as [|fuel IH];
    intros files level parentPath statusCache Hdepth.
  - destruct files as [|f files]; [by eexists|].
    specialize (Hdepth f (list_elem_of_here _ _)). lia.
  - revert statusCache. induction files as [|f files IHfiles]; intros statusCache;
      [by eexists|].
    rewrite buildFileTree_cons.
    assert (Hchildren : is_Some
      (if opensFolder expanded loading f then
         match driveFiles w !! FileItem.id f with
         | Some data =>
             buildFileTree (S fuel) kbId expanded loading w data (S level)
               (if truthy (Some parentPath)
                then parentPath +:+ "/" +:+ lastSegment (FileItem.name f)
                else lastSegment (FileItem.name f)) statusCache
         | None => Some ([], statusCache)
         end
       else Some ([], statusCache))).
    { destruct (opensFolder expanded loading f) eqn:Hopen; [|by eexists].
      destruct (driveFiles w !! FileItem.id f) as [data|] eqn:Hdata; [|by eexists].
      apply IH. intros c Hc.
      pose proof (Hnest f data c Hopen Hdata Hc).
      pose proof (Hdepth f (list_elem_of_here _ _)). lia. }
    destruct Hchildren as [[children cache1] ->]. cbv zeta.
    destruct (IHfiles (λ g Hg, Hdepth g (list_elem_of_further _ _ _ Hg))
                (snd (resolveFileStatus w cache1 (FileItem.id f) (orNull kbId)
                        (Some (rowPath level (FileItem.name f))))))
      as [[more cache3] ->].
    by eexists.
Qed.

(** More fuel does not change what the builder returns. *)
Lemma buildFileTree_more_fuel kbId expanded loading w :
  ∀ fuel files level parentPath statusCache result,
    buildFileTree fuel kbId expanded loading w files level parentPath statusCache
    = Some result →
    buildFileTree (S fuel) kbId expanded loading w files level parentPath statusCache
    = Some result.
Proof.
  induction fuel as [|fuel IH]; [discriminate|].
  induction files as [|f files IHfiles];
    intros level parentPath statusCache result; [done|].
  rewrite !buildFileTree_cons.
  destruct (opensFolder expanded loading f); [|].
  - destruct (driveFiles w !! FileItem.id f) as [data|].
    + destruct (buildFileTree fuel kbId expanded loading w data (S level) _
                  statusCache) as [[children cache1]|] eqn:Hc; [|discriminate].
      rewrite (IH _ _ _ _ _ Hc). cbv zeta.
      destruct (buildFileTree (S fuel) kbId expanded loading w files level
                  parentPath _) as [[more cache3]|] eqn:Hm; [|discriminate].
      by rewrite (IHfiles _ _ _ _ Hm).
    + cbv zeta.
      destruct (buildFileTree (S fuel) kbId expanded loading w files level
                  parentPath _) as [[more cache3]|] eqn:Hm; [|discriminate].
      by rewrite (IHfiles _ _ _ _ Hm).
  - cbv zeta.
    destruct (buildFileTree (S fuel) kbId expanded loading w files level
                parentPath _) as [[more cache3]|] eqn:Hm; [|discriminate].
    by rewrite (IHfiles _ _ _ _ Hm).
Qed.

(** ** The rows that the builder makes *)

Lemma flattenTree_cons row more :
  flattenTree (row :: more)
  = row :: (flattenTree (TreeItem.children row) ++ flattenTree more)%list.
Proof. unfold flattenTree. simpl. by destruct row. Qed.

Lemma buildFileTree_rows kbId expanded loading w :
  ∀ fuel files level parentPath statusCache tree cache',
    memoSound w (orNull kbId) statusCache →
    listingsBarFree w files →
    buildFileTree fuel kbId expanded loading w files level parentPath statusCache
    = Some (tree, cache') →
    memoSound w (orNull kbId) cache'
    ∧ rowId <$> tree = FileItem.id <$> files
    ∧ Forall (λ row, TreeItem.level row = level) tree
    ∧ Forall (wellBuilt kbId expanded loading w) (flattenTree tree).
Proof.
  induction fuel as [|fuel IH]; [discriminate|].
  induction files as [|f files IHfiles];
    intros level parentPath statusCache tree cache' Hsound [Hfree Hcached] Hbuilt.
  { rewrite buildFileTree_nil in Hbuilt. injection Hbuilt as <- <-.
    repeat split; [exact Hsound | constructor | constructor]. }
  inversion Hfree as [|? ? Hf Hrest]; subst.
  rewrite buildFileTree_cons in Hbuilt.
  set (built := if opensFolder expanded loading f then _ else _) in Hbuilt.
  destruct built as [[children cache1]|] eqn:Hchildren; [|discriminate].
  assert (Hc : memoSound w (orNull kbId) cache1
               ∧ Forall (λ row, TreeItem.level row = S level) children
               ∧ Forall (wellBuilt kbId expanded loading w) (flattenTree children)
               ∧ (children ≠ [] →
                  opensFolder expanded loading f = true
                  ∧ ∃ data, driveFiles w !! FileItem.id f = Some data
                            ∧ rowId <$> children = FileItem.id <$> data)).
  { subst built. destruct (opensFolder expanded loading f) eqn:Hopen.
    - destruct (driveFiles w !! FileItem.id f) as [data|] eqn:Hdata.
      + destruct (IH data (S level) _ statusCache children cache1 Hsound
                    (conj (Hcached _ _ Hdata) Hcached) Hchildren)
          as (H1 & H2 & H3 & H4).
        repeat split; try done. by exists data.
      + injection Hchildren as <- <-. repeat split; try done; constructor.
    - injection Hchildren as <- <-. repeat split; try done; constructor. }
  destruct Hc as (Hsound1 & Hlevels & Hwell & Hopen).
  cbv zeta in Hbuilt.
  destruct (resolveFileStatus_sound w (orNull kbId) cache1 (FileItem.id f)
              (Some (rowPath level (FileItem.name f))) Hsound1 Hf) as [Hval Hsound2].
  destruct (buildFileTree (S fuel) kbId expanded loading w files level parentPath _)
    as [[more cache3]|] eqn:Hmore; [|discriminate].
  injection Hbuilt as <- <-.
  destruct (IHfiles level parentPath _ more cache3 Hsound2 (conj Hrest Hcached) Hmore)
    as (Hsound3 & Hids & Hlevel & Hwellmore).
  split; [exact Hsound3|]. split; [by rewrite !fmap_cons, Hids|].
  split; [by constructor|].
  rewrite flattenTree_cons. constructor; [|by apply Forall_app].
  unfold wellBuilt, rowId, rowName, rowType. cbn [TreeItem.item TreeItem.level
    TreeItem.isExpanded TreeItem.isLoading TreeItem.children withStatus
    FileItem.status FileItem.id FileItem.name FileItem.type].
  rewrite Hval. split; [reflexivity|]. split; [apply finalStatus_not_dash|].
  split; [reflexivity|]. split; [reflexivity|]. split; [|exact Hlevels].
  intros Hne. destruct (Hopen Hne) as [Ho Hdata].
  unfold opensFolder in Ho.
  apply andb_true_iff in Ho as [[Hd He]%andb_true_iff Hl].
  apply bool_decide_eq_true_1 in Hd, He.
  apply negb_true_iff, bool_decide_eq_false_1 in Hl. done.
Qed.

Lemma buildFileTree_fuel_le kbId expanded loading w fuel fuel' files level
    parentPath statusCache result :
  (fuel ≤ fuel')%nat →
  buildFileTree fuel kbId expanded loading w files level parentPath statusCache
  = Some result →
  buildFileTree fuel' kbId expanded loading w files level parentPath statusCache
  = Some result.
Proof.
  induction 1 as [|fuel' _ IH]; [done|]. intros H.
  by apply buildFileTree_more_fuel, IH.
Qed.

(** With enough levels allowed the builder returns, and what it returns
    has the rows of [buildFileTree_rows]. *)
Lemma buildFileTree_within depth kbId expanded loading w files level parentPath
    statusCache :
  nestsBy depth expanded loading w →
  memoSound w (orNull kbId) statusCache →
  listingsBarFree w files →
  ∃ fuel tree cache',
    (∀ fuel', (fuel ≤ fuel')%nat →
       buildFileTree fuel' kbId expanded loading w files level parentPath statusCache
       = Some (tree, cache'))
    ∧ memoSound w (orNull kbId) cache'
    ∧ rowId <$> tree = FileItem.id <$> files
    ∧ Forall (λ row, TreeItem.level row = level) tree
    ∧ Forall (wellBuilt kbId expanded loading w) (flattenTree tree).
Proof.
  intros Hnest Hsound Hfree.
  set (bound := foldr (λ f acc, Nat.max (S (depth (FileItem.id f))) acc) O files).
  assert (Hbound : ∀ f, f ∈ files → (depth (FileItem.id f) < bound)%nat).
  { unfold bound. clear. induction files as [|g files IH]; intros f Hin;
      [by inversion Hin|].
    simpl. apply elem_of_cons in Hin as [->|Hin]; [lia|].
    specialize (IH f Hin). lia. }
  destruct (buildFileTree_returns depth kbId expanded loading w Hnest bound files
              level parentPath statusCache Hbound) as [[tree cache'] Hbuilt].
  exists (S bound), tree, cache'. split.
  - intros fuel' Hle. by eapply buildFileTree_fuel_le.
  - by eapply buildFileTree_rows.
Qed.

(** X22. The tree of a listing.  When the folders that the builder goes
    into nest to a finite depth, [buildFileTree] returns, and returns
    the same with any greater allowance of levels: one row per record of
    the listing, in its order and at the level asked for.  With a memo
    that holds nothing stale, every row of the tree, at any depth, shows
    the status that the resolver computes for it under the root path at
    level 0 and under the folder path of its name below, and never the
    dash of a deleted file; it has rows under it only if it is a folder
    that is expanded, not loading, and whose listing is cached, and
    these rows are one level deeper.  The memo is left without stale
    values. *)
Theorem buildFileTree_builds depth kbId expanded loading w files level parentPath
    statusCache :
  nestsBy depth expanded loading w →
  memoSound w (orNull kbId) statusCache →
  listingsBarFree w files →
  ∃ fuel tree cache',
    (∀ fuel', (fuel ≤ fuel')%nat →
       buildFileTree fuel' kbId expanded loading w files level parentPath statusCache
       = Some (tree, cache'))
    ∧ memoSound w (orNull kbId) cache'
    ∧ rowId <$> tree = FileItem.id <$> files
    ∧ Forall (λ row, TreeItem.level row = level) tree
    ∧ Forall (wellBuilt kbId expanded loading w) (flattenTree tree).
Proof.
  intros Hnest Hsound Hfree.
  destruct (buildFileTree_within depth kbId expanded loading w files level
              parentPath statusCache Hnest Hsound Hfree)
    as (fuel & tree & cache' & Hbuilt & Hrows).
  exists fuel, tree, cache'. by split.
Qed.

Lemma buildFileTree_builds_witness :
  ∃ fuel tree cache',
    buildFileTree fuel (Some "kb-9") {["fA"]} ∅ exampleWorld [folderA; fileR] 0
      EmptyString ∅ = Some (tree, cache')
    ∧ rowId <$> tree = ["fA"; "r1"].
Proof.
  destruct (buildFileTree_builds
              (λ id, if String.eqb id "fA" then 1%nat else 0%nat)
              (Some "kb-9") {["fA"]} ∅ exampleWorld [folderA; fileR] 0 EmptyString ∅)
    as (fuel & tree & cache' & Hbuilt & _ & Hids & _).
  - intros f data c Hopen Hdata Hc. unfold opensFolder in Hopen.
    apply andb_true_iff in Hopen as [[_ He]%andb_true_iff _].
    apply bool_decide_eq_true_1, elem_of_singleton in He.
    rewrite He in Hdata |- *.
    change (driveFiles exampleWorld)
      with ({["fA" := [fileX; folderB]]} : gmap string (list FileItem.t)) in Hdata.
    apply lookup_singleton_Some in Hdata as [_ <-].
    apply list_elem_of_In in Hc. simpl in Hc.
    destruct Hc as [<-|[<-|[]]]; simpl; lia.
  - apply memoSound_empty.
  - split; [by repeat constructor|]. intros folderId data Hdata.
    change (driveFiles exampleWorld)
      with ({["fA" := [fileX; folderB]]} : gmap string (list FileItem.t)) in Hdata.
    apply lookup_singleton_Some in Hdata as [_ <-]. by repeat constructor.
  - exists fuel, tree, cache'. split; [by apply Hbuilt | exact Hids].
Defined.

(** ** The flat list of the table *)

Lemma flattenItem_unfold row :
  flattenItem row = row :: flattenTree (TreeItem.children row).
Proof. by destruct row. Qed.

Lemma flattenTree_app t1 t2 :
  flattenTree (t1 ++ t2) = (flattenTree t1 ++ flattenTree t2)%list.
Proof. unfold flattenTree. apply flat_map_app. Qed.

Lemma wellBuilt_shaped kbId expanded loading w row :
  wellBuilt kbId expanded loading w row → wellShaped expanded loading w row.
Proof. by intros (_ & H). Qed.

(** The shape of what the builder returns, whatever the memo holds *)
Lemma buildFileTree_shape kbId expanded loading w :
  ∀ fuel files level parentPath statusCache tree cache',
    buildFileTree fuel kbId expanded loading w files level parentPath statusCache
    = Some (tree, cache') →
    rowId <$> tree = FileItem.id <$> files
    ∧ Forall (λ row, TreeItem.level row = level) tree
    ∧ Forall (wellShaped expanded loading w) (flattenTree tree).
Proof.
  induction fuel as [|fuel IH]; [discriminate|].
  induction files as [|f files IHfiles];
    intros level parentPath statusCache tree cache' Hbuilt.
  { rewrite buildFileTree_nil in Hbuilt. injection Hbuilt as <- <-.
    repeat split; constructor. }
  rewrite buildFileTree_cons in Hbuilt.
  set (built := if opensFolder expanded loading f then _ else _) in Hbuilt.
  destruct built as [[children cache1]|] eqn:Hchildren; [|discriminate].
  assert (Hc : Forall (λ row, TreeItem.level row = S level) children
               ∧ Forall (wellShaped expanded loading w) (flattenTree children)
               ∧ (children ≠ [] →
                  opensFolder expanded loading f = true
                  ∧ ∃ data, driveFiles w !! FileItem.id f = Some data
                            ∧ rowId <$> children = FileItem.id <$> data)).
  { subst built. destruct (opensFolder expanded loading f) eqn:Hopen.
    - destruct (driveFiles w !! FileItem.id f) as [data|] eqn:Hdata.
      + destruct (IH data (S level) _ statusCache children cache1 Hchildren)
          as (H2 & H3 & H4).
        repeat split; try done. by exists data.
      + injection Hchildren as <- <-. repeat split; try done; constructor.
    - injection Hchildren as <- <-. repeat split; try done; constructor. }
  destruct Hc as (Hlevels & Hwell & Hopen).
  cbv zeta in Hbuilt.
  destruct (resolveFileStatus w cache1 (FileItem.id f) (orNull kbId)
              (Some (rowPath level (FileItem.name f)))) as [resolved cache2].
  cbn [fst snd] in Hbuilt.
  destruct (buildFileTree (S fuel) kbId expanded loading w files level parentPath _)
    as [[more cache3]|] eqn:Hmore; [|discriminate].
  injection Hbuilt as <- <-.
  destruct (IHfiles level parentPath _ more cache3 Hmore)
    as (Hids & Hlevel & Hwellmore).
  split; [by rewrite !fmap_cons, Hids|].
  split; [by constructor|].
  rewrite flattenTree_cons. constructor; [|by apply Forall_app].
  unfold wellShaped, rowId, rowName, rowType. cbn [TreeItem.item TreeItem.level
    TreeItem.isExpanded TreeItem.isLoading TreeItem.children withStatus
    FileItem.status FileItem.id FileItem.name FileItem.type].
  split; [apply finalStatus_not_dash|].
  split; [reflexivity|]. split; [reflexivity|]. split; [|exact Hlevels].
  intros Hne. destruct (Hopen Hne) as [Ho Hdata].
  unfold opensFolder in Ho.
  apply andb_true_iff in Ho as [[Hd He]%andb_true_iff Hl].
  apply bool_decide_eq_true_1 in Hd, He.
  apply negb_true_iff, bool_decide_eq_false_1 in Hl. done.
Qed.

(** With enough levels allowed the builder returns a tree of that
    shape. *)
Lemma buildFileTree_shaped depth kbId expanded loading w files level parentPath
    statusCache :
  nestsBy depth expanded loading w →
  ∃ fuel tree cache',
    (∀ fuel', (fuel ≤ fuel')%nat →
       buildFileTree fuel' kbId expanded loading w files level parentPath statusCache
       = Some (tree, cache'))
    ∧ rowId <$> tree = FileItem.id <$> files
    ∧ Forall (λ row, TreeItem.level row = level) tree
    ∧ Forall (wellShaped expanded loading w) (flattenTree tree).
Proof.
  intros Hnest.
  set (bound := foldr (λ f acc, Nat.max (S (depth (FileItem.id f))) acc) O files).
  assert (Hbound : ∀ f, f ∈ files → (depth (FileItem.id f) < bound)%nat).
  { unfold bound. clear. induction files as [|g files IH]; intros f Hin;
      [by inversion Hin|].
    simpl. apply elem_of_cons in Hin as [->|Hin]; [lia|].
    specialize (IH f Hin). lia. }
  destruct (buildFileTree_returns depth kbId expanded loading w Hnest bound files
              level parentPath statusCache Hbound) as [[tree cache'] Hbuilt].
  exists (S bound), tree, cache'. split.
  - intros fuel' Hle. by eapply buildFileTree_fuel_le.
  - by eapply buildFileTree_shape.
Qed.

(** Below a row that the builder made, every row is deeper than it. *)
Lemma below_deeper expanded loading w : ∀ row,
  Forall (wellShaped expanded loading w) (flattenItem row) →
  Forall (λ r, (TreeItem.level row < TreeItem.level r)%nat)
    (flattenTree (TreeItem.children row)).
Proof.
  induction row as [item isExpanded isLoading children level IH] using TreeItem_ind'.
  rewrite flattenItem_unfold. cbn [TreeItem.children TreeItem.level].
  intros Hall. inversion Hall as [|? ? Hrow Hbelow]; subst.
  destruct Hrow as (_ & _ & _ & _ & Hlevels). cbn in Hlevels.
  clear Hall. induction children as [|c children IHc]; [constructor|].
  rewrite flattenTree_cons in Hbelow |- *.
  inversion IH as [|? ? IHhead IHrest]; subst.
  inversion Hlevels as [|? ? Hc Hcs]; subst.
  inversion Hbelow as [|? ? Hwc Hbelow']; subst.
  apply Forall_app in Hbelow' as [Hunder Hothers].
  constructor; [lia|]. apply Forall_app. split.
  - assert (Hsub : Forall (wellShaped expanded loading w) (flattenItem c)).
    { rewrite flattenItem_unfold. by constructor. }
    eapply Forall_impl; [exact (IHhead Hsub)|]. simpl. intros r Hr. lia.
  - by apply IHc.
Qed.

Lemma level0_rows expanded loading w tree :
  Forall (λ row, TreeItem.level row = O) tree →
  Forall (wellShaped expanded loading w) (flattenTree tree) →
  List.filter (λ r, bool_decide (TreeItem.level r = O)) (flattenTree tree) = tree.
Proof.
  induction tree as [|row tree IH]; intros Hlevel Hwell; [reflexivity|].
  inversion Hlevel as [|? ? Hrow Hrest]; subst.
  rewrite flattenTree_cons in Hwell |- *.
  inversion Hwell as [|? ? Hw Hbelow]; subst.
  pose proof Hbelow as [Hunder Hothers]%Forall_app.
  cbn [List.filter]. rewrite bool_decide_eq_true_2 by exact Hrow.
  rewrite List.filter_app, (IH Hrest Hothers).
  assert (Hsub : Forall (wellShaped expanded loading w) (flattenItem row)).
  { rewrite flattenItem_unfold. by constructor. }
  pose proof (below_deeper expanded loading w row Hsub) as Hdeeper.
  assert (Hnone : List.filter (λ r, bool_decide (TreeItem.level r = O))
                    (flattenTree (TreeItem.children row)) = []).
  { clear -Hdeeper. induction Hdeeper as [|r rs Hr _ IHr]; [reflexivity|].
    cbn [List.filter]. rewrite bool_decide_eq_false_2 by lia. exact IHr. }
  by rewrite Hnone.
Qed.

Lemma flat_without_children tree :
  Forall (λ row, TreeItem.children row = []) tree → flattenTree tree = tree.
Proof.
  induction 1 as [|row tree Hrow _ IH]; [reflexivity|].
  by rewrite flattenTree_cons, Hrow, IH.
Qed.

Lemma nests_collapsed w : nestsBy (λ _, O) ∅ ∅ w.
Proof.
  intros f data' c Hopen. unfold opensFolder in Hopen.
  apply andb_true_iff in Hopen as [[_ He]%andb_true_iff _].
  apply bool_decide_eq_true_1 in He. by apply elem_of_empty in He.
Qed.

(** X23. The flat list that the table shows.  When the expanded folders
    nest to a finite depth the list is produced, whatever the memo of
    the resolver holds; its rows of level 0 are the records of the root
    listing, one each and in its order, and every row of it has the
    shape in which the builder leaves rows: no dash as status, rows
    under it only if it is a folder that is expanded, not loading and
    whose listing is cached, these rows one level deeper.  With a memo
    that holds nothing stale and ids that hold no bar, every row also
    shows the status that the resolver computes for it.  After
    [collapseAllFolders] the list is made in one level of the builder
    and holds the root listing alone, every row at level 0.  While the
    root listing is not there the list is empty. *)
Theorem flatFiles_rows depth kbId ts w statusCache :
  let root := default [] (driveFiles w !! "root") in
  nestsBy depth (expandedFolders ts) (loadingFolders ts) w →
  ∃ fuel rows collapsed,
    (∀ fuel', (fuel ≤ fuel')%nat → flatFiles fuel' kbId ts w statusCache = Some rows)
    ∧ rowId <$> List.filter (λ r, bool_decide (TreeItem.level r = O)) rows
      = FileItem.id <$> root
    ∧ Forall (wellShaped (expandedFolders ts) (loadingFolders ts) w) rows
    ∧ (memoSound w (orNull kbId) statusCache → listingsBarFree w root →
       Forall (wellBuilt kbId (expandedFolders ts) (loadingFolders ts) w) rows)
    ∧ (driveFiles w !! "root" = None → rows = [])
    ∧ flatFiles 1 kbId (collapseAllFolders ts) w statusCache = Some collapsed
    ∧ rowId <$> collapsed = FileItem.id <$> root
    ∧ Forall (λ r, TreeItem.level r = O) collapsed.
Proof.
  intros root Hnest. unfold flatFiles, fileTree.
  assert (Hcollapsed : ∃ collapsed,
    (λ r : list TreeItem.t * StatusCache, flattenTree (fst r)) <$>
      match driveFiles w !! "root" with
      | Some data =>
          buildFileTree 1 kbId (expandedFolders (collapseAllFolders ts))
            (loadingFolders (collapseAllFolders ts)) w data O EmptyString statusCache
      | None => Some ([], statusCache)
      end = Some collapsed
    ∧ rowId <$> collapsed = FileItem.id <$> root
    ∧ Forall (λ r, TreeItem.level r = O) collapsed).
  { unfold root. destruct (driveFiles w !! "root") as [data|] eqn:Hroot;
      [|exists []; by repeat split].
    destruct (buildFileTree_shaped (λ _, O) kbId ∅ ∅ w data O EmptyString statusCache
                (nests_collapsed w))
      as (fuel & tree & cache' & Hbuilt & Hids & Hlevel & Hwell).
    assert (Hone : buildFileTree 1 kbId ∅ ∅ w data O EmptyString statusCache
                   = Some (tree, cache')).
    { destruct (buildFileTree_returns (λ _, O) kbId ∅ ∅ w) with
        (fuel := O) (files := @nil FileItem.t) (level := O)
        (parentPath := EmptyString) (statusCache := statusCache) as [? _].
      - apply nests_collapsed.
      - by intros f Hf; inversion Hf.
      - clear -Hbuilt. specialize (Hbuilt (S fuel) (Nat.le_succ_diag_r _)).
        revert tree cache' statusCache Hbuilt.
        induction data as [|f data IH]; intros tree cache' statusCache Hbuilt.
        + rewrite buildFileTree_nil in Hbuilt |- *. exact Hbuilt.
        + rewrite buildFileTree_cons in Hbuilt |- *.
          assert (Hclosed : opensFolder ∅ ∅ f = false).
          { unfold opensFolder. rewrite (bool_decide_eq_false_2 (_ ∈ ∅));
              [by rewrite andb_false_r | apply not_elem_of_empty]. }
          rewrite Hclosed in Hbuilt |- *. cbv zeta in Hbuilt |- *.
          destruct (buildFileTree (S fuel) kbId ∅ ∅ w data O EmptyString _)
            as [[more cache3]|] eqn:Hmore; [|discriminate].
          by rewrite (IH _ _ _ Hmore). }
    cbn [collapseAllFolders expandedFolders loadingFolders]. rewrite Hone.
    exists (flattenTree tree). cbn [fmap option_fmap option_map fst].
    assert (Hflat : flattenTree tree = tree).
    { apply flat_without_children.
      assert (Hall : ∀ r, r ∈ flattenTree tree → TreeItem.children r = []).
      { intros r Hr. rewrite Forall_forall in Hwell.
        destruct (Hwell r Hr) as (_ & _ & _ & Hopen & _).
        destruct (TreeItem.children r) as [|c cs]; [reflexivity|].
        destruct Hopen as (_ & He & _); [done|]. by apply elem_of_empty in He. }
      apply Forall_forall. intros r Hr. apply Hall.
      clear -Hr. induction tree as [|row tree IH]; [by inversion Hr|].
      rewrite flattenTree_cons. apply elem_of_cons in Hr as [->|Hr]; [by left|].
      right. apply elem_of_app. right. by apply IH. }
    rewrite Hflat. by repeat split. }
  destruct Hcollapsed as (collapsed & Hc1 & Hc2 & Hc3).
  unfold root in *. destruct (driveFiles w !! "root") as [data|] eqn:Hroot.
  - destruct (buildFileTree_shaped depth kbId (expandedFolders ts) (loadingFolders ts)
                w data O EmptyString statusCache Hnest)
      as (fuel & tree & cache' & Hbuilt & Hids & Hlevel & Hwell).
    exists fuel, (flattenTree tree), collapsed. split.
    { intros fuel' Hle. by rewrite (Hbuilt fuel' Hle). }
    split; [by rewrite (level0_rows _ _ _ _ Hlevel Hwell)|].
    split; [exact Hwell|]. split; [|split; [discriminate | done]].
    intros Hsound Hfree.
    destruct (buildFileTree_within depth kbId (expandedFolders ts) (loadingFolders ts)
                w data O EmptyString statusCache Hnest Hsound Hfree)
      as (fuel2 & tree2 & cache2 & Hbuilt2 & _ & _ & _ & Hwell2).
    pose proof (Hbuilt (Nat.max fuel fuel2) (Nat.le_max_l _ _)) as H1.
    pose proof (Hbuilt2 (Nat.max fuel fuel2) (Nat.le_max_r _ _)) as H2.
    rewrite H1 in H2. by injection H2 as -> _.
  - exists O, [], collapsed. split; [done|]. split; [done|].
    split; [constructor|]. split; [constructor|]. by split.
Qed.

Lemma flatFiles_rows_witness :
  ∃ fuel rows,
    flatFiles fuel (Some "kb-9") (setExpandedFolders {["fA"]} initialTreeState)
      (set_driveFiles {["root" := [folderA; fileR]; "fA" := [fileX; folderB]]}
         (initialWorld 0)) ∅ = Some rows
    ∧ rowId <$> List.filter (λ r, bool_decide (TreeItem.level r = O)) rows
      = ["fA"; "r1"].
Proof.
  set (listings := ({["root" := [folderA; fileR]; "fA" := [fileX; folderB]]}
                    : gmap string (list FileItem.t))).
  destruct (flatFiles_rows
              (λ id, if String.eqb id "fA" then 1%nat else 0%nat)
              (Some "kb-9") (setExpandedFolders {["fA"]} initialTreeState)
              (set_driveFiles listings (initialWorld 0)) ∅)
    as (fuel & rows & _ & Hbuilt & Hroot & _).
  - intros f data c Hopen Hdata Hc. unfold opensFolder in Hopen.
    apply andb_true_iff in Hopen as [[_ He]%andb_true_iff _].
    apply bool_decide_eq_true_1 in He.
    change (FileItem.id f ∈ ({["fA"]} : gset string)) in He.
    apply elem_of_singleton in He. rewrite He in Hdata |- *.
    change (listings !! "fA" = Some data) in Hdata.
    assert (Hdata' : listings !! "fA" = Some [fileX; folderB]) by reflexivity.
    rewrite Hdata' in Hdata. injection Hdata as <-.
    apply list_elem_of_In in Hc. simpl in Hc.
    destruct Hc as [<-|[<-|[]]]; simpl; lia.
  - exists fuel, rows. split; [by apply Hbuilt | exact Hroot].
Defined.

(** * The name cell *)

Lemma split_parts_no_sep sep s :
  Forall (λ part, includes part sep = false) (split sep s).
Proof.
  induction s as [|c s IH]; simpl; [by repeat constructor|].
  destruct (Ascii.eqb c sep) eqn:E; [by constructor|].
  destruct (split sep s) as [|part parts]; simpl.
  - repeat constructor. simpl. by rewrite E.
  - inversion IH as [|? ? Hpart Hparts]; subst.
    constructor; [|exact Hparts]. simpl. by rewrite E, Hpart.
Qed.

Lemma lastSegment_no_slash name : includes (lastSegment name) slash = false.
Proof.
  unfold lastSegment. pose proof (split_parts_no_sep slash name) as Hall.
  pose proof (split_nonempty slash name) as Hne.
  destruct (exists_last Hne) as (front & part & Hsplit). rewrite Hsplit in Hall |- *.
  rewrite last_last. apply Forall_app in Hall as [_ Hlast].
  by inversion Hlast.
Qed.

Lemma lastSegment_behind dir base :
  includes base slash = false → lastSegment (dir +:+ "/" +:+ base) = base.
Proof. intros H. unfold lastSegment. by apply last_split_base. Qed.

(** X24. The text of the name cell always ends in the file name: while
    filtering, [truncatePath] keeps the last segment of the name whole,
    as the cell shows it when not filtering.  It shortens a name only
    when the name is longer than the limit and has more than two
    segments, and then to the first segment, three dots and the last
    segment when that fits the limit, and to three dots and the last
    segment otherwise, which may not fit the limit. *)
Theorem truncatePath_keeps_file_name path maxLength :
  lastSegment (truncatePath path maxLength) = lastSegment path
  ∧ (∀ isFiltering, lastSegment (cellText isFiltering path) = lastSegment path)
  ∧ (truncatePath path maxLength ≠ path →
     (maxLength < String.length path)%nat
     ∧ (2 < length (split slash path))%nat
     ∧ ((truncatePath path maxLength
         = List.hd EmptyString (split slash path) +:+ "/.../" +:+ lastSegment path
         ∧ (String.length (truncatePath path maxLength) ≤ maxLength)%nat)
        ∨ (truncatePath path maxLength = ".../" +:+ lastSegment path
           ∧ (maxLength < String.length (List.hd EmptyString (split slash path))
                          + String.length (lastSegment path) + 5)%nat))).
Proof.
  assert (Hkeeps : ∀ limit, lastSegment (truncatePath path limit) = lastSegment path).
  { intros limit. unfold truncatePath.
    destruct (String.length path <=? limit)%nat; [reflexivity|].
    destruct (length (split slash path) <=? 2)%nat; [reflexivity|]. cbv zeta.
    fold (lastSegment path).
    destruct (_ <=? limit)%nat.
    - change (List.hd EmptyString (split slash path) +:+ "/.../" +:+ lastSegment path)
        with (List.hd EmptyString (split slash path)
              +:+ ("/..." +:+ ("/" +:+ lastSegment path))).
      rewrite <- string_app_assoc.
      apply lastSegment_behind, lastSegment_no_slash.
    - change (".../" +:+ lastSegment path) with ("..." +:+ "/" +:+ lastSegment path).
      apply lastSegment_behind, lastSegment_no_slash. }
  split; [apply Hkeeps|]. split.
  { intros [|]; unfold cellText; [apply Hkeeps|].
    unfold lastSegment at 1.
    rewrite (split_no_sep _ _ (lastSegment_no_slash path)). reflexivity. }
  unfold truncatePath.
  destruct (String.length path <=? maxLength)%nat eqn:Hlen; [done|].
  apply Nat.leb_gt in Hlen.
  destruct (length (split slash path) <=? 2)%nat eqn:Hparts; [done|].
  apply Nat.leb_gt in Hparts. cbv zeta. fold (lastSegment path).
  destruct (_ <=? maxLength)%nat eqn:Hfits; intros _.
  - apply Nat.leb_le in Hfits. split; [exact Hlen|]. split; [exact Hparts|]. left.
    split; [reflexivity|].
    rewrite !string_app_length. simpl. lia.
  - apply Nat.leb_gt in Hfits. split; [exact Hlen|]. split; [exact Hparts|]. right.
    by split.
Qed.

(** * Statuses of the KB in the tree *)

(** The status that [fetchKBStatusForFolder] files for a resource *)
Lemma kbStatusMapOf_fold resources : ∀ (statusMap : gmap string string) id s,
  fold_left (λ statusMap resource,
    <[FileItem.id resource :=
        if truthy (FileItem.status resource)
        then orEmpty (FileItem.status resource) else "unknown"]> statusMap)
    resources statusMap !! id = Some s →
  statusMap !! id = Some s
  ∨ ∃ r, r ∈ resources ∧ FileItem.id r = id
         ∧ s = (if truthy (FileItem.status r)
                then orEmpty (FileItem.status r) else "unknown").
Proof.
  induction resources as [|r resources IH]; intros statusMap id s H; [by left|].
  cbn [fold_left] in H. destruct (IH _ _ _ H) as [Hhere|(r' & Hin & Hid & Hs)].
  - destruct (decide (FileItem.id r = id)) as [Heq|Hne].
    + rewrite Heq, lookup_insert_eq in Hhere. injection Hhere as <-.
      right. exists r. split; [by left|]. by split.
    + rewrite lookup_insert_ne in Hhere by done. by left.
  - right. exists r'. split; [by right|]. by split.
Qed.

Lemma kbStatusMapOf_fold_known resources : ∀ (statusMap : gmap string string) id,
  (is_Some (statusMap !! id) ∨ ∃ r, r ∈ resources ∧ FileItem.id r = id) →
  is_Some (fold_left (λ statusMap resource,
    <[FileItem.id resource :=
        if truthy (FileItem.status resource)
        then orEmpty (FileItem.status resource) else "unknown"]> statusMap)
    resources statusMap !! id).
Proof.
  induction resources as [|r resources IH]; intros statusMap id H.
  - destruct H as [H|(r & Hin & _)]; [exact H | by inversion Hin].
  - cbn [fold_left]. apply IH.
    destruct (decide (FileItem.id r = id)) as [Heq|Hne].
    + left. rewrite Heq, lookup_insert_eq. by eexists.
    + destruct H as [H|(r' & Hin & Hid)].
      * left. by rewrite lookup_insert_ne.
      * apply elem_of_cons in Hin as [->|Hin]; [done|]. right. by exists r'.
Qed.

Lemma truthy_status_or_unknown (status : option string) :
  truthy (Some (if truthy status then orEmpty status else "unknown")) = true.
Proof. destruct status as [[|c s]|]; reflexivity. Qed.

Lemma withKBStatus_spec kbStatusMap hasPending hasErrors f :
  withKBStatus kbStatusMap (hasPending, hasErrors) f
  = ((hasPending || hasKBStatus kbStatusMap "pending" f,
      hasErrors || (hasKBStatus kbStatusMap "failed" f
                    || hasKBStatus kbStatusMap "error" f)),
     updatedRecord kbStatusMap f).
Proof.
  unfold withKBStatus, updatedRecord, hasKBStatus.
  destruct (bool_decide (FileItem.type f = file)); cbn [andb];
    [|by rewrite !orb_false_r].
  destruct (kbStatusMap !! FileItem.id f) as [s|] eqn:Hs;
    [|cbn [truthy]; by rewrite !orb_false_r].
  destruct (truthy (Some s)) eqn:Ht.
  - change (orEmpty (Some s)) with s.
    assert (Heqb : ∀ t, String.eqb s t = bool_decide (Some s = Some t)).
    { intros t. destruct (String.eqb s t) eqn:E.
      - apply String.eqb_eq in E as ->. by rewrite bool_decide_eq_true_2.
      - apply String.eqb_neq in E. rewrite bool_decide_eq_false_2; congruence. }
    rewrite <- !Heqb.
    destruct (String.eqb s "pending"), (String.eqb s "failed"), (String.eqb s "error"),
      hasPending, hasErrors; reflexivity.
  - destruct s as [|c s]; [|discriminate].
    rewrite !bool_decide_eq_false_2 by discriminate. by rewrite !orb_false_r.
Qed.

Lemma mapWithKBStatus_spec kbStatusMap data : ∀ hasPending hasErrors,
  mapWithKBStatus kbStatusMap (hasPending, hasErrors) data
  = ((hasPending || existsb (hasKBStatus kbStatusMap "pending") data,
      hasErrors || existsb (λ f, hasKBStatus kbStatusMap "failed" f
                                 || hasKBStatus kbStatusMap "error" f) data),
     List.map (updatedRecord kbStatusMap) data).
Proof.
  induction data as [|f data IH]; intros hasPending hasErrors.
  - simpl. by rewrite !orb_false_r.
  - cbn [mapWithKBStatus]. rewrite withKBStatus_spec, IH.
    cbn [existsb List.map]. by rewrite !orb_assoc.
Qed.

(** X25. What [updateCachedFilesWithStatus] does with the statuses of
    the KB.  Without a cached listing of the folder it reports nothing
    pending and no error, and writes nothing.  With one, the listing it
    writes is the cached one, record by record, in which each file that
    the status map knows under a non-empty status bears that status;
    folders and the files that the map does not know are left as they
    are.  It reports pending exactly when a file of the cached listing
    is pending in the map, and errors exactly when one is failed or in
    error: a status of the map for an id that the listing does not hold
    counts for nothing.  The write lands at the next animation frame and
    then replaces whatever the listing has become.  In the map that
    [fetchKBStatusForFolder] makes, every resource of the response has a
    status, never an empty one. *)
Theorem updateCachedFilesWithStatus_flags folderId kbStatusMap w :
  let r := updateCachedFilesWithStatus folderId kbStatusMap w in
  (driveFiles w !! folderId = None → r = ((false, false), None))
  ∧ (∀ data, driveFiles w !! folderId = Some data →
       snd r = Some (List.map (updatedRecord kbStatusMap) data)
       ∧ (fst (fst r) = true
          ↔ ∃ f, f ∈ data ∧ FileItem.type f = file
                 ∧ kbStatusMap !! FileItem.id f = Some "pending")
       ∧ (snd (fst r) = true
          ↔ ∃ f, f ∈ data ∧ FileItem.type f = file
                 ∧ (kbStatusMap !! FileItem.id f = Some "failed"
                    ∨ kbStatusMap !! FileItem.id f = Some "error"))
       ∧ ∀ later,
           driveFiles (writeUpdatedFiles folderId (snd r) later) !! folderId
           = Some (List.map (updatedRecord kbStatusMap) data))
  ∧ (∀ f, FileItem.id (updatedRecord kbStatusMap f) = FileItem.id f
          ∧ FileItem.name (updatedRecord kbStatusMap f) = FileItem.name f
          ∧ FileItem.type (updatedRecord kbStatusMap f) = FileItem.type f
          ∧ (FileItem.type f = directory ∨ kbStatusMap !! FileItem.id f = None →
             updatedRecord kbStatusMap f = f)
          ∧ (∀ s, FileItem.type f = file → kbStatusMap !! FileItem.id f = Some s →
                  s ≠ EmptyString →
                  FileItem.status (updatedRecord kbStatusMap f) = Some s))
  ∧ (∀ resources resource, resource ∈ resources →
       ∃ s, kbStatusMapOf resources !! FileItem.id resource = Some s
            ∧ s ≠ EmptyString).
Proof.
  intros r. subst r. unfold updateCachedFilesWithStatus. split; [by intros ->|].
  split.
  { intros data ->. rewrite mapWithKBStatus_spec. cbn [fst snd orb].
    split; [reflexivity|]. split; [|split].
    - rewrite existsb_exists. unfold hasKBStatus. split.
      + intros (f & Hin & [Ht Hs]%andb_true_iff).
        apply bool_decide_eq_true_1 in Ht, Hs. exists f.
        split; [by apply list_elem_of_In|]. by split.
      + intros (f & Hin & Ht & Hs). exists f. split; [by apply list_elem_of_In|].
        by rewrite !bool_decide_eq_true_2.
    - rewrite existsb_exists. unfold hasKBStatus. split.
      + intros (f & Hin & [[Ht Hs]%andb_true_iff|[Ht Hs]%andb_true_iff]%orb_true_iff);
          apply bool_decide_eq_true_1 in Ht, Hs; exists f;
          (split; [by apply list_elem_of_In|]); split; auto.
      + intros (f & Hin & Ht & [Hs|Hs]); exists f;
          (split; [by apply list_elem_of_In|]);
          rewrite (bool_decide_eq_true_2 _ Ht); cbn [andb];
          rewrite (bool_decide_eq_true_2 _ Hs); by rewrite ?orb_true_r.
    - intros later. unfold writeUpdatedFiles.
      change (driveFiles (set_driveFiles ?m later)) with m.
      apply lookup_insert_eq. }
  split.
  { intros f. unfold updatedRecord.
    destruct (bool_decide (FileItem.type f = file)) eqn:Ht; cbn [andb].
    - apply bool_decide_eq_true_1 in Ht.
      destruct (kbStatusMap !! FileItem.id f) as [s|] eqn:Hs.
      + destruct (truthy (Some s)) eqn:Htruthy.
        * repeat split; try reflexivity.
          -- intros [Hd|Hn]; [congruence | discriminate].
          -- intros s' _ [= <-] _. reflexivity.
        * repeat split; try reflexivity. intros s' _ [= <-] Hne.
          destruct s as [|c s]; [done | discriminate].
      + repeat split; try reflexivity. intros s' _ [=].
    - repeat split; try reflexivity. intros s' Hfile.
      apply bool_decide_eq_false_1 in Ht. done. }
  intros resources resource Hin. unfold kbStatusMapOf.
  destruct (kbStatusMapOf_fold_known resources ∅ (FileItem.id resource)) as [s Hs].
  { right. by exists resource. }
  exists s. split; [exact Hs|].
  apply kbStatusMapOf_fold in Hs as [Hs|(r' & _ & _ & ->)]; [by rewrite lookup_empty in Hs|].
  pose proof (truthy_status_or_unknown (FileItem.status r')) as Ht.
  intros Heq. rewrite Heq in Ht. discriminate.
Qed.

(** * The slots of the status polls *)

Section poll_invariants.
Import StatusPolling.

Lemma elem_of_delete_other {A} (l : list A) i x y :
  l !! i = Some x → y ∈ l → y ≠ x → y ∈ delete i l.
Proof.
  intros Hi Hy Hne. rewrite delete_take_drop.
  rewrite <- (take_drop_middle l i x Hi) in Hy.
  apply elem_of_app in Hy as [Hy|Hy]; apply elem_of_app; [by left|].
  apply elem_of_cons in Hy as [->|Hy]; [done | by right].
Qed.

Lemma processNextPoll_cases r :
  (processNextPoll r = (r, None)
   ∧ ((MAX_CONCURRENT_POLLS ≤ size (activePolls r))%nat ∨ pollQueue r = []))
  ∨ ∃ nextPoll rest,
      pollQueue r = nextPoll :: rest
      ∧ (size (activePolls r) < MAX_CONCURRENT_POLLS)%nat
      ∧ processNextPoll r
        = (mkRefs ({[folderPath nextPoll]} ∪ activePolls r) rest, Some nextPoll).
Proof.
  unfold processNextPoll.
  destruct (MAX_CONCURRENT_POLLS <=? size (activePolls r))%nat eqn:Hsize.
  { left. apply Nat.leb_le in Hsize. split; [reflexivity | by left]. }
  apply Nat.leb_gt in Hsize.
  destruct (pollQueue r) as [|nextPoll rest] eqn:Hqueue.
  { left. split; [reflexivity | by right]. }
  right. exists nextPoll, rest. by repeat split.
Qed.

Lemma processNextPoll_slotsKept r polls :
  slotsKept r polls →
  slotsKept (fst (processNextPoll r)) (polls ++ started (snd (processNextPoll r))).
Proof.
  intros [Hsize Hcover].
  destruct (processNextPoll_cases r) as [[-> _]|(nextPoll & rest & Hq & Hlt & ->)].
  { simpl. rewrite app_nil_r. by split. }
  unfold slotsKept. cbn [fst snd started activePolls]. split.
  - rewrite size_union_alt, size_singleton.
    assert (size (activePolls r ∖ {[folderPath nextPoll]}) ≤ size (activePolls r))%nat
      by (apply subseteq_size; intros x [Hx _]%elem_of_difference; exact Hx).
    unfold MAX_CONCURRENT_POLLS in *. lia.
  - intros path [Hp|Hp]%elem_of_union.
    + apply elem_of_singleton in Hp as ->. exists nextPoll.
      split; [|reflexivity]. apply elem_of_app. right. by left.
    + destruct (Hcover path Hp) as (poll & Hin & Hpath). exists poll.
      split; [|exact Hpath]. apply elem_of_app. by left.
Qed.

Lemma push_slotsKept r polls poll :
  slotsKept r polls → slotsKept (mkRefs (activePolls r) (pollQueue r ++ [poll])) polls.
Proof. by intros [Hsize Hcover]. Qed.

Lemma run_slotsKept e m :
  slotsKept (refs m) (running m) → slotsKept (refs (run e m)) (running (run e m)).
Proof.
  intros Hkept. destruct e as [path id|i hasPending|i]; cbn [run].
  - unfold pollFolderStatus.
    destruct (bool_decide (path ∈ activePolls (refs m)));
      [simpl; by rewrite app_nil_r|].
    destruct (existsb _ (pollQueue (refs m))); [simpl; by rewrite app_nil_r|].
    pose proof (processNextPoll_slotsKept _ _
                  (push_slotsKept _ _ (mkPoll path id) Hkept)) as H.
    by destruct (processNextPoll _) as [r o].
  - destruct (running m !! i) as [poll|] eqn:Hi; [|exact Hkept].
    unfold pollFinished.
    assert (Hafter : slotsKept
              (mkRefs (activePolls (refs m) ∖ {[folderPath poll]}) (pollQueue (refs m)))
              (delete i (running m))).
    { destruct Hkept as [Hsize Hcover]. split.
      - cbn [activePolls].
        assert (size (activePolls (refs m) ∖ {[folderPath poll]})
                ≤ size (activePolls (refs m)))%nat
          by (apply subseteq_size; intros x [Hx _]%elem_of_difference; exact Hx).
        lia.
      - cbn [activePolls]. intros path [Hp Hne]%elem_of_difference.
        destruct (Hcover path Hp) as (poll' & Hin & Hpath). exists poll'.
        split; [|exact Hpath]. eapply elem_of_delete_other; [exact Hi | exact Hin|].
        intros ->. apply Hne. by apply elem_of_singleton. }
    pose proof (processNextPoll_slotsKept _ _ Hafter) as H.
    by destruct (processNextPoll _) as [r o].
  - destruct (timers m !! i) as [poll|] eqn:Hi; [|exact Hkept].
    unfold pollAgain.
    destruct (bool_decide (folderPath poll ∈ activePolls (refs m)));
      cbn [negb]; [simpl; by rewrite app_nil_r|].
    pose proof (processNextPoll_slotsKept _ _
                  (push_slotsKept _ _ (mkPoll (folderPath poll) (folderId poll)) Hkept))
      as H.
    by destruct (processNextPoll _) as [r o].
Qed.

Lemma runAll_snoc events e m : runAll (events ++ [e]) m = run e (runAll events m).
Proof. unfold runAll. by rewrite fold_left_app. Qed.

Lemma processNextPoll_slotsExact r polls :
  slotsExact r polls →
  (pollQueue r = [] ∨ (1 ≤ size (activePolls r))%nat ∨ length (pollQueue r) = 1%nat) →
  slotsExact (fst (processNextPoll r)) (polls ++ started (snd (processNextPoll r)))
  ∧ (pollQueue (fst (processNextPoll r)) = []
     ∨ (MAX_CONCURRENT_POLLS ≤ size (activePolls (fst (processNextPoll r))))%nat).
Proof.
  intros (Hrun & Hsame & Hqueue & Hapart) Hslack.
  destruct (processNextPoll_cases r)
    as [[-> Hfull]|(nextPoll & rest & Hq & Hlt & ->)].
  { cbn [fst snd started]. rewrite app_nil_r. split; [done|].
    destruct Hfull as [Hfull|Hempty]; [by right | by left]. }
  unfold slotsExact. cbn [fst snd started activePolls pollQueue].
  rewrite Hq in Hqueue, Hapart, Hslack. rewrite fmap_cons in Hqueue.
  apply NoDup_cons in Hqueue as [Hfresh Hrest].
  assert (Hnew : folderPath nextPoll ∉ activePolls r) by (apply Hapart; by left).
  split; [split; [|split; [|split]]|].
  - rewrite fmap_app. apply NoDup_app. split; [exact Hrun|]. split.
    + intros path Hin [->|Hnil%elem_of_nil]%elem_of_cons; [|done].
      apply Hnew. by apply Hsame.
    + apply NoDup_singleton.
  - intros path. rewrite fmap_app, elem_of_app, elem_of_union, Hsame.
    cbn [fmap list_fmap]. rewrite elem_of_singleton, list_elem_of_singleton. tauto.
  - exact Hrest.
  - intros poll Hin [Hp|Hp]%elem_of_union.
    + apply elem_of_singleton in Hp. apply Hfresh. rewrite <- Hp.
      by apply list_elem_of_fmap_2.
    + apply (Hapart poll); [by right | exact Hp].
  - assert (Hsize : size ({[folderPath nextPoll]} ∪ activePolls r)
                    = S (size (activePolls r))).
    { rewrite size_union; [by rewrite size_singleton|].
      intros x Hx%elem_of_singleton Hx'. by subst x. }
    rewrite Hsize. unfold MAX_CONCURRENT_POLLS in *.
    destruct Hslack as [Hnil|[Hone|Hlen]]; [done | right; lia |].
    left. destruct rest; [done | discriminate].
Qed.

Lemma run_slotsExact e m :
  isFire e = false →
  slotsExact (refs m) (running m) → slotsFilled (refs m) →
  slotsExact (refs (run e m)) (running (run e m)) ∧ slotsFilled (refs (run e m)).
Proof.
  intros Hfire Hexact Hfilled. destruct e as [path id|i hasPending|i]; [| |done];
    cbn [run].
  - unfold pollFolderStatus.
    destruct (bool_decide (path ∈ activePolls (refs m))) eqn:Hactive;
      [simpl; by rewrite app_nil_r|].
    destruct (existsb _ (pollQueue (refs m))) eqn:Hqueued;
      [simpl; by rewrite app_nil_r|].
    apply bool_decide_eq_false_1 in Hactive.
    assert (Hpushed : slotsExact
              (mkRefs (activePolls (refs m)) (pollQueue (refs m) ++ [mkPoll path id]))
              (running m)).
    { destruct Hexact as (Hrun & Hsame & Hqueue & Hapart).
      split; [exact Hrun|]. split; [exact Hsame|]. cbn [pollQueue activePolls]. split.
      - rewrite fmap_app. apply NoDup_app. split; [exact Hqueue|]. split.
        + intros p Hin [->|Hnil%elem_of_nil]%elem_of_cons; [|done].
          apply list_elem_of_fmap in Hin as (poll & Hpath & Hin).
          assert (existsb (λ p, String.eqb (folderPath p) (folderPath (mkPoll path id)))
                    (pollQueue (refs m)) = true) as Hyes.
          { apply existsb_exists. exists poll. split; [by apply list_elem_of_In|].
            apply String.eqb_eq. by rewrite Hpath. }
          cbn [folderPath] in Hyes. congruence.
        + apply NoDup_singleton.
      - intros poll [Hin|Hin]%elem_of_app; [by apply Hapart|].
        apply list_elem_of_singleton in Hin as ->. exact Hactive. }
    destruct (processNextPoll_slotsExact _ _ Hpushed) as [H1 H2].
    { cbn [pollQueue activePolls]. destruct Hfilled as [->|Hfull].
      - right. by right.
      - right. left. unfold MAX_CONCURRENT_POLLS in Hfull. lia. }
    by destruct (processNextPoll _) as [r o].
  - destruct (running m !! i) as [poll|] eqn:Hi; [|done].
    unfold pollFinished.
    destruct Hexact as (Hrun & Hsame & Hqueue & Hapart).
    assert (Hsplit : running m = (take i (running m) ++ poll :: drop (S i) (running m))%list)
      by (symmetry; by apply take_drop_middle).
    assert (Hpoll : folderPath poll ∈ activePolls (refs m)).
    { apply Hsame. apply list_elem_of_fmap_2. by eapply list_elem_of_lookup_2. }
    assert (Hgone : folderPath poll ∉ (folderPath <$> delete i (running m))).
    { rewrite Hsplit in Hrun. rewrite fmap_app, fmap_cons in Hrun.
      apply NoDup_app in Hrun as (_ & Hfront & Hback).
      apply NoDup_cons in Hback as [Hback _].
      rewrite delete_take_drop, fmap_app. intros [Hin|Hin]%elem_of_app; [|done].
      apply (Hfront _ Hin). by left. }
    assert (Hafter : slotsExact
              (mkRefs (activePolls (refs m) ∖ {[folderPath poll]}) (pollQueue (refs m)))
              (delete i (running m))).
    { split; [|split; [|split]]; cbn [activePolls pollQueue].
      - rewrite delete_take_drop. rewrite Hsplit in Hrun.
        rewrite fmap_app in Hrun |- *. rewrite fmap_cons in Hrun.
        apply NoDup_app in Hrun as (Hfront & Hcross & Hback).
        apply NoDup_cons in Hback as [_ Hback].
        apply NoDup_app. split; [exact Hfront|]. split; [|exact Hback].
        intros p Hp Hq. apply (Hcross p Hp). by right.
      - intros path. rewrite elem_of_difference, elem_of_singleton. split.
        + intros [Hp Hne]. apply Hsame in Hp.
          apply list_elem_of_fmap in Hp as (poll' & Hpath & Hin).
          rewrite Hpath. apply list_elem_of_fmap_2.
          eapply elem_of_delete_other; [exact Hi | exact Hin | congruence].
        + intros Hin. split.
          * apply Hsame. apply list_elem_of_fmap in Hin as (poll' & Hpath & Hin).
            rewrite Hpath. apply list_elem_of_fmap_2.
            by eapply list_elem_of_delete_inv.
          * intros ->. by apply Hgone.
      - exact Hqueue.
      - intros poll' Hin [Hp _]%elem_of_difference. by apply (Hapart poll'). }
    destruct (processNextPoll_slotsExact _ _ Hafter) as [H1 H2].
    { cbn [pollQueue activePolls]. destruct Hfilled as [->|Hfull]; [by left|].
      right. left. rewrite size_difference;
        [|by intros x ->%elem_of_singleton].
      rewrite size_singleton. unfold MAX_CONCURRENT_POLLS in Hfull. lia. }
    by destruct (processNextPoll _) as [r o].
Qed.

Lemma runAll_slotsKept events :
  slotsKept (refs (runAll events initialMachine))
            (running (runAll events initialMachine)).
Proof.
  induction events as [|e events IH] using rev_ind.
  - split.
    + change (size (∅ : gset string) ≤ 2)%nat. rewrite size_empty. lia.
    + intros path Hin. by apply elem_of_empty in Hin.
  - rewrite runAll_snoc. by apply run_slotsKept.
Qed.

Lemma runAll_slotsExact events :
  forallb (λ e, negb (isFire e)) events = true →
  slotsExact (refs (runAll events initialMachine))
             (running (runAll events initialMachine))
  ∧ slotsFilled (refs (runAll events initialMachine)).
Proof.
  induction events as [|e events IH] using rev_ind; intros Hnone.
  - split; [|by left]. split; [constructor|]. split; [|split; [constructor|]].
    + intros path. cbn. split; [by intros H%elem_of_empty | by intros H%elem_of_nil].
    + intros poll Hin. by apply elem_of_nil in Hin.
  - rewrite forallb_app in Hnone. apply andb_true_iff in Hnone as [Hevents He].
    cbn [forallb] in He. rewrite andb_true_r in He. apply negb_true_iff in He.
    rewrite runAll_snoc. destruct (IH Hevents) as [Hexact Hfilled].
    by apply run_slotsExact.
Qed.

End poll_invariants.

(** X26. The slots of the status polls, whatever calls of
    [pollFolderStatus], settled polls and fired timers follow one
    another: [activePolls] never holds more than the two paths of
    [MAX_CONCURRENT_POLLS], and each path in it has a poll that is
    running.  As long as no timer has queued a poll again, the running
    polls are exactly the active paths, one poll each, so no more than
    two; the queue holds no path twice and none that is active; and a
    poll waits in the queue only while both slots are taken.  The timers
    do not keep this up: they queue a path that is already queued, and
    then three polls can be running at once. *)
Theorem poll_slots events :
  let m := StatusPolling.runAll events StatusPolling.initialMachine in
  let active := StatusPolling.activePolls (StatusPolling.refs m) in
  let queue := StatusPolling.pollQueue (StatusPolling.refs m) in
  let paths := StatusPolling.folderPath <$> StatusPolling.running m in
  (size active ≤ StatusPolling.MAX_CONCURRENT_POLLS)%nat
  ∧ (∀ path, path ∈ active → path ∈ paths)
  ∧ (forallb (λ e, negb (StatusPolling.isFire e)) events = true →
     NoDup paths
     ∧ (∀ path, path ∈ active ↔ path ∈ paths)
     ∧ (length (StatusPolling.running m) ≤ StatusPolling.MAX_CONCURRENT_POLLS)%nat
     ∧ NoDup (StatusPolling.folderPath <$> queue)
     ∧ (∀ poll, poll ∈ queue → StatusPolling.folderPath poll ∉ active)
     ∧ (queue = [] ∨ size active = StatusPolling.MAX_CONCURRENT_POLLS))
  ∧ ∃ repolled,
      length (StatusPolling.running
                (StatusPolling.runAll repolled StatusPolling.initialMachine)) = 3%nat.
Proof.
  intros m active queue paths.
  destruct (runAll_slotsKept events) as [Hsize Hcover].
  split; [exact Hsize|]. split.
  { intros path Hin. destruct (Hcover path Hin) as (poll & Hpoll & <-).
    by apply list_elem_of_fmap_2. }
  split.
  { intros Hnone.
    destruct (runAll_slotsExact events Hnone)
      as [(Hrun & Hsame & Hqueue & Hapart) Hfilled].
    split; [exact Hrun|]. split; [exact Hsame|]. split; [|split; [exact Hqueue|]].
    - assert (Hlen : length paths = size active).
      { rewrite <- (size_list_to_set (C := gset string) paths Hrun).
        f_equal. apply set_eq. intros path. rewrite elem_of_list_to_set.
        symmetry. apply Hsame. }
      unfold paths in Hlen. rewrite length_fmap in Hlen.
      unfold active, m in *. lia.
    - split; [exact Hapart|]. destruct Hfilled as [Hnil|Hfull]; [by left|].
      right. unfold active, m in *. lia. }
  exists [StatusPolling.Call "/A" "a"; StatusPolling.Call "/B" "b";
          StatusPolling.Call "/C" "c"; StatusPolling.Settle 0 true;
          StatusPolling.Call "/A" "a"; StatusPolling.Fire 0;
          StatusPolling.Settle 0 false; StatusPolling.Settle 0 false;
          StatusPolling.Call "/D" "d"].
  by vm_compute.
Qed.

(** * The queue of the prefetches *)

Section prefetch_invariants.
Import Prefetch.

Lemma List_filter_sublist {A} (f : A → bool) (l : list A) : sublist (List.filter f l) l.
Proof.
  induction l as [|x l IH]; simpl; [constructor|].
  destruct (f x); by constructor.
Qed.

Lemma elem_of_List_filter {A} (f : A → bool) (l : list A) x :
  x ∈ List.filter f l ↔ x ∈ l ∧ f x = true.
Proof. rewrite !list_elem_of_In. apply List.filter_In. Qed.

Lemma truthy_nonempty s : s ≠ EmptyString → truthy (Some s) = true.
Proof. by destruct s. Qed.

(** With a queue of visible folders [processQueue] never skips: it
    starts the head of the queue or nothing. *)
Lemma processQueueFrom_head visible count queue :
  (∀ folderId, folderId ∈ queue → folderId ∈ visible) →
  EmptyString ∉ visible →
  processQueueFrom visible count queue
  = if (MAX_CONCURRENT_PREFETCHES <=? count)%Z then (queue, count, None)
    else match queue with
         | [] => (queue, count, None)
         | folderId :: rest => (rest, (count + 1)%Z, Some folderId)
         end.
Proof.
  intros Hvisible Hnamed. destruct queue as [|folderId rest]; cbn [processQueueFrom].
  - by destruct (MAX_CONCURRENT_PREFETCHES <=? count)%Z.
  - destruct (MAX_CONCURRENT_PREFETCHES <=? count)%Z; [reflexivity|]. cbn [orb length Nat.eqb].
    assert (Hin : folderId ∈ visible) by (apply Hvisible; by left).
    rewrite truthy_nonempty by (intros ->; done). cbn [negb].
    by rewrite (bool_decide_eq_true_2 _ Hin).
Qed.

Lemma processQueue_kept r prefetches :
  refsKept r prefetches →
  refsKept (fst (processQueue r)) (prefetches ++ started (snd (processQueue r))).
Proof.
  intros (Hlimit & Hcount & Hqueue & Hknown & Hnamed). unfold processQueue.
  rewrite processQueueFrom_head; [|intros id Hid; by apply Hknown | exact Hnamed].
  destruct (MAX_CONCURRENT_PREFETCHES <=? activeRequestCount r)%Z eqn:Hfull.
  { cbn [fst snd started]. rewrite app_nil_r. by destruct r. }
  apply Z.leb_gt in Hfull.
  destruct (requestQueue r) as [|folderId rest] eqn:Hq.
  { cbn [fst snd started]. rewrite app_nil_r. unfold refsKept.
    cbn [activeRequestCount requestQueue visibleFolders activePrefetches].
    split; [exact Hlimit|]. split; [exact Hcount|]. split; [constructor|].
    split; [|exact Hnamed]. intros id Hin. by apply elem_of_nil in Hin. }
  cbn [fst snd started]. unfold refsKept.
  cbn [activeRequestCount requestQueue visibleFolders activePrefetches].
  apply NoDup_cons in Hqueue as [_ Hrest].
  split; [unfold MAX_CONCURRENT_PREFETCHES in *; lia|].
  split; [rewrite length_app; simpl; lia|].
  split; [exact Hrest|]. split; [|exact Hnamed].
  intros id Hid. apply Hknown. by right.
Qed.

Lemma processQueue_exact r prefetches :
  refsKept r prefetches →
  activeRequestCount r = Z.of_nat (length prefetches) →
  (requestQueue r = [] ∨ length (requestQueue r) = 1%nat
   ∨ (MAX_CONCURRENT_PREFETCHES - 1 ≤ activeRequestCount r)%Z) →
  countExact (fst (processQueue r)) (prefetches ++ started (snd (processQueue r))).
Proof.
  intros (Hlimit & Hcount & Hqueue & Hknown & Hnamed) Hexact Hslack.
  unfold processQueue.
  rewrite processQueueFrom_head; [|intros id Hid; by apply Hknown | exact Hnamed].
  destruct (MAX_CONCURRENT_PREFETCHES <=? activeRequestCount r)%Z eqn:Hfull.
  { apply Z.leb_le in Hfull. cbn [fst snd started]. rewrite app_nil_r.
    split; [exact Hexact|]. right. cbn [activeRequestCount]. lia. }
  apply Z.leb_gt in Hfull.
  destruct (requestQueue r) as [|folderId rest] eqn:Hq.
  { cbn [fst snd started]. rewrite app_nil_r. split; [exact Hexact | by left]. }
  cbn [fst snd started]. unfold countExact. cbn [activeRequestCount requestQueue].
  split; [rewrite length_app; simpl; lia|].
  destruct Hslack as [Hnil|[Hone|Hnear]]; [done | |].
  - left. destruct rest; [done | discriminate].
  - right. unfold MAX_CONCURRENT_PREFETCHES in *. lia.
Qed.

(** [cancelPrefetch] on refs of which a folder may have just left the
    visible ones *)
Lemma cancelPrefetch_kept r prefetches folderId visible :
  refsKept r prefetches →
  (∀ id, id ∈ visibleFolders r → id ≠ folderId → id ∈ visible) →
  EmptyString ∉ visible →
  refsKept
    (cancelPrefetch folderId
       (mkRefs (activePrefetches r) visible (requestQueue r) (activeRequestCount r)))
    prefetches.
Proof.
  intros (Hlimit & Hcount & Hqueue & Hknown & Hnamed) Hvisible Hnamed'.
  unfold refsKept, cancelPrefetch.
  cbn [activeRequestCount requestQueue visibleFolders activePrefetches].
  split; [exact Hlimit|]. split; [exact Hcount|]. split.
  { eapply sublist_NoDup; [exact Hqueue | apply List_filter_sublist]. }
  split; [|exact Hnamed'].
  intros id [Hid Hne]%elem_of_List_filter.
  apply negb_true_iff, String.eqb_neq in Hne.
  destruct (Hknown id Hid) as [Hv Hentry]. split; [by apply Hvisible|].
  by rewrite lookup_delete_ne.
Qed.

Lemma cancelPrefetch_exact r prefetches folderId visible :
  countExact r prefetches →
  countExact
    (cancelPrefetch folderId
       (mkRefs (activePrefetches r) visible (requestQueue r) (activeRequestCount r)))
    prefetches.
Proof.
  intros [Hexact Hfilled]. split; [exact Hexact|].
  cbn [cancelPrefetch requestQueue activeRequestCount].
  destruct Hfilled as [->|Hfull]; [by left | by right].
Qed.

Lemma refs_eta r :
  mkRefs (activePrefetches r) (visibleFolders r) (requestQueue r) (activeRequestCount r)
  = r.
Proof. by destruct r. Qed.

Lemma run_kept isEnabled e m :
  refsKept (refs m) (running m) →
  refsKept (refs (run isEnabled e m)) (running (run isEnabled e m)).
Proof.
  intros Hkept.
  destruct e as [folderId|folderId|i|folderId|folderId isIntersecting|folderId|];
    cbn [run refs running].
  - unfold startPrefetch. destruct isEnabled; cbn [negb]; [|exact Hkept].
    destruct (bool_decide (folderId ∈ visibleFolders (refs m))) eqn:Hv;
      cbn [negb]; [|exact Hkept].
    apply bool_decide_eq_true_1 in Hv.
    pose proof (cancelPrefetch_kept (refs m) (running m) folderId
                  (visibleFolders (refs m)) Hkept (λ id H _, H)) as Hc.
    rewrite refs_eta in Hc.
    destruct Hc as (Hlimit & Hcount & Hqueue & Hknown & Hnamed);
      [by destruct Hkept as (_ & _ & _ & _ & ?)|].
    unfold refsKept.
    cbn [activeRequestCount requestQueue visibleFolders activePrefetches] in *.
    split; [exact Hlimit|]. split; [exact Hcount|]. split; [exact Hqueue|].
    split; [|exact Hnamed].
    intros id Hid. destruct (Hknown id Hid) as [Hvis Hentry]. split; [exact Hvis|].
    apply lookup_insert_is_Some.
    destruct (decide (folderId = id)); [by left | by right].
  - destruct (activePrefetches (refs m) !! folderId) as [[|]|] eqn:Hentry;
      [|exact Hkept|exact Hkept].
    set (r := mkRefs (<[folderId:=false]> (activePrefetches (refs m)))
                (visibleFolders (refs m)) (requestQueue (refs m))
                (activeRequestCount (refs m))).
    assert (Hr : refsKept r (running m)).
    { destruct Hkept as (Hlimit & Hcount & Hqueue & Hknown & Hnamed).
      unfold refsKept, r.
      cbn [activeRequestCount requestQueue visibleFolders activePrefetches].
      split; [exact Hlimit|]. split; [exact Hcount|]. split; [exact Hqueue|].
      split; [|exact Hnamed].
      intros id Hid. destruct (Hknown id Hid) as [Hvis He]. split; [exact Hvis|].
      apply lookup_insert_is_Some.
      destruct (decide (folderId = id)); [by left | by right]. }
    unfold prefetchDue.
    destruct (bool_decide (folderId ∈ visibleFolders r)) eqn:Hv;
      [|cbn [running refs started]; by rewrite app_nil_r].
    destruct (bool_decide (folderId ∈ requestQueue r)) eqn:Hq; cbn [negb];
      [cbn [running refs started]; by rewrite app_nil_r|].
    apply bool_decide_eq_true_1 in Hv. apply bool_decide_eq_false_1 in Hq.
    assert (Hpushed : refsKept
              (mkRefs (activePrefetches r) (visibleFolders r)
                 (requestQueue r ++ [folderId]) (activeRequestCount r)) (running m)).
    { destruct Hr as (Hlimit & Hcount & Hqueue & Hknown & Hnamed).
      unfold refsKept.
      cbn [activeRequestCount requestQueue visibleFolders activePrefetches].
      split; [exact Hlimit|]. split; [exact Hcount|]. split.
      { apply NoDup_app. split; [exact Hqueue|]. split; [|apply NoDup_singleton].
        intros id Hid ->%list_elem_of_singleton. done. }
      split; [|exact Hnamed].
      intros id [Hid| ->%list_elem_of_singleton]%elem_of_app; [by apply Hknown|].
      split; [exact Hv|]. unfold r. cbn [activePrefetches].
      rewrite lookup_insert_eq. by eexists. }
    pose proof (processQueue_kept _ _ Hpushed) as H.
    by destruct (processQueue _) as [r' o].
  - destruct (running m !! i) as [folderId|] eqn:Hi; [|exact Hkept].
    unfold prefetchSettled.
    assert (Hafter : refsKept
              (mkRefs (activePrefetches (refs m)) (visibleFolders (refs m))
                 (requestQueue (refs m)) (activeRequestCount (refs m) - 1))
              (delete i (running m))).
    { destruct Hkept as (Hlimit & Hcount & Hqueue & Hknown & Hnamed).
      unfold refsKept.
      cbn [activeRequestCount requestQueue visibleFolders activePrefetches].
      split; [lia|]. split; [|split; [exact Hqueue|split; [exact Hknown|exact Hnamed]]].
      rewrite length_delete by (by eexists).
      assert (0 < length (running m))%nat
        by (apply lookup_lt_Some in Hi; lia).
      lia. }
    pose proof (processQueue_kept _ _ Hafter) as H.
    by destruct (processQueue _) as [r' o].
  - pose proof (cancelPrefetch_kept (refs m) (running m) folderId
                  (visibleFolders (refs m)) Hkept (λ id H _, H)) as Hc.
    rewrite refs_eta in Hc. apply Hc. by destruct Hkept as (_ & _ & _ & _ & ?).
  - unfold observed.
    destruct (truthy (Some folderId)) eqn:Hid; cbn [negb]; [|exact Hkept].
    destruct isIntersecting.
    + destruct Hkept as (Hlimit & Hcount & Hqueue & Hknown & Hnamed).
      unfold refsKept.
      cbn [activeRequestCount requestQueue visibleFolders activePrefetches].
      split; [exact Hlimit|]. split; [exact Hcount|]. split; [exact Hqueue|]. split.
      * intros id Hin. destruct (Hknown id Hin) as [Hv He].
        split; [|exact He]. apply elem_of_union. by right.
      * intros [Hin%elem_of_singleton|Hin]%elem_of_union; [|done].
        by rewrite <- Hin in Hid.
    + apply cancelPrefetch_kept; [exact Hkept| |].
      * intros id Hin Hne. apply elem_of_difference. split; [exact Hin|].
        by intros ->%elem_of_singleton.
      * intros [Hin _]%elem_of_difference.
        by destruct Hkept as (_ & _ & _ & _ & ?).
  - unfold unregisterFolder. apply cancelPrefetch_kept; [exact Hkept| |].
    + intros id Hin Hne. apply elem_of_difference. split; [exact Hin|].
      by intros ->%elem_of_singleton.
    + intros [Hin _]%elem_of_difference.
      by destruct Hkept as (_ & _ & _ & _ & ?).
  - destruct Hkept as (Hlimit & Hcount & Hqueue & Hknown & Hnamed).
    unfold refsKept, cleanup.
    cbn [activeRequestCount requestQueue visibleFolders activePrefetches].
    split; [unfold MAX_CONCURRENT_PREFETCHES; lia|]. split; [lia|].
    split; [constructor|]. split; [|exact Hnamed].
    intros id Hin. by apply elem_of_nil in Hin.
Qed.

Lemma run_exact isEnabled e m :
  isCleanup e = false →
  refsKept (refs m) (running m) → countExact (refs m) (running m) →
  countExact (refs (run isEnabled e m)) (running (run isEnabled e m)).
Proof.
  intros Hclean Hkept Hexact.
  destruct e as [folderId|folderId|i|folderId|folderId isIntersecting|folderId|];
    [| | | | | |done]; cbn [run refs running].
  - unfold startPrefetch. destruct isEnabled; cbn [negb]; [|exact Hexact].
    destruct (bool_decide (folderId ∈ visibleFolders (refs m)));
      cbn [negb]; [|exact Hexact].
    pose proof (cancelPrefetch_exact (refs m) (running m) folderId
                  (visibleFolders (refs m)) Hexact) as Hc.
    rewrite refs_eta in Hc. exact Hc.
  - destruct (activePrefetches (refs m) !! folderId) as [[|]|] eqn:Hentry;
      [|exact Hexact|exact Hexact].
    pose proof (run_kept isEnabled (Due folderId) m Hkept) as Hafter.
    cbn [run] in Hafter. rewrite Hentry in Hafter.
    set (r := mkRefs (<[folderId:=false]> (activePrefetches (refs m)))
                (visibleFolders (refs m)) (requestQueue (refs m))
                (activeRequestCount (refs m))) in *.
    unfold prefetchDue in *.
    destruct (bool_decide (folderId ∈ visibleFolders r)) eqn:Hv;
      [|cbn [running refs started]; rewrite app_nil_r; exact Hexact].
    destruct (bool_decide (folderId ∈ requestQueue r)) eqn:Hq; cbn [negb] in *;
      [cbn [running refs started]; rewrite app_nil_r; exact Hexact|].
    apply bool_decide_eq_true_1 in Hv. apply bool_decide_eq_false_1 in Hq.
    assert (Hpushed : refsKept
              (mkRefs (activePrefetches r) (visibleFolders r)
                 (requestQueue r ++ [folderId]) (activeRequestCount r)) (running m)).
    { destruct Hkept as (Hlimit & Hcount & Hqueue & Hknown & Hnamed).
      unfold refsKept.
      cbn [activeRequestCount requestQueue visibleFolders activePrefetches].
      split; [exact Hlimit|]. split; [exact Hcount|]. split.
      { apply NoDup_app. split; [exact Hqueue|]. split; [|apply NoDup_singleton].
        intros id Hid ->%list_elem_of_singleton. done. }
      split; [|exact Hnamed].
      intros id [Hid| ->%list_elem_of_singleton]%elem_of_app.
      - destruct (Hknown id Hid) as [Hvis He]. split; [exact Hvis|].
        unfold r. cbn [activePrefetches]. apply lookup_insert_is_Some.
        destruct (decide (folderId = id)); [by left | by right].
      - split; [exact Hv|]. unfold r. cbn [activePrefetches].
        rewrite lookup_insert_eq. by eexists. }
    pose proof (processQueue_exact _ _ Hpushed) as H.
    destruct Hexact as [Hcount Hfilled].
    cbn [activeRequestCount requestQueue] in H. specialize (H Hcount).
    destruct (processQueue _) as [r' o]. apply H.
    destruct Hfilled as [Hnil|Hfull].
    + right. left. unfold r. cbn [requestQueue]. by rewrite Hnil.
    + right. right. unfold r. cbn [activeRequestCount].
      unfold MAX_CONCURRENT_PREFETCHES in *. lia.
  - destruct (running m !! i) as [folderId|] eqn:Hi; [|exact Hexact].
    unfold prefetchSettled.
    assert (Hlen : (0 < length (running m))%nat)
      by (apply lookup_lt_Some in Hi; lia).
    assert (Hafter : refsKept
              (mkRefs (activePrefetches (refs m)) (visibleFolders (refs m))
                 (requestQueue (refs m)) (activeRequestCount (refs m) - 1))
              (delete i (running m))).
    { destruct Hkept as (Hlimit & Hcount & Hqueue & Hknown & Hnamed).
      unfold refsKept.
      cbn [activeRequestCount requestQueue visibleFolders activePrefetches].
      split; [lia|]. split; [|split; [exact Hqueue|split; [exact Hknown|exact Hnamed]]].
      rewrite length_delete by (by eexists). lia. }
    pose proof (processQueue_exact _ _ Hafter) as H.
    destruct Hexact as [Hcount Hfilled].
    cbn [activeRequestCount requestQueue] in H.
    destruct (processQueue _) as [r' o]. apply H.
    + rewrite length_delete by (by eexists). lia.
    + destruct Hfilled as [Hnil|Hfull]; [by left|].
      right. right. unfold MAX_CONCURRENT_PREFETCHES in *. lia.
  - pose proof (cancelPrefetch_exact (refs m) (running m) folderId
                  (visibleFolders (refs m)) Hexact) as Hc.
    rewrite refs_eta in Hc. exact Hc.
  - unfold observed.
    destruct (truthy (Some folderId)); cbn [negb]; [|exact Hexact].
    destruct isIntersecting; [exact Hexact|]. by apply cancelPrefetch_exact.
  - unfold unregisterFolder. by apply cancelPrefetch_exact.
Qed.

Lemma prefetch_runAll_snoc isEnabled events e m :
  runAll isEnabled (events ++ [e]) m = run isEnabled e (runAll isEnabled events m).
Proof. unfold runAll. by rewrite fold_left_app. Qed.

Lemma runAll_kept isEnabled events :
  refsKept (refs (runAll isEnabled events initialMachine))
           (running (runAll isEnabled events initialMachine)).
Proof.
  induction events as [|e events IH] using rev_ind.
  - unfold refsKept. cbn. unfold MAX_CONCURRENT_PREFETCHES.
    split; [lia|]. split; [lia|]. split; [constructor|]. split.
    + intros id Hin. by apply elem_of_nil in Hin.
    + apply not_elem_of_empty.
  - rewrite prefetch_runAll_snoc. by apply run_kept.
Qed.

Lemma runAll_exact isEnabled events :
  forallb (λ e, negb (isCleanup e)) events = true →
  countExact (refs (runAll isEnabled events initialMachine))
             (running (runAll isEnabled events initialMachine)).
Proof.
  induction events as [|e events IH] using rev_ind; intros Hnone.
  - split; [reflexivity | by left].
  - rewrite forallb_app in Hnone. apply andb_true_iff in Hnone as [Hevents He].
    cbn [forallb] in He. rewrite andb_true_r in He. apply negb_true_iff in He.
    rewrite prefetch_runAll_snoc.
    apply run_exact; [exact He | apply runAll_kept | by apply IH].
Qed.

End prefetch_invariants.

(** X27. The queue of the prefetches, whatever follows what among
    [startPrefetch], the timers, settled prefetches, cancellations, the
    reports of the observer and the cleanups: the count of active
    requests never passes the three of [MAX_CONCURRENT_PREFETCHES]; the
    queue holds no folder twice, and only folders that are visible and
    have a request, so that [isPrefetching] is true exactly of the
    folders that have a request, whether their prefetch is still to
    come, running or done.  As long as the effect was not cleaned up,
    the count is the number of prefetches that are running, so no more
    than three run, and a folder waits in the queue only while three
    are running.  The cleanup sets the count to zero under the running
    prefetches, after which more than three can run at once. *)
Theorem prefetch_queue isEnabled events :
  let m := Prefetch.runAll isEnabled events Prefetch.initialMachine in
  let r := Prefetch.refs m in
  (Prefetch.activeRequestCount r ≤ Prefetch.MAX_CONCURRENT_PREFETCHES)%Z
  ∧ NoDup (Prefetch.requestQueue r)
  ∧ (∀ folderId, folderId ∈ Prefetch.requestQueue r →
       folderId ∈ Prefetch.visibleFolders r)
  ∧ (∀ folderId,
       Prefetch.isPrefetching folderId r
       = bool_decide (is_Some (Prefetch.activePrefetches r !! folderId)))
  ∧ (forallb (λ e, negb (Prefetch.isCleanup e)) events = true →
     Prefetch.activeRequestCount r = Z.of_nat (length (Prefetch.running m))
     ∧ (length (Prefetch.running m) ≤ 3)%nat
     ∧ (Prefetch.requestQueue r = [] ∨ length (Prefetch.running m) = 3%nat))
  ∧ ∃ cleaned,
      (3 < length (Prefetch.running
                     (Prefetch.runAll true cleaned Prefetch.initialMachine)))%nat.
Proof.
  intros m r.
  destruct (runAll_kept isEnabled events) as (Hlimit & Hcount & Hqueue & Hknown & Hnamed).
  split; [exact Hlimit|]. split; [exact Hqueue|].
  split; [intros id Hid; by apply Hknown|]. split.
  { intros id. unfold Prefetch.isPrefetching.
    destruct (bool_decide (is_Some (Prefetch.activePrefetches r !! id))) eqn:He;
      [reflexivity|].
    cbn [orb]. apply bool_decide_eq_false_2. intros Hid.
    apply bool_decide_eq_false_1 in He. apply He. by apply Hknown. }
  split.
  { intros Hnone. destruct (runAll_exact isEnabled events Hnone) as [Hexact Hfilled].
    fold m in Hexact, Hfilled. fold r in Hexact, Hfilled.
    unfold Prefetch.MAX_CONCURRENT_PREFETCHES in *.
    split; [exact Hexact|]. unfold r, m in *. split; [lia|].
    destruct Hfilled as [Hnil|Hfull]; [by left | right; lia]. }
  exists [Prefetch.Observe "a" true; Prefetch.Observe "b" true;
          Prefetch.Observe "c" true; Prefetch.Observe "d" true;
          Prefetch.Start "a"; Prefetch.Start "b"; Prefetch.Start "c";
          Prefetch.Due "a"; Prefetch.Due "b"; Prefetch.Due "c";
          Prefetch.Cleanup; Prefetch.Start "d"; Prefetch.Due "d"].
  vm_compute. lia.
Qed.

(** * Expanding and collapsing a folder *)

Lemma expand_loaded_shown folderId (before : TreeState) p :
  expandedFolders (tree p) = expandedFolders before →
  loadingFolders (tree p) = loadingFolders before →
  errorToastShown (tree p) = errorToastShown before →
  refreshTrigger (tree p) = refreshTrigger before →
  shownExpanded folderId before (tree (loaded folderId (expand folderId p))).
Proof.
  intros He Hl Ht Hr. unfold shownExpanded, loaded, expand.
  cbn [tree setLoadingFolders setExpandedFolders expandedFolders loadingFolders
       errorToastShown refreshTrigger].
  rewrite He, Hl. split; [apply elem_of_union; left; by apply elem_of_singleton|].
  split; [intros [_ Hne]%elem_of_difference; apply Hne; by apply elem_of_singleton|].
  split; [|by split].
  intros other Hother. split.
  - rewrite elem_of_union, elem_of_singleton. split; [by intros [?|?] | by right].
  - rewrite elem_of_difference, elem_of_singleton. split; [by intros [? _] | by split].
Qed.

(** X28. A call of [toggleFolder], from whatever state it finds at each
    of its steps.  On a folder that shows expanded it only takes the
    folder out of the expanded ones.  On any other folder it cancels
    the prefetch of the folder, marks the folder as loading and awaits
    its contents; when these have arrived, or could not be loaded, the
    call either returns at once or awaits the statuses of the KB, which
    it does only with a KB that is not being created and a listing that
    is not empty and whose folder path does not resolve to indexed; and
    however it returns, the folder is then among the expanded ones and
    no longer loading, the other folders showing as they did.  While the
    KB is being created the call sets no poll and fetches no status. *)
Theorem toggleFolder_ends_expanded expandedInClosure kbId isCreatingKB folderId fetched
    isoString folderPath contents response p :
  let called := toggleFolder_called expandedInClosure folderId p in
  let arrived := toggleFolder_contents kbId isCreatingKB folderId fetched isoString p in
  let answered := toggleFolder_status kbId folderId folderPath contents response p in
  (folderId ∈ expandedInClosure →
     snd called = Returned
     ∧ expandedFolders (tree (fst called)) = expandedFolders (tree p) ∖ {[folderId]}
     ∧ loadingFolders (tree (fst called)) = loadingFolders (tree p)
     ∧ pickerWorld (fst called) = pickerWorld p
     ∧ prefetches (fst called) = prefetches p
     ∧ scheduled (fst called) = scheduled p)
  ∧ (folderId ∉ expandedInClosure →
     snd called = AwaitContents
     ∧ folderId ∈ loadingFolders (tree (fst called))
     ∧ expandedFolders (tree (fst called)) = expandedFolders (tree p)
     ∧ Prefetch.isPrefetching folderId (prefetches (fst called)) = false
     ∧ pickerWorld (fst called) = pickerWorld p
     ∧ scheduled (fst called) = scheduled p)
  ∧ match snd arrived with
    | Returned => shownExpanded folderId (tree p) (tree (fst arrived))
    | AwaitContents => False
    | AwaitStatus path listing =>
        tree (fst arrived) = tree p
        ∧ scheduled (fst arrived) = scheduled p
        ∧ fetched = Some listing ∧ listing ≠ [] ∧ path = getFolderPath listing
        ∧ truthy kbId = true ∧ isCreatingKB = false
        ∧ fst (resolveFileStatus (pickerWorld (fst arrived)) (pickerMemo p) EmptyString
                 kbId (Some path)) ≠ Indexed
    end
  ∧ (fetched = None → pickerWorld (fst arrived) = pickerWorld p)
  ∧ (isCreatingKB = true →
     snd arrived = Returned ∧ scheduled (fst arrived) = scheduled p)
  ∧ shownExpanded folderId (tree p) (tree answered).
Proof.
  intros called arrived answered. subst called arrived answered.
  split; [|split; [|split; [|split; [|split]]]].
  - intros Hin. unfold toggleFolder_called.
    rewrite (bool_decide_eq_true_2 _ Hin). by repeat split.
  - intros Hout. unfold toggleFolder_called.
    rewrite (bool_decide_eq_false_2 _ Hout). cbn [fst snd tree pickerWorld scheduled
      prefetches setLoadingFolders loadingFolders expandedFolders].
    split; [reflexivity|]. split; [apply elem_of_union; left; by apply elem_of_singleton|].
    split; [reflexivity|]. split; [|by split].
    unfold Prefetch.isPrefetching, Prefetch.cancelPrefetch.
    cbn [Prefetch.activePrefetches Prefetch.requestQueue].
    rewrite lookup_delete_eq. rewrite bool_decide_eq_false_2 by (by intros [? ?]).
    cbn [orb]. apply bool_decide_eq_false_2.
    intros [_ Hne]%elem_of_List_filter.
    by rewrite String.eqb_refl in Hne.
  - unfold toggleFolder_contents. destruct fetched as [listing|];
      [|cbn [snd fst]; by apply expand_loaded_shown].
    destruct (truthy kbId) eqn:Hkb; cbn [andb];
      [|cbn [snd fst]; by apply expand_loaded_shown].
    destruct (bool_decide (0 < length listing)%nat) eqn:Hlen;
      [|cbn [snd fst]; by apply expand_loaded_shown].
    apply bool_decide_eq_true_1 in Hlen. cbn [tree pickerMemo pickerWorld].
    destruct (resolveFileStatus _ (pickerMemo p) EmptyString kbId
                (Some (getFolderPath listing))) as [resolved statusCache] eqn:Hres.
    destruct (bool_decide (resolved = Status "indexed")) eqn:Hindexed.
    + destruct isCreatingKB; cbn [negb snd fst]; by apply expand_loaded_shown.
    + apply bool_decide_eq_false_1 in Hindexed.
      destruct isCreatingKB; cbn [negb snd fst tree scheduled pickerWorld];
        [by apply expand_loaded_shown|].
      split; [reflexivity|]. split; [reflexivity|]. split; [reflexivity|].
      split; [by destruct listing; [simpl in Hlen; lia|]|].
      split; [reflexivity|]. split; [reflexivity|]. split; [reflexivity|].
      rewrite Hres. exact Hindexed.
  - by intros ->.
  - intros ->. unfold toggleFolder_contents. destruct fetched as [listing|]; [|done].
    destruct (truthy kbId && bool_decide (0 < length listing)%nat); [|done].
    cbn [tree pickerMemo pickerWorld].
    destruct (resolveFileStatus _ (pickerMemo p) EmptyString kbId
                (Some (getFolderPath listing))) as [resolved statusCache].
    by destruct (bool_decide (resolved = Status "indexed")).
  - unfold toggleFolder_status.
    destruct (fetchKBStatusForFolder kbId folderPath response (pickerWorld p))
      as [kbStatusMap w].
    cbn [tree pickerWorld pickerMemo prefetches scheduled].
    destruct (snd (updateCachedFilesWithStatus folderId kbStatusMap w));
      destruct (existsb _ _); by apply expand_loaded_shown.
Qed.

Lemma pollDelayed_fold kbId w folders : ∀ timers,
  fold_left (pollDelayed kbId w) folders timers
  = (timers ++ fold_left (pollDelayed kbId w) folders [])%list.
Proof.
  induction folders as [|folderId folders IH]; intros timers; cbn [fold_left].
  - by rewrite app_nil_r.
  - rewrite (IH (pollDelayed kbId w timers folderId)),
            (IH (pollDelayed kbId w [] folderId)).
    rewrite app_assoc. f_equal. unfold pollDelayed.
    destruct (driveFiles w !! folderId) as [data|]; [|by rewrite app_nil_r].
    destruct (bool_decide (0 < length data)%nat); [|by rewrite app_nil_r].
    destruct (isDescendantOfOptimisticFolder kbId (getFolderPath data) w);
      [reflexivity | by rewrite app_nil_r].
Qed.

Lemma pollDelayed_timers kbId w folders timer :
  timer ∈ fold_left (pollDelayed kbId w) folders []
  ↔ ∃ folderId data,
      folderId ∈ folders ∧ driveFiles w !! folderId = Some data ∧ data ≠ []
      ∧ isDescendantOfOptimisticFolder kbId (getFolderPath data) w = true
      ∧ timer = PollAfterDelay (getFolderPath data) folderId.
Proof.
  induction folders as [|folderId folders IH]; cbn [fold_left].
  { split; [by intros H%elem_of_nil|]. intros (? & ? & H%elem_of_nil & _). done. }
  rewrite pollDelayed_fold, elem_of_app, IH. split.
  - intros [Hhere|(id & data & Hin & Hrest)].
    + unfold pollDelayed in Hhere.
      destruct (driveFiles w !! folderId) as [data|] eqn:Hdata;
        [|by apply elem_of_nil in Hhere].
      destruct (bool_decide (0 < length data)%nat) eqn:Hlen;
        [|by apply elem_of_nil in Hhere].
      destruct (isDescendantOfOptimisticFolder kbId (getFolderPath data) w) eqn:Hcov;
        [|by apply elem_of_nil in Hhere].
      apply list_elem_of_singleton in Hhere. apply bool_decide_eq_true_1 in Hlen.
      exists folderId, data. split; [by left|]. split; [done|].
      split; [by destruct data; [simpl in Hlen; lia|]|]. by split.
    + exists id, data. split; [by right | exact Hrest].
  - intros (id & data & Hin & Hdata & Hne & Hcov & ->).
    apply elem_of_cons in Hin as [->|Hin].
    + left. unfold pollDelayed. rewrite Hdata, Hcov.
      rewrite bool_decide_eq_true_2; [by apply list_elem_of_singleton|].
      destruct data; [done | simpl; lia].
    + right. exists id, data. by repeat split.
Qed.

(** X29. The folders put aside while the KB is being created.  A folder
    that is expanded during the creation and whose path resolves to
    indexed is put aside in [delayedPollingFolders], once, and no poll
    is set for it then.  The effect of [useFileTree] leaves the folders
    aside while the creation goes on or there is no kbId.  Once it runs
    it empties the set and sets a poll timer, after the timers that were
    there, for exactly the folders put aside whose cached listing is not
    empty and whose path the registry covers for the kbId of that
    moment; the other folders put aside are dropped without a poll.  Run
    again, it does nothing. *)
Theorem delayedPollingEffect_hands_over isCreatingKB kbId folderId listing isoString p :
  let arrived :=
    fst (toggleFolder_contents kbId true folderId (Some listing) isoString p) in
  let after := delayedPollingEffect isCreatingKB kbId p in
  (truthy kbId = true → listing ≠ [] →
   fst (resolveFileStatus
          (set_driveFiles (<[folderId := listing]> (driveFiles (pickerWorld p)))
             (pickerWorld p))
          (pickerMemo p) EmptyString kbId (Some (getFolderPath listing))) = Indexed →
   delayedPollingFolders (tree arrived)
   = setAdd folderId (delayedPollingFolders (tree p))
   ∧ folderId ∈ delayedPollingFolders (tree arrived)
   ∧ (NoDup (delayedPollingFolders (tree p)) →
      NoDup (delayedPollingFolders (tree arrived)))
   ∧ scheduled arrived = scheduled p)
  ∧ (isCreatingKB = true ∨ truthy kbId = false → after = p)
  ∧ (isCreatingKB = false → truthy kbId = true →
     delayedPollingFolders (tree after) = []
     ∧ (∃ timers,
          scheduled after = (scheduled p ++ timers)%list
          ∧ ∀ timer,
              timer ∈ timers
              ↔ ∃ id data,
                  id ∈ delayedPollingFolders (tree p)
                  ∧ driveFiles (pickerWorld p) !! id = Some data ∧ data ≠ []
                  ∧ isDescendantOfOptimisticFolder (orEmpty kbId) (getFolderPath data)
                      (pickerWorld p) = true
                  ∧ timer = PollAfterDelay (getFolderPath data) id)
     ∧ pickerWorld after = pickerWorld p
     ∧ delayedPollingEffect isCreatingKB kbId after = after).
Proof.
  intros arrived after. subst arrived after. split; [|split].
  - intros Hkb Hne Hindexed. unfold toggleFolder_contents.
    rewrite Hkb. rewrite bool_decide_eq_true_2 by (destruct listing; [done | simpl; lia]).
    cbn [andb tree pickerMemo pickerWorld].
    destruct (resolveFileStatus _ (pickerMemo p) EmptyString kbId
                (Some (getFolderPath listing))) as [resolved statusCache].
    cbn [fst] in Hindexed. subst resolved.
    rewrite bool_decide_eq_true_2 by reflexivity.
    cbn [negb fst loaded expand tree scheduled setLoadingFolders setExpandedFolders
         setDelayedPollingFolders delayedPollingFolders].
    split; [reflexivity|]. unfold setAdd. split; [|split; [|reflexivity]].
    + destruct (bool_decide (folderId ∈ delayedPollingFolders (tree p))) eqn:Hin.
      * by apply bool_decide_eq_true_1 in Hin.
      * apply elem_of_app. right. by left.
    + intros Hnodup.
      destruct (bool_decide (folderId ∈ delayedPollingFolders (tree p))) eqn:Hin;
        [exact Hnodup|].
      apply bool_decide_eq_false_1 in Hin. apply NoDup_app.
      split; [exact Hnodup|]. split; [|apply NoDup_singleton].
      intros id Hid ->%list_elem_of_singleton. done.
  - unfold delayedPollingEffect. intros [->| ->]; [reflexivity|].
    by rewrite andb_false_r.
  - intros -> Hkb. unfold delayedPollingEffect. rewrite Hkb. cbn [negb andb].
    destruct (bool_decide (0 < length (delayedPollingFolders (tree p)))%nat) eqn:Hlen.
    + cbn [tree setDelayedPollingFolders delayedPollingFolders scheduled pickerWorld
           length].
      split; [reflexivity|]. split; [|split; [reflexivity|]].
      * exists (fold_left (pollDelayed (orEmpty kbId) (pickerWorld p))
                  (delayedPollingFolders (tree p)) []).
        split; [apply pollDelayed_fold|]. intros timer. apply pollDelayed_timers.
      * rewrite bool_decide_eq_false_2 by lia. reflexivity.
    + apply bool_decide_eq_false_1 in Hlen.
      assert (Hnil : delayedPollingFolders (tree p) = [])
        by (destruct (delayedPollingFolders (tree p)); [done | simpl in Hlen; lia]).
      split; [exact Hnil|]. split; [|split; [reflexivity|]].
      * exists []. split; [by rewrite app_nil_r|]. intros timer.
        split; [by intros H%elem_of_nil|].
        intros (id & data & Hin & _). rewrite Hnil in Hin. by apply elem_of_nil in Hin.
      * by rewrite (bool_decide_eq_false_2 _ Hlen).
Qed.

(** ** The memo of the resolver between renders *)



(** C2. A deleted file is shown from the memo.  The root poller has
    stored a listing in which s.txt is indexed and the page has rendered
    its row; the user deletes the file, which puts it in the optimistic
    delete registry.  In the render that follows, [resolveFileStatus]
    finds the key in its memo and returns indexed without looking at the
    registry; the memo is cleared by the effect after that render, so
    the dash shows only in the render after the animation frame that
    increments the update counter. *)
Theorem deleted_file_resolves_from_memo :
  let asked := [("r2", Some "kb-9", None)] in
  let stale := rendered deletedWorld asked listedResolver in
  is_Some (optimisticDeleteEntries deletedWorld !! "r2")
  ∧ fst (resolveFileStatus deletedWorld (resolverMemo listedResolver)
           "r2" (Some "kb-9") None) = Indexed
  ∧ fst stale = [Indexed]
  ∧ fst (rendered deletedWorld asked (counterIncremented 5016 (snd stale)))
    = [Deleted].
Proof.
  intros asked stale. split; [eexists; vm_compute; reflexivity|].
  split; [vm_compute; reflexivity|].
  split; vm_compute; reflexivity.
Qed.


